(* ===== verification/_CoqProject ===== *)
-Q . S2P
Prelude.v
BitSet.v
Serialization.v
UnifySerialize.v
Scn.v
Lsn.v
Crc64Tables.v
Crc64.v
Parity.v
HeaderFormat.v
LogBaseHeader.v
LogEntryHeader.v
LogWriteBuf.v
LogGroupEntryHeader.v
LogChecksum.v
LogGroupBuffer.v
GroupBufferThreads.v
LsnAllocator.v
LsnAllocatorThreads.v
TwoPhaseCommitter.v
TwoPhaseNode.v
TwoPhaseLocal.v
TwoPhaseSystem.v
AtomicCommit.v
ElectionUtils.v
Election.v
ElectionSystem.v
ElectionInv.v
ElectionSteps.v
ElectionSafety.v
ElectionProgress.v
LeaderLeaseThreads.v
TableLockCommon.v
ObjLock.v
LockTable.v
LockDump.v
LockMemCtx.v
ObjLockFacts.v
ObjLockGrant.v
ObjLockEnd.v
LockSystem.v
LockRefinement.v
LockCheckpoint.v
LockSimulation.v
LockRelease.v
LockSafety.v
LockCalls.v
LockReplay.v
LockRestart.v
LockExample.v
