(* ===== verification/Prelude.v ===== *)
(** * OceanBase: the log, the commit of distributed transactions, and table locks

    OceanBase is a distributed database.  A transaction that has written to several
    log streams is committed by a two-phase protocol between the participants
    ([src/storage/tx]); every participant makes its decisions durable in a log
    that is replicated by PALF ([src/logservice/palf]), whose leader is chosen by an
    election with leases ([palf/election]); transactions take locks on tables, tablets and
    other objects in a lock table, which commits and is flushed like data
    ([src/storage/tablelock]); logs, messages and headers are built from a
    few primitives ([deps/oblib/src/lib]).  This development models
    these layers and proves that they do their part.  Paths below are relative to
    [src/]; the model of a function has the function's name.

    ** How the code is translated

    A machine integer is a [Z]; arithmetic that can leave the width is wrapped by
    [to_u] and [to_s] ([u8] to [u64], [s8] to [s64]).  A return code is its number.
    A function that can touch memory outside of its buffers, fail an assertion or
    divide by zero returns an [outcome], [None] for the fault.  A buffer is a list of
    bytes, a null pointer is [None].  The methods of the transaction context are
    computations of the state monad [M] of this file, verified with [wp]; those of the
    election, which assert, and of the lock table, which index arrays and follow
    pointers, of the monad [R] of [AbortMonad], verified with [runs].  Atomic
    operations, locks and threads are step relations.

    ** Files

    - [Prelude]: return codes, integers, bits, the monad and its program logic.
    - [BitSet] ([deps/oblib/src/lib/container/ob_bit_set.h]): [ObBitSet] is a finite
      set, its count the cardinality.
    - [Serialization] ([.../lib/utility/serialization.h]): the integer and string
      codecs, their round trips, and the two places where they leave the buffer.  The
      class [Codec] is what the formats above them rely on.
    - [UnifySerialize] ([.../lib/utility/ob_unify_serialize.h]): the macros that serialize
      a record member by member behind a version and a length; a record of members that
      round trip round trips.
    - [Scn] ([src/share/scn.h]): order, arithmetic and conversions of timestamps, and
      the compare-and-swap loops under any finite interference.
    - [Lsn] ([palf/lsn.h], [palf/log_define.h]): positions in the log, blocks.
    - [Crc64Tables], [Crc64] ([.../lib/checksum/ob_crc64.cpp]): the routines a processor
      may select all compute one shift register.  The class [Crc64] is what the log
      files rely on: a checksum fits 32 bits and can be taken in pieces; the routines
      are its instances.
    - [Parity] ([.../lib/checksum/ob_parity_check.cpp]): the parity of a word.
    - [HeaderFormat]: sequences of encoders and decoders with their contracts, and the
      effect of one inverted bit on them; shared by the three headers.
    - [LogBaseHeader] ([src/logservice/ob_log_base_header.cpp]), [LogEntryHeader]
      ([palf/log_entry_header.cpp], [palf/log_entry.cpp]), [LogWriteBuf]
      ([palf/log_writer_utils.cpp]), [LogGroupEntryHeader]
      ([palf/log_group_entry_header.cpp]), [LogChecksum] ([palf/log_checksum.cpp]): what
      is written is read back, a header with one inverted bit is refused, the checksum
      of a group is the same for the writer with its scattered memory and for the
      reader, cutting a group describes what is left, and the chain of checksums
      keeps a follower on the leader's log.
    - [LogGroupBuffer] ([palf/log_group_buffer.cpp]): the ring buffer refines an
      unbounded log.  [GroupBufferThreads] splits [fill] and [read_data] into single
      loads and stores: a read that succeeds is not torn.
    - [LsnAllocator] ([palf/lsn_allocator.cpp], and the use of its result by
      [LogSlidingWindow::submit_log]): an allocation ends and continues the log.
      [LsnAllocatorThreads] interleaves any number of allocations, freezes and
      replacements of the bases: the entries form one log without gap or overlap.
    - [TwoPhaseCommitter]: every handler, log callback and timer of
      [ob_two_phase_upstream_committer.cpp], [ob_two_phase_downstream_committer.cpp],
      [ob_two_phase_committer_xa.cpp], [ob_tx_2pc_ctx_impl.cpp],
      [ob_tx_2pc_msg_handler.cpp], and the parts of [ob_trans_part_ctx.cpp] and
      [ob_trans_service_v4.cpp] they call.  The object is the record [committer];
      what other components return is the record [virtuals], which every theorem
      quantifies over.
    - [TwoPhaseLocal]: the loops and the driver of one committer, for any tree.
    - [TwoPhaseNode]: the invariant of one participant, kept by every operation.
    - [TwoPhaseSystem], [AtomicCommit]: the participants with their durable logs and a
      network that loses, duplicates and reorders.  No reachable state has a commit and
      an abort log; the protocol refines atomic commitment; what the scheduler is told
      is final; a log callback never fails; replay restores what was durable.
    - [ElectionUtils] ([palf/election/utils], [palf/election/message], [ObAddr] of
      [lib/net/ob_addr.h], [LogConfigVersion] of [palf/log_meta_info.cpp]): addresses,
      member lists, leases, the messages, the counting of answers, and the choice of the
      promise that a majority has given.
    - [Election] ([palf/election/algorithm]): the replica with its proposer and acceptor
      is the record [node]; one definition for every message handler, timer task and
      call.  What the clock, the network, the timers, the priority and the allocator
      return is the record [env], which every theorem quantifies over.
    - [ElectionSystem]: replicas with clocks of any constant offset and a network that
      loses, duplicates, delays and reorders; every step is a call on one replica.
    - [ElectionInv], [ElectionSteps]: what the messages sent so far say about promises,
      grants and requests, the invariant of a replica over them, and that every call
      keeps it.
    - [ElectionSafety]: from the invariant of all replicas, that no two replicas are
      leader at the same time, that the epochs of leaders grow, that no assertion fails,
      and a cluster of three that elects one leader after the other.
    - [ElectionProgress]: the answers of a majority make a candidate the leader.
    - [LeaderLeaseThreads]: the lease and epoch that threads read without a lock.
    - [TableLockCommon] ([tablelock/ob_table_lock_common.h], [.cpp], [ObTxSEQ] of
      [tx/ob_tx_seq.h]): the five modes and their compatibility, identities of objects,
      owners, the operation [ObTableLockOp].
    - [ObjLock] ([tablelock/ob_obj_lock.cpp], [ObOBJLock]): the lock of one object is the
      record [obj_lock], five lists of operations and two counters of row locks; lock on
      the fast and the slow path, unlock, removal, completion, recovery, compaction.
    - [LockTable] ([ObOBJLockMap] of the same file, [tablelock/ob_lock_memtable.cpp]): the
      map from identities to objects.  An object has an address, so that a thread can
      hold one that was dropped from the map.  Checkpoint timestamps, freeze, flush.
    - [LockMemCtx] ([tablelock/ob_mem_ctx_table_lock.cpp],
      [tablelock/ob_table_lock_callback.cpp], the lock calls of
      [memtable/ob_memtable_context.cpp], [lock_] and [unlock_] of
      [tablelock/ob_lock_memtable.cpp]): the locks of a transaction, their callbacks, its
      end, replay and recovery.  What other components return is the record [lock_env].
    - [LockDump] (the serialized form of [ObTableLockOp], [tablelock/ob_table_lock_iterator.cpp],
      the restore of [tablelock/ob_lock_table.cpp]): the rows that a flush writes and a
      log stream that comes online reads.
    - [ObjLockFacts], [ObjLockGrant], [ObjLockEnd]: what each call does to one object: when
      a lock is granted and what an unlock needs, what is left after a completion and
      after a compaction.
    - [LockSystem]: any number of transactions whose calls interleave with each other and
      with compaction, dropping of objects and flushes, on a replica that leads or
      replays; the specification, a bag of operations with five rules.  [LockRefinement],
      [LockSimulation], [LockRelease]: the relation between the two and the simulation of
      each step.
    - [LockSafety]: locks of different transactions are compatible, nothing is left
      behind, answers are exact, a transaction that ends releases its locks, no call
      faults.  [LockCalls]: whole calls are steps of this system, and what their return
      codes promise.  [LockReplay]: replay is idempotent.  [LockRestart]: a new lock table
      that reads the rows of a flush has the locks that were completed up to the freeze,
      and the invariant.  [LockExample] runs the system and shows two places where the
      code does not do what it means to.
    - [LockCheckpoint]: no log of a committed lock is recycled before it was flushed.

    ** Assumptions and bounds

    Where a definition has fuel the theorems that use it show that the fuel given is
    enough: a variable-length integer has at most ten bytes, a loop over a buffer takes
    at least a byte a turn, a compare-and-swap loop takes a turn more than there are
    interferences, an allocation replaces the bases at most once.

    The system theorems are about one transaction with a coordinator and leaves; a
    context that is executing has ended its execution and is leader; a local abort
    happens before the first phase; a context that has no prepare log is not resumed
    after a crash; a log callback that fails aborts the process, which is a crash.
    Intermediate participants, sub-transactions of XA and the kill of a context are
    modelled as operations and not part of these theorems.

    In the group buffer positions are below 2^62, a caller fills only what is not
    flushed, and flushes only what is filled.  The allocator is given positions up to
    2^59, timestamps up to 2^61 nanoseconds, and logs up to the largest body with its
    header.  The group checksum is about memory in at most two pieces, which is what
    [get_log_buf] gives for a log of ordinary size.  Threads see one order of all
    loads and stores.

    The election theorems are about one configuration whose replicas are not restarted
    (what an acceptor has granted is not durable: after a restart the code stays silent
    for the longest lease, which is modelled, but a message delayed for longer than that
    could still meet it), clocks that advance at the same rate, and IPv4 addresses;
    clocks and ballots do not reach 2^63.

    In the system of the lock table a transaction makes one lock call at a time, which is
    what the latch of [AddLockGuard] enforces for [lock_]; identities of transactions are
    not used again; requests are valid, of one of the five modes, and not completed; the
    counters of an object fit in an [int]; a transaction commits above the timestamp
    that was flushed last, because a flush waits for the callbacks of earlier logs; an
    object is checked and dropped in one step.  A replica replays operations in the order
    in which the leader granted them ([follows]).  The recovery of a context from its
    checkpoint, [remove_tablet_lock] and the retry loops around the calls are modelled as
    operations and not part of the system, whose steps are the bodies of these loops.
    The dump is taken in one step, the sstable returns the rows that were written, and the
    numbers of an operation have the widths of its members ([fits]).

    ** Not modelled

    The replication of PALF (sliding window, reconfirmation, change of configuration) and
    its disk I/O; the serialization and the statistics of the election;
    redo logs, local one-phase transactions, leader switch of a transaction context;
    the checksum routine of the ISA-L library and the x86 assembly of the optimized
    step (its C version is); floating point, objects and numbers in [serialization.h];
    the fixed-size bit sets; of the table locks the redo records, the iterators of virtual
    tables, the merge and the sstable between dump and restart, the wait queue, the deadlock detector and the
    service that sends requests to log streams; SQL, storage and the services around
    them. *)

From Stdlib Require Import ZArith Lia Bool.
From stdpp Require Import base list gmap sets numbers.

Local Open Scope Z_scope.

(** ** Return codes

    OceanBase functions return an [int]; [OB_SUCCESS] is zero and every other
    code is an error.  The values are those of [lib/ob_errno.h]. *)
Module Errno.
Definition OB_SUCCESS : Z := 0.
Definition OB_ERROR : Z := -4000.
Definition OB_INVALID_ARGUMENT : Z := -4002.
Definition OB_ARRAY_OUT_OF_RANGE : Z := -4003.
Definition OB_ALLOCATE_MEMORY_FAILED : Z := -4013.
Definition OB_CHECKSUM_ERROR : Z := -4103.
Definition OB_ERR_OUT_OF_LOWER_BOUND : Z := -4233.
Definition OB_INIT_TWICE : Z := -4005.
Definition OB_NOT_INIT : Z := -4006.
Definition OB_NOT_SUPPORTED : Z := -4007.
Definition OB_ERR_UNEXPECTED : Z := -4016.
Definition OB_ENTRY_NOT_EXIST : Z := -4018.
Definition OB_SIZE_OVERFLOW : Z := -4019.
Definition OB_EAGAIN : Z := -4023.
Definition OB_BUF_NOT_ENOUGH : Z := -4024.
Definition OB_DESERIALIZE_ERROR : Z := -4034.
Definition OB_INVALID_DATA : Z := -4070.
Definition OB_LOG_TOO_LARGE : Z := -4120.
Definition OB_STATE_NOT_MATCH : Z := -4109.
Definition OB_TRANS_INVALID_STATE : Z := -6205.
Definition OB_NEED_RETRY : Z := -4036.
Definition OB_NOT_MASTER : Z := -4038.
Definition OB_ENTRY_EXIST : Z := -4017.
Definition OB_OP_NOT_ALLOW : Z := -4179.
Definition OB_NOT_RUNNING : Z := -4250.
Definition OB_ELECTION_BELOW_MAJORITY : Z := -7039.
Definition OB_ELECTION_OVER_MAJORITY : Z := -7040.
Definition OB_TRANS_CTX_NOT_EXIST : Z := -6213.
Definition OB_TRANS_IS_EXITING : Z := -6223.
Definition OB_BLOCK_FROZEN : Z := -4112.
Definition OB_TRANS_ROLLBACKED : Z := -6002.
Definition OB_TRANS_PROTOCOL_ERROR : Z := -6207.
Definition OB_TRANS_KILLED : Z := -6211.
Definition OB_TIMEOUT : Z := -4012.
Definition OB_HASH_EXIST : Z := -4200.
Definition OB_HASH_FULL : Z := -4206.
Definition OB_ERR_EXCLUSIVE_LOCK_CONFLICT : Z := -6003.
Definition OB_TRY_LOCK_ROW_CONFLICT : Z := -6005.
Definition OB_OBJ_LOCK_NOT_EXIST : Z := -6265.
Definition OB_OBJ_LOCK_EXIST : Z := -6266.
Definition OB_OBJ_LOCK_NOT_COMPLETED : Z := -6275.
Definition OB_OBJ_UNLOCK_CONFLICT : Z := -6276.

(** [OB_FAIL (r)] and [OB_SUCC (r)], the tests of the macros of
    [lib/utility/ob_macro_utils.h]; the assignment to [ret] they make is the
    [let] of the caller. *)
Definition ob_fail (r : Z) : bool := negb (r =? OB_SUCCESS).
Definition ob_succ (r : Z) : bool := r =? OB_SUCCESS.

Lemma ne_ob_fail r : r <> OB_SUCCESS -> ob_fail r = true.
Proof. intros H. unfold ob_fail. by rewrite (proj2 (Z.eqb_neq _ _) H). Qed.

Lemma ob_fail_eq r : ob_fail r = false -> r = OB_SUCCESS.
Proof. unfold ob_fail. intros H. by apply Z.eqb_eq, negb_false_iff. Qed.

Lemma ob_fail_succ r : ob_fail r = true -> ob_succ r = false.
Proof. unfold ob_fail, ob_succ. by destruct (r =? OB_SUCCESS). Qed.
End Errno.
Export Errno.

(** ** Machine integers *)
Module Int.
Definition UINT64_MAX : Z := 2 ^ 64 - 1.
Definition INT64_MAX : Z := 2 ^ 63 - 1.

(** Conversion of a mathematical integer to a [w]-bit unsigned or signed
    type: reduction modulo [2 ^ w], to the representative of the type. *)
Definition to_u (w z : Z) : Z := z mod 2 ^ w.
Definition to_s (w z : Z) : Z := (z + 2 ^ (w - 1)) mod 2 ^ w - 2 ^ (w - 1).

Abbreviation u8 := (to_u 8).
Abbreviation u16 := (to_u 16).
Abbreviation u32 := (to_u 32).
Abbreviation u64 := (to_u 64).
Abbreviation s8 := (to_s 8).
Abbreviation s16 := (to_s 16).
Abbreviation s32 := (to_s 32).
Abbreviation s64 := (to_s 64).

Definition is_u (w z : Z) : Prop := 0 <= z < 2 ^ w.
Definition is_s (w z : Z) : Prop := - 2 ^ (w - 1) <= z < 2 ^ (w - 1).

(** A byte of memory, as an unsigned value. *)
Definition is_byte (b : Z) : Prop := is_u 8 b.

Lemma to_u_range w z : 0 <= w -> is_u w (to_u w z).
Proof. intros Hw. apply Z.mod_pos_bound. lia. Qed.

Lemma to_u_id w z : is_u w z -> to_u w z = z.
Proof. intros H. by apply Z.mod_small. Qed.

Lemma pow2_half w : 0 < w -> 2 ^ w = 2 * 2 ^ (w - 1).
Proof. intros. replace w with (Z.succ (w - 1)) at 1 by lia. rewrite Z.pow_succ_r; lia. Qed.

Lemma to_s_range w z : 0 < w -> is_s w (to_s w z).
Proof.
  intros Hw. unfold is_s, to_s. pose proof (pow2_half w Hw).
  pose proof (Z.mod_pos_bound (z + 2 ^ (w - 1)) (2 ^ w)). lia.
Qed.

Lemma to_s_id w z : 0 < w -> is_s w z -> to_s w z = z.
Proof.
  intros Hw H. unfold is_s, to_s in *. pose proof (pow2_half w Hw).
  rewrite Z.mod_small; lia.
Qed.

(** Reading a signed value back through its unsigned representation, and the
    other way round, is the identity. *)
Lemma to_s_to_u w z : 0 < w -> is_s w z -> to_s w (to_u w z) = z.
Proof.
  intros Hw H. rewrite <- (to_s_id w z Hw H) at 2. unfold to_s, to_u.
  by rewrite Zplus_mod_idemp_l.
Qed.

Lemma to_u_to_s w z : 0 < w -> is_u w z -> to_u w (to_s w z) = z.
Proof.
  intros Hw H. unfold to_s, to_u.
  rewrite Zminus_mod_idemp_l, Z.add_simpl_r. by apply Z.mod_small.
Qed.

Lemma to_u_of_to_s w z : 0 < w -> to_u w (to_s w z) = to_u w z.
Proof.
  intros Hw. unfold to_s, to_u. by rewrite Zminus_mod_idemp_l, Z.add_simpl_r.
Qed.
End Int.
Export Int.

(** ** Bits *)
Module Bits.
Lemma testbit_small n a m : 0 <= a < 2 ^ n -> 0 <= n <= m -> Z.testbit a m = false.
Proof.
  intros Ha Hm. rewrite <- (Z.mod_small a (2 ^ n) Ha).
  apply Z.mod_pow2_bits_high. lia.
Qed.

(** A low part of [n] bits and a high part do not interfere: their sum is
    their disjunction. *)
Lemma land_low_high n a b : 0 <= n -> 0 <= a < 2 ^ n -> Z.land a (Z.shiftl b n) = 0.
Proof.
  intros Hn Ha. apply Z.bits_inj'. intros m Hm. rewrite Z.land_spec, Z.bits_0.
  destruct (Z.lt_ge_cases m n).
  - by rewrite Z.shiftl_spec_low, andb_false_r.
  - by rewrite (testbit_small n) by lia.
Qed.

Lemma add_low_high n a b :
  0 <= n -> 0 <= a < 2 ^ n -> a + 2 ^ n * b = Z.lor a (Z.shiftl b n).
Proof.
  intros Hn Ha. rewrite (Z.mul_comm _ b), <- Z.shiftl_mul_pow2 by done.
  rewrite <- Z.lxor_lor by by apply land_low_high.
  by apply Z.add_nocarry_lxor, land_low_high.
Qed.

Lemma lxor_low_high n lo hi : 0 <= n -> 0 <= lo < 2 ^ n -> lo + 2 ^ n * hi = Z.lxor lo (Z.shiftl hi n).
Proof. intros. by rewrite Z.lxor_lor, add_low_high by auto using land_low_high. Qed.

Lemma lxor_swap a b c : Z.lxor a (Z.lxor b c) = Z.lxor b (Z.lxor a c).
Proof. by rewrite <- !Z.lxor_assoc, (Z.lxor_comm a). Qed.

Lemma lxor_range n a b : 0 <= n -> is_u n a -> is_u n b -> is_u n (Z.lxor a b).
Proof.
  unfold is_u. intros Hn Ha Hb. assert (0 <= Z.lxor a b) by (apply Z.lxor_nonneg; lia).
  split; [done|]. destruct (decide (Z.lxor a b = 0)) as [->|]; [lia|].
  apply Z.log2_lt_pow2; [lia|]. apply (Z.le_lt_trans _ (Z.max (Z.log2 a) (Z.log2 b))).
  { apply Z.log2_lxor; lia. }
  destruct (decide (n = 0)) as [->|]; [exfalso; assert (a = 0) as -> by lia; assert (b = 0) as -> by lia; done|].
  assert (forall x, 0 <= x < 2 ^ n -> Z.log2 x < n) as L.
  { intros x Hx. destruct (decide (x = 0)) as [->|]; [simpl; lia|]. apply Z.log2_lt_pow2; lia. }
  pose proof (L a Ha). pose proof (L b Hb). lia.
Qed.

Lemma shiftr_range n m a : 0 <= n -> 0 <= m -> is_u n a -> is_u n (Z.shiftr a m).
Proof.
  unfold is_u. intros ?? [??]. rewrite Z.shiftr_div_pow2 by done. split.
  - apply Z.div_pos; lia.
  - apply (Z.le_lt_trans _ a); [|done]. apply Z.div_le_upper_bound; nia.
Qed.

Lemma is_u_mono n m a : n <= m -> is_u n a -> is_u m a.
Proof. unfold is_u. intros. pose proof (Z.pow_le_mono_r 2 n m). lia. Qed.

Lemma shiftl_range n m a : 0 <= n -> 0 <= m -> is_u n a -> is_u (n + m) (Z.shiftl a m).
Proof. unfold is_u. intros ?? [??]. rewrite Z.shiftl_mul_pow2, Z.pow_add_r by done. nia. Qed.

(** *** Linearity *)

(** Functions on words that commute with the bitwise sum. *)
Definition additive (f : Z -> Z) : Prop := forall a b, f (Z.lxor a b) = Z.lxor (f a) (f b).

Create HintDb additive.

Lemma additive_id : additive (fun x => x).
Proof. done. Qed.

Lemma additive_lxor f g : additive f -> additive g -> additive (fun x => Z.lxor (f x) (g x)).
Proof.
  intros Hf Hg a b. rewrite Hf, Hg, !Z.lxor_assoc. f_equal.
  by rewrite <- !Z.lxor_assoc, (Z.lxor_comm (f b)).
Qed.

Lemma additive_comp f g : additive g -> additive f -> additive (fun x => f (g x)).
Proof. intros Hg Hf a b. by rewrite Hg, Hf. Qed.

Lemma additive_shiftl n : additive (fun x => Z.shiftl x n).
Proof. intros a b. apply Z.shiftl_lxor. Qed.

Lemma additive_shiftr n : additive (fun x => Z.shiftr x n).
Proof. intros a b. apply Z.shiftr_lxor. Qed.

Lemma u8_land x : u8 x = Z.land x 0xff.
Proof. symmetry. by apply (Z.land_ones x 8). Qed.

Lemma u8_byte x : is_byte (u8 x).
Proof. by apply to_u_range. Qed.

Lemma land_ff_byte x : is_byte (Z.land x 0xff).
Proof. rewrite <- u8_land. by apply to_u_range. Qed.

Lemma additive_land m : additive (fun x => Z.land x m).
Proof.
  intros a b. apply Z.bits_inj'. intros i _. rewrite !Z.land_spec, !Z.lxor_spec, !Z.land_spec.
  by destruct (Z.testbit a i), (Z.testbit b i), (Z.testbit m i).
Qed.

Lemma additive_u8 : additive u8.
Proof. intros a b. rewrite !u8_land. apply additive_land. Qed.

#[export] Hint Resolve additive_id additive_lxor additive_shiftl additive_shiftr additive_u8 : additive.

(** Reads a linear function off its body, one operation at a time. *)
Ltac additive :=
  lazymatch goal with
  | |- additive (fun u => Z.lxor (@?f u) (@?g u)) => apply (additive_lxor f g); additive
  | |- additive (fun u => Z.shiftl u ?n) => apply additive_shiftl
  | |- additive (fun u => Z.shiftr u ?n) => apply additive_shiftr
  | |- additive (fun u => Z.land u ?n) => apply additive_land
  | |- additive (fun u => Z.shiftl (@?f u) ?n) => apply (additive_comp (fun x => Z.shiftl x n) f); additive
  | |- additive (fun u => Z.shiftr (@?f u) ?n) => apply (additive_comp (fun x => Z.shiftr x n) f); additive
  | |- additive (fun u => Z.land (@?f u) ?n) => apply (additive_comp (fun x => Z.land x n) f); additive
  | |- additive (fun u => ?h (@?f u)) => apply (additive_comp h f); additive
  | |- _ => auto with additive
  end.

(** Two linear functions that agree on the powers of two agree on the words. *)
Lemma additive_ext f g n a :
  additive f -> additive g -> Forall (fun i => f (2 ^ i) = g (2 ^ i)) (seqZ 0 (Z.of_nat n)) ->
  0 <= a < 2 ^ Z.of_nat n -> f a = g a.
Proof.
  intros Hf Hg. assert (forall h, additive h -> h 0 = 0) as H0.
  { intros h Hh. pose proof (Hh 0 0) as E. rewrite Z.lxor_0_l, Z.lxor_nilpotent in E. done. }
  revert a. induction n as [|n IH]; intros a Hb Ha.
  { assert (a = 0) as -> by (simpl in Ha; lia). by rewrite !H0. }
  rewrite seqZ_S, Forall_app, Forall_singleton in Hb. destruct Hb as [Hb Hn].
  rewrite Nat2Z.inj_succ, Z.pow_succ_r in Ha by lia.
  destruct (decide (a < 2 ^ Z.of_nat n)) as [?|Hge]; [apply IH; [done | lia]|].
  assert (a = Z.lxor (2 ^ Z.of_nat n) (a - 2 ^ Z.of_nat n)) as ->.
  { pose proof (add_low_high (Z.of_nat n) (a - 2 ^ Z.of_nat n) 1) as E.
    rewrite <- Z.lxor_lor, Z.lxor_comm, Z.shiftl_1_l in E by (apply land_low_high; lia). lia. }
  rewrite Hf, Hg, (IH (a - _) Hb) by lia. by rewrite Z.add_0_l in Hn; rewrite Hn.
Qed.
End Bits.
Export Bits.

(** ** State

    Code that reads and writes the fields of an object is a computation of a
    result from the object, together with the object it leaves.  [m]'s effect
    is reasoned about by the predicate transformer [wp]. *)
Module StateMonad.
Definition M (S A : Type) : Type := S -> A * S.

#[export] Instance M_ret S : MRet (M S) := fun A x s => (x, s).
#[export] Instance M_bind S : MBind (M S) := fun A B f m s => let '(x, s) := m s in f x s.

Definition gets {S A} (f : S -> A) : M S A := fun s => (f s, s).
Definition modify {S} (f : S -> S) : M S () := fun s => ((), f s).

(** [wp m Q s]: run from [s], [m] gives a result and a state that satisfy [Q]. *)
Definition wp {S A} (m : M S A) (Q : A -> S -> Prop) (s : S) : Prop := Q (m s).1 (m s).2.

Section wp.
Context {S : Type}.
Implicit Types s : S.

Lemma wp_ret {A} (x : A) (Q : A -> S -> Prop) s : Q x s -> wp (mret x) Q s.
Proof. done. Qed.

Lemma wp_gets {A} (f : S -> A) (Q : A -> S -> Prop) s : Q (f s) s -> wp (gets f) Q s.
Proof. done. Qed.

Lemma wp_modify (f : S -> S) (Q : () -> S -> Prop) s : Q () (f s) -> wp (modify f) Q s.
Proof. done. Qed.

Lemma wp_bind {A B} (m : M S A) (f : A -> M S B) (Q : B -> S -> Prop) s :
  wp m (fun x s => wp (f x) Q s) s -> wp (m ≫= f) Q s.
Proof. unfold wp, mbind, M_bind. by destruct (m s). Qed.

Lemma wp_mono {A} (m : M S A) (Q Q' : A -> S -> Prop) s :
  wp m Q s -> (forall x s, Q x s -> Q' x s) -> wp m Q' s.
Proof. unfold wp. auto. Qed.

(** A call whose effect does not matter. *)
Lemma wp_any {A} (m : M S A) (Q : A -> S -> Prop) s : (forall x s', Q x s') -> wp m Q s.
Proof. unfold wp. destruct (m s). auto. Qed.

Lemma wp_if {A} (b : bool) (m m' : M S A) (Q : A -> S -> Prop) s :
  (b = true -> wp m Q s) -> (b = false -> wp m' Q s) -> wp (if b then m else m') Q s.
Proof. destruct b; auto. Qed.
End wp.
End StateMonad.
Export StateMonad.

(** ** State with abort

    Code that changes one object and may stop the process: [None] is a failed
    [assert] or a call of [abort]. *)
Module AbortMonad.
Definition R (S A : Type) : Type := S -> option (A * S).

#[export] Instance R_ret S : MRet (R S) := fun A x s => Some (x, s).
#[export] Instance R_bind S : MBind (R S) := fun A B f m s => '(x, s) ← m s; f x s.

Definition reads {S A} (f : S -> A) : R S A := fun s => Some (f s, s).
Definition update {S} (f : S -> S) : R S () := fun s => Some ((), f s).
Definition assert {S} (b : bool) : R S () := fun s => if b then Some ((), s) else None.
Definition when {S} (b : bool) (m : R S ()) : R S () := if b then m else mret ().
Definition lift {S A} (x : option A) : R S A := fun s => y ← x; Some (y, s).

(** [runs m Q s]: run from [s], [m] does not abort and gives a result and a state
    that satisfy [Q]. *)
Definition runs {S A} (m : R S A) (Q : A -> S -> Prop) (s : S) : Prop :=
  match m s with Some (x, s) => Q x s | None => False end.

Section runs.
Context {S : Type}.
Implicit Types s : S.

Lemma runs_ret {A} (x : A) (Q : A -> S -> Prop) s : Q x s -> runs (mret x) Q s.
Proof. done. Qed.

Lemma runs_reads {A} (f : S -> A) (Q : A -> S -> Prop) s : Q (f s) s -> runs (reads f) Q s.
Proof. done. Qed.

Lemma runs_update (f : S -> S) (Q : () -> S -> Prop) s : Q () (f s) -> runs (update f) Q s.
Proof. done. Qed.

Lemma runs_assert b (Q : () -> S -> Prop) s : b = true -> Q () s -> runs (assert b) Q s.
Proof. intros ->. done. Qed.

Lemma runs_lift {A} (x : option A) y (Q : A -> S -> Prop) s : x = Some y -> Q y s -> runs (lift x) Q s.
Proof. by intros ->. Qed.

Lemma runs_bind {A B} (m : R S A) (f : A -> R S B) (Q : B -> S -> Prop) s :
  runs m (fun x s => runs (f x) Q s) s -> runs (m ≫= f) Q s.
Proof. unfold runs, mbind, R_bind. by destruct (m s) as [[]|]. Qed.

Lemma runs_mono {A} (m : R S A) (Q Q' : A -> S -> Prop) s :
  runs m Q s -> (forall x s, Q x s -> Q' x s) -> runs m Q' s.
Proof. unfold runs. destruct (m s) as [[]|]; auto. Qed.

Lemma runs_if {A} (b : bool) (m m' : R S A) (Q : A -> S -> Prop) s :
  (b = true -> runs m Q s) -> (b = false -> runs m' Q s) -> runs (if b then m else m') Q s.
Proof. destruct b; auto. Qed.

Lemma runs_when b (m : R S ()) (Q : () -> S -> Prop) s :
  (b = true -> runs m Q s) -> (b = false -> Q () s) -> runs (when b m) Q s.
Proof. intros H1 H2. destruct b; [by apply H1 | by apply H2]. Qed.

Lemma runs_Some {A} (m : R S A) (Q : A -> S -> Prop) s x s' : runs m Q s -> m s = Some (x, s') -> Q x s'.
Proof. unfold runs. intros H E. by rewrite E in H. Qed.
End runs.
End AbortMonad.
