(* ===== verification/BitSet.v ===== *)
(** * Bit sets: [ObBitSet] of [lib/container/ob_bit_set.h]

    A bit set is an array of 32-bit words that grows by whole zero words.  The
    file has the operations on the word array, their functional behaviour in
    terms of membership, and the count of members by the bit-slicing sum of
    [num_members]. *)

From Stdlib Require Import ZArith Lia Bool.
From stdpp Require Import base list gmap sets numbers.
From S2P Require Import Prelude.

Local Open Scope Z_scope.

(** [bitset_word_array_], the only state of an [ObBitSet]. *)
Abbreviation bitset := (list Z).

Definition PER_BITSETWORD_MOD_BITS : Z := 5.
Definition PER_BITSETWORD_BITS : Z := 32.
Definition PER_BITSETWORD_MASK : Z := 31.

Definition bitset_word_count (s : bitset) : Z := Z.of_nat (length s).
Definition bit_count (s : bitset) : Z := bitset_word_count s * PER_BITSETWORD_BITS.

Definition get_bitset_word (s : bitset) (index : Z) : Z :=
  if (index <? 0) || (bitset_word_count s <=? index) then 0
  else default 0 (s !! Z.to_nat index).

(** [(BitSetWord) 1 << (index & PER_BITSETWORD_MASK)] *)
Definition member_bit (index : Z) : Z :=
  u32 (Z.shiftl 1 (Z.land index PER_BITSETWORD_MASK)).

(** The growth loop of [add_member] and [add_members]: [n] calls of
    [push_back (0)], stopped by the first that fails.  [push_ret i] is what
    the array's [push_back] returns when it holds [i] words. *)
Fixpoint push_zeros (push_ret : Z -> Z) (n : nat) (s : bitset) : Z * bitset :=
  match n with
  | O => (OB_SUCCESS, s)
  | S n' =>
    let ret := push_ret (bitset_word_count s) in
    if ob_fail ret then (ret, s) else push_zeros push_ret n' (s ++ [0])
  end.

Definition add_member (push_ret : Z -> Z) (index : Z) (s : bitset) : Z * bitset :=
  if index <? 0 then (OB_INVALID_ARGUMENT, s)
  else
    let pos := Z.shiftr index PER_BITSETWORD_MOD_BITS in
    let '(ret, s) := push_zeros push_ret (Z.to_nat (pos + 1 - bitset_word_count s)) s in
    if ob_fail ret then (ret, s)
    else (ret, alter (fun word => Z.lor word (member_bit index)) (Z.to_nat pos) s).

Definition del_member (index : Z) (s : bitset) : Z * bitset :=
  if index <? 0 then (OB_INVALID_ARGUMENT, s)
  else
    let pos := Z.shiftr index PER_BITSETWORD_MOD_BITS in
    if bitset_word_count s <=? pos then (OB_SUCCESS, s)
    else (OB_SUCCESS,
          alter (fun word => Z.land word (u32 (Z.lnot (member_bit index)))) (Z.to_nat pos) s).

Definition has_member (s : bitset) (index : Z) : bool :=
  if index <? 0 then false
  else if bit_count s <=? index then false
  else negb (Z.land (default 0 (s !! Z.to_nat (Z.shiftr index PER_BITSETWORD_MOD_BITS)))
                    (member_bit index) =? 0).

Definition is_empty (s : bitset) : bool := bitset_word_count s =? 0.

Definition reset (s : bitset) : bitset := [].

Definition clear_all (s : bitset) : bitset := (fun _ => 0) <$> s.

Definition add_members (push_ret : Z -> Z) (s other : bitset) : Z * bitset :=
  let '(ret, s) :=
    push_zeros push_ret (Z.to_nat (bitset_word_count other - bitset_word_count s)) s in
  if ob_fail ret then (ret, s)
  else (ret, imap (fun i word => Z.lor word (get_bitset_word other (Z.of_nat i))) s).

Definition del_members (s other : bitset) : bitset :=
  imap (fun i word => Z.land word (u32 (Z.lnot (get_bitset_word other (Z.of_nat i))))) s.

(** The loop [for (i = 0; bool_ret && i < count; ++i)] of the comparisons. *)
Definition all_words (count : nat) (f : Z -> bool) : bool :=
  forallb (fun i => f (Z.of_nat i)) (seq 0 count).

Definition is_subset (s other : bitset) : bool :=
  if is_empty s then true
  else if is_empty other then false
  else if bitset_word_count other <? bitset_word_count s then false
  else all_words (length s)
         (fun i => Z.land (get_bitset_word s i) (u32 (Z.lnot (get_bitset_word other i))) =? 0).

Definition is_superset (s other : bitset) : bool :=
  if is_empty other then true
  else if is_empty s then false
  else if bitset_word_count s <? bitset_word_count other then false
  else all_words (length other)
         (fun i => Z.land (get_bitset_word other i) (u32 (Z.lnot (get_bitset_word s i))) =? 0).

Definition overlap (s other : bitset) : bool :=
  negb (all_words (Nat.min (length s) (length other))
          (fun i => Z.land (get_bitset_word s i) (get_bitset_word other i) =? 0)).

Definition equal (s other : bitset) : bool :=
  all_words (Nat.max (length s) (length other))
    (fun i => get_bitset_word s i =? get_bitset_word other i).

(** One line of the bit-slicing sum: [(word & mask) + ((word >> k) & mask)] on
    32-bit words. *)
Definition swar_step (mask k word : Z) : Z :=
  u32 (Z.land word mask + Z.land (Z.shiftr word k) mask).

Definition popcount_word (word : Z) : Z :=
  if word =? 0 then 0
  else
    let word := swar_step 0x55555555 1 word in
    let word := swar_step 0x33333333 2 word in
    let word := swar_step 0x0f0f0f0f 4 word in
    let word := swar_step 0x00ff00ff 8 word in
    let word := swar_step 0x0000ffff 16 word in
    word.

Definition num_members (s : bitset) : Z :=
  foldl (fun num i => num + popcount_word (get_bitset_word s (Z.of_nat i)))
        0 (seq 0 (length s)).

(** ** Membership *)

(** The well-formedness of a bit set: every word is a 32-bit value. *)
Definition bitset_wf (s : bitset) : Prop := Forall (is_u 32) s.

(** Membership as a bit of the concatenated words. *)
Definition bit_at (s : bitset) (i : Z) : bool :=
  (0 <=? i) && Z.testbit (default 0 (s !! Z.to_nat (i / 32))) (i mod 32).

Lemma land_mask_mod i : Z.land i PER_BITSETWORD_MASK = i mod 32.
Proof. apply (Z.land_ones i 5). lia. Qed.

Lemma shiftr_mod_bits i : Z.shiftr i PER_BITSETWORD_MOD_BITS = i / 32.
Proof. rewrite Z.shiftr_div_pow2; [done | unfold PER_BITSETWORD_MOD_BITS; lia]. Qed.

Lemma member_bit_pow i : member_bit i = 2 ^ (i mod 32).
Proof.
  unfold member_bit. rewrite land_mask_mod, Z.shiftl_1_l. apply to_u_id.
  pose proof (Z.mod_pos_bound i 32). split; [lia |]. apply Z.pow_lt_mono_r; lia.
Qed.

Lemma land_pow2_testbit w n : 0 <= n -> negb (Z.land w (2 ^ n) =? 0) = Z.testbit w n.
Proof.
  intros Hn. destruct (Z.testbit w n) eqn:E.
  - apply negb_true_iff, Z.eqb_neq. intros H.
    assert (Z.testbit (Z.land w (2 ^ n)) n = false) as H' by (rewrite H; apply Z.bits_0).
    rewrite Z.land_spec, E, Z.pow2_bits_true in H' by lia. done.
  - apply negb_false_iff, Z.eqb_eq. apply Z.bits_inj'. intros m Hm.
    rewrite Z.land_spec, Z.bits_0.
    destruct (decide (n = m)) as [-> | Hne]; [by rewrite E |].
    rewrite Z.pow2_bits_false by done. apply andb_false_r.
Qed.

Lemma has_member_bit_at s i : has_member s i = bit_at s i.
Proof.
  unfold has_member, bit_at. rewrite shiftr_mod_bits, member_bit_pow.
  destruct (Z.ltb_spec i 0) as [Hi | Hi].
  { by destruct (Z.leb_spec 0 i); [lia |]. }
  destruct (Z.leb_spec 0 i); [simpl | lia].
  rewrite land_pow2_testbit by (apply Z.mod_pos_bound; lia).
  destruct (Z.leb_spec (bit_count s) i) as [Hc | Hc]; [| done].
  rewrite lookup_ge_None_2; [by rewrite Z.bits_0 |].
  unfold bit_count, bitset_word_count, PER_BITSETWORD_BITS in Hc.
  apply Nat2Z.inj_le. rewrite Z2Nat.id by (apply Z.div_pos; lia).
  apply Z.div_le_lower_bound; lia.
Qed.

Lemma bit_at_app_zeros s n i : bit_at (s ++ replicate n 0) i = bit_at s i.
Proof.
  unfold bit_at. f_equal. f_equal.
  rewrite lookup_app. destruct (s !! Z.to_nat (i / 32)); [done |]. simpl.
  destruct (replicate n 0 !! _) as [w |] eqn:E; [| done]. simpl.
  by apply lookup_replicate in E as [-> _].
Qed.

Lemma push_zeros_success push_ret n s :
  (forall i, push_ret i = OB_SUCCESS) ->
  push_zeros push_ret n s = (OB_SUCCESS, s ++ replicate n 0).
Proof.
  intros Hok. revert s. induction n as [| n IH]; intros s; simpl.
  { by rewrite app_nil_r. }
  rewrite Hok. simpl. rewrite IH, <- app_assoc. done.
Qed.

(** Whatever [push_back] returns, growing the array adds zero words only. *)
Lemma push_zeros_bits push_ret n s ret s' :
  push_zeros push_ret n s = (ret, s') -> forall i, bit_at s' i = bit_at s i.
Proof.
  revert s. induction n as [| n IH]; intros s; simpl; intros H; [by simplify_eq |].
  destruct (ob_fail _); [by simplify_eq |].
  intros i. rewrite (IH _ H). apply (bit_at_app_zeros s 1).
Qed.

Lemma push_zeros_length push_ret n s s' :
  push_zeros push_ret n s = (OB_SUCCESS, s') -> length s' = (length s + n)%nat.
Proof.
  revert s. induction n as [| n IH]; intros s; simpl; intros H; [simplify_eq; lia |].
  unfold ob_fail in H. destruct (Z.eqb_spec (push_ret (bitset_word_count s)) OB_SUCCESS); simpl in H.
  - rewrite (IH _ H), length_app. simpl. lia.
  - congruence.
Qed.

Lemma bit_at_alter f s n i :
  (n < length s)%nat ->
  bit_at (alter f n s) i =
  if decide (0 <= i /\ i / 32 = Z.of_nat n)
  then Z.testbit (f (default 0 (s !! n))) (i mod 32) else bit_at s i.
Proof.
  intros Hn. unfold bit_at. destruct (Z.leb_spec 0 i) as [Hi | Hi]; simpl.
  - pose proof (Z.div_pos i 32 Hi). case_decide as Hd.
    + destruct Hd as [_ Hd]. rewrite Hd, Nat2Z.id, list_lookup_alter_eq.
      destruct (s !! n) eqn:E; [done |]. apply lookup_ge_None in E. lia.
    + rewrite list_lookup_alter_ne; [done |]. lia.
  - by case_decide; [lia |].
Qed.

Lemma add_member_ok push_ret i s s' :
  add_member push_ret i s = (OB_SUCCESS, s') ->
  0 <= i /\ forall j, has_member s' j = (j =? i) || has_member s j.
Proof.
  unfold add_member. destruct (Z.ltb_spec i 0) as [Hi | Hi]; [done |].
  rewrite shiftr_mod_bits, member_bit_pow.
  destruct (push_zeros _ _ _) as [ret s1] eqn:E. unfold ob_fail.
  destruct (Z.eqb_spec ret OB_SUCCESS) as [-> | Hr]; simpl; [| congruence].
  intros [= <-]. split; [done |]. intros j. rewrite !has_member_bit_at.
  pose proof (push_zeros_length _ _ _ _ E) as Hlen.
  pose proof (Z.div_pos i 32 Hi) as Hpos. unfold bitset_word_count in *.
  rewrite bit_at_alter, Z2Nat.id by lia. rewrite <- (push_zeros_bits _ _ _ _ _ E j).
  case_decide as Hd.
  - destruct Hd as [Hj Hd]. rewrite Z.lor_spec. unfold bit_at at 1.
    destruct (Z.leb_spec 0 j); [simpl | lia]. rewrite Hd, orb_comm. f_equal.
    rewrite Z.pow2_bits_eqb by (apply Z.mod_pos_bound; lia).
    pose proof (Z.div_mod i 32). pose proof (Z.div_mod j 32). lia.
  - destruct (Z.eqb_spec j i) as [-> | _]; [| done]. by destruct Hd.
Qed.

Lemma add_member_fail push_ret i s ret s' :
  add_member push_ret i s = (ret, s') -> ret <> OB_SUCCESS ->
  forall j, has_member s' j = has_member s j.
Proof.
  unfold add_member. destruct (i <? 0); [by intros [= <- <-] |].
  destruct (push_zeros _ _ _) as [r s1] eqn:E. unfold ob_fail.
  destruct (Z.eqb_spec r OB_SUCCESS) as [-> | Hr]; simpl; intros [= <- <-]; [done |].
  intros _ j. rewrite !has_member_bit_at. eapply push_zeros_bits, E.
Qed.

Lemma del_member_ok i s s' :
  del_member i s = (OB_SUCCESS, s') ->
  0 <= i /\ forall j, has_member s' j = negb (j =? i) && has_member s j.
Proof.
  unfold del_member. destruct (Z.ltb_spec i 0) as [Hi | Hi]; [done |].
  rewrite shiftr_mod_bits, member_bit_pow.
  pose proof (Z.div_pos i 32 Hi) as Hpos. unfold bitset_word_count.
  destruct (Z.leb_spec (Z.of_nat (length s)) (i / 32)) as [Hc | Hc]; intros [= <-];
    (split; [done |]); intros j; rewrite !has_member_bit_at.
  - destruct (Z.eqb_spec j i) as [-> | _]; [simpl | done].
    unfold bit_at. rewrite lookup_ge_None_2 by lia. by rewrite Z.bits_0, andb_false_r.
  - rewrite bit_at_alter, Z2Nat.id by lia. case_decide as Hd.
    + destruct Hd as [Hj Hd]. rewrite Z.land_spec. unfold bit_at.
      destruct (Z.leb_spec 0 j); [simpl | lia]. rewrite Hd, andb_comm. f_equal.
      pose proof (Z.mod_pos_bound j 32). pose proof (Z.mod_pos_bound i 32).
      unfold to_u. rewrite Z.mod_pow2_bits_low by lia.
      rewrite Z.lnot_spec, Z.pow2_bits_eqb by lia.
      pose proof (Z.div_mod i 32). pose proof (Z.div_mod j 32). lia.
    + destruct (Z.eqb_spec j i) as [-> | _]; [| done]. by destruct Hd.
Qed.

(** ** Set operations *)

Lemma bit_at_word s (i : nat) k :
  0 <= k < 32 -> bit_at s (Z.of_nat i * 32 + k) = Z.testbit (default 0 (s !! i)) k.
Proof.
  intros Hk. unfold bit_at.
  rewrite Z.div_add_l, Z.div_small, Z.add_0_r, Nat2Z.id by lia.
  rewrite (Z.add_comm (_ * 32)), Z_mod_plus_full, Z.mod_small by lia.
  by destruct (Z.leb_spec 0 (k + Z.of_nat i * 32)); [| lia].
Qed.

Lemma get_bitset_word_nat s i : get_bitset_word s (Z.of_nat i) = default 0 (s !! i).
Proof.
  unfold get_bitset_word, bitset_word_count. rewrite Nat2Z.id.
  destruct (Z.ltb_spec (Z.of_nat i) 0); [lia |].
  destruct (Z.leb_spec (Z.of_nat (length s)) (Z.of_nat i)); [| done].
  rewrite lookup_ge_None_2; [done | lia].
Qed.

Lemma all_words_true n f : all_words n f = true <-> forall i, (i < n)%nat -> f (Z.of_nat i) = true.
Proof.
  unfold all_words. rewrite forallb_forall. split; intros H i Hi; apply H.
  - apply in_seq. lia.
  - apply in_seq in Hi. lia.
Qed.

Lemma word_diff_zero a b :
  is_u 32 a ->
  Z.land a (u32 (Z.lnot b)) = 0 <-> forall k, 0 <= k < 32 -> Z.testbit a k = true -> Z.testbit b k = true.
Proof.
  intros Ha. split.
  - intros H k Hk Hak. apply (f_equal (fun z => Z.testbit z k)) in H.
    unfold to_u in H. rewrite Z.land_spec, Hak, Z.mod_pow2_bits_low, Z.lnot_spec, Z.bits_0 in H by lia.
    by apply negb_false_iff in H.
  - intros H. apply Z.bits_inj'. intros k Hk. rewrite Z.land_spec, Z.bits_0.
    destruct (Z.lt_ge_cases k 32).
    + unfold to_u. rewrite Z.mod_pow2_bits_low, Z.lnot_spec by lia.
      destruct (Z.testbit a k) eqn:E; [| done]. rewrite H by (done || lia). done.
    + by rewrite (testbit_small 32 a) by (done || lia).
Qed.

Lemma bitset_wf_lookup s i : bitset_wf s -> is_u 32 (default 0 (s !! i)).
Proof.
  intros H. destruct (s !! i) eqn:E; simpl; [| done]. by eapply (Forall_lookup_1 _ s).
Qed.

Lemma words_subset s o :
  bitset_wf s ->
  all_words (length s)
    (fun i => Z.land (get_bitset_word s i) (u32 (Z.lnot (get_bitset_word o i))) =? 0) = true <->
  forall j, has_member s j = true -> has_member o j = true.
Proof.
  intros Hwf. rewrite all_words_true. split.
  - intros H j. rewrite !has_member_bit_at. intros Hj.
    unfold bit_at in Hj |- *. destruct (Z.leb_spec 0 j) as [H0 | H0]; [simpl in * | done].
    destruct (decide (Z.to_nat (j / 32) < length s)%nat) as [Hl | Hl].
    2:{ rewrite lookup_ge_None_2, Z.bits_0 in Hj by lia. done. }
    apply H, Z.eqb_eq in Hl. rewrite !get_bitset_word_nat in Hl.
    eapply word_diff_zero; [by apply bitset_wf_lookup | exact Hl | | done].
    apply Z.mod_pos_bound. lia.
  - intros H i Hi. apply Z.eqb_eq. rewrite !get_bitset_word_nat.
    apply word_diff_zero; [by apply bitset_wf_lookup |]. intros k Hk.
    rewrite <- !bit_at_word, <- !has_member_bit_at by done. apply H.
Qed.

(** [is_subset] is containment of the members for sets that are not wider
    than the other operand and not empty arrays. *)
Lemma is_subset_spec s o :
  bitset_wf s ->
  is_subset s o = true <->
  s = [] \/ (o <> [] /\ (length s <= length o)%nat /\
             forall j, has_member s j = true -> has_member o j = true).
Proof.
  intros Hwf. unfold is_subset, is_empty, bitset_word_count.
  destruct (Z.eqb_spec (Z.of_nat (length s)) 0) as [Hs | Hs].
  { destruct s; [by intuition | simpl in Hs; lia]. }
  assert (s <> []) by (by intros ->).
  destruct (Z.eqb_spec (Z.of_nat (length o)) 0) as [Ho | Ho].
  { destruct o; [by intuition | simpl in Ho; lia]. }
  assert (o <> []) by (by intros ->).
  destruct (Z.ltb_spec (Z.of_nat (length o)) (Z.of_nat (length s))).
  { split; [done |]. intros [? | (_ & ? & _)]; [done | lia]. }
  rewrite words_subset by done. split.
  - intros ?. right. repeat split; [done | lia | done].
  - by intros [? | (_ & _ & ?)].
Qed.

(** A trailing word of zeros changes the answer of [is_subset]: it compares the
    widths of the arrays before it looks at the members. *)
Lemma is_subset_width :
  (forall j, has_member [1; 0] j = has_member [1] j) /\ is_subset [1; 0] [1] = false.
Proof. split; [| done]. intros j. rewrite !has_member_bit_at. apply (bit_at_app_zeros [1] 1). Qed.

Lemma overlap_false s o :
  bitset_wf s ->
  overlap s o = false <-> forall j, has_member s j && has_member o j = false.
Proof.
  intros Hs. unfold overlap. rewrite negb_false_iff, all_words_true. split.
  - intros H j. rewrite !has_member_bit_at. unfold bit_at.
    destruct (Z.leb_spec 0 j) as [H0 | H0]; [simpl | done].
    destruct (decide (Z.to_nat (j / 32) < Nat.min (length s) (length o))%nat) as [Hl | Hl].
    + apply H, Z.eqb_eq in Hl. rewrite !get_bitset_word_nat in Hl.
      by rewrite <- Z.land_spec, Hl, Z.bits_0.
    + apply Nat.nlt_ge, Nat.min_le in Hl as [Hl | Hl].
      * by rewrite (lookup_ge_None_2 s), Z.bits_0 by done.
      * by rewrite (lookup_ge_None_2 o), Z.bits_0, andb_false_r by done.
  - intros H i _. apply Z.eqb_eq. rewrite !get_bitset_word_nat.
    apply Z.bits_inj'. intros k Hk. rewrite Z.land_spec, Z.bits_0.
    destruct (Z.lt_ge_cases k 32).
    + rewrite <- !bit_at_word, <- !has_member_bit_at by lia. apply H.
    + by rewrite (testbit_small 32 (default 0 (s !! i))) by (apply bitset_wf_lookup || lia; done).
Qed.

Lemma add_members_ok push_ret s o s' :
  add_members push_ret s o = (OB_SUCCESS, s') ->
  forall j, has_member s' j = has_member s j || has_member o j.
Proof.
  unfold add_members. destruct (push_zeros _ _ _) as [ret s1] eqn:E. unfold ob_fail.
  destruct (Z.eqb_spec ret OB_SUCCESS) as [-> | Hr]; simpl; [| congruence].
  intros [= <-] j. rewrite !has_member_bit_at, <- (push_zeros_bits _ _ _ _ _ E j).
  pose proof (push_zeros_length _ _ _ _ E) as Hlen. unfold bitset_word_count in Hlen.
  unfold bit_at. destruct (Z.leb_spec 0 j) as [H0 | H0]; [simpl | done].
  rewrite list_lookup_imap. destruct (s1 !! Z.to_nat (j / 32)) eqn:Es; simpl.
  - by rewrite Z.lor_spec, get_bitset_word_nat.
  - apply lookup_ge_None in Es. rewrite (lookup_ge_None_2 o) by lia. simpl. rewrite Z.bits_0. done.
Qed.

Lemma del_members_ok s o j :
  has_member (del_members s o) j = has_member s j && negb (has_member o j).
Proof.
  rewrite !has_member_bit_at. unfold bit_at, del_members.
  destruct (Z.leb_spec 0 j) as [H0 | H0]; [simpl | done].
  rewrite list_lookup_imap. destruct (s !! Z.to_nat (j / 32)); simpl; [| by rewrite Z.bits_0].
  pose proof (Z.mod_pos_bound j 32). rewrite Z.land_spec. unfold to_u.
  by rewrite Z.mod_pow2_bits_low, Z.lnot_spec, get_bitset_word_nat by lia.
Qed.

(** ** Counting members *)

(** [fields k fs] is the number whose base-[2^k] digits, low first, are [fs]. *)
Fixpoint fields (k : Z) (fs : list Z) : Z :=
  match fs with
  | [] => 0
  | f :: fs => f + 2 ^ k * fields k fs
  end.

Definition lsum (fs : list Z) : Z := foldr Z.add 0 fs.

Lemma land_field k x m :
  0 <= k ->
  Z.land x (Z.ones k + 2 ^ (2 * k) * m) = x mod 2 ^ k + 2 ^ (2 * k) * Z.land (x / 2 ^ (2 * k)) m.
Proof.
  intros Hk.
  assert (Hones : 0 <= Z.ones k < 2 ^ (2 * k)).
  { rewrite Z.ones_equiv. pose proof (Z.pow_le_mono_r 2 k (2 * k)). lia. }
  assert (Hmod : 0 <= x mod 2 ^ k < 2 ^ (2 * k)).
  { pose proof (Z.mod_pos_bound x (2 ^ k)). pose proof (Z.pow_le_mono_r 2 k (2 * k)). lia. }
  rewrite (add_low_high _ (Z.ones k) m) by (done || lia).
  rewrite (add_low_high _ (x mod 2 ^ k)) by (done || lia).
  apply Z.bits_inj'. intros n Hn.
  rewrite Z.land_spec, !Z.lor_spec. destruct (Z.lt_ge_cases n (2 * k)) as [Hl | Hl].
  - rewrite !(Z.shiftl_spec_low _ _ n) by done. rewrite !orb_false_r.
    rewrite <- Z.land_ones, Z.land_spec by lia. done.
  - rewrite !(Z.shiftl_spec _ _ n) by lia. rewrite Z.land_spec.
    rewrite Z.div_pow2_bits by lia.
    replace (n - 2 * k + 2 * k) with n by lia.
    destruct (Z.lt_ge_cases n k) as [Hnk | Hnk]; [lia |].
    rewrite Z.ones_spec_high, Z.mod_pow2_bits_high by lia. done.
Qed.

(** The sums of adjacent fields. *)
Fixpoint pair_up (fs : list Z) : list Z :=
  match fs with
  | a :: b :: fs => (a + b) :: pair_up fs
  | _ => []
  end.

Lemma pair_up_props k n fs :
  length fs = (2 * n)%nat -> Forall (fun f => 0 <= f <= k) fs ->
  length (pair_up fs) = n /\ Forall (fun f => 0 <= f <= 2 * k) (pair_up fs) /\
  lsum (pair_up fs) = lsum fs.
Proof.
  revert fs. induction n as [| n IH]; intros fs Hlen Hall.
  { destruct fs; [done | simpl in Hlen; lia]. }
  destruct fs as [| a [| b fs]]; [simpl in Hlen; lia .. |].
  inversion_clear Hall as [| ?? Ha Hall']. inversion_clear Hall' as [| ?? Hb Hall].
  destruct (IH fs) as (H1 & H2 & H3); [simpl in Hlen; lia | done |].
  simpl. split; [lia |]. split; [constructor; [lia | done] |]. lia.
Qed.

Lemma fields_pair k n fs :
  0 <= k -> length fs = (2 * n)%nat -> Forall (fun f => 0 <= f < 2 ^ k) fs ->
  let mask := fields (2 * k) (replicate n (Z.ones k)) in
  Z.land (fields k fs) mask + Z.land (Z.shiftr (fields k fs) k) mask = fields (2 * k) (pair_up fs).
Proof.
  intros Hk. revert fs. induction n as [| n IH]; intros fs Hlen Hall; simpl.
  { destruct fs; [by rewrite !Z.land_0_r | simpl in Hlen; lia]. }
  destruct fs as [| a [| b fs]]; [simpl in Hlen; lia .. |].
  inversion_clear Hall as [| ?? Ha Hall']. inversion_clear Hall' as [| ?? Hb Hall].
  specialize (IH fs ltac:(simpl in Hlen; lia) Hall). simpl in IH |- *.
  set (F := fields k fs) in *. set (m := fields (2 * k) (replicate n (Z.ones k))) in *.
  assert (H2k : 2 ^ (2 * k) = 2 ^ k * 2 ^ k) by (rewrite <- Z.pow_add_r by lia; f_equal; lia).
  assert (Hp : 0 < 2 ^ k) by lia.
  rewrite !land_field by done. rewrite !Z.shiftr_div_pow2 in * by done.
  assert (E1 : (a + 2 ^ k * (b + 2 ^ k * F)) / 2 ^ k = b + 2 ^ k * F).
  { rewrite Z.mul_comm, Z.div_add, Z.div_small by lia. lia. }
  assert (E2 : (b + 2 ^ k * F) / 2 ^ k = F).
  { rewrite Z.mul_comm, Z.div_add, Z.div_small by lia. lia. }
  rewrite H2k, <- !Z.div_div, E1, E2 by lia.
  assert (E3 : (a + 2 ^ k * (b + 2 ^ k * F)) mod 2 ^ k = a).
  { rewrite Z.mul_comm, Z_mod_plus_full, Z.mod_small by lia. done. }
  assert (E4 : (b + 2 ^ k * F) mod 2 ^ k = b).
  { rewrite Z.mul_comm, Z_mod_plus_full, Z.mod_small by lia. done. }
  rewrite E3, E4, <- IH. ring.
Qed.

Lemma fields_bound k fs :
  0 <= k -> Forall (fun f => 0 <= f < 2 ^ k) fs ->
  0 <= fields k fs < 2 ^ (k * Z.of_nat (length fs)).
Proof.
  intros Hk. induction 1 as [| f fs Hf _ IH]; simpl.
  { rewrite Z.mul_0_r. lia. }
  replace (k * Z.of_nat (S (length fs))) with (k + k * Z.of_nat (length fs)) by lia.
  rewrite Z.pow_add_r by lia. nia.
Qed.

Lemma swar_step_fields k n fs :
  0 < k < 2 ^ k -> (length fs = 2 * n)%nat -> 2 * k * Z.of_nat n = 32 ->
  Forall (fun f => 0 <= f <= k) fs ->
  swar_step (fields (2 * k) (replicate n (Z.ones k))) k (fields k fs) = fields (2 * k) (pair_up fs).
Proof.
  intros Hk Hlen Hn Hall. unfold swar_step. rewrite fields_pair; [| lia | done |].
  - destruct (pair_up_props k n fs Hlen Hall) as (H1 & H2 & _). apply to_u_id.
    unfold is_u. rewrite <- Hn, <- H1. apply fields_bound; [lia |].
    eapply Forall_impl; [| exact H2]. intros x Hx. simpl in Hx.
    replace (2 * k) with (k + k) in * by lia. rewrite Z.pow_add_r by lia. nia.
  - eapply Forall_impl; [| exact Hall]. simpl. lia.
Qed.

(** The bits of a word, lowest first, as one-bit fields. *)
Definition word_bits (n : nat) (word : Z) : list Z :=
  (fun i => Z.b2z (Z.testbit word (Z.of_nat i))) <$> seq 0 n.

Lemma word_bits_S n word : word_bits (S n) word = word mod 2 :: word_bits n (word / 2).
Proof.
  unfold word_bits. cbn [seq fmap list_fmap]. f_equal.
  - apply Z.bit0_mod.
  - rewrite <- fmap_S_seq, <- list_fmap_compose. apply list_fmap_ext. intros _ i _.
    cbn [compose]. rewrite Nat2Z.inj_succ. f_equal.
    symmetry. apply Z.div2_bits. lia.
Qed.

Lemma word_bits_fields n word : 0 <= word < 2 ^ Z.of_nat n -> fields 1 (word_bits n word) = word.
Proof.
  revert word. induction n as [| n IH]; intros word Hw; [simpl in *; lia |].
  rewrite word_bits_S. cbn [fields]. rewrite IH.
  - pose proof (Z.div_mod word 2). lia.
  - rewrite Nat2Z.inj_succ, Z.pow_succ_r in Hw by lia.
    split; [apply Z.div_pos; lia | apply Z.div_lt_upper_bound; lia].
Qed.

Lemma word_bits_bounds n word : Forall (fun f => 0 <= f <= 1) (word_bits n word).
Proof.
  apply Forall_fmap, Forall_true. intros i. simpl. destruct (Z.testbit _ _); simpl; lia.
Qed.

(** The five bit-slicing steps leave the number of bits of the word. *)
Lemma popcount_word_bits word : is_u 32 word -> popcount_word word = lsum (word_bits 32 word).
Proof.
  intros Hw. unfold popcount_word. destruct (Z.eqb_spec word 0) as [-> | _]; [done |].
  rewrite <- (word_bits_fields 32 word Hw) at 1.
  pose proof (word_bits_bounds 32 word) as B0.
  assert (L0 : length (word_bits 32 word) = 32%nat) by done.
  set (f0 := word_bits 32 word) in *. clearbody f0.
  destruct (pair_up_props 1 16 f0 L0 B0) as (L1 & B1 & S1). set (f1 := pair_up f0) in *.
  destruct (pair_up_props 2 8 f1 L1 B1) as (L2 & B2 & S2). set (f2 := pair_up f1) in *.
  destruct (pair_up_props 4 4 f2 L2 B2) as (L3 & B3 & S3). set (f3 := pair_up f2) in *.
  destruct (pair_up_props 8 2 f3 L3 B3) as (L4 & B4 & S4). set (f4 := pair_up f3) in *.
  destruct (pair_up_props 16 1 f4 L4 B4) as (L5 & B5 & S5).
  assert (swar_step 0x55555555 1 (fields 1 f0) = fields 2 f1) as -> by by apply (swar_step_fields 1 16).
  assert (swar_step 0x33333333 2 (fields 2 f1) = fields 4 f2) as -> by by apply (swar_step_fields 2 8).
  assert (swar_step 0x0f0f0f0f 4 (fields 4 f2) = fields 8 f3) as -> by by apply (swar_step_fields 4 4).
  assert (swar_step 0x00ff00ff 8 (fields 8 f3) = fields 16 f4) as -> by by apply (swar_step_fields 8 2).
  assert (swar_step 0x0000ffff 16 (fields 16 f4) = fields 32 (pair_up f4)) as -> by by apply (swar_step_fields 16 1).
  rewrite <- S1, <- S2, <- S3, <- S4, <- S5.
  destruct (pair_up f4) as [| x [|]]; simpl in L5; [lia | simpl; lia | lia].
Qed.

(** The members of a bit set, in order. *)
Definition members (s : bitset) : list Z :=
  filter (fun i => bit_at s i = true) (seqZ 0 (bit_count s)).

Lemma bit_at_lt s i : bit_at s i = true -> 0 <= i < bit_count s.
Proof.
  rewrite <- has_member_bit_at. unfold has_member.
  destruct (Z.ltb_spec i 0); [done |]. destruct (Z.leb_spec (bit_count s) i); [done | lia].
Qed.

Lemma elem_of_members s i : i ∈ members s <-> bit_at s i = true.
Proof.
  unfold members. rewrite list_elem_of_filter, elem_of_seqZ.
  split; [by intros [? _] | intros H; split; [done |]]. pose proof (bit_at_lt s i H). lia.
Qed.

Lemma NoDup_members s : NoDup (members s).
Proof. apply list.NoDup_filter, NoDup_seqZ. Qed.

Lemma lsum_filter (f : Z -> bool) (l : list Z) :
  lsum ((fun i => Z.b2z (f i)) <$> l) = Z.of_nat (length (filter (fun i => f i = true) l)).
Proof.
  induction l as [| x l IH]; [done |]. rewrite filter_cons, fmap_cons. simpl.
  rewrite IH. case_decide as E; [rewrite E | apply not_true_is_false in E; rewrite E];
    simpl; lia.
Qed.

Lemma length_members s :
  Z.of_nat (length (members s)) = lsum ((fun i => Z.b2z (bit_at s i)) <$> seqZ 0 (bit_count s)).
Proof. symmetry. apply lsum_filter. Qed.

Lemma lsum_app l k : lsum (l ++ k) = lsum l + lsum k.
Proof. induction l as [| x l IH]; simpl; lia. Qed.

Lemma bit_count_snoc s w : bit_count (s ++ [w]) = bit_count s + 32.
Proof. unfold bit_count, bitset_word_count, PER_BITSETWORD_BITS. rewrite length_app. simpl. lia. Qed.

Lemma bit_at_snoc_l s w i : i < bit_count s -> bit_at (s ++ [w]) i = bit_at s i.
Proof.
  intros Hi. unfold bit_at. destruct (Z.leb_spec 0 i) as [H0 | H0]; [simpl | done].
  rewrite lookup_app_l; [done |]. apply Nat2Z.inj_lt.
  rewrite Z2Nat.id by (apply Z.div_pos; lia). apply Z.div_lt_upper_bound; [lia |].
  unfold bit_count, bitset_word_count, PER_BITSETWORD_BITS in Hi. lia.
Qed.

Lemma bit_at_snoc_r s w (j : nat) :
  (j < 32)%nat -> bit_at (s ++ [w]) (bit_count s + Z.of_nat j) = Z.testbit w (Z.of_nat j).
Proof.
  intros Hj. unfold bit_at, bit_count, bitset_word_count, PER_BITSETWORD_BITS.
  rewrite Z.div_add_l, Z.div_small, Z.add_0_r, Nat2Z.id by lia.
  rewrite lookup_app_r, Nat.sub_diag by lia. simpl.
  rewrite (Z.add_comm (_ * 32)), Z_mod_plus_full, Z.mod_small by lia.
  destruct (Z.leb_spec 0 (Z.of_nat j + Z.of_nat (length s) * 32)); [done | lia].
Qed.

Lemma length_members_snoc s w :
  Z.of_nat (length (members (s ++ [w]))) = Z.of_nat (length (members s)) + lsum (word_bits 32 w).
Proof.
  rewrite !length_members, bit_count_snoc.
  assert (Hc : 0 <= bit_count s) by (unfold bit_count, bitset_word_count, PER_BITSETWORD_BITS; lia).
  rewrite seqZ_app, fmap_app, lsum_app by lia. f_equal.
  - f_equal. apply list_fmap_ext. intros _ i Hi%list_elem_of_lookup_2%elem_of_seqZ.
    by rewrite bit_at_snoc_l by lia.
  - unfold seqZ, word_bits. rewrite <- list_fmap_compose. f_equal. apply list_fmap_ext.
    intros _ j Hj%list_elem_of_lookup_2%elem_of_seq. cbn [compose].
    replace (Z.of_nat j + (0 + bit_count s)) with (bit_count s + Z.of_nat j) by lia.
    rewrite bit_at_snoc_r; [done | lia].
Qed.

Lemma num_members_lsum s : num_members s = lsum (popcount_word <$> s).
Proof.
  unfold num_members.
  assert (Hf : forall (g : nat -> Z) l z, foldl (fun num i => num + g i) z l = z + lsum (g <$> l)).
  { intros g l. induction l as [| x l IH]; intros z; [simpl; lia |].
    rewrite fmap_cons. simpl. rewrite IH. lia. }
  rewrite (Hf (fun i => popcount_word (get_bitset_word s (Z.of_nat i)))), Z.add_0_l. f_equal.
  apply list_eq. intros i. rewrite !list_lookup_fmap.
  destruct (decide (i < length s)%nat) as [Hi | Hi].
  - destruct (lookup_lt_is_Some_2 s i Hi) as [w Hw].
    rewrite lookup_seq_lt, Hw by done. simpl. by rewrite get_bitset_word_nat, Hw.
  - rewrite (lookup_ge_None_2 s) by lia. rewrite lookup_ge_None_2; [done |]. rewrite length_seq. lia.
Qed.

Lemma num_members_length s : bitset_wf s -> num_members s = Z.of_nat (length (members s)).
Proof.
  intros Hwf. rewrite num_members_lsum.
  induction s as [| w s IH] using rev_ind; [done |].
  apply Forall_app in Hwf as [Hwf Hw]. inversion_clear Hw as [| ?? Hw' _].
  rewrite length_members_snoc, <- IH, <- popcount_word_bits by done.
  rewrite fmap_app, lsum_app. simpl. lia.
Qed.

(** ** The operations keep the words in range *)

Lemma is_u_lor w a b : is_u w a -> is_u w b -> is_u w (Z.lor a b).
Proof.
  intros [Ha Ha'] [Hb Hb']. split; [by apply Z.lor_nonneg |].
  destruct (Z.eq_dec (Z.lor a b) 0) as [-> |]; [lia |].
  assert (0 <= Z.lor a b) by (by apply Z.lor_nonneg).
  apply Z.log2_lt_pow2; [lia |]. rewrite Z.log2_lor by done.
  assert (0 < w) by (destruct (Z.lt_ge_cases 0 w); [done |];
    assert (2 ^ w <= 1) by (destruct (decide (w = 0)) as [-> |]; [done | rewrite Z.pow_neg_r; lia]);
    assert (a = 0) by lia; assert (b = 0) by lia; subst; done).
  assert (forall x, 0 <= x < 2 ^ w -> Z.log2 x < w) as Hl.
  { intros x Hx. destruct (Z.eq_dec x 0) as [-> |]; [done |]. apply Z.log2_lt_pow2; lia. }
  apply Z.max_lub_lt; by apply Hl.
Qed.

Lemma is_u_land w a b : is_u w a -> 0 <= b -> is_u w (Z.land a b).
Proof.
  intros [Ha Ha'] Hb. split; [apply Z.land_nonneg; by left |].
  destruct (Z.eq_dec (Z.land a b) 0) as [-> |]; [lia |].
  assert (0 <= Z.land a b) by (apply Z.land_nonneg; by left).
  apply Z.log2_lt_pow2; [lia |].
  assert (0 < a) by (destruct (Z.eq_dec a 0) as [-> |]; [done | lia]).
  eapply Z.le_lt_trans; [by apply Z.log2_land |].
  apply Z.min_lt_iff. left. by apply Z.log2_lt_pow2.
Qed.

Lemma member_bit_range i : is_u 32 (member_bit i).
Proof. apply to_u_range. lia. Qed.

Lemma push_zeros_wf push_ret n s ret s' :
  push_zeros push_ret n s = (ret, s') -> bitset_wf s -> bitset_wf s'.
Proof.
  revert s. induction n as [| n IH]; intros s; simpl; intros H Hwf; [by simplify_eq |].
  destruct (ob_fail _); [by simplify_eq |].
  apply (IH _ H). apply Forall_app. split; [done |]. by constructor.
Qed.

Lemma add_member_wf push_ret i s ret s' :
  add_member push_ret i s = (ret, s') -> bitset_wf s -> bitset_wf s'.
Proof.
  unfold add_member. destruct (i <? 0); [by intros [= _ <-] |].
  destruct (push_zeros _ _ _) as [r s1] eqn:E. intros H Hwf.
  pose proof (push_zeros_wf _ _ _ _ _ E Hwf) as H1.
  destruct (ob_fail r); simplify_eq; [done |].
  apply Forall_alter; [done |]. intros w _ Hw. apply is_u_lor; [done | apply member_bit_range].
Qed.

Lemma del_member_wf i s ret s' : del_member i s = (ret, s') -> bitset_wf s -> bitset_wf s'.
Proof.
  unfold del_member. destruct (i <? 0); [by intros [= _ <-] |].
  destruct (_ <=? _); intros [= _ <-] Hwf; [done |].
  apply Forall_alter; [done |]. intros w _ Hw. apply is_u_land; [done |]. apply to_u_range. lia.
Qed.

Lemma add_members_wf push_ret s o ret s' :
  add_members push_ret s o = (ret, s') -> bitset_wf s -> bitset_wf o -> bitset_wf s'.
Proof.
  unfold add_members. destruct (push_zeros _ _ _) as [r s1] eqn:E. intros H Hs Ho.
  pose proof (push_zeros_wf _ _ _ _ _ E Hs) as H1.
  destruct (ob_fail r); simplify_eq; [done |].
  apply Forall_lookup. intros i w. rewrite list_lookup_imap.
  destruct (s1 !! i) as [x |] eqn:Ex; intros [= <-].
  apply is_u_lor; [by eapply (Forall_lookup_1 _ s1) |].
  rewrite get_bitset_word_nat. by apply bitset_wf_lookup.
Qed.

Lemma add_members_fail push_ret s o ret s' :
  add_members push_ret s o = (ret, s') -> ret <> OB_SUCCESS ->
  forall j, has_member s' j = has_member s j.
Proof.
  unfold add_members. destruct (push_zeros _ _ _) as [r s1] eqn:E. unfold ob_fail.
  destruct (Z.eqb_spec r OB_SUCCESS) as [-> | Hr]; simpl; intros [= <- <-]; [done |].
  intros _ j. rewrite !has_member_bit_at. eapply push_zeros_bits, E.
Qed.

Lemma del_members_wf s o : bitset_wf s -> bitset_wf (del_members s o).
Proof.
  intros Hs. apply Forall_lookup. intros i w. unfold del_members. rewrite list_lookup_imap.
  destruct (s !! i) as [x |] eqn:Ex; intros [= <-].
  apply is_u_land; [by eapply (Forall_lookup_1 _ s) | apply to_u_range; lia].
Qed.

(** ** The set a bit set stands for *)

Definition to_set (s : bitset) : gset Z := list_to_set (members s).

Lemma elem_of_to_set s i : i ∈ to_set s <-> has_member s i = true.
Proof. unfold to_set. by rewrite elem_of_list_to_set, elem_of_members, has_member_bit_at. Qed.

(** A pointwise equation of membership is an equation of sets. *)
Lemma to_set_ext s (X : gset Z) : (forall i, has_member s i = true <-> i ∈ X) -> to_set s = X.
Proof. intros H. apply set_eq. intros i. by rewrite elem_of_to_set. Qed.



(** The bit-slicing sum of [num_members] is the number of members: the
    number of indices for which [has_member] is true. *)
Theorem num_members_correct s : bitset_wf s -> num_members s = Z.of_nat (size (to_set s)).
Proof.
  intros Hwf. unfold to_set. rewrite size_list_to_set by apply NoDup_members.
  by apply num_members_length.
Qed.

Lemma num_members_correct_witness :
  bitset_wf [5; 2] /\ num_members [5; 2] = Z.of_nat (size (to_set [5; 2])).
Proof.
  assert (bitset_wf [5; 2]) as H by by repeat constructor.
  split; [exact H | exact (num_members_correct _ H)].
Defined.
