(* ===== verification/Serialization.v ===== *)
(** * Serialization primitives: [lib/utility/serialization.h]

    The integer, boolean and string codecs every stored or transmitted record
    of the system is built from.  A buffer is a pointer to bytes; a read or a
    write outside of the bytes it points to is a memory fault.  The file shows
    that the encoders stay inside the buffer they are given, that they write
    exactly the number of bytes their length functions announce, that decoding
    an encoding gives the value back, and where the decoders and
    [encode_vstr] leave the buffer. *)

From Stdlib Require Import ZArith Lia Bool.
From stdpp Require Import base list option numbers.
From S2P Require Import Prelude.

Local Open Scope Z_scope.

(** ** Buffers *)

(** A [char *]: [None] is the null pointer, [Some bytes] a pointer to the
    bytes that may be accessed through it. *)
Abbreviation buffer := (option (list Z)).

(** The result of a routine that touches memory: [None] is a fault (an access
    outside of the buffer, or a shift by the width of its operand or more),
    [Some] of the return code and of what the routine leaves in the objects it
    was passed. *)
Abbreviation outcome A := (option A).

Definition load (bytes : list Z) (pos : Z) : outcome Z :=
  if pos <? 0 then None else bytes !! Z.to_nat pos.

Definition store (bytes : list Z) (pos v : Z) : outcome (list Z) :=
  if (0 <=? pos) && (pos <? Z.of_nat (length bytes))
  then Some (<[Z.to_nat pos := u8 v]> bytes) else None.

(** A sequence of statements [*(buf + pos++) = b]. *)
Fixpoint put_bytes (bs : list Z) (bytes : list Z) (pos : Z) : outcome (list Z * Z) :=
  match bs with
  | [] => Some (bytes, pos)
  | b :: bs => store bytes pos b ≫= fun bytes => put_bytes bs bytes (pos + 1)
  end.

(** [n] reads [*(buf + pos++)]. *)
Fixpoint get_bytes (n : nat) (bytes : list Z) (pos : Z) : outcome (list Z * Z) :=
  match n with
  | O => Some ([], pos)
  | S n =>
    b ← load bytes pos;
    '(bs, pos) ← get_bytes n bytes (pos + 1);
    Some (b :: bs, pos)
  end.

(** The common shape of the fixed-width encoders: a test for space, then the
    bytes of the value. *)
Definition encode_bytes (buf : buffer) (buf_len pos : Z) (bs : list Z) : outcome (Z * buffer * Z) :=
  match buf with
  | None => Some (OB_SIZE_OVERFLOW, buf, pos)
  | Some bytes =>
    if Z.of_nat (length bs) <=? buf_len - pos then
      '(bytes, pos) ← put_bytes bs bytes pos; Some (OB_SUCCESS, Some bytes, pos)
    else Some (OB_SIZE_OVERFLOW, buf, pos)
  end.

(** The common shape of the fixed-width decoders; [val] is the old content of
    the output parameter. *)
Definition decode_bytes (buf : buffer) (data_len pos : Z) (n : nat) (value : list Z -> Z) (val : Z) :
    outcome (Z * Z * Z) :=
  match buf with
  | None => Some (OB_DESERIALIZE_ERROR, pos, val)
  | Some bytes =>
    if Z.of_nat n <=? data_len - pos then
      '(bs, pos) ← get_bytes n bytes pos; Some (OB_SUCCESS, pos, value bs)
    else Some (OB_DESERIALIZE_ERROR, pos, val)
  end.

(** ** Fixed-width integers, in big-endian order *)

(** [(val >> (8 * (n - 1))) & 0xff, ..., val & 0xff] *)
Fixpoint be_bytes (n : nat) (val : Z) : list Z :=
  match n with
  | O => []
  | S n => Z.land (Z.shiftr val (8 * Z.of_nat n)) 0xff :: be_bytes n val
  end.

(** [(b0 & 0xff) << (8 * (n - 1)) | ... | (bn & 0xff)] *)
Fixpoint be_value (bs : list Z) : Z :=
  match bs with
  | [] => 0
  | b :: bs => Z.lor (Z.shiftl (Z.land b 0xff) (8 * Z.of_nat (length bs))) (be_value bs)
  end.

Definition encoded_length_i8 (val : Z) : Z := 1.
Definition encoded_length_i16 (val : Z) : Z := 2.
Definition encoded_length_i32 (val : Z) : Z := 4.
Definition encoded_length_i64 (val : Z) : Z := 8.
Definition encoded_length_bool (val : bool) : Z := 1.

Definition encode_i8 (buf : buffer) (buf_len pos val : Z) : outcome (Z * buffer * Z) :=
  encode_bytes buf buf_len pos [val].
Definition decode_i8 (buf : buffer) (data_len pos val : Z) : outcome (Z * Z * Z) :=
  decode_bytes buf data_len pos 1 (fun bs => s8 (default 0 (head bs))) val.

Definition encode_i16 (buf : buffer) (buf_len pos val : Z) : outcome (Z * buffer * Z) :=
  encode_bytes buf buf_len pos (be_bytes 2 val).
Definition decode_i16 (buf : buffer) (data_len pos val : Z) : outcome (Z * Z * Z) :=
  decode_bytes buf data_len pos 2 (fun bs => s16 (be_value bs)) val.

Definition encode_i32 (buf : buffer) (buf_len pos val : Z) : outcome (Z * buffer * Z) :=
  encode_bytes buf buf_len pos (be_bytes 4 val).
Definition decode_i32 (buf : buffer) (data_len pos val : Z) : outcome (Z * Z * Z) :=
  decode_bytes buf data_len pos 4 (fun bs => s32 (be_value bs)) val.

Definition encode_i64 (buf : buffer) (buf_len pos val : Z) : outcome (Z * buffer * Z) :=
  encode_bytes buf buf_len pos (be_bytes 8 val).
Definition decode_i64 (buf : buffer) (data_len pos val : Z) : outcome (Z * Z * Z) :=
  decode_bytes buf data_len pos 8 (fun bs => s64 (be_value bs)) val.

Definition encode_bool (buf : buffer) (buf_len pos : Z) (val : bool) : outcome (Z * buffer * Z) :=
  encode_bytes buf buf_len pos [Z.b2z val].
Definition decode_bool (buf : buffer) (buf_len pos : Z) (val : bool) : outcome (Z * Z * bool) :=
  '(ret, pos, v) ← decode_i8 buf buf_len pos 0;
  Some (ret, pos, if ob_succ ret then negb (v =? 0) else val).

(** ** Variable-width integers *)

Definition OB_MAX_V1B : Z := Z.shiftl 1 7 - 1.
Definition OB_MAX_V2B : Z := Z.shiftl 1 14 - 1.
Definition OB_MAX_V3B : Z := Z.shiftl 1 21 - 1.
Definition OB_MAX_V4B : Z := Z.shiftl 1 28 - 1.
Definition OB_MAX_V5B : Z := Z.shiftl 1 35 - 1.
Definition OB_MAX_V6B : Z := Z.shiftl 1 42 - 1.
Definition OB_MAX_V7B : Z := Z.shiftl 1 49 - 1.
Definition OB_MAX_V8B : Z := Z.shiftl 1 56 - 1.
Definition OB_MAX_V9B : Z := Z.shiftl 1 63 - 1.
Definition OB_SERIALIZE_SIZE_NEED_BYTES : nat := 5.

Definition encoded_length_vi64 (val : Z) : Z :=
  let v := u64 val in
  if v <=? OB_MAX_V1B then 1 else if v <=? OB_MAX_V2B then 2
  else if v <=? OB_MAX_V3B then 3 else if v <=? OB_MAX_V4B then 4
  else if v <=? OB_MAX_V5B then 5 else if v <=? OB_MAX_V6B then 6
  else if v <=? OB_MAX_V7B then 7 else if v <=? OB_MAX_V8B then 8
  else if v <=? OB_MAX_V9B then 9 else 10.

Definition encoded_length_vi32 (val : Z) : Z :=
  let v := u32 val in
  if v <=? OB_MAX_V1B then 1 else if v <=? OB_MAX_V2B then 2
  else if v <=? OB_MAX_V3B then 3 else if v <=? OB_MAX_V4B then 4 else 5.

(** [while (__v > OB_MAX_V1B) { *(buf + pos++) = __v | 0x80; __v >>= 7; }] and
    the last byte.  The value loses seven bits in each round, so that ten
    rounds are enough for 64 bits. *)
Fixpoint put_varint (fuel : nat) (v : Z) (bytes : list Z) (pos : Z) : outcome (list Z * Z) :=
  match fuel with
  | O => None
  | S fuel =>
    if OB_MAX_V1B <? v then
      bytes ← store bytes pos (Z.lor v 0x80);
      put_varint fuel (Z.shiftr v 7) bytes (pos + 1)
    else
      bytes ← store bytes pos (Z.land v 0x7f);
      Some (bytes, pos + 1)
  end.

Definition encode_varint (len v : Z) (buf : buffer) (buf_len pos : Z) : outcome (Z * buffer * Z) :=
  match buf with
  | None => Some (OB_SIZE_OVERFLOW, buf, pos)
  | Some bytes =>
    if len <=? buf_len - pos then
      '(bytes, pos) ← put_varint 10 v bytes pos; Some (OB_SUCCESS, Some bytes, pos)
    else Some (OB_SIZE_OVERFLOW, buf, pos)
  end.

Definition encode_vi64 (buf : buffer) (buf_len pos val : Z) : outcome (Z * buffer * Z) :=
  encode_varint (encoded_length_vi64 (s64 (u64 val))) (u64 val) buf buf_len pos.
Definition encode_vi32 (buf : buffer) (buf_len pos val : Z) : outcome (Z * buffer * Z) :=
  encode_varint (encoded_length_vi32 val) (u32 val) buf buf_len pos.

(** The loop [while (n--)] of [encode_fixed_bytes_i64]. *)
Fixpoint put_fixed (n : nat) (v : Z) (bytes : list Z) (pos : Z) : outcome (list Z * Z) :=
  match n with
  | O => Some (bytes, pos)
  | S O => bytes ← store bytes pos (Z.land v 0x7f); Some (bytes, pos + 1)
  | S n =>
    bytes ← store bytes pos (Z.lor v 0x80);
    put_fixed n (Z.shiftr v 7) bytes (pos + 1)
  end.

Definition encode_fixed_bytes_i64 (buf : buffer) (buf_len pos val : Z) : outcome (Z * buffer * Z) :=
  match buf with
  | None => Some (OB_SIZE_OVERFLOW, buf, pos)
  | Some bytes =>
    if Z.of_nat OB_SERIALIZE_SIZE_NEED_BYTES <=? buf_len - pos then
      '(bytes, pos) ← put_fixed OB_SERIALIZE_SIZE_NEED_BYTES (u64 val) bytes pos;
      Some (OB_SUCCESS, Some bytes, pos)
    else Some (OB_SIZE_OVERFLOW, buf, pos)
  end.

(** The loop of [decode_vi64] and [decode_vi32] for a [w]-bit accumulator: the
    byte at [tmp_pos] is read for its continuation bit before [data_len] is
    compared with [tmp_pos], and [shift] is not compared with the width. *)
Fixpoint get_varint (fuel : nat) (w : Z) (bytes : list Z) (data_len tmp_pos v shift : Z) :
    outcome (Z * Z * Z) :=
  match fuel with
  | O => None
  | S fuel =>
    b ← load bytes tmp_pos;
    if data_len - tmp_pos <? 1 then Some (OB_DESERIALIZE_ERROR, tmp_pos, v)
    else if w <=? shift then None
    else
      let v := Z.lor v (to_u w (Z.shiftl (Z.land b 0x7f) shift)) in
      if negb (Z.land b 0x80 =? 0)
      then get_varint fuel w bytes data_len (tmp_pos + 1) v (shift + 7)
      else Some (OB_SUCCESS, tmp_pos + 1, v)
  end.

Definition decode_varint (w : Z) (buf : buffer) (data_len pos val : Z) : outcome (Z * Z * Z) :=
  bytes ← buf;
  '(ret, tmp_pos, v) ← get_varint (S (length bytes)) w bytes data_len pos 0 0;
  if ob_fail ret then Some (ret, pos, val) else Some (ret, tmp_pos, to_s w v).

Definition decode_vi64 : buffer -> Z -> Z -> Z -> outcome (Z * Z * Z) := decode_varint 64.
Definition decode_vi32 : buffer -> Z -> Z -> Z -> outcome (Z * Z * Z) := decode_varint 32.

(** The overloads for unsigned types convert to the signed type of the width. *)
Definition encode_u64 (buf : buffer) (buf_len pos val : Z) : outcome (Z * buffer * Z) :=
  encode_vi64 buf buf_len pos (s64 val).
Definition decode_u64 (buf : buffer) (data_len pos val : Z) : outcome (Z * Z * Z) :=
  '(ret, pos, v) ← decode_vi64 buf data_len pos (s64 val); Some (ret, pos, u64 v).
Definition encoded_length_u64 (val : Z) : Z := encoded_length_vi64 (s64 val).

(** ** Length-prefixed strings *)

Definition encoded_length_vstr (len : Z) : Z := encoded_length_vi64 len + len + 1.

Definition decoded_length_vstr (buf : buffer) (data_len pos : Z) : outcome Z :=
  match buf with
  | None => Some (-1)
  | Some _ =>
    if (data_len <? 0) || (pos <? 0) then Some (-1)
    else
      '(ret, _, len) ← decode_vi64 buf data_len pos (-1);
      Some (if ob_fail ret then -1 else len)
  end.

(** [MEMCPY (buf + pos, vbuf, len)] *)
Definition memcpy (bytes : list Z) (pos : Z) (src : list Z) (len : Z) : outcome (list Z) :=
  if Z.of_nat (length src) <? len then None
  else '(bytes, _) ← put_bytes (take (Z.to_nat len) src) bytes pos; Some bytes.

(** [vbuf] is [None] for a null source.  The space test converts the length to
    [int32_t]; the terminator is stored whatever [encode_vi64] returns. *)
Definition encode_vstr (buf : buffer) (buf_len pos : Z) (vbuf : buffer) (len : Z) :
    outcome (Z * buffer * Z) :=
  match buf with
  | None => Some (OB_SIZE_OVERFLOW, buf, pos)
  | Some _ =>
    if (0 <=? len) && (s32 (encoded_length_vstr len) <=? buf_len - pos) then
      '(ret, buf, pos) ← encode_vi64 buf buf_len pos len;
      bytes ← buf;
      '(bytes, pos) ←
        match vbuf with
        | Some src =>
          if ob_succ ret && (0 <? len)
          then bytes ← memcpy bytes pos src len; Some (bytes, pos + len)
          else Some (bytes, pos)
        | None => Some (bytes, pos)
        end;
      bytes ← store bytes pos 0;
      Some (ret, Some bytes, pos + 1)
    else Some (OB_SIZE_OVERFLOW, buf, pos)
  end.

(** The overload that returns a pointer into the buffer: the offset of the
    string ([None] for the null result), the new position and the length. *)
Definition decode_vstr (buf : buffer) (data_len pos lenp : Z) : outcome (option Z * Z * Z) :=
  match buf with
  | None => Some (None, pos, lenp)
  | Some _ =>
    if (data_len <? 0) || (pos <? 0) then Some (None, pos, lenp)
    else
      '(ret, tmp_pos, tmp_len) ← decode_vi64 buf data_len pos 0;
      if ob_fail ret then Some (None, pos, -1)
      else if 0 <=? tmp_len then
        if tmp_len <=? data_len - tmp_pos
        then Some (Some tmp_pos, tmp_pos + (tmp_len + 1), tmp_len)
        else Some (None, pos, -1)
      else Some (None, pos, lenp)
  end.

(** ** Little-endian integers of a given number of bytes *)

Definition safe_int64_abs (val : Z) : Z :=
  let tmp := Z.shiftr val 63 in
  let v := Z.lxor val tmp in
  u64 (s64 (v - tmp)).

Fixpoint encode_uint_loop (n : nat) (shift v : Z) (buf : buffer) (buf_len tmp_pos : Z) :
    outcome (Z * buffer * Z) :=
  match n with
  | O => Some (OB_SUCCESS, buf, tmp_pos)
  | S n =>
    if 64 <=? shift then None
    else
      '(ret, buf, tmp_pos) ←
        encode_i8 buf buf_len tmp_pos (s8 (Z.land (Z.shiftr v shift) 0xff));
      if ob_fail ret then Some (ret, buf, tmp_pos)
      else encode_uint_loop n (shift + 8) v buf buf_len tmp_pos
  end.

Definition encode_uint_with_given_length (buf : buffer) (buf_len pos val val_len : Z) :
    outcome (Z * buffer * Z) :=
  match buf with
  | None => Some (OB_SIZE_OVERFLOW, buf, pos)
  | Some _ =>
    if (val_len <=? 0) || (buf_len - pos <? val_len) then Some (OB_SIZE_OVERFLOW, buf, pos)
    else
      '(ret, buf, tmp_pos) ← encode_uint_loop (Z.to_nat val_len) 0 val buf buf_len pos;
      Some (ret, buf, if ob_succ ret then tmp_pos else pos)
  end.

Fixpoint decode_uint_loop (n : nat) (shift v : Z) (buf : buffer) (data_len tmp_pos : Z) :
    outcome (Z * Z * Z) :=
  match n with
  | O => Some (OB_SUCCESS, tmp_pos, v)
  | S n =>
    '(ret, tmp_pos, tmp) ← decode_i8 buf data_len tmp_pos 0;
    if ob_fail ret then Some (OB_DESERIALIZE_ERROR, tmp_pos, v)
    else if 64 <=? shift then None
    else decode_uint_loop n (shift + 8) (Z.lor v (u64 (Z.shiftl (u8 tmp) shift))) buf data_len tmp_pos
  end.

Definition decode_uint_with_given_length (buf : buffer) (data_len pos val val_len : Z) :
    outcome (Z * Z * Z) :=
  match buf with
  | None => Some (OB_DESERIALIZE_ERROR, pos, val)
  | Some _ =>
    if data_len - pos <? val_len then Some (OB_DESERIALIZE_ERROR, pos, val)
    else
      '(ret, tmp_pos, v) ← decode_uint_loop (Z.to_nat val_len) 0 0 buf data_len pos;
      if ob_succ ret then Some (ret, tmp_pos, v) else Some (ret, pos, val)
  end.

(** ** Memory *)

(** [written bytes pos bs] is the buffer after [bs] was stored at [pos]. *)
Definition written (bytes : list Z) (pos : Z) (bs : list Z) : list Z :=
  take (Z.to_nat pos) bytes ++ (u8 <$> bs) ++ drop (Z.to_nat pos + length bs) bytes.

(** The bytes at [pos] are [bs]. *)
Definition bytes_at (bytes : list Z) (pos : Z) (bs : list Z) : Prop :=
  0 <= pos /\ forall i b, bs !! i = Some b -> bytes !! (Z.to_nat pos + i)%nat = Some b.

Lemma length_written bytes pos bs :
  0 <= pos -> pos + Z.of_nat (length bs) <= Z.of_nat (length bytes) ->
  length (written bytes pos bs) = length bytes.
Proof.
  intros Hpos Hlen. unfold written. rewrite !length_app, length_fmap, length_take, length_drop. lia.
Qed.

Lemma written_at bytes pos bs :
  0 <= pos -> pos + Z.of_nat (length bs) <= Z.of_nat (length bytes) ->
  bytes_at (written bytes pos bs) pos (u8 <$> bs).
Proof.
  intros Hpos Hlen. split; [done |]. intros i b Hi. unfold written.
  assert (i < length bs)%nat by (apply lookup_lt_Some in Hi; by rewrite length_fmap in Hi).
  rewrite lookup_app_r; rewrite length_take; [| lia].
  rewrite lookup_app_l; [| rewrite length_fmap; lia].
  rewrite <- Hi. f_equal. lia.
Qed.

(** Bytes outside of the written range keep their value. *)
Lemma written_frame bytes pos bs i :
  0 <= pos -> pos + Z.of_nat (length bs) <= Z.of_nat (length bytes) ->
  (i < Z.to_nat pos \/ Z.to_nat pos + length bs <= i)%nat ->
  written bytes pos bs !! i = bytes !! i.
Proof.
  intros Hpos Hlen [Hi | Hi]; unfold written.
  - rewrite lookup_app_l, lookup_take_lt; [done | lia | rewrite length_take; lia].
  - rewrite lookup_app_r, lookup_app_r; rewrite length_take, ?length_fmap; [| lia ..].
    rewrite lookup_drop. f_equal. lia.
Qed.

Lemma store_written bytes pos b :
  0 <= pos < Z.of_nat (length bytes) -> store bytes pos b = Some (written bytes pos [b]).
Proof.
  intros Hpos. unfold store.
  destruct (Z.leb_spec 0 pos); [| lia]. destruct (Z.ltb_spec pos (Z.of_nat (length bytes))); [| lia].
  simpl. f_equal. unfold written. simpl. rewrite insert_take_drop by lia. repeat f_equal. lia.
Qed.

Lemma written_cons bytes pos b bs :
  0 <= pos -> pos + Z.of_nat (S (length bs)) <= Z.of_nat (length bytes) ->
  written (written bytes pos [b]) (pos + 1) bs = written bytes pos (b :: bs).
Proof.
  intros Hpos Hlen. apply list_eq. intros i.
  assert (Hl : length (written bytes pos [b]) = length bytes) by (apply length_written; simpl; lia).
  destruct (decide (i < Z.to_nat pos \/ Z.to_nat pos + S (length bs) <= i)%nat) as [Ho | Ho].
  - rewrite !written_frame by (simpl; lia). done.
  - destruct (decide (i = Z.to_nat pos)) as [-> | Hne].
    + rewrite written_frame by (simpl; lia).
      destruct (written_at bytes pos [b]) as [_ H1]; [simpl; lia .. |].
      destruct (written_at bytes pos (b :: bs)) as [_ H2]; [simpl; lia .. |].
      specialize (H1 0%nat (u8 b) eq_refl). specialize (H2 0%nat (u8 b) eq_refl).
      rewrite Nat.add_0_r in H1, H2. congruence.
    + destruct (written_at (written bytes pos [b]) (pos + 1) bs) as [_ H1]; [lia .. |].
      destruct (written_at bytes pos (b :: bs)) as [_ H2]; [simpl; lia .. |].
      destruct (lookup_lt_is_Some_2 (u8 <$> bs) (i - Z.to_nat pos - 1)) as [c Hc].
      { rewrite length_fmap. lia. }
      specialize (H1 _ _ Hc). specialize (H2 (S (i - Z.to_nat pos - 1)) c Hc).
      replace (Z.to_nat (pos + 1) + (i - Z.to_nat pos - 1))%nat with i in H1 by lia.
      replace (Z.to_nat pos + S (i - Z.to_nat pos - 1))%nat with i in H2 by lia. congruence.
Qed.

Lemma written_nil bytes pos : written bytes pos [] = bytes.
Proof. unfold written. simpl. rewrite Nat.add_0_r. apply take_drop. Qed.

Lemma put_bytes_written bs bytes pos :
  0 <= pos -> pos + Z.of_nat (length bs) <= Z.of_nat (length bytes) ->
  put_bytes bs bytes pos = Some (written bytes pos bs, pos + Z.of_nat (length bs)).
Proof.
  revert bytes pos. induction bs as [| b bs IH]; intros bytes pos Hpos Hlen; simpl in *.
  { by rewrite written_nil, Z.add_0_r. }
  rewrite store_written by lia. simpl.
  rewrite IH; [| lia | rewrite length_written; simpl; lia].
  rewrite written_cons by lia. do 2 f_equal. lia.
Qed.

Lemma load_at bytes pos b bs : bytes_at bytes pos (b :: bs) -> load bytes pos = Some b.
Proof.
  intros [Hpos H]. unfold load. destruct (Z.ltb_spec pos 0); [lia |].
  rewrite <- (Nat.add_0_r (Z.to_nat pos)). by apply H.
Qed.

Lemma bytes_at_tail bytes pos b bs : bytes_at bytes pos (b :: bs) -> bytes_at bytes (pos + 1) bs.
Proof.
  intros [Hpos H]. split; [lia |]. intros i c Hi.
  replace (Z.to_nat (pos + 1) + i)%nat with (Z.to_nat pos + S i)%nat by lia. by apply H.
Qed.

Lemma bytes_at_length bytes pos bs :
  bs <> [] -> bytes_at bytes pos bs -> (Z.to_nat pos + length bs <= length bytes)%nat.
Proof.
  intros Hne [_ H]. destruct (last_is_Some bs) as [_ Hs]. destruct (Hs Hne) as [b Hb].
  rewrite last_lookup in Hb. apply H, lookup_lt_Some in Hb. destruct bs; [done | simpl in *; lia].
Qed.

Lemma get_bytes_at bs bytes pos :
  bytes_at bytes pos bs ->
  get_bytes (length bs) bytes pos = Some (bs, pos + Z.of_nat (length bs)).
Proof.
  revert pos. induction bs as [| b bs IH]; intros pos H; simpl.
  { by rewrite Z.add_0_r. }
  rewrite (load_at _ _ _ _ H). simpl. rewrite IH by eapply bytes_at_tail, H. simpl.
  do 2 f_equal. lia.
Qed.

(** ** Values of byte sequences *)

Lemma length_be_bytes n val : length (be_bytes n val) = n.
Proof. induction n as [| n IH]; simpl; congruence. Qed.

Lemma u8_land_ff v : u8 (Z.land v 0xff) = Z.land v 0xff.
Proof.
  change 0xff with (Z.ones 8). unfold to_u. rewrite Z.land_ones by lia. by rewrite Z.mod_mod.
Qed.

Lemma u8_be_bytes n val : u8 <$> be_bytes n val = be_bytes n val.
Proof.
  induction n as [| n IH]; [done |]. cbn [be_bytes]. by rewrite fmap_cons, IH, u8_land_ff.
Qed.

Lemma be_value_bytes n val : be_value (be_bytes n val) = to_u (8 * Z.of_nat n) val.
Proof.
  unfold to_u. induction n as [| n IH]; [by rewrite Z.mod_1_r |].
  cbn [be_bytes be_value]. rewrite length_be_bytes, IH.
  apply Z.bits_inj'. intros m Hm.
  rewrite <- Z.land_assoc, Z.land_diag. change 0xff with (Z.ones 8).
  rewrite Z.lor_spec, Z.shiftl_spec, Z.land_spec by done.
  destruct (Z.lt_ge_cases m (8 * Z.of_nat n)) as [Hl | Hl].
  - rewrite !Z.mod_pow2_bits_low by lia. by rewrite (Z.testbit_neg_r _ (m - _)) by lia.
  - rewrite (Z.mod_pow2_bits_high _ (8 * Z.of_nat n)), orb_false_r by lia.
    rewrite Z.shiftr_spec by lia. replace (m - 8 * Z.of_nat n + 8 * Z.of_nat n) with m by lia.
    destruct (Z.lt_ge_cases m (8 * Z.of_nat (S n))) as [Hu | Hu].
    + rewrite Z.ones_spec_low, Z.mod_pow2_bits_low by lia. apply andb_true_r.
    + rewrite Z.ones_spec_high, Z.mod_pow2_bits_high by lia. apply andb_false_r.
Qed.

(** ** Fixed-width codecs *)

(** An encoder that has the space it asks for writes its bytes in place. *)
Lemma encode_bytes_ok bytes buf_len pos bs :
  0 <= pos -> buf_len <= Z.of_nat (length bytes) -> Z.of_nat (length bs) <= buf_len - pos ->
  encode_bytes (Some bytes) buf_len pos bs =
  Some (OB_SUCCESS, Some (written bytes pos bs), pos + Z.of_nat (length bs)).
Proof.
  intros Hpos Hlen Hsp. unfold encode_bytes.
  destruct (Z.leb_spec (Z.of_nat (length bs)) (buf_len - pos)); [| lia].
  by rewrite put_bytes_written by lia.
Qed.

Lemma encode_bytes_overflow buf buf_len pos bs :
  buf_len - pos < Z.of_nat (length bs) -> encode_bytes buf buf_len pos bs = Some (OB_SIZE_OVERFLOW, buf, pos).
Proof.
  intros Hsp. unfold encode_bytes. destruct buf; [| done].
  by destruct (Z.leb_spec (Z.of_nat (length bs)) (buf_len - pos)); [lia |].
Qed.

Lemma decode_bytes_at bytes data_len pos bs value val :
  bytes_at bytes pos bs -> Z.of_nat (length bs) <= data_len - pos ->
  decode_bytes (Some bytes) data_len pos (length bs) value val =
  Some (OB_SUCCESS, pos + Z.of_nat (length bs), value bs).
Proof.
  intros Hat Hsp. unfold decode_bytes.
  destruct (Z.leb_spec (Z.of_nat (length bs)) (data_len - pos)); [| lia].
  by rewrite get_bytes_at.
Qed.

Lemma decode_be_at n bytes data_len pos val old :
  (0 < n)%nat -> is_s (8 * Z.of_nat n) val ->
  bytes_at bytes pos (u8 <$> be_bytes n val) -> pos + Z.of_nat n <= data_len ->
  decode_bytes (Some bytes) data_len pos n (fun bs => to_s (8 * Z.of_nat n) (be_value bs)) old =
  Some (OB_SUCCESS, pos + Z.of_nat n, val).
Proof.
  intros Hn Hval Hat Hsp. rewrite u8_be_bytes in Hat.
  pose proof (decode_bytes_at bytes data_len pos (be_bytes n val)
    (fun bs => to_s (8 * Z.of_nat n) (be_value bs)) old Hat) as H.
  rewrite length_be_bytes, be_value_bytes, to_s_to_u in H by (done || lia). apply H. lia.
Qed.

(** ** Variable-width codecs *)

(** The groups of seven bits of a value, low first, with the continuation bit
    on all but the last. *)
Fixpoint varint_bytes (fuel : nat) (v : Z) : list Z :=
  match fuel with
  | O => []
  | S fuel =>
    if OB_MAX_V1B <? v then Z.lor v 0x80 :: varint_bytes fuel (Z.shiftr v 7) else [Z.land v 0x7f]
  end.

Lemma pow2_7_S n : 2 ^ (7 * Z.of_nat (S n)) = 128 * 2 ^ (7 * Z.of_nat n).
Proof. rewrite Nat2Z.inj_succ, Z.mul_succ_r, Z.pow_add_r by lia. lia. Qed.

Lemma shiftr7_lt v n :
  0 <= v < 2 ^ (7 * Z.of_nat (S n)) -> 0 <= Z.shiftr v 7 < 2 ^ (7 * Z.of_nat n).
Proof.
  rewrite pow2_7_S, Z.shiftr_div_pow2 by lia. intros H.
  split; [apply Z.div_pos; lia | apply Z.div_lt_upper_bound; lia].
Qed.

Lemma length_varint_le fuel k v :
  0 <= v < 2 ^ (7 * Z.of_nat (S k)) -> (length (varint_bytes fuel v) <= S k)%nat.
Proof.
  revert k v. induction fuel as [| fuel IH]; intros k v Hv; simpl; [lia |].
  destruct (Z.ltb_spec OB_MAX_V1B v) as [Hg | Hg]; simpl; [| lia].
  destruct k as [| k].
  { change OB_MAX_V1B with 127 in Hg. change (2 ^ (7 * Z.of_nat 1)) with 128 in Hv. lia. }
  specialize (IH k (Z.shiftr v 7) (shiftr7_lt _ _ Hv)). lia.
Qed.

Lemma length_varint_gt fuel k v :
  0 <= v < 2 ^ (7 * Z.of_nat fuel) -> 2 ^ (7 * Z.of_nat k) <= v -> (k < length (varint_bytes fuel v))%nat.
Proof.
  revert k v. induction fuel as [| fuel IH]; intros k v Hv Hk.
  { change (2 ^ (7 * Z.of_nat 0)) with 1 in Hv. lia. }
  cbn [varint_bytes]. destruct k as [| k].
  { destruct (_ <? _); simpl; lia. }
  rewrite pow2_7_S in Hk.
  destruct (Z.ltb_spec OB_MAX_V1B v) as [Hg | Hg].
  - simpl. apply -> Nat.succ_lt_mono. apply IH; [by apply shiftr7_lt |].
    rewrite Z.shiftr_div_pow2 by lia. apply Z.div_le_lower_bound; lia.
  - change OB_MAX_V1B with 127 in Hg. nia.
Qed.

Lemma length_varint_eq fuel k v :
  0 <= v < 2 ^ (7 * Z.of_nat fuel) -> 2 ^ (7 * Z.of_nat k) <= v < 2 ^ (7 * Z.of_nat (S k)) ->
  length (varint_bytes fuel v) = S k.
Proof.
  intros Hf Hk. pose proof (length_varint_le fuel k v). pose proof (length_varint_gt fuel k v). lia.
Qed.

Lemma put_varint_written fuel v bytes pos :
  (0 < fuel)%nat -> 0 <= v < 2 ^ (7 * Z.of_nat fuel) -> 0 <= pos ->
  pos + Z.of_nat (length (varint_bytes fuel v)) <= Z.of_nat (length bytes) ->
  put_varint fuel v bytes pos =
  Some (written bytes pos (varint_bytes fuel v), pos + Z.of_nat (length (varint_bytes fuel v))).
Proof.
  revert v bytes pos. induction fuel as [| fuel IH]; intros v bytes pos Hf Hv Hpos Hlen; [lia |].
  cbn [put_varint varint_bytes] in *.
  destruct (Z.ltb_spec OB_MAX_V1B v) as [Hg | Hg]; simpl in *.
  - rewrite store_written by lia. simpl. rewrite IH.
    + rewrite written_cons by lia. do 2 f_equal. lia.
    + destruct fuel; [| lia].
      change OB_MAX_V1B with 127 in Hg. change (2 ^ (7 * Z.of_nat 1)) with 128 in Hv. lia.
    + by apply shiftr7_lt.
    + lia.
    + rewrite length_written; simpl; lia.
  - rewrite store_written by lia. done.
Qed.

(** Numerals for the bounds of the length tables. *)
Ltac max_vb :=
  change OB_MAX_V1B with (2 ^ (7 * Z.of_nat 1) - 1) in *;
  change OB_MAX_V2B with (2 ^ (7 * Z.of_nat 2) - 1) in *;
  change OB_MAX_V3B with (2 ^ (7 * Z.of_nat 3) - 1) in *;
  change OB_MAX_V4B with (2 ^ (7 * Z.of_nat 4) - 1) in *;
  change OB_MAX_V5B with (2 ^ (7 * Z.of_nat 5) - 1) in *;
  change OB_MAX_V6B with (2 ^ (7 * Z.of_nat 6) - 1) in *;
  change OB_MAX_V7B with (2 ^ (7 * Z.of_nat 7) - 1) in *;
  change OB_MAX_V8B with (2 ^ (7 * Z.of_nat 8) - 1) in *;
  change OB_MAX_V9B with (2 ^ (7 * Z.of_nat 9) - 1) in *.

Lemma length_varint_0 fuel v :
  v <= OB_MAX_V1B -> length (varint_bytes (S fuel) v) = 1%nat.
Proof. intros H. cbn [varint_bytes]. by destruct (Z.ltb_spec OB_MAX_V1B v); [lia |]. Qed.

Lemma length_varint_vi64 v :
  is_u 64 v -> Z.of_nat (length (varint_bytes 10 v)) = encoded_length_vi64 v.
Proof.
  intros Hv. unfold encoded_length_vi64. rewrite to_u_id by done. unfold is_u in Hv.
  assert (Hb : 0 <= v < 2 ^ (7 * Z.of_nat 10)).
  { split; [lia |]. pose proof (Z.pow_lt_mono_r 2 64 (7 * Z.of_nat 10)). lia. }
  destruct (Z.leb_spec v OB_MAX_V1B) as [H1 | H1]; [by rewrite length_varint_0 |]. max_vb.
  destruct (Z.leb_spec v (2 ^ (7 * Z.of_nat 2) - 1)); [by rewrite (length_varint_eq 10 1) by lia |].
  destruct (Z.leb_spec v (2 ^ (7 * Z.of_nat 3) - 1)); [by rewrite (length_varint_eq 10 2) by lia |].
  destruct (Z.leb_spec v (2 ^ (7 * Z.of_nat 4) - 1)); [by rewrite (length_varint_eq 10 3) by lia |].
  destruct (Z.leb_spec v (2 ^ (7 * Z.of_nat 5) - 1)); [by rewrite (length_varint_eq 10 4) by lia |].
  destruct (Z.leb_spec v (2 ^ (7 * Z.of_nat 6) - 1)); [by rewrite (length_varint_eq 10 5) by lia |].
  destruct (Z.leb_spec v (2 ^ (7 * Z.of_nat 7) - 1)); [by rewrite (length_varint_eq 10 6) by lia |].
  destruct (Z.leb_spec v (2 ^ (7 * Z.of_nat 8) - 1)); [by rewrite (length_varint_eq 10 7) by lia |].
  destruct (Z.leb_spec v (2 ^ (7 * Z.of_nat 9) - 1)); [by rewrite (length_varint_eq 10 8) by lia |].
  by rewrite (length_varint_eq 10 9) by lia.
Qed.

Lemma length_varint_vi32 v :
  is_u 32 v -> Z.of_nat (length (varint_bytes 10 v)) = encoded_length_vi32 v.
Proof.
  intros Hv. unfold encoded_length_vi32. rewrite to_u_id by done. unfold is_u in Hv.
  pose proof (Z.pow_lt_mono_r 2 32 (7 * Z.of_nat 10)).
  pose proof (Z.pow_lt_mono_r 2 32 (7 * Z.of_nat 5)).
  destruct (Z.leb_spec v OB_MAX_V1B) as [H1 | H1]; [by rewrite length_varint_0 |]. max_vb.
  destruct (Z.leb_spec v (2 ^ (7 * Z.of_nat 2) - 1)); [by rewrite (length_varint_eq 10 1) by lia |].
  destruct (Z.leb_spec v (2 ^ (7 * Z.of_nat 3) - 1)); [by rewrite (length_varint_eq 10 2) by lia |].
  destruct (Z.leb_spec v (2 ^ (7 * Z.of_nat 4) - 1)); [by rewrite (length_varint_eq 10 3) by lia |].
  by rewrite (length_varint_eq 10 4) by lia.
Qed.

Lemma varint_group v : Z.land (u8 (Z.lor v 0x80)) 0x7f = v mod 2 ^ 7 /\ Z.land (u8 (Z.lor v 0x80)) 0x80 <> 0.
Proof.
  unfold to_u. split.
  - change 0x7f with (Z.ones 7). rewrite <- (Z.land_ones v 7) by lia.
    apply Z.bits_inj'. intros n Hn. rewrite !Z.land_spec.
    destruct (Z.lt_ge_cases n 7).
    + rewrite Z.mod_pow2_bits_low, Z.lor_spec by lia. change 0x80 with (2 ^ 7).
      by rewrite (Z.pow2_bits_false 7 n), orb_false_r by lia.
    + by rewrite Z.ones_spec_high, !andb_false_r by lia.
  - intros H. apply (f_equal (fun z => Z.testbit z 7)) in H.
    rewrite Z.land_spec, Z.mod_pow2_bits_low, Z.lor_spec, Z.bits_0 in H by lia.
    change 0x80 with (2 ^ 7) in H. rewrite Z.pow2_bits_true, orb_true_r in H by lia. done.
Qed.

Lemma varint_last v : 0 <= v <= OB_MAX_V1B -> Z.land v 0x7f = v /\ u8 v = v /\ Z.land v 0x80 = 0.
Proof.
  intros Hv. change OB_MAX_V1B with 127 in Hv. split; [| split].
  - change 0x7f with (Z.ones 7). rewrite Z.land_ones by lia. apply Z.mod_small. lia.
  - apply to_u_id. unfold is_u. lia.
  - apply (land_low_high 7 v 1); lia.
Qed.

(** Two groups of the accumulator are those of the value they come from. *)
Lemma varint_join w v shift :
  0 <= shift -> 0 <= w -> 0 <= v ->
  Z.lor (to_u w (Z.shiftl (v mod 2 ^ 7) shift)) (to_u w (Z.shiftl (Z.shiftr v 7) (shift + 7))) =
  to_u w (Z.shiftl v shift).
Proof.
  intros Hs Hw Hv. unfold to_u. apply Z.bits_inj'. intros n Hn. rewrite Z.lor_spec.
  destruct (Z.lt_ge_cases n w); [| by rewrite !Z.mod_pow2_bits_high by lia].
  rewrite !Z.mod_pow2_bits_low, !Z.shiftl_spec by lia.
  destruct (Z.lt_ge_cases n shift) as [Hl | Hl].
  { by rewrite !(Z.testbit_neg_r _ (n - _)) by lia. }
  destruct (Z.lt_ge_cases (n - shift) 7).
  - rewrite Z.mod_pow2_bits_low, (Z.testbit_neg_r _ (n - (shift + 7))) by lia. apply orb_false_r.
  - rewrite Z.mod_pow2_bits_high, Z.shiftr_spec by lia. simpl. f_equal. lia.
Qed.

Lemma get_varint_at fuel n w v bytes data_len pos acc shift :
  0 <= w -> 0 <= shift -> 0 <= v < 2 ^ (7 * Z.of_nat n) -> (0 < n)%nat ->
  bytes_at bytes pos (u8 <$> varint_bytes n v) ->
  (length (varint_bytes n v) <= fuel)%nat ->
  pos + Z.of_nat (length (varint_bytes n v)) <= data_len ->
  shift + 7 * (Z.of_nat (length (varint_bytes n v)) - 1) < w ->
  get_varint fuel w bytes data_len pos acc shift =
  Some (OB_SUCCESS, pos + Z.of_nat (length (varint_bytes n v)), Z.lor acc (to_u w (Z.shiftl v shift))).
Proof.
  intros Hw. revert n v pos acc shift.
  induction fuel as [| fuel IH]; intros n v pos acc shift Hs Hv Hn Hat Hf Hlen Hsh.
  { destruct n; [lia |]. simpl in Hf. destruct (_ <? _); simpl in Hf; lia. }
  destruct n as [| n]; [lia |]. cbn [varint_bytes] in *.
  destruct (Z.ltb_spec OB_MAX_V1B v) as [Hg | Hg].
  - rewrite fmap_cons in Hat. cbn [length get_varint] in *.
    rewrite (load_at _ _ _ _ Hat). cbn [mbind option_bind].
    destruct (Z.ltb_spec (data_len - pos) 1); [lia |]. destruct (Z.leb_spec w shift); [lia |].
    destruct (varint_group v) as [-> Hc]. destruct (Z.eqb_spec (Z.land (u8 (Z.lor v 128)) 128) 0) as [? | _]; [done |].
    cbn [negb]. assert (0 < n)%nat.
    { destruct n; [| lia]. change OB_MAX_V1B with 127 in Hg. change (2 ^ (7 * Z.of_nat 1)) with 128 in Hv. lia. }
    rewrite (IH n (Z.shiftr v 7)); [| lia | by apply shiftr7_lt | done | by eapply bytes_at_tail | lia .. ].
    rewrite <- Z.lor_assoc, varint_join by lia. do 3 f_equal. lia.
  - destruct (varint_last v) as (E1 & E2 & E3); [lia |]. cbn [fmap list_fmap length get_varint] in *.
    rewrite (load_at _ _ _ _ Hat). cbn [mbind option_bind].
    destruct (Z.ltb_spec (data_len - pos) 1); [lia |]. destruct (Z.leb_spec w shift); [lia |].
    rewrite E1, E2, E1, E3. done.
Qed.

Lemma encode_varint_ok v len bytes buf_len pos :
  0 <= v < 2 ^ (7 * Z.of_nat 10) -> Z.of_nat (length (varint_bytes 10 v)) = len ->
  0 <= pos -> buf_len <= Z.of_nat (length bytes) -> len <= buf_len - pos ->
  encode_varint len v (Some bytes) buf_len pos =
  Some (OB_SUCCESS, Some (written bytes pos (varint_bytes 10 v)), pos + len).
Proof.
  intros Hv Hl Hpos Hlen Hsp. unfold encode_varint.
  destruct (Z.leb_spec len (buf_len - pos)); [| lia].
  rewrite put_varint_written by lia. by rewrite Hl.
Qed.

Lemma encode_varint_overflow v len buf buf_len pos :
  buf_len - pos < len -> encode_varint len v buf buf_len pos = Some (OB_SIZE_OVERFLOW, buf, pos).
Proof.
  intros Hsp. unfold encode_varint. destruct buf; [| done].
  by destruct (Z.leb_spec len (buf_len - pos)); [lia |].
Qed.

Lemma decode_varint_at w v bytes data_len pos old :
  0 < w -> is_u w v -> 0 <= v < 2 ^ (7 * Z.of_nat 10) ->
  7 * (Z.of_nat (length (varint_bytes 10 v)) - 1) < w ->
  bytes_at bytes pos (u8 <$> varint_bytes 10 v) ->
  pos + Z.of_nat (length (varint_bytes 10 v)) <= data_len ->
  decode_varint w (Some bytes) data_len pos old =
  Some (OB_SUCCESS, pos + Z.of_nat (length (varint_bytes 10 v)), to_s w v).
Proof.
  intros Hw Hu Hv Hsh Hat Hlen. unfold decode_varint. cbn [mbind option_bind].
  rewrite (get_varint_at _ 10 w v); [| lia | lia | done | lia | done | | lia | lia].
  - cbn [mbind option_bind ob_fail]. rewrite Z.lor_0_l, Z.shiftl_0_r, to_u_id by done. done.
  - apply bytes_at_length in Hat; [rewrite length_fmap in Hat; lia |].
    cbn [varint_bytes]. by destruct (_ <? _).
Qed.

(** ** Codecs

    What the records built from these routines rely on: a length function, an
    encoder and a decoder of the values of a domain, such that the encoder
    writes exactly the announced number of bytes inside the buffer, or leaves
    buffer and position alone, and the decoder finds the value in those bytes
    wherever they are. *)
Class Codec (A : Type) := {
  c_dom : A -> Prop;
  c_len : A -> Z;
  c_bytes : A -> list Z;
  c_enc : buffer -> Z -> Z -> A -> outcome (Z * buffer * Z);
  c_dec : buffer -> Z -> Z -> A -> outcome (Z * Z * A);
  c_len_bytes v : c_dom v -> Z.of_nat (length (c_bytes v)) = c_len v;
  c_enc_ok v bytes buf_len pos :
    c_dom v -> 0 <= pos -> buf_len <= Z.of_nat (length bytes) -> c_len v <= buf_len - pos ->
    c_enc (Some bytes) buf_len pos v =
    Some (OB_SUCCESS, Some (written bytes pos (c_bytes v)), pos + c_len v);
  c_enc_overflow v buf buf_len pos :
    c_dom v -> buf_len - pos < c_len v ->
    c_enc buf buf_len pos v = Some (OB_SIZE_OVERFLOW, buf, pos);
  c_dec_ok v bytes data_len pos old :
    c_dom v -> bytes_at bytes pos (u8 <$> c_bytes v) -> pos + c_len v <= data_len ->
    c_dec (Some bytes) data_len pos old = Some (OB_SUCCESS, pos + c_len v, v)
}.

(** The laws of a codec: its encoding is inside of the buffer and of the
    announced length, nothing else changes, and decoding it gives the value. *)
Definition round_trips {A} (c : Codec A) : Prop :=
  forall v bytes buf_len pos old,
    c_dom v -> 0 <= pos -> buf_len <= Z.of_nat (length bytes) ->
    if c_len v <=? buf_len - pos then
      exists bytes',
        c_enc (Some bytes) buf_len pos v = Some (OB_SUCCESS, Some bytes', pos + c_len v) /\
        length bytes' = length bytes /\
        (forall i, (i < Z.to_nat pos)%nat \/ pos + c_len v <= Z.of_nat i -> bytes' !! i = bytes !! i) /\
        c_dec (Some bytes') buf_len pos old = Some (OB_SUCCESS, pos + c_len v, v)
    else c_enc (Some bytes) buf_len pos v = Some (OB_SIZE_OVERFLOW, Some bytes, pos).

Lemma codec_round_trips {A} (c : Codec A) : round_trips c.
Proof.
  intros v bytes buf_len pos old Hv Hpos Hlen.
  pose proof (c_len_bytes v Hv) as Hl.
  destruct (Z.leb_spec (c_len v) (buf_len - pos)) as [Hsp | Hsp]; [| by apply c_enc_overflow].
  exists (written bytes pos (c_bytes v)). split; [by apply c_enc_ok |].
  split; [apply length_written; lia |]. split.
  - intros i Hi. apply written_frame; lia.
  - apply c_dec_ok; [done | | lia]. apply written_at; lia.
Qed.

#[export] Program Instance codec_i8 : Codec Z := {|
  c_dom := is_s 8; c_len := encoded_length_i8; c_bytes v := [v];
  c_enc := encode_i8; c_dec := decode_i8 |}.
Next Obligation. done. Qed.
Next Obligation. intros. by apply encode_bytes_ok. Qed.
Next Obligation. intros. by apply encode_bytes_overflow. Qed.
Next Obligation.
  intros v bytes data_len pos old Hv Hat Hl. unfold decode_i8.
  rewrite (decode_bytes_at bytes data_len pos [u8 v]); [| done | unfold encoded_length_i8 in Hl; simpl; lia].
  simpl. by rewrite to_s_to_u.
Qed.

(** The laws of the [n]-byte big-endian codecs, which differ in the width. *)
Local Program Definition codec_be (n : nat) (Hn : (0 < n)%nat) : Codec Z := {|
  c_dom := is_s (8 * Z.of_nat n); c_len _ := Z.of_nat n; c_bytes := be_bytes n;
  c_enc buf buf_len pos v := encode_bytes buf buf_len pos (be_bytes n v);
  c_dec buf data_len pos old :=
    decode_bytes buf data_len pos n (fun bs => to_s (8 * Z.of_nat n) (be_value bs)) old |}.
Next Obligation. intros. by rewrite length_be_bytes. Qed.
Next Obligation.
  intros. pose proof (encode_bytes_ok bytes buf_len pos (be_bytes n v)) as E.
  rewrite length_be_bytes in E. by apply E.
Qed.
Next Obligation. intros. apply encode_bytes_overflow. by rewrite length_be_bytes. Qed.
Next Obligation. intros. by apply decode_be_at. Qed.

Local Definition codec_be_2 : Codec Z := codec_be 2 ltac:(lia).
Local Definition codec_be_4 : Codec Z := codec_be 4 ltac:(lia).
Local Definition codec_be_8 : Codec Z := codec_be 8 ltac:(lia).

Definition codec_i16 : Codec Z := {|
  c_dom := is_s 16; c_len := encoded_length_i16; c_bytes := be_bytes 2;
  c_enc := encode_i16; c_dec := decode_i16;
  c_len_bytes := @c_len_bytes _ codec_be_2; c_enc_ok := @c_enc_ok _ codec_be_2;
  c_enc_overflow := @c_enc_overflow _ codec_be_2; c_dec_ok := @c_dec_ok _ codec_be_2 |}.

Definition codec_i32 : Codec Z := {|
  c_dom := is_s 32; c_len := encoded_length_i32; c_bytes := be_bytes 4;
  c_enc := encode_i32; c_dec := decode_i32;
  c_len_bytes := @c_len_bytes _ codec_be_4; c_enc_ok := @c_enc_ok _ codec_be_4;
  c_enc_overflow := @c_enc_overflow _ codec_be_4; c_dec_ok := @c_dec_ok _ codec_be_4 |}.

Definition codec_i64 : Codec Z := {|
  c_dom := is_s 64; c_len := encoded_length_i64; c_bytes := be_bytes 8;
  c_enc := encode_i64; c_dec := decode_i64;
  c_len_bytes := @c_len_bytes _ codec_be_8; c_enc_ok := @c_enc_ok _ codec_be_8;
  c_enc_overflow := @c_enc_overflow _ codec_be_8; c_dec_ok := @c_dec_ok _ codec_be_8 |}.

#[export] Program Instance codec_bool : Codec bool := {|
  c_dom _ := True; c_len := encoded_length_bool; c_bytes v := [Z.b2z v];
  c_enc := encode_bool; c_dec := decode_bool |}.
Next Obligation. done. Qed.
Next Obligation. intros. by apply encode_bytes_ok. Qed.
Next Obligation. intros. by apply encode_bytes_overflow. Qed.
Next Obligation.
  intros v bytes data_len pos old _ Hat Hl. unfold decode_bool, encoded_length_bool in *.
  assert (E : decode_i8 (Some bytes) data_len pos 0 = Some (OB_SUCCESS, pos + 1, Z.b2z v)).
  { apply (@c_dec_ok _ codec_i8); [by destruct v | done | done]. }
  rewrite E. by destruct v.
Qed.

Lemma to_u_idemp w v : 0 <= w -> to_u w (to_u w v) = to_u w v.
Proof. intros. apply to_u_id. by apply to_u_range. Qed.

Lemma encoded_length_vi64_u64 v : encoded_length_vi64 (s64 (u64 v)) = encoded_length_vi64 v.
Proof. unfold encoded_length_vi64. by rewrite to_u_of_to_s, to_u_idemp. Qed.

Lemma is_u_varint w v : w <= 64 -> is_u w v -> 0 <= v < 2 ^ (7 * Z.of_nat 10).
Proof.
  intros Hw Hv. unfold is_u in Hv. pose proof (Z.pow_le_mono_r 2 w 64). 
  pose proof (Z.pow_lt_mono_r 2 64 (7 * Z.of_nat 10)). lia.
Qed.

Lemma length_vi64_bytes v :
  Z.of_nat (length (varint_bytes 10 (u64 v))) = encoded_length_vi64 v.
Proof.
  rewrite length_varint_vi64 by by apply to_u_range.
  unfold encoded_length_vi64. by rewrite to_u_idemp.
Qed.

Lemma length_vi32_bytes v :
  Z.of_nat (length (varint_bytes 10 (u32 v))) = encoded_length_vi32 v.
Proof.
  rewrite length_varint_vi32 by by apply to_u_range.
  unfold encoded_length_vi32. by rewrite to_u_idemp.
Qed.

Lemma encoded_length_vi64_bounds v : 1 <= encoded_length_vi64 v <= 10.
Proof.
  unfold encoded_length_vi64.
  repeat match goal with |- context [if ?b then _ else _] => destruct b; [lia |] end. lia.
Qed.

Lemma encoded_length_vi32_bounds v : 1 <= encoded_length_vi32 v <= 5.
Proof.
  unfold encoded_length_vi32.
  repeat match goal with |- context [if ?b then _ else _] => destruct b; [lia |] end. lia.
Qed.

Lemma u64_varint v : 0 <= u64 v < 2 ^ (7 * Z.of_nat 10).
Proof. apply (is_u_varint 64); [lia | by apply to_u_range]. Qed.

Lemma u32_varint v : 0 <= u32 v < 2 ^ (7 * Z.of_nat 10).
Proof. apply (is_u_varint 32); [lia | by apply to_u_range]. Qed.

Program Definition codec_vi64 : Codec Z := {|
  c_dom := is_s 64; c_len := encoded_length_vi64; c_bytes v := varint_bytes 10 (u64 v);
  c_enc := encode_vi64; c_dec := decode_vi64 |}.
Next Obligation. intros. apply length_vi64_bytes. Qed.
Next Obligation.
  intros v bytes buf_len pos Hv Hpos Hl Hsp. unfold encode_vi64. rewrite encoded_length_vi64_u64.
  by apply encode_varint_ok; [apply u64_varint | apply length_vi64_bytes | ..].
Qed.
Next Obligation.
  intros v buf buf_len pos Hv Hsp. apply encode_varint_overflow. by rewrite encoded_length_vi64_u64.
Qed.
Next Obligation.
  intros v bytes data_len pos old Hv Hat Hl. unfold decode_vi64.
  pose proof (encoded_length_vi64_bounds v). pose proof (length_vi64_bytes v) as E.
  rewrite (decode_varint_at 64 (u64 v)), E, to_s_to_u by first [done | lia | apply u64_varint | by apply to_u_range].
  done.
Qed.

Program Definition codec_vi32 : Codec Z := {|
  c_dom := is_s 32; c_len := encoded_length_vi32; c_bytes v := varint_bytes 10 (u32 v);
  c_enc := encode_vi32; c_dec := decode_vi32 |}.
Next Obligation. intros. apply length_vi32_bytes. Qed.
Next Obligation.
  intros v bytes buf_len pos Hv Hpos Hl Hsp.
  by apply encode_varint_ok; [apply u32_varint | apply length_vi32_bytes | ..].
Qed.
Next Obligation. intros v buf buf_len pos Hv Hsp. by apply encode_varint_overflow. Qed.
Next Obligation.
  intros v bytes data_len pos old Hv Hat Hl. unfold decode_vi32.
  pose proof (encoded_length_vi32_bounds v). pose proof (length_vi32_bytes v) as E.
  rewrite (decode_varint_at 32 (u32 v)), E, to_s_to_u by first [done | lia | apply u32_varint | by apply to_u_range].
  done.
Qed.

(** The overload for [uint64_t] goes through the signed codec. *)
Program Definition codec_u64 : Codec Z := {|
  c_dom := is_u 64; c_len := encoded_length_u64; c_bytes v := c_bytes (Codec := codec_vi64) (s64 v);
  c_enc := encode_u64; c_dec := decode_u64 |}.
Next Obligation. intros. apply (@c_len_bytes _ codec_vi64). by apply to_s_range. Qed.
Next Obligation. intros. apply (@c_enc_ok _ codec_vi64); try done. by apply to_s_range. Qed.
Next Obligation. intros. apply (@c_enc_overflow _ codec_vi64); try done. by apply to_s_range. Qed.
Next Obligation.
  intros v bytes data_len pos old Hv Hat Hl. unfold decode_u64.
  assert (E : decode_vi64 (Some bytes) data_len pos (s64 old) =
              Some (OB_SUCCESS, pos + encoded_length_u64 v, s64 v)).
  { apply (@c_dec_ok _ codec_vi64); [by apply to_s_range | done | done]. }
  rewrite E. simpl. by rewrite to_u_to_s.
Qed.

(** ** The five-byte form *)

(** The groups [encode_fixed_bytes_i64] writes. *)
Fixpoint fixed_bytes (n : nat) (v : Z) : list Z :=
  match n with
  | O => []
  | S O => [Z.land v 0x7f]
  | S n => Z.lor v 0x80 :: fixed_bytes n (Z.shiftr v 7)
  end.

Lemma fixed_bytes_SS n v : fixed_bytes (S (S n)) v = Z.lor v 0x80 :: fixed_bytes (S n) (Z.shiftr v 7).
Proof. done. Qed.

Lemma put_fixed_SS n v bytes pos :
  put_fixed (S (S n)) v bytes pos =
  store bytes pos (Z.lor v 0x80) ≫= fun bytes => put_fixed (S n) (Z.shiftr v 7) bytes (pos + 1).
Proof. done. Qed.

Lemma length_fixed_bytes n v : length (fixed_bytes n v) = n.
Proof.
  revert v. induction n as [| [| n] IH]; intros v; [done | done |].
  by rewrite fixed_bytes_SS, length_cons, IH.
Qed.

Lemma put_fixed_written n v bytes pos :
  0 <= pos -> pos + Z.of_nat n <= Z.of_nat (length bytes) ->
  put_fixed n v bytes pos = Some (written bytes pos (fixed_bytes n v), pos + Z.of_nat n).
Proof.
  revert v bytes pos. induction n as [| [| n] IH]; intros v bytes pos Hpos Hlen.
  - cbn. by rewrite written_nil, Z.add_0_r.
  - cbn [put_fixed fixed_bytes]. rewrite store_written by lia. done.
  - rewrite put_fixed_SS, fixed_bytes_SS, store_written by lia. cbn [mbind option_bind].
    rewrite IH; [| lia | rewrite length_written; simpl; lia].
    rewrite written_cons by (rewrite ?length_fixed_bytes; lia). do 2 f_equal. lia.
Qed.

Lemma get_varint_fixed fuel n w v bytes data_len pos acc shift :
  0 <= w -> 0 <= shift -> 0 <= v < 2 ^ (7 * Z.of_nat n) -> (0 < n)%nat -> (n <= fuel)%nat ->
  bytes_at bytes pos (u8 <$> fixed_bytes n v) ->
  pos + Z.of_nat n <= data_len -> shift + 7 * (Z.of_nat n - 1) < w ->
  get_varint fuel w bytes data_len pos acc shift =
  Some (OB_SUCCESS, pos + Z.of_nat n, Z.lor acc (to_u w (Z.shiftl v shift))).
Proof.
  intros Hw. revert n v pos acc shift.
  induction fuel as [| fuel IH]; intros n v pos acc shift Hs Hv Hn Hf Hat Hlen Hsh; [lia |].
  destruct n as [| [| n]]; [lia | |].
  - change (2 ^ (7 * Z.of_nat 1)) with 128 in Hv.
    destruct (varint_last v) as (E1 & E2 & E3); [change OB_MAX_V1B with 127; lia |].
    cbn [fixed_bytes fmap list_fmap get_varint] in *.
    rewrite (load_at _ _ _ _ Hat). cbn [mbind option_bind].
    destruct (Z.ltb_spec (data_len - pos) 1); [lia |]. destruct (Z.leb_spec w shift); [lia |].
    by rewrite E1, E2, E1, E3.
  - rewrite fixed_bytes_SS, fmap_cons in Hat. cbn [get_varint].
    rewrite (load_at _ _ _ _ Hat). cbn [mbind option_bind].
    destruct (Z.ltb_spec (data_len - pos) 1); [lia |]. destruct (Z.leb_spec w shift); [lia |].
    destruct (varint_group v) as [-> Hc].
    destruct (Z.eqb_spec (Z.land (u8 (Z.lor v 128)) 128) 0) as [? | _]; [done |]. cbn [negb].
    rewrite (IH (S n) (Z.shiftr v 7));
      [| lia | by apply shiftr7_lt | lia | lia | by eapply bytes_at_tail | lia | lia].
    rewrite <- Z.lor_assoc, varint_join by lia. do 3 f_equal. lia.
Qed.

(** [encode_fixed_bytes_i64] is compatible with [decode_vi64], for the values
    that fit in its five groups of seven bits: a value below [2 ^ 35] takes
    five bytes and is read back by the variable-width decoder. *)
Theorem fixed_bytes_round_trip bytes buf_len pos val old :
  0 <= val < 2 ^ 35 -> 0 <= pos -> buf_len <= Z.of_nat (length bytes) -> 5 <= buf_len - pos ->
  exists bytes',
    encode_fixed_bytes_i64 (Some bytes) buf_len pos val = Some (OB_SUCCESS, Some bytes', pos + 5) /\
    decode_vi64 (Some bytes') buf_len pos old = Some (OB_SUCCESS, pos + 5, val).
Proof.
  intros Hv Hpos Hlen Hsp. exists (written bytes pos (fixed_bytes 5 val)).
  assert (E : u64 val = val) by (apply to_u_id; unfold is_u; lia).
  unfold encode_fixed_bytes_i64, OB_SERIALIZE_SIZE_NEED_BYTES. change (Z.of_nat 5) with 5.
  destruct (Z.leb_spec 5 (buf_len - pos)); [| lia].
  rewrite put_fixed_written, E by lia. split; [done |].
  unfold decode_vi64, decode_varint. cbn [mbind option_bind].
  rewrite (get_varint_fixed _ 5 64 val); [| lia | lia | exact Hv | lia | | | lia | lia].
  - cbn [mbind option_bind]. rewrite Z.lor_0_l, Z.shiftl_0_r, E.
    change (ob_fail OB_SUCCESS) with false. cbv iota. rewrite to_s_id; [done | lia |]. unfold is_s. lia.
  - rewrite length_written; rewrite ?length_fixed_bytes; lia.
  - apply written_at; rewrite ?length_fixed_bytes; lia.
Qed.

(** ** Reads past the data *)

Lemma get_varint_runs_out fuel w n bytes pos acc shift :
  0 <= pos -> (Z.to_nat pos + n = length bytes)%nat ->
  (forall i, (Z.to_nat pos <= i < length bytes)%nat -> bytes !! i = Some 0x80) ->
  get_varint fuel w bytes (Z.of_nat (length bytes)) pos acc shift = None.
Proof.
  revert n pos acc shift. induction fuel as [| fuel IH]; intros n pos acc shift Hpos Hn Hb; [done |].
  cbn [get_varint]. unfold load. destruct (Z.ltb_spec pos 0); [lia |].
  destruct n as [| n].
  { by rewrite lookup_ge_None_2 by lia. }
  rewrite Hb by lia. cbn [mbind option_bind].
  destruct (Z.ltb_spec (Z.of_nat (length bytes) - pos) 1); [lia |].
  destruct (w <=? shift); [done |]. change (negb (Z.land 128 128 =? 0)) with true. cbv iota.
  apply (IH n); [lia | lia |]. intros i Hi. apply Hb. lia.
Qed.

Lemma decode_varint_runs_out w n old :
  decode_varint w (Some (replicate n 0x80)) (Z.of_nat n) 0 old = None.
Proof.
  unfold decode_varint. cbn [mbind option_bind].
  pose proof (get_varint_runs_out (S (length (replicate n 128))) w n (replicate n 128) 0 0 0) as H.
  rewrite length_replicate in *. rewrite H; [done | lia | done |].
  intros i Hi. apply lookup_replicate. split; [done | lia].
Qed.

(** ** Strings *)

Lemma ob_succ_success : ob_succ OB_SUCCESS = true.
Proof. done. Qed.

Lemma written_app bytes pos bs cs :
  0 <= pos -> pos + Z.of_nat (length bs + length cs) <= Z.of_nat (length bytes) ->
  written (written bytes pos bs) (pos + Z.of_nat (length bs)) cs = written bytes pos (bs ++ cs).
Proof.
  revert bytes pos. induction bs as [| b bs IH]; intros bytes pos Hpos Hlen; simpl in *.
  { by rewrite written_nil, Z.add_0_r. }
  rewrite <- (written_cons bytes pos b bs), <- (written_cons bytes pos b (bs ++ cs))
    by (rewrite ?length_app; lia).
  rewrite <- IH; [f_equal; lia | lia |]. rewrite length_written; simpl; lia.
Qed.

Lemma bytes_at_app bytes pos bs cs :
  bytes_at bytes pos (bs ++ cs) <->
  bytes_at bytes pos bs /\ bytes_at bytes (pos + Z.of_nat (length bs)) cs.
Proof.
  split.
  - intros [Hpos H]. split; (split; [lia |]); intros i b Hi.
    + apply H. by apply lookup_app_l_Some.
    + replace (Z.to_nat (pos + Z.of_nat (length bs)) + i)%nat
        with (Z.to_nat pos + (length bs + i))%nat by lia.
      apply H. rewrite lookup_app_r by lia. rewrite <- Hi. f_equal. lia.
  - intros [[Hpos H1] [_ H2]]. split; [done |]. intros i b Hi.
    apply lookup_app_Some in Hi as [Hi | [Hl Hi]]; [by apply H1 |].
    apply H2 in Hi. rewrite <- Hi. f_equal. lia.
Qed.

(** The bytes of an encoded string: its length, its bytes, a zero. *)
Definition vstr_bytes (src : list Z) : list Z :=
  varint_bytes 10 (u64 (Z.of_nat (length src))) ++ src ++ [0].

Lemma length_vstr_bytes src :
  Z.of_nat (length (vstr_bytes src)) = encoded_length_vstr (Z.of_nat (length src)).
Proof.
  unfold vstr_bytes, encoded_length_vstr.
  rewrite !length_app, <- length_vi64_bytes. cbn [length]. lia.
Qed.

Lemma encode_vstr_ok bytes buf_len pos src :
  0 <= pos -> buf_len <= Z.of_nat (length bytes) ->
  encoded_length_vstr (Z.of_nat (length src)) < 2 ^ 31 ->
  encoded_length_vstr (Z.of_nat (length src)) <= buf_len - pos ->
  encode_vstr (Some bytes) buf_len pos (Some src) (Z.of_nat (length src)) =
  Some (OB_SUCCESS, Some (written bytes pos (vstr_bytes src)),
        pos + encoded_length_vstr (Z.of_nat (length src))).
Proof.
  intros Hpos Hlen Hmax Hsp. unfold encode_vstr. set (len := Z.of_nat (length src)) in *.
  pose proof (encoded_length_vi64_bounds len) as Hb. unfold encoded_length_vstr in *.
  assert (is_s 64 len) by (unfold is_s; lia).
  rewrite (to_s_id 32) by (unfold is_s; lia).
  destruct (Z.leb_spec 0 len); [| lia].
  destruct (Z.leb_spec (encoded_length_vi64 len + len + 1) (buf_len - pos)); [cbn [andb] | lia].
  assert (E : encode_vi64 (Some bytes) buf_len pos len =
    Some (OB_SUCCESS, Some (written bytes pos (varint_bytes 10 (u64 len))), pos + encoded_length_vi64 len)).
  { apply (@c_enc_ok _ codec_vi64); [done | lia | lia | cbn [c_len codec_vi64]; lia]. }
  rewrite E. cbn [mbind option_bind]. rewrite ob_succ_success.
  pose proof (length_vi64_bytes len) as El. rewrite <- El in *.
  set (vb := varint_bytes 10 (u64 len)) in *.
  assert (Hlw : length (written bytes pos vb) = length bytes) by (apply length_written; lia).
  assert (Em : (if true && (0 <? len)
    then memcpy (written bytes pos vb) (pos + Z.of_nat (length vb)) src len ≫=
         fun bytes => Some (bytes, pos + Z.of_nat (length vb) + len)
    else Some (written bytes pos vb, pos + Z.of_nat (length vb))) =
    Some (written bytes pos (vb ++ src), pos + Z.of_nat (length vb) + len)).
  { destruct (Z.ltb_spec 0 len); cbn [andb].
    - unfold memcpy. fold len. rewrite Z.ltb_irrefl. unfold len. rewrite Nat2Z.id, firstn_all.
      rewrite put_bytes_written by lia. cbn [mbind option_bind]. by rewrite written_app by lia.
    - destruct src; [| cbn [length] in *; lia]. rewrite app_nil_r. do 2 f_equal. unfold len. cbn [length]. lia. }
  rewrite Em. cbn [mbind option_bind].
  assert (Hlw2 : length (written bytes pos (vb ++ src)) = length bytes).
  { apply length_written; [lia |]. rewrite length_app. lia. }
  rewrite store_written by lia. cbn [mbind option_bind]. unfold vstr_bytes. fold len. fold vb.
  replace (pos + Z.of_nat (length vb) + len) with (pos + Z.of_nat (length (vb ++ src)))
    by (rewrite length_app; lia).
  rewrite written_app, <- app_assoc by (rewrite ?length_app; cbn [length]; lia).
  do 2 f_equal. rewrite length_app. lia.
Qed.

Lemma decode_vstr_at bytes data_len pos src old :
  bytes_at bytes pos (u8 <$> vstr_bytes src) -> encoded_length_vstr (Z.of_nat (length src)) < 2 ^ 31 ->
  pos + encoded_length_vstr (Z.of_nat (length src)) <= data_len ->
  let off := pos + encoded_length_vi64 (Z.of_nat (length src)) in
  decode_vstr (Some bytes) data_len pos old =
    Some (Some off, pos + encoded_length_vstr (Z.of_nat (length src)), Z.of_nat (length src)) /\
  bytes_at bytes off (u8 <$> src).
Proof.
  intros Hat Hmax Hsp. unfold vstr_bytes in Hat. set (len := Z.of_nat (length src)) in *.
  rewrite !fmap_app in Hat. apply bytes_at_app in Hat as [Hat1 [Hat2 _]%bytes_at_app].
  rewrite length_fmap, length_vi64_bytes in Hat2. intros off. split; [| done].
  pose proof (encoded_length_vi64_bounds len) as Hb. destruct Hat1 as [Hpos Hat1].
  unfold decode_vstr, encoded_length_vstr in *.
  destruct (Z.ltb_spec data_len 0); [lia |]. destruct (Z.ltb_spec pos 0); [lia |]. cbn [orb].
  assert (E : decode_vi64 (Some bytes) data_len pos 0 =
              Some (OB_SUCCESS, pos + encoded_length_vi64 len, len)).
  { apply (@c_dec_ok _ codec_vi64); cbn [c_len c_dom codec_vi64]; [unfold is_s; lia | done | lia]. }
  rewrite E. cbn [mbind option_bind]. change (ob_fail OB_SUCCESS) with false. cbv iota.
  destruct (Z.leb_spec 0 len); [| lia].
  destruct (Z.leb_spec len (data_len - (pos + encoded_length_vi64 len))); [| lia].
  do 3 f_equal. lia.
Qed.

Lemma put_bytes_fault bs bytes pos :
  0 <= pos -> Z.of_nat (length bytes) < pos + Z.of_nat (length bs) -> bs <> [] ->
  put_bytes bs bytes pos = None.
Proof.
  revert bytes pos. induction bs as [| b bs IH]; intros bytes pos Hpos Hlen Hne; [done |]. clear Hne.
  cbn [put_bytes length] in *.
  destruct (decide (pos < Z.of_nat (length bytes))) as [Hin | Hout].
  - rewrite store_written by lia. cbn [mbind option_bind].
    assert (length (written bytes pos [b]) = length bytes) by (apply length_written; cbn [length]; lia).
    apply IH; [lia | lia |]. intros ->. cbn [length] in *. lia.
  - unfold store. destruct (Z.ltb_spec pos (Z.of_nat (length bytes))); [lia |]. by rewrite andb_false_r.
Qed.

(** The space test of [encode_vstr] truncates the length to 32 bits, so that a
    string of [2 ^ 31] bytes or more passes it whatever the space, and the copy
    leaves the buffer: the call faults on every buffer shorter than the string. *)
Theorem encode_vstr_truncated bytes pos src :
  0 <= pos -> pos + 10 <= Z.of_nat (length bytes) < 2 ^ 31 ->
  2 ^ 31 <= Z.of_nat (length src) <= 2 ^ 32 - 12 ->
  encode_vstr (Some bytes) (Z.of_nat (length bytes)) pos (Some src) (Z.of_nat (length src)) = None.
Proof.
  intros Hpos Hb Hs. unfold encode_vstr. set (len := Z.of_nat (length src)) in *.
  pose proof (encoded_length_vi64_bounds len) as Hv.
  assert (Ht : s32 (encoded_length_vstr len) <= 0).
  { unfold to_s, encoded_length_vstr. change (32 - 1) with 31.
    rewrite <- (Zmod_unique _ _ 1 (encoded_length_vi64 len + len + 1 + 2 ^ 31 - 2 ^ 32)); lia. }
  destruct (Z.leb_spec 0 len); [| lia].
  destruct (Z.leb_spec (s32 (encoded_length_vstr len)) (Z.of_nat (length bytes) - pos)); [cbn [andb] | lia].
  assert (E : encode_vi64 (Some bytes) (Z.of_nat (length bytes)) pos len =
    Some (OB_SUCCESS, Some (written bytes pos (varint_bytes 10 (u64 len))), pos + encoded_length_vi64 len)).
  { apply (@c_enc_ok _ codec_vi64); cbn [c_dom c_len codec_vi64]; [unfold is_s; lia | lia ..]. }
  rewrite E. cbn [mbind option_bind]. rewrite ob_succ_success.
  destruct (Z.ltb_spec 0 len); [cbn [andb] | lia].
  unfold memcpy. fold len. rewrite Z.ltb_irrefl.
  replace (Z.to_nat len) with (length src) by (unfold len; lia). rewrite firstn_all.
  rewrite put_bytes_fault; [done | lia | |].
  - rewrite length_written; rewrite ?length_vi64_bytes; lia.
  - intros ->. unfold len in *. cbn [length] in *. lia.
Qed.

(** ** Little-endian integers *)

Fixpoint le_bytes (n : nat) (shift v : Z) : list Z :=
  match n with
  | O => []
  | S n => s8 (Z.land (Z.shiftr v shift) 0xff) :: le_bytes n (shift + 8) v
  end.

Lemma length_le_bytes n shift v : length (le_bytes n shift v) = n.
Proof. revert shift. induction n as [| n IH]; intros shift; simpl; congruence. Qed.

Lemma encode_uint_loop_ok n shift v bytes buf_len pos :
  0 <= pos -> buf_len <= Z.of_nat (length bytes) -> Z.of_nat n <= buf_len - pos ->
  shift + 8 * Z.of_nat n <= 64 ->
  encode_uint_loop n shift v (Some bytes) buf_len pos =
  Some (OB_SUCCESS, Some (written bytes pos (le_bytes n shift v)), pos + Z.of_nat n).
Proof.
  revert shift bytes pos. induction n as [| n IH]; intros shift bytes pos Hpos Hl Hsp Hsh.
  { simpl. by rewrite written_nil, Z.add_0_r. }
  cbn [encode_uint_loop le_bytes]. destruct (Z.leb_spec 64 shift); [lia |].
  unfold encode_i8. rewrite encode_bytes_ok by (cbn [length]; lia). cbn [mbind option_bind].
  change (ob_fail OB_SUCCESS) with false. cbv iota. change (Z.of_nat (length [_])) with 1.
  assert (length (written bytes pos [s8 (Z.land (Z.shiftr v shift) 255)]) = length bytes)
    by (apply length_written; cbn [length]; lia).
  rewrite IH by lia. rewrite written_cons by (rewrite ?length_le_bytes; lia). do 2 f_equal. lia.
Qed.

Lemma le_join v shift :
  0 <= shift -> shift + 8 <= 64 ->
  Z.lor (v mod 2 ^ shift) (u64 (Z.shiftl (u8 (s8 (u8 (s8 (Z.land (Z.shiftr v shift) 0xff))))) shift)) =
  v mod 2 ^ (shift + 8).
Proof.
  intros Hs Hm. change 0xff with (Z.ones 8). rewrite Z.land_ones by lia.
  rewrite !to_u_of_to_s by lia. change ((Z.shiftr v shift) mod 2 ^ 8) with (u8 (Z.shiftr v shift)).
  rewrite !to_u_idemp by lia. unfold to_u.
  apply Z.bits_inj'. intros n Hn. rewrite Z.lor_spec.
  destruct (Z.lt_ge_cases n (shift + 8)) as [Hl | Hl].
  - rewrite (Z.mod_pow2_bits_low _ (shift + 8)), (Z.mod_pow2_bits_low _ 64), Z.shiftl_spec by lia.
    destruct (Z.lt_ge_cases n shift).
    + rewrite Z.mod_pow2_bits_low, (Z.testbit_neg_r _ (n - shift)) by lia. apply orb_false_r.
    + rewrite Z.mod_pow2_bits_high, Z.mod_pow2_bits_low, Z.shiftr_spec by lia. simpl. f_equal. lia.
  - rewrite !(Z.mod_pow2_bits_high v) by lia. cbn [orb].
    destruct (Z.lt_ge_cases n 64); [| by rewrite Z.mod_pow2_bits_high by lia].
    rewrite Z.mod_pow2_bits_low, Z.shiftl_spec, Z.mod_pow2_bits_high by lia. done.
Qed.

Lemma decode_uint_loop_ok n shift v bytes data_len pos :
  0 <= shift -> shift + 8 * Z.of_nat n <= 64 ->
  bytes_at bytes pos (u8 <$> le_bytes n shift v) -> pos + Z.of_nat n <= data_len ->
  decode_uint_loop n shift (v mod 2 ^ shift) (Some bytes) data_len pos =
  Some (OB_SUCCESS, pos + Z.of_nat n, v mod 2 ^ (shift + 8 * Z.of_nat n)).
Proof.
  revert shift pos. induction n as [| n IH]; intros shift pos Hs Hm Hat Hsp.
  { cbn [decode_uint_loop]. change (Z.of_nat 0) with 0. by rewrite Z.mul_0_r, !Z.add_0_r. }
  cbn [le_bytes decode_uint_loop] in *. rewrite fmap_cons in Hat. unfold decode_i8.
  rewrite (decode_bytes_at bytes data_len pos [u8 (s8 (Z.land (Z.shiftr v shift) 255))]);
    [| by apply (bytes_at_app _ _ [_]) in Hat as [? _] | cbn [length]; lia].
  cbn [mbind option_bind]. change (ob_fail OB_SUCCESS) with false. cbv iota.
  destruct (Z.leb_spec 64 shift); [lia |]. cbn [head default].
  rewrite le_join by lia. rewrite IH; [| lia | lia | by eapply bytes_at_tail | cbn [length]; lia].
  cbn [length]. do 3 f_equal; [lia |]. f_equal. lia.
Qed.

(** An unsigned value of [n] bytes, [n <= 8], written by
    [__encode_uint_with_given_length] is read back by
    [__decode_uint_with_given_length]. *)
Theorem uint_with_given_length_round_trip bytes buf_len pos val n old :
  0 < n <= 8 -> 0 <= val < 2 ^ (8 * n) -> 0 <= pos ->
  buf_len <= Z.of_nat (length bytes) -> n <= buf_len - pos ->
  exists bytes',
    encode_uint_with_given_length (Some bytes) buf_len pos val n =
      Some (OB_SUCCESS, Some bytes', pos + n) /\
    decode_uint_with_given_length (Some bytes') buf_len pos old n = Some (OB_SUCCESS, pos + n, val).
Proof.
  intros Hn Hval Hpos Hlen Hsp. exists (written bytes pos (le_bytes (Z.to_nat n) 0 val)).
  unfold encode_uint_with_given_length, decode_uint_with_given_length.
  destruct (Z.leb_spec n 0); [lia |]. destruct (Z.ltb_spec (buf_len - pos) n); [lia |]. cbn [orb].
  rewrite encode_uint_loop_ok by lia. cbn [mbind option_bind]. rewrite ob_succ_success, Z2Nat.id by lia.
  split; [done |].
  pose proof (decode_uint_loop_ok (Z.to_nat n) 0 val (written bytes pos (le_bytes (Z.to_nat n) 0 val)) buf_len pos) as H'.
  rewrite Z.mod_1_r, Z2Nat.id, Z.add_0_l, (Z.mod_small val) in H' by lia. rewrite H'; [done | lia | lia | | lia].
  apply written_at; rewrite ?length_le_bytes; lia.
Qed.

(** ** Properties *)

(** C39: the integer and boolean codecs, fixed and variable width, round trip: an
    encoding takes the announced number of bytes inside of the buffer, changes
    no other byte, and decodes to the value; without the space for it the
    buffer and the position stay as they are. *)
Theorem integer_codecs_round_trip :
  round_trips codec_i8 /\ round_trips codec_i16 /\ round_trips codec_i32 /\ round_trips codec_i64 /\
  round_trips codec_bool /\ round_trips codec_vi32 /\ round_trips codec_vi64 /\ round_trips codec_u64.
Proof. repeat split; apply codec_round_trips. Qed.

(** A string written by [encode_vstr] is found by [decode_vstr]: the returned
    pointer is at the bytes of the string, the length is the length of the
    string, and the position is after the terminator. *)
Theorem vstr_round_trip bytes buf_len pos src old :
  0 <= pos -> buf_len <= Z.of_nat (length bytes) -> Forall (is_u 8) src ->
  encoded_length_vstr (Z.of_nat (length src)) < 2 ^ 31 ->
  encoded_length_vstr (Z.of_nat (length src)) <= buf_len - pos ->
  exists bytes' off,
    encode_vstr (Some bytes) buf_len pos (Some src) (Z.of_nat (length src)) =
      Some (OB_SUCCESS, Some bytes', pos + encoded_length_vstr (Z.of_nat (length src))) /\
    decode_vstr (Some bytes') buf_len pos old =
      Some (Some off, pos + encoded_length_vstr (Z.of_nat (length src)), Z.of_nat (length src)) /\
    bytes_at bytes' off src.
Proof.
  intros Hpos Hlen Hsrc Hmax Hsp. exists (written bytes pos (vstr_bytes src)).
  exists (pos + encoded_length_vi64 (Z.of_nat (length src))).
  split; [by apply encode_vstr_ok |].
  assert (E : u8 <$> src = src).
  { clear - Hsrc. induction Hsrc as [| b l Hb _ IH]; [done |]. by rewrite fmap_cons, IH, to_u_id. }
  destruct (decode_vstr_at (written bytes pos (vstr_bytes src)) buf_len pos src old) as [H1 H2];
    [apply written_at; rewrite ?length_vstr_bytes; lia | done | lia |].
  rewrite E in H2. done.
Qed.


Lemma fixed_bytes_round_trip_witness :
  exists bytes',
    encode_fixed_bytes_i64 (Some (replicate 8 0)) 8 1 300 = Some (OB_SUCCESS, Some bytes', 6) /\
    decode_vi64 (Some bytes') 8 1 0 = Some (OB_SUCCESS, 6, 300).
Proof. apply (fixed_bytes_round_trip (replicate 8 0) 8 1 300 0); simpl; lia. Defined.

Lemma encode_vstr_truncated_witness :
  encode_vstr (Some (replicate 16 0)) 16 0 (Some (replicate (Z.to_nat (2 ^ 31)) 7)) (2 ^ 31) = None.
Proof.
  pose proof (encode_vstr_truncated (replicate 16 0) 0 (replicate (Z.to_nat (2 ^ 31)) 7)) as H.
  rewrite (length_replicate (Z.to_nat (2 ^ 31))), Z2Nat.id in H by lia.
  apply H; [lia | cbn [replicate length]; lia | lia].
Defined.

Lemma uint_with_given_length_round_trip_witness :
  exists bytes',
    encode_uint_with_given_length (Some (replicate 8 0)) 8 2 70000 3 = Some (OB_SUCCESS, Some bytes', 5) /\
    decode_uint_with_given_length (Some bytes') 8 2 0 3 = Some (OB_SUCCESS, 5, 70000).
Proof. apply (uint_with_given_length_round_trip (replicate 8 0) 8 2 70000 3 0); simpl; lia. Defined.

Lemma vstr_round_trip_witness :
  exists bytes' off,
    encode_vstr (Some (replicate 8 0)) 8 1 (Some [104; 105]) 2 = Some (OB_SUCCESS, Some bytes', 5) /\
    decode_vstr (Some bytes') 8 1 0 = Some (Some off, 5, 2) /\ bytes_at bytes' off [104; 105].
Proof.
  apply (vstr_round_trip (replicate 8 0) 8 1 [104; 105] 0);
    [lia | simpl; lia | repeat constructor; lia | vm_compute; done | vm_compute; done].
Defined.
