(* ===== verification/UnifySerialize.v ===== *)
(** * Records that are serialized member by member

    The macros of [deps/oblib/src/lib/utility/ob_unify_serialize.h]: [OB_UNIS_ENCODE] and
    [OB_UNIS_DECODE] for one member after the other, and the header with version and
    length that [OB_SERIALIZE_MEMBER] puts before them; the overloads of [encode] and
    [decode] for enumerations and for [uint8_t].  A record is a list of members; it is
    again a member of other records.  A result [None] is undefined behaviour. *)

From Stdlib Require Import ZArith Lia Bool.
From stdpp Require Import base numbers option list.
From S2P Require Import Prelude Serialization.

Local Open Scope Z_scope.

(** ** The macros *)

Abbreviation writer := (buffer -> Z -> Z -> outcome (Z * buffer * Z)).
Abbreviation reader V := (buffer -> Z -> Z -> V -> outcome (Z * Z * V)).

(** [LST_DO_CODE(OB_UNIS_ENCODE, ...)] *)
Fixpoint unis_encode (members : list writer) : writer := fun buf buf_len pos =>
  match members with
  | [] => Some (OB_SUCCESS, buf, pos)
  | encode :: members =>
    '(ret, buf, pos) ← encode buf buf_len pos;
    if ob_fail ret then Some (ret, buf, pos) else unis_encode members buf buf_len pos
  end.

(** [LST_DO_CODE(OB_UNIS_DECODE, ...)]: a member behind the data keeps its value. *)
Fixpoint unis_decode {V} (members : list (reader V)) : reader V := fun buf data_len pos v =>
  match members with
  | [] => Some (OB_SUCCESS, pos, v)
  | decode :: members =>
    if pos <? data_len then
      '(ret, pos, v) ← decode buf data_len pos v;
      if ob_fail ret then Some (ret, pos, v) else unis_decode members buf data_len pos v
    else unis_decode members buf data_len pos v
  end.

(** [buf + n], and the buffer whose part from [n] on is [sub]. *)
Definition offset (n : Z) (buf : buffer) : buffer := drop (Z.to_nat n) <$> buf.
Definition put_back (n : Z) (buf sub : buffer) : buffer :=
  match buf, sub with Some bytes, Some part => Some (take (Z.to_nat n) bytes ++ part) | _, _ => buf end.

Definition size_nbytes : Z := Z.of_nat OB_SERIALIZE_SIZE_NEED_BYTES.

(** [OB_UNIS_SERIALIZE] *)
Definition unis_serialize (UNIS_VERSION : Z) (serialize_ : writer) : writer := fun buf buf_len pos =>
  '(ret, buf, pos) ← encode_vi64 buf buf_len pos UNIS_VERSION;
  if ob_fail ret then Some (ret, buf, pos)
  else
    let pos_bak := pos + size_nbytes in
    '(ret, buf, pos) ← serialize_ buf buf_len pos_bak;
    let serial_size := pos - pos_bak in
    if ob_fail ret then Some (ret, buf, pos)
    else
      '(ret, sub, _) ← encode_fixed_bytes_i64 (offset (pos_bak - size_nbytes) buf) size_nbytes 0 serial_size;
      Some (ret, put_back (pos_bak - size_nbytes) buf sub, pos).

(** [decode] of an [int64_t]. *)
Definition decode_int64 : reader Z := fun buf data_len pos _ => decode_vi64 buf data_len pos 0.

(** [CHECK_VERSION_LENGTH]; the sum of the length and the position can overflow. *)
Definition check_version_length (UNIS_VERSION version len data_len pos : Z) : outcome Z :=
  if negb (version =? UNIS_VERSION) then Some OB_NOT_SUPPORTED
  else if len <? 0 then Some OB_ERR_UNEXPECTED
  else if INT64_MAX <? len + pos then None
  else if data_len <? len + pos then Some OB_DESERIALIZE_ERROR
  else Some OB_SUCCESS.

(** [OB_UNIS_DESERIALIZE] *)
Definition unis_deserialize {V} (UNIS_VERSION : Z) (deserialize_ : reader V) : reader V := fun buf data_len pos v =>
  '(ret, pos, (version, len)) ←
    unis_decode [ (fun buf data_len pos (h : Z * Z) =>
                     '(ret, pos, x) ← decode_int64 buf data_len pos h.1; Some (ret, pos, (x, h.2)));
                  (fun buf data_len pos (h : Z * Z) =>
                     '(ret, pos, x) ← decode_int64 buf data_len pos h.2; Some (ret, pos, (h.1, x))) ] buf data_len pos (0, 0);
  if ob_fail ret then Some (ret, pos, v)
  else
    ret ← check_version_length UNIS_VERSION version len data_len pos;
    if ob_fail ret then Some (ret, pos, v)
    else
      '(ret, _, v) ← deserialize_ (offset pos buf) len 0 v;
      Some (ret, pos + len, v).

(** [OB_UNIS_SERIALIZE_SIZE] *)
Definition unis_serialize_size (UNIS_VERSION size : Z) : Z := size + encoded_length_vi64 UNIS_VERSION + size_nbytes.

(** [EnumEncoder<true, T>], for an enumeration over [char]. *)
Definition encode_enum (buf : buffer) (buf_len pos val : Z) : outcome (Z * buffer * Z) := encode_vi32 buf buf_len pos val.
Definition decode_enum : reader Z := fun buf data_len pos _ =>
  '(ret, pos, ival) ← decode_vi32 buf data_len pos 0; Some (ret, pos, to_s 8 ival).

(** The overloads for [uint8_t]. *)
Definition encode_uint8 (buf : buffer) (buf_len pos val : Z) : outcome (Z * buffer * Z) := encode_i8 buf buf_len pos (to_s 8 val).
Definition decode_uint8 : reader Z := fun buf data_len pos _ =>
  '(ret, pos, v) ← decode_i8 buf data_len pos 0; Some (ret, pos, u8 v).

(** ** What a member promises

    As a [Codec], but without a promise for a buffer that is too short: a record is then
    written in part. *)
Record wire (A : Type) := Wire {
  w_dom : A -> Prop;
  w_len : A -> Z;
  w_bytes : A -> list Z;
  w_enc : buffer -> Z -> Z -> A -> outcome (Z * buffer * Z);
  w_dec : reader A;
  w_len_pos : forall v, w_dom v -> 0 < w_len v;
  w_len_bytes : forall v, w_dom v -> Z.of_nat (length (w_bytes v)) = w_len v;
  w_enc_ok : forall v bytes buf_len pos, w_dom v -> 0 <= pos -> buf_len <= Z.of_nat (length bytes) -> w_len v <= buf_len - pos ->
    w_enc (Some bytes) buf_len pos v = Some (OB_SUCCESS, Some (written bytes pos (w_bytes v)), pos + w_len v);
  w_dec_ok : forall v bytes data_len pos old, w_dom v -> bytes_at bytes pos (u8 <$> w_bytes v) -> pos + w_len v <= data_len -> data_len <= INT64_MAX ->
    w_dec (Some bytes) data_len pos old = Some (OB_SUCCESS, pos + w_len v, v) }.

Arguments Wire {A}.
Arguments w_dom {A}.
Arguments w_len {A}.
Arguments w_bytes {A}.
Arguments w_enc {A}.
Arguments w_dec {A}.
Arguments w_len_pos {A}.
Arguments w_len_bytes {A}.
Arguments w_enc_ok {A}.
Arguments w_dec_ok {A}.

(** A member of a record of type [V]. *)
Record member (V : Type) := Member { m_type : Type; m_wire : wire m_type; m_get : V -> m_type; m_set : m_type -> V -> V }.

Arguments Member {V m_type}.
Arguments m_type {V}.
Arguments m_wire {V}.
Arguments m_get {V}.
Arguments m_set {V}.

(** [OB_SERIALIZE_NOHEADER], [OB_DESERIALIZE_NOHEADER], [OB_SERIALIZE_SIZE_NOHEADER] *)
Definition members_serialize_ {V} (ms : list (member V)) (v : V) : writer :=
  unis_encode ((fun m buf buf_len pos => w_enc m.(m_wire) buf buf_len pos (m.(m_get) v)) <$> ms).
Definition members_deserialize_ {V} (ms : list (member V)) : reader V :=
  unis_decode ((fun m buf data_len pos v =>
    '(ret, pos, x) ← w_dec m.(m_wire) buf data_len pos (m.(m_get) v); Some (ret, pos, m.(m_set) x v)) <$> ms).
Definition members_serialize_size_ {V} (ms : list (member V)) (v : V) : Z :=
  foldr Z.add 0 ((fun m => w_len m.(m_wire) (m.(m_get) v)) <$> ms).

(** ** Members in sequence *)

Section members.
Context {V : Type}.
Implicit Types (ms : list (member V)) (v : V).

Definition members_dom ms v : Prop := Forall (fun m => w_dom m.(m_wire) (m.(m_get) v)) ms.
Definition members_bytes ms v : list Z := concat ((fun m => w_bytes m.(m_wire) (m.(m_get) v)) <$> ms).

(** The members of [v] assigned to another value, one after the other. *)
Definition assign ms v (old : V) : V := foldl (fun x m => m.(m_set) (m.(m_get) v) x) old ms.

Lemma length_of_members ms v : members_dom ms v -> Z.of_nat (length (members_bytes ms v)) = members_serialize_size_ ms v.
Proof.
  unfold members_bytes, members_serialize_size_. induction 1 as [|m ms Hm _ IH]; [done|]. cbn.
  rewrite length_app, <- (w_len_bytes _ _ Hm), Nat2Z.inj_add. f_equal. exact IH.
Qed.

Lemma members_size_nonneg ms v : members_dom ms v -> 0 <= members_serialize_size_ ms v.
Proof. intros H. rewrite <- length_of_members by done. lia. Qed.

Lemma members_encode_ok ms v : members_dom ms v -> forall bytes buf_len pos, 0 <= pos -> buf_len <= Z.of_nat (length bytes) ->
  members_serialize_size_ ms v <= buf_len - pos ->
  members_serialize_ ms v (Some bytes) buf_len pos =
  Some (OB_SUCCESS, Some (written bytes pos (members_bytes ms v)), pos + members_serialize_size_ ms v).
Proof.
  unfold members_serialize_. induction 1 as [|m ms Hm Hms IH]; intros bytes buf_len pos Hpos Hlen Hsp.
  { cbn. unfold members_bytes. cbn. by rewrite written_nil, Z.add_0_r. }
  pose proof (members_size_nonneg ms v Hms) as H0. pose proof (length_of_members ms v Hms) as H1. pose proof (w_len_bytes _ _ Hm) as H2.
  pose proof (w_len_pos _ _ Hm) as H3. change (members_serialize_size_ (m :: ms) v) with (w_len (m_wire m) (m_get m v) + members_serialize_size_ ms v) in *.
  cbn [fmap list_fmap unis_encode]. rewrite w_enc_ok by (done || lia). cbn.
  rewrite IH; [|lia | rewrite length_written; lia | lia].
  change (members_bytes (m :: ms) v) with (w_bytes (m_wire m) (m_get m v) ++ members_bytes ms v).
  rewrite <- H2 at 1. rewrite written_app by lia. do 2 f_equal. lia.
Qed.

Lemma members_decode_ok ms v : members_dom ms v -> forall bytes data_len pos old, bytes_at bytes pos (u8 <$> members_bytes ms v) ->
  pos + members_serialize_size_ ms v <= data_len -> data_len <= INT64_MAX ->
  members_deserialize_ ms (Some bytes) data_len pos old = Some (OB_SUCCESS, pos + members_serialize_size_ ms v, assign ms v old).
Proof.
  unfold members_deserialize_. induction 1 as [|m ms Hm Hms IH]; intros bytes data_len pos old Hat Hsp Hmax.
  { cbn. by rewrite Z.add_0_r. }
  pose proof (members_size_nonneg ms v Hms) as H0. pose proof (w_len_pos _ _ Hm) as H3.
  change (members_serialize_size_ (m :: ms) v) with (w_len (m_wire m) (m_get m v) + members_serialize_size_ ms v) in *.
  change (members_bytes (m :: ms) v) with (w_bytes (m_wire m) (m_get m v) ++ members_bytes ms v) in Hat.
  rewrite fmap_app in Hat. apply bytes_at_app in Hat as [Hat1 Hat2]. rewrite length_fmap, (w_len_bytes _ _ Hm) in Hat2.
  cbn [fmap list_fmap unis_decode]. destruct (Z.ltb_spec pos data_len); [|lia]. rewrite (w_dec_ok _ (m_get m v)) by (done || lia). cbn.
  rewrite IH by (done || lia). do 2 f_equal. f_equal. lia.
Qed.
End members.

(** ** The header *)

Lemma put_back_written n bytes bs : put_back n (Some bytes) (Some (written (drop (Z.to_nat n) bytes) 0 bs)) = Some (written bytes n bs).
Proof. unfold put_back, written. cbn. by rewrite drop_drop. Qed.

Lemma lookup_written bytes pos bs i : 0 <= pos -> pos + Z.of_nat (length bs) <= Z.of_nat (length bytes) ->
  written bytes pos bs !! i =
  if decide (Z.to_nat pos <= i < Z.to_nat pos + length bs)%nat then (u8 <$> bs) !! (i - Z.to_nat pos)%nat else bytes !! i.
Proof.
  intros Hpos Hlen. destruct (decide _) as [H|H]; [|apply written_frame; lia].
  destruct (written_at bytes pos bs Hpos Hlen) as [_ Hat].
  destruct (lookup_lt_is_Some_2 (u8 <$> bs) (i - Z.to_nat pos)%nat) as [b Hb]; [rewrite length_fmap; lia|].
  rewrite Hb. rewrite <- (Hat _ _ Hb). f_equal. lia.
Qed.

(** The header is written after the members, before them. *)
Lemma prefix_written bytes pos bs cs : 0 <= pos -> pos + Z.of_nat (length bs + length cs) <= Z.of_nat (length bytes) ->
  written (written bytes (pos + Z.of_nat (length bs)) cs) pos bs = written bytes pos (bs ++ cs).
Proof.
  intros Hpos Hlen. rewrite <- written_app by lia. apply list_eq. intros i.
  rewrite !lookup_written; rewrite ?length_written; try lia. repeat case_decide; lia || done.
Qed.

Lemma bytes_at_drop bytes pos bs : bytes_at bytes pos bs -> bytes_at (drop (Z.to_nat pos) bytes) 0 bs.
Proof. intros [Hpos H]. split; [done|]. intros i b Hi. rewrite lookup_drop. by apply H. Qed.

Lemma encode_fixed_ok bytes val : 0 <= val < 2 ^ 35 -> 5 <= Z.of_nat (length bytes) ->
  encode_fixed_bytes_i64 (Some bytes) 5 0 val = Some (OB_SUCCESS, Some (written bytes 0 (fixed_bytes 5 val)), 5).
Proof.
  intros Hv Hl. unfold encode_fixed_bytes_i64, OB_SERIALIZE_SIZE_NEED_BYTES. cbn -[put_fixed].
  rewrite put_fixed_written by lia. by rewrite to_u_id by (unfold is_u; lia).
Qed.

Lemma decode_fixed_ok bytes data_len pos val old : 0 <= val < 2 ^ 35 -> bytes_at bytes pos (u8 <$> fixed_bytes 5 val) ->
  pos + 5 <= data_len -> decode_vi64 (Some bytes) data_len pos old = Some (OB_SUCCESS, pos + 5, val).
Proof.
  intros Hv Hat Hl. unfold decode_vi64, decode_varint. cbn [mbind option_bind].
  assert (Z.to_nat pos + 5 <= length bytes)%nat as Hb by (by apply bytes_at_length in Hat; [rewrite length_fmap, length_fixed_bytes in Hat|]).
  rewrite (get_varint_fixed _ 5 64 val); [| lia | lia | exact Hv | lia | lia | done | lia | lia].
  cbn [mbind option_bind]. rewrite Z.lor_0_l, Z.shiftl_0_r, to_u_id by (unfold is_u; lia).
  change (ob_fail OB_SUCCESS) with false. cbv iota. rewrite to_s_id; [done | lia |]. unfold is_s. lia.
Qed.

(** ** A record *)

Section record.
Context {V : Type} (UNIS_VERSION : Z) (ms : list (member V)).
Hypothesis version_ok : is_s 64 UNIS_VERSION.
Hypothesis assign_all : forall v old, assign ms v old = v.

Definition record_bytes (v : V) : list Z :=
  varint_bytes 10 (u64 UNIS_VERSION) ++ fixed_bytes 5 (members_serialize_size_ ms v) ++ members_bytes ms v.

(** The length of the members fits in the five bytes. *)
Definition record_dom (v : V) : Prop := members_dom ms v /\ members_serialize_size_ ms v < 2 ^ 35.

Definition record_serialize (v : V) : writer := unis_serialize UNIS_VERSION (members_serialize_ ms v).
Definition record_deserialize : reader V := unis_deserialize UNIS_VERSION (members_deserialize_ ms).
Definition record_serialize_size (v : V) : Z := unis_serialize_size UNIS_VERSION (members_serialize_size_ ms v).

Lemma length_record v : record_dom v -> Z.of_nat (length (record_bytes v)) = record_serialize_size v.
Proof.
  intros [Hv _]. unfold record_bytes, record_serialize_size, unis_serialize_size, size_nbytes.
  rewrite !length_app, length_fixed_bytes, !Nat2Z.inj_add, length_vi64_bytes, length_of_members by done.
  unfold OB_SERIALIZE_SIZE_NEED_BYTES. lia.
Qed.

Lemma record_size_pos v : record_dom v -> 0 < record_serialize_size v.
Proof.
  intros [Hv _]. pose proof (members_size_nonneg ms v Hv). pose proof (encoded_length_vi64_bounds UNIS_VERSION).
  unfold record_serialize_size, unis_serialize_size, size_nbytes. lia.
Qed.

Lemma record_encode_ok v bytes buf_len pos : record_dom v -> 0 <= pos -> buf_len <= Z.of_nat (length bytes) ->
  record_serialize_size v <= buf_len - pos ->
  record_serialize v (Some bytes) buf_len pos = Some (OB_SUCCESS, Some (written bytes pos (record_bytes v)), pos + record_serialize_size v).
Proof.
  intros [Hv Hsize] Hpos Hlen Hsp. pose proof (members_size_nonneg ms v Hv) as H0. pose proof (length_of_members ms v Hv) as H1.
  pose proof (encoded_length_vi64_bounds UNIS_VERSION) as Hb. pose proof (length_vi64_bytes UNIS_VERSION) as H2.
  unfold record_serialize, unis_serialize, record_serialize_size, unis_serialize_size in *. change size_nbytes with 5 in *.
  pose proof (@c_enc_ok _ codec_vi64 UNIS_VERSION bytes buf_len pos version_ok) as E. cbn [c_len c_enc c_bytes codec_vi64] in E.
  rewrite E by lia. clear E. cbn [mbind option_bind]. change (ob_fail OB_SUCCESS) with false. cbv iota zeta.
  rewrite members_encode_ok; [|done | lia | rewrite length_written; lia | lia]. cbn [mbind option_bind]. change (ob_fail OB_SUCCESS) with false. cbv iota zeta.
  rewrite (Z.add_simpl_l (pos + encoded_length_vi64 UNIS_VERSION + 5)).
  replace (pos + encoded_length_vi64 UNIS_VERSION + 5 - 5) with (pos + encoded_length_vi64 UNIS_VERSION) by lia.
  unfold offset. cbn [fmap option_fmap option_map]. rewrite encode_fixed_ok; [|lia | rewrite length_drop, !length_written; rewrite ?length_written; lia]. cbn [mbind option_bind].
  rewrite put_back_written. do 2 f_equal; [f_equal; f_equal | lia].
  pose proof (length_fixed_bytes 5 (members_serialize_size_ ms v)) as H5. unfold record_bytes. rewrite <- (written_app bytes pos), H2 by (rewrite ?length_app; lia).
  rewrite <- prefix_written; rewrite ?length_written, ?H5; [done | lia ..].
Qed.

Lemma record_decode_ok v bytes data_len pos old : record_dom v -> bytes_at bytes pos (u8 <$> record_bytes v) ->
  pos + record_serialize_size v <= data_len -> data_len <= INT64_MAX ->
  record_deserialize (Some bytes) data_len pos old = Some (OB_SUCCESS, pos + record_serialize_size v, v).
Proof.
  intros [Hv Hsize] Hat Hsp Hmax. pose proof (members_size_nonneg ms v Hv) as H0. pose proof (length_of_members ms v Hv) as H1.
  pose proof (encoded_length_vi64_bounds UNIS_VERSION) as Hb. pose proof (length_vi64_bytes UNIS_VERSION) as H2.
  unfold record_bytes in Hat. rewrite !fmap_app in Hat. apply bytes_at_app in Hat as [Hat1 Hat2]. apply bytes_at_app in Hat2 as [Hat2 Hat3].
  rewrite !length_fmap, length_fixed_bytes, H2 in *.
  unfold record_deserialize, unis_deserialize, record_serialize_size, unis_serialize_size in *. change size_nbytes with 5 in *.
  cbn [unis_decode]. destruct (Z.ltb_spec pos data_len); [|lia]. unfold decode_int64.
  pose proof (@c_dec_ok _ codec_vi64 UNIS_VERSION bytes data_len pos 0 version_ok Hat1) as E. cbn [c_len c_dec codec_vi64] in E.
  rewrite E by lia. clear E. cbn [mbind option_bind fst snd]. change (ob_fail OB_SUCCESS) with false. cbv iota.
  destruct (Z.ltb_spec (pos + encoded_length_vi64 UNIS_VERSION) data_len); [|lia].
  rewrite (decode_fixed_ok _ _ _ (members_serialize_size_ ms v)) by (done || lia).
  cbn [mbind option_bind fst snd]. change (ob_fail OB_SUCCESS) with false. cbv iota.
  cbn [mbind option_bind]. change (ob_fail OB_SUCCESS) with false. cbv iota. unfold check_version_length. rewrite Z.eqb_refl. cbn [negb].
  destruct (Z.ltb_spec (members_serialize_size_ ms v) 0); [lia|]. destruct (Z.ltb_spec INT64_MAX (members_serialize_size_ ms v + (pos + encoded_length_vi64 UNIS_VERSION + 5))); [lia|].
  destruct (Z.ltb_spec data_len (members_serialize_size_ ms v + (pos + encoded_length_vi64 UNIS_VERSION + 5))); [lia|].
  cbn [mbind option_bind]. change (ob_fail OB_SUCCESS) with false. cbv iota.
  unfold offset. cbn [fmap option_fmap option_map]. rewrite (members_decode_ok ms v); [|done | | lia | unfold INT64_MAX; lia].
  - cbn [mbind option_bind]. rewrite assign_all. do 2 f_equal. f_equal. lia.
  - by apply bytes_at_drop.
Qed.

(** A record is a member of other records. *)
Definition record_wire : wire V :=
  Wire record_dom record_serialize_size record_bytes (fun buf buf_len pos v => record_serialize v buf buf_len pos) record_deserialize
    record_size_pos length_record record_encode_ok record_decode_ok.
End record.

(** ** Members of basic types *)

(** The value before a decoding does not matter. *)
Program Definition int64_wire : wire Z := {|
  w_dom := is_s 64; w_len := encoded_length_vi64; w_bytes := c_bytes (Codec := codec_vi64); w_enc := encode_vi64; w_dec := decode_int64 |}.
Next Obligation. intros v _. pose proof (encoded_length_vi64_bounds v). lia. Qed.
Next Obligation. intros v Hv. by apply (@c_len_bytes _ codec_vi64). Qed.
Next Obligation. intros. by apply (@c_enc_ok _ codec_vi64). Qed.
Next Obligation. intros. by apply (@c_dec_ok _ codec_vi64). Qed.

Program Definition enum_wire : wire Z := {|
  w_dom := is_s 8; w_len := encoded_length_vi32; w_bytes := c_bytes (Codec := codec_vi32); w_enc := encode_enum; w_dec := decode_enum |}.
Next Obligation. intros v _. pose proof (encoded_length_vi32_bounds v). lia. Qed.
Next Obligation. intros v Hv. apply (@c_len_bytes _ codec_vi32). unfold c_dom, is_s in *. cbn. unfold is_s. lia. Qed.
Next Obligation. intros v **. apply (@c_enc_ok _ codec_vi32); try done. cbn. unfold is_s in *. lia. Qed.
Next Obligation.
  intros v bytes data_len pos old Hv Hat Hl _. unfold decode_enum.
  pose proof (@c_dec_ok _ codec_vi32 v bytes data_len pos 0) as E. cbn [c_len c_dec c_dom codec_vi32] in E.
  rewrite E; [|unfold is_s in *; lia | done | done]. cbn [mbind option_bind]. by rewrite to_s_id.
Qed.

Program Definition uint8_wire : wire Z := {|
  w_dom := is_u 8; w_len := fun _ => 1; w_bytes := fun v => [to_s 8 v]; w_enc := encode_uint8; w_dec := decode_uint8 |}.
Next Obligation. done. Qed.
Next Obligation. done. Qed.
Next Obligation. intros. apply (@c_enc_ok _ codec_i8 (to_s 8 v)); try done. by apply to_s_range. Qed.
Next Obligation.
  intros v bytes data_len pos old Hv Hat Hl _. unfold decode_uint8.
  pose proof (@c_dec_ok _ codec_i8 (to_s 8 v) bytes data_len pos 0) as E. cbn [c_len c_dec c_dom codec_i8] in E.
  rewrite E; [|by apply to_s_range | done | done]. cbn [mbind option_bind]. by rewrite to_u_to_s.
Qed.
