(* ===== verification/Scn.v ===== *)
(** * System change numbers: [SCN] of [src/share/scn.h] and [src/share/scn.cpp]

    The timestamp that orders logs and transactions: 62 bits of nanoseconds and
    a two-bit version in one 64-bit word.  The file has the order with its
    treatment of invalid values, the arithmetic and the conversions with their
    bounds, the compare-and-swap loops under interference from other threads,
    and the two serialized forms. *)

From Stdlib Require Import ZArith Lia Bool.
From stdpp Require Import base list option numbers.
From S2P Require Import Prelude Serialization.

Local Open Scope Z_scope.

(** The word [val_] of an [SCN]. *)
Abbreviation SCN := Z.

Definition OB_INVALID_SCN_VAL : Z := UINT64_MAX.
Definition OB_MIN_SCN_TS_NS : Z := 0.
Definition OB_BASE_SCN_TS_NS : Z := 1.
Definition OB_MAX_SCN_TS_NS : Z := Z.shiftl 1 62 - 1.
Definition SCN_VERSION : Z := 0.

(** The bit fields [ts_ns_ : 62] and [v_ : 2] of the union, and assignments to
    them. *)
Definition ts_ns_ (val : SCN) : Z := Z.land val (Z.ones 62).
Definition v_ (val : SCN) : Z := Z.shiftr val 62.
Definition set_ts_ns (x : Z) (val : SCN) : SCN := Z.lor (Z.shiftl (v_ val) 62) (to_u 62 x).
Definition set_v (x : Z) (val : SCN) : SCN := Z.lor (Z.shiftl (to_u 2 x) 62) (ts_ns_ val).

Definition reset (val : SCN) : SCN := OB_INVALID_SCN_VAL.
Definition set_invalid (val : SCN) : SCN := reset val.
Definition set_max (val : SCN) : SCN := set_ts_ns OB_MAX_SCN_TS_NS (set_v SCN_VERSION val).
Definition set_min (val : SCN) : SCN := set_ts_ns OB_MIN_SCN_TS_NS (set_v SCN_VERSION val).
Definition set_base (val : SCN) : SCN := set_ts_ns OB_BASE_SCN_TS_NS (set_v SCN_VERSION val).

Definition is_valid (val : SCN) : bool := SCN_VERSION =? v_ val.
Definition is_valid_and_not_min (val : SCN) : bool :=
  (SCN_VERSION =? v_ val) && negb (OB_MIN_SCN_TS_NS =? val).
Definition is_max (val : SCN) : bool := (v_ val =? SCN_VERSION) && (ts_ns_ val =? OB_MAX_SCN_TS_NS).
Definition is_min (val : SCN) : bool := (v_ val =? SCN_VERSION) && (ts_ns_ val =? OB_MIN_SCN_TS_NS).
Definition is_base_scn (val : SCN) : bool :=
  (SCN_VERSION =? v_ val) && (OB_BASE_SCN_TS_NS =? ts_ns_ val).

Definition invalid_scn : SCN := set_invalid OB_INVALID_SCN_VAL.
Definition max_scn : SCN := set_max OB_INVALID_SCN_VAL.
Definition min_scn : SCN := set_min OB_INVALID_SCN_VAL.
Definition base_scn : SCN := set_base OB_INVALID_SCN_VAL.

(** ** The order: an invalid value is below every valid one *)

Definition scn_eq (a b : SCN) : bool := a =? b.
Definition scn_ne (a b : SCN) : bool := negb (a =? b).

Definition scn_lt (a b : SCN) : bool :=
  if negb (is_valid a) && negb (is_valid b) then false
  else if negb (is_valid a) then true
  else if negb (is_valid b) then false
  else ts_ns_ a <? ts_ns_ b.

Definition scn_le (a b : SCN) : bool :=
  if negb (is_valid a) && negb (is_valid b) then true
  else if negb (is_valid a) then true
  else if negb (is_valid b) then false
  else ts_ns_ a <=? ts_ns_ b.

Definition scn_gt (a b : SCN) : bool :=
  if negb (is_valid a) && negb (is_valid b) then false
  else if negb (is_valid a) then false
  else if negb (is_valid b) then true
  else ts_ns_ b <? ts_ns_ a.

Definition scn_ge (a b : SCN) : bool :=
  if negb (is_valid a) && negb (is_valid b) then true
  else if negb (is_valid a) then false
  else if negb (is_valid b) then true
  else ts_ns_ b <=? ts_ns_ a.

Definition max (left right : SCN) : SCN :=
  if negb (is_valid left) then right
  else if negb (is_valid right) then left
  else if scn_gt right left then right else left.

Definition min (left right : SCN) : SCN :=
  if negb (is_valid left) then left
  else if negb (is_valid right) then right
  else if scn_lt right left then right else left.

(** ** Arithmetic *)

Definition plus (ref : SCN) (delta : Z) : SCN :=
  let new_val := u64 (ref + delta) in
  if (OB_MAX_SCN_TS_NS <=? delta) || negb (is_valid ref) then OB_INVALID_SCN_VAL
  else if OB_MAX_SCN_TS_NS <? new_val then OB_INVALID_SCN_VAL
  else new_val.

Definition minus (ref : SCN) (delta : Z) : SCN :=
  if (OB_MAX_SCN_TS_NS <=? delta) || negb (is_valid ref) then OB_INVALID_SCN_VAL
  else if ref <? delta then OB_INVALID_SCN_VAL
  else ref - delta.

Definition scn_inc (ref : SCN) : SCN :=
  if OB_MAX_SCN_TS_NS <=? ref then OB_INVALID_SCN_VAL else ref + 1.

Definition scn_dec (ref : SCN) : SCN :=
  if (OB_MIN_SCN_TS_NS =? ref) || negb (is_valid ref) then OB_INVALID_SCN_VAL else ref - 1.

(** ** Compare and swap

    [interf] is what other threads store into the word before each of this
    thread's compare-and-swaps ([None] for no store). *)

Definition atomic_vcas (val old_v new_val : SCN) : SCN * SCN :=
  (val, if val =? old_v then new_val else val).
Definition atomic_bcas (val old_v new_val : SCN) : bool * SCN :=
  (val =? old_v, if val =? old_v then new_val else val).

Definition interfere (interf : list (option SCN)) (val : SCN) : SCN * list (option SCN) :=
  match interf with
  | [] => (val, [])
  | Some w :: interf => (w, interf)
  | None :: interf => (val, interf)
  end.

(** [while ((old_scn = new_scn) before ref_scn)
      { if ((new_scn = VCAS (&val_, old_scn, ref_scn)) == old_scn) new_scn = ref_scn; }]
    with the comparison [before]; the result is [new_scn] and the word. *)
Fixpoint update_loop (fuel : nat) (before : SCN -> SCN -> bool) (interf : list (option SCN))
    (val new_scn ref_scn : SCN) : option (SCN * SCN) :=
  match fuel with
  | O => None
  | S fuel =>
    let old_scn := new_scn in
    if before old_scn ref_scn then
      let '(val, interf) := interfere interf val in
      let '(new_scn, val) := atomic_vcas val old_scn ref_scn in
      let new_scn := if new_scn =? old_scn then ref_scn else new_scn in
      update_loop fuel before interf val new_scn ref_scn
    else Some (new_scn, val)
  end.

(** Each store of another thread costs at most one round. *)
Definition inc_update (interf : list (option SCN)) (val ref_scn : SCN) : option (SCN * SCN) :=
  update_loop (length interf + 2) scn_lt interf val val ref_scn.
Definition dec_update (interf : list (option SCN)) (val ref_scn : SCN) : option (SCN * SCN) :=
  update_loop (length interf + 2) scn_gt interf val val ref_scn.

(** ** Conversions *)

Definition convert_to_ts (val : SCN) : Z := if is_valid val then ts_ns_ val / 1000 else 0.

Definition convert_from_ts (ts_us : Z) (val : SCN) : Z * SCN :=
  let ts_ns := u64 (ts_us * 1000) in
  if OB_MAX_SCN_TS_NS / 1000 + 1 <=? ts_us then (OB_INVALID_ARGUMENT, val)
  else (OB_SUCCESS, set_v SCN_VERSION (set_ts_ns ts_ns val)).

Definition convert_for_gts (ts_ns : Z) (val : SCN) : Z * SCN :=
  if (ts_ns <? 0) || (OB_MAX_SCN_TS_NS <? u64 ts_ns) then (OB_INVALID_ARGUMENT, val)
  else (OB_SUCCESS, set_v SCN_VERSION (set_ts_ns ts_ns val)).

Definition convert_for_logservice (scn_val : Z) (val : SCN) : Z * SCN :=
  if OB_MAX_SCN_TS_NS <? scn_val then (OB_INVALID_ARGUMENT, val) else (OB_SUCCESS, scn_val).
Definition convert_for_inner_table_field (value : Z) (val : SCN) : Z * SCN :=
  if OB_MAX_SCN_TS_NS <? value then (OB_INVALID_ARGUMENT, val) else (OB_SUCCESS, value).
Definition convert_for_sql (value : Z) (val : SCN) : Z * SCN :=
  if OB_MAX_SCN_TS_NS <? value then (OB_INVALID_ARGUMENT, val) else (OB_SUCCESS, value).

Definition get_val_for_inner_table_field (val : SCN) : Z := val.
Definition get_val_for_sql (val : SCN) : Z := val.
Definition get_val_for_gts (val : SCN) : Z := val.
Definition get_val_for_logservice (val : SCN) : Z := val.

Definition convert_for_tx (trans_version : Z) (val : SCN) : Z * SCN :=
  if trans_version =? INT64_MAX then (OB_SUCCESS, OB_MAX_SCN_TS_NS)
  else if (trans_version <? 0) || (OB_MAX_SCN_TS_NS <? u64 trans_version) then (OB_INVALID_ARGUMENT, val)
  else (OB_SUCCESS, trans_version).

Definition get_val_for_tx (val : SCN) : Z :=
  if negb (is_valid val) then -1
  else if OB_MAX_SCN_TS_NS =? ts_ns_ val then INT64_MAX
  else ts_ns_ val.

(** ** Serialized forms *)

Definition transform_max_ (val : SCN) : SCN := if INT64_MAX =? val then set_max val else val.

Definition fixed_serialize (buf : buffer) (buf_len pos : Z) (val : SCN) : outcome (Z * buffer * Z) :=
  match buf with
  | None => Some (OB_INVALID_ARGUMENT, buf, pos)
  | Some _ =>
    if buf_len <=? 0 then Some (OB_INVALID_ARGUMENT, buf, pos)
    else
      '(ret, buf, new_pos) ← encode_i64 buf buf_len pos (s64 val);
      Some (ret, buf, if ob_fail ret then pos else new_pos)
  end.

Definition fixed_deserialize_without_transform (buf : buffer) (data_len pos : Z) (val : SCN) :
    outcome (Z * Z * SCN) :=
  match buf with
  | None => Some (OB_INVALID_ARGUMENT, pos, val)
  | Some _ =>
    if data_len <=? 0 then Some (OB_INVALID_ARGUMENT, pos, val)
    else
      '(ret, new_pos, v) ← decode_i64 buf data_len pos (s64 val);
      Some (ret, if ob_fail ret then pos else new_pos, u64 v)
  end.

Definition fixed_deserialize (buf : buffer) (data_len pos : Z) (val : SCN) : outcome (Z * Z * SCN) :=
  '(ret, pos, val) ← fixed_deserialize_without_transform buf data_len pos val;
  Some (ret, pos, if ob_fail ret then val else transform_max_ val).

Definition get_fixed_serialize_size (val : SCN) : Z := encoded_length_i64 (s64 val).

Definition serialize (buf : buffer) (buf_len pos : Z) (val : SCN) : outcome (Z * buffer * Z) :=
  match buf with
  | None => Some (OB_INVALID_ARGUMENT, buf, pos)
  | Some _ =>
    if buf_len <=? 0 then Some (OB_INVALID_ARGUMENT, buf, pos)
    else
      '(ret, buf, new_pos) ← encode_u64 buf buf_len pos val;
      Some (ret, buf, if ob_fail ret then pos else new_pos)
  end.

Definition deserialize (buf : buffer) (data_len pos : Z) (val : SCN) : outcome (Z * Z * SCN) :=
  match buf with
  | None => Some (OB_INVALID_ARGUMENT, pos, val)
  | Some _ =>
    if data_len <=? 0 then Some (OB_INVALID_ARGUMENT, pos, val)
    else
      '(ret, new_pos, v) ← decode_u64 buf data_len pos val;
      Some (if ob_fail ret then (ret, pos, v) else (ret, new_pos, transform_max_ v))
  end.

Definition get_serialize_size (val : SCN) : Z := encoded_length_u64 val.

(** ** Fields *)

Lemma OB_MAX_SCN_TS_NS_val : OB_MAX_SCN_TS_NS = 2 ^ 62 - 1.
Proof. done. Qed.

Lemma ts_ns_mod val : ts_ns_ val = val mod 2 ^ 62.
Proof. apply Z.land_ones. lia. Qed.

Lemma v_div val : v_ val = val / 2 ^ 62.
Proof. unfold v_. by rewrite Z.shiftr_div_pow2 by lia. Qed.

(** A value of the word is valid exactly when it is a time. *)
Lemma is_valid_spec val : is_u 64 val -> is_valid val = (val <? 2 ^ 62).
Proof.
  intros [H0 _]. unfold is_valid, SCN_VERSION. rewrite v_div.
  destruct (Z.ltb_spec val (2 ^ 62)) as [H | H].
  - by rewrite Z.div_small by lia.
  - apply Z.eqb_neq. assert (1 <= val / 2 ^ 62) by (apply Z.div_le_lower_bound; lia). lia.
Qed.

Lemma is_valid_true val : is_u 64 val -> is_valid val = true <-> val < 2 ^ 62.
Proof. intros H. rewrite is_valid_spec by done. apply Z.ltb_lt. Qed.

Lemma ts_ns_valid val : is_u 64 val -> is_valid val = true -> ts_ns_ val = val.
Proof. intros Hu Hv%is_valid_true; [| done]. rewrite ts_ns_mod. destruct Hu. apply Z.mod_small. lia. Qed.

Lemma set_fields x val : 0 <= x < 2 ^ 62 -> set_ts_ns x (set_v SCN_VERSION val) = x.
Proof.
  intros Hx. unfold set_ts_ns, set_v, SCN_VERSION, v_.
  change (to_u 2 0) with 0. rewrite Z.shiftl_0_l, Z.lor_0_l, Z.shiftr_div_pow2, ts_ns_mod by lia.
  rewrite Z.div_small by (apply Z.mod_pos_bound; lia). rewrite Z.shiftl_0_l. by apply to_u_id.
Qed.

Lemma set_fields_rev x val : 0 <= x < 2 ^ 62 -> set_v SCN_VERSION (set_ts_ns x val) = x.
Proof.
  intros Hx. unfold set_v, SCN_VERSION. change (to_u 2 0) with 0. rewrite Z.shiftl_0_l, Z.lor_0_l.
  unfold set_ts_ns. rewrite to_u_id by done. rewrite Z.lor_comm, <- add_low_high by (done || lia).
  rewrite ts_ns_mod, Z.mul_comm, Z_mod_plus_full. by apply Z.mod_small.
Qed.

Lemma max_scn_val : max_scn = OB_MAX_SCN_TS_NS.
Proof. done. Qed.

(** The fields are used through the lemmas above. *)
#[global] Opaque ts_ns_ v_.

(** ** The order *)

(** The place of a value in the order: all invalid ones are at the bottom. *)
Definition rank (val : SCN) : Z := if is_valid val then ts_ns_ val else -1.

Lemma ts_ns_nonneg val : 0 <= ts_ns_ val.
Proof. rewrite ts_ns_mod. apply Z.mod_pos_bound. lia. Qed.

Ltac scn_cases a b :=
  pose proof (ts_ns_nonneg a); pose proof (ts_ns_nonneg b);
  destruct (is_valid a) eqn:?, (is_valid b) eqn:?; simpl.

Lemma scn_lt_rank a b : scn_lt a b = (rank a <? rank b).
Proof. unfold scn_lt, rank. scn_cases a b; lia. Qed.
Lemma scn_le_rank a b : scn_le a b = (rank a <=? rank b).
Proof. unfold scn_le, rank. scn_cases a b; lia. Qed.
Lemma scn_gt_rank a b : scn_gt a b = (rank b <? rank a).
Proof. unfold scn_gt, rank. scn_cases a b; lia. Qed.
Lemma scn_ge_rank a b : scn_ge a b = (rank b <=? rank a).
Proof. unfold scn_ge, rank. scn_cases a b; lia. Qed.

Lemma rank_valid val : is_u 64 val -> is_valid val = true -> rank val = val.
Proof. intros Hu Hv. unfold rank. rewrite Hv. by apply ts_ns_valid. Qed.

Lemma rank_lower val : -1 <= rank val.
Proof. unfold rank. pose proof (ts_ns_nonneg val). destruct (is_valid val); lia. Qed.

Lemma rank_invalid val : is_valid val = false -> rank val = -1.
Proof. unfold rank. by intros ->. Qed.

Lemma rank_max a b : rank (max a b) = Z.max (rank a) (rank b).
Proof.
  pose proof (rank_lower a). pose proof (rank_lower b). unfold max. rewrite scn_gt_rank.
  destruct (is_valid a) eqn:Ea; cbn [negb]; [| apply rank_invalid in Ea; lia].
  destruct (is_valid b) eqn:Eb; cbn [negb]; [| apply rank_invalid in Eb; lia].
  destruct (Z.ltb_spec (rank a) (rank b)); lia.
Qed.

Lemma max_valid_iff a b : is_valid (max a b) = is_valid a || is_valid b.
Proof.
  unfold max. destruct (is_valid a) eqn:Ea, (is_valid b) eqn:Eb; simpl; try done.
  destruct (scn_gt b a); done.
Qed.

(** The comparisons of [SCN] are one total preorder: [>] is [<] with the
    operands exchanged, [<=] and [>=] are the negations of [>] and [<], [<] is
    transitive and [max] is the least upper bound; on valid words it is the
    order of the words. *)
Theorem scn_total_order (a b c : SCN) :
  scn_gt a b = scn_lt b a /\
  scn_le a b = negb (scn_gt a b) /\
  scn_ge a b = negb (scn_lt a b) /\
  (scn_lt a b = true -> scn_lt b c = true -> scn_lt a c = true) /\
  (scn_le (max a b) c = scn_le a c && scn_le b c) /\
  (is_u 64 a -> is_u 64 b -> is_valid a = true -> is_valid b = true ->
   scn_lt a b = (a <? b) /\ scn_eq a b = scn_le a b && scn_le b a /\ max a b = Z.max a b).
Proof.
  rewrite !scn_gt_rank, !scn_le_rank, !scn_ge_rank, !scn_lt_rank, rank_max.
  repeat split; [lia .. | | |].
  - by rewrite !rank_valid.
  - unfold scn_eq. rewrite !rank_valid by done. lia.
  - unfold max. rewrite scn_gt_rank, !rank_valid by done.
    rewrite H1, H2. cbn [negb]. destruct (Z.ltb_spec a b); lia.
Qed.

(** ** Arithmetic *)

(** Addition and subtraction of a delta below the maximum either give the exact
    result, which is valid, or the invalid value, exactly when the result
    would leave the 62 bits of the time. *)
Theorem plus_minus_exact (ref : SCN) (delta : Z) :
  is_u 64 ref -> is_valid ref = true -> 0 <= delta < OB_MAX_SCN_TS_NS ->
  plus ref delta = (if ref + delta <=? OB_MAX_SCN_TS_NS then ref + delta else OB_INVALID_SCN_VAL) /\
  minus ref delta = (if delta <=? ref then ref - delta else OB_INVALID_SCN_VAL) /\
  (ref + delta <= OB_MAX_SCN_TS_NS -> is_valid (plus ref delta) = true /\ minus (plus ref delta) delta = ref).
Proof.
  intros Hu Hv Hd. pose proof (proj1 (is_valid_true _ Hu) Hv) as Hlt. destruct Hu as [H0 _].
  rewrite OB_MAX_SCN_TS_NS_val in *. unfold plus, minus. rewrite OB_MAX_SCN_TS_NS_val, Hv.
  destruct (Z.leb_spec (2 ^ 62 - 1) delta); [lia |]. cbn [orb negb].
  rewrite (to_u_id 64 (ref + delta)) by (unfold is_u; lia).
  destruct (Z.leb_spec (ref + delta) (2 ^ 62 - 1)), (Z.ltb_spec (2 ^ 62 - 1) (ref + delta)); try lia;
    destruct (Z.leb_spec delta ref), (Z.ltb_spec ref delta); try lia; repeat split; try lia.
  all: try (apply is_valid_true; unfold is_u; lia).
  all: assert (is_valid (ref + delta) = true) as -> by (apply is_valid_true; unfold is_u; lia); cbn [negb].
  all: destruct (Z.ltb_spec (ref + delta) delta); lia.
Qed.

(** ** Compare and swap *)

(** The state of the loop: [new_scn] is what the last compare-and-swap saw, so
    a failing one can only be due to a store of another thread. *)
Lemma update_loop_spec before fuel interf val new_scn ref_scn :
  before ref_scn ref_scn = false ->
  (new_scn = val /\ length interf + 2 <= fuel)%nat ->
  exists r, update_loop fuel before interf val new_scn ref_scn = Some (r, r) /\ before r ref_scn = false /\
    (interf = [] -> r = if before val ref_scn then ref_scn else val).
Proof.
  intros Hirr. revert interf val new_scn. induction fuel as [| fuel IH]; intros interf val new_scn [-> Hf]; [lia |].
  cbn [update_loop]. destruct (before val ref_scn) eqn:Eb.
  2:{ exists val. done. }
  destruct interf as [| [w |] interf]; cbn [interfere atomic_vcas]; cbn [length] in Hf.
  - rewrite Z.eqb_refl. destruct fuel as [| fuel]; [lia |]. cbn [update_loop]. rewrite Hirr. by exists ref_scn.
  - destruct (Z.eqb_spec w val) as [-> | Hne].
    + destruct (IH interf ref_scn ref_scn) as (r & H1 & H2 & _); [split; [done | lia] |]. by exists r.
    + destruct (IH interf w w) as (r & H1 & H2 & _); [split; [done | lia] |]. by exists r.
  - rewrite Z.eqb_refl.
    destruct (IH interf ref_scn ref_scn) as (r & H1 & H2 & _); [split; [done | lia] |]. by exists r.
Qed.

(** [inc_update] and [dec_update] terminate under any finite sequence of stores
    of other threads; the value they return is the one left in the word, it is
    not before (for [dec_update], not after) the reference, and without
    interference it is the larger (smaller) of the two. *)
Theorem update_converges (interf : list (option SCN)) (val ref_scn : SCN) :
  (exists r, inc_update interf val ref_scn = Some (r, r) /\ scn_ge r ref_scn = true /\
     (interf = [] -> r = if scn_lt val ref_scn then ref_scn else val)) /\
  (exists r, dec_update interf val ref_scn = Some (r, r) /\ scn_le r ref_scn = true /\
     (interf = [] -> r = if scn_gt val ref_scn then ref_scn else val)).
Proof.
  split.
  - destruct (update_loop_spec scn_lt (length interf + 2) interf val val ref_scn) as (r & H1 & H2 & H3);
      [rewrite scn_lt_rank; lia | done |].
    exists r. split; [done |]. split; [| done]. rewrite scn_ge_rank. rewrite scn_lt_rank in H2. lia.
  - destruct (update_loop_spec scn_gt (length interf + 2) interf val val ref_scn) as (r & H1 & H2 & H3);
      [rewrite scn_gt_rank; lia | done |].
    exists r. split; [done |]. split; [| done]. rewrite scn_le_rank. rewrite scn_gt_rank in H2. lia.
Qed.

(** ** Conversions *)

Lemma time_valid s : 0 <= s <= OB_MAX_SCN_TS_NS -> is_valid s = true /\ ts_ns_ s = s.
Proof.
  rewrite OB_MAX_SCN_TS_NS_val. intros Hs. assert (is_u 64 s) by (unfold is_u; lia).
  assert (is_valid s = true) as Hv by (apply is_valid_true; [done | lia]).
  split; [done |]. by apply ts_ns_valid.
Qed.

Lemma tx_convert_get val :
  is_u 64 val -> is_valid val = true -> convert_for_tx (get_val_for_tx val) val = (OB_SUCCESS, val).
Proof.
  intros Hu Hv. pose proof (proj1 (is_valid_true _ Hu) Hv).
  unfold get_val_for_tx, convert_for_tx. rewrite Hv, ts_ns_valid by done. destruct Hu as [H0 _].
  rewrite OB_MAX_SCN_TS_NS_val. cbn [negb].
  destruct (Z.eqb_spec (2 ^ 62 - 1) val) as [<- | Hne]; [done |].
  destruct (Z.eqb_spec val INT64_MAX); [unfold INT64_MAX in *; lia |].
  rewrite to_u_id by (unfold is_u; lia).
  destruct (Z.ltb_spec val 0); [lia |]. by destruct (Z.ltb_spec (2 ^ 62 - 1) val); [lia |].
Qed.

Lemma tx_get_convert val t :
  is_s 64 t ->
  convert_for_tx t val =
    (if t =? INT64_MAX then (OB_SUCCESS, max_scn)
     else if (0 <=? t) && (t <=? OB_MAX_SCN_TS_NS) then (OB_SUCCESS, t) else (OB_INVALID_ARGUMENT, val)) /\
  get_val_for_tx max_scn = INT64_MAX /\
  (0 <= t < OB_MAX_SCN_TS_NS -> get_val_for_tx t = t).
Proof.
  intros Ht. unfold is_s in Ht. split; [| split; [done |]].
  - unfold convert_for_tx. destruct (Z.eqb_spec t INT64_MAX); [by rewrite max_scn_val |].
    destruct (Z.ltb_spec t 0), (Z.leb_spec 0 t); try lia; cbn [orb andb]; [done |].
    rewrite to_u_id by (unfold is_u; lia).
    by destruct (Z.ltb_spec OB_MAX_SCN_TS_NS t), (Z.leb_spec t OB_MAX_SCN_TS_NS); try lia.
  - intros H. destruct (time_valid t) as [Hv Et]; [lia |]. unfold get_val_for_tx. rewrite Hv, Et. cbn [negb].
    by destruct (Z.eqb_spec OB_MAX_SCN_TS_NS t); [lia |].
Qed.

Lemma gts_convert val t :
  is_s 64 t ->
  convert_for_gts t val =
    if (0 <=? t) && (t <=? OB_MAX_SCN_TS_NS) then (OB_SUCCESS, t) else (OB_INVALID_ARGUMENT, val).
Proof.
  intros Ht. unfold is_s in Ht. unfold convert_for_gts.
  destruct (Z.ltb_spec t 0), (Z.leb_spec 0 t); try lia; cbn [orb andb]; [done |].
  rewrite to_u_id by (unfold is_u; lia).
  destruct (Z.ltb_spec OB_MAX_SCN_TS_NS t), (Z.leb_spec t OB_MAX_SCN_TS_NS); try lia; [done |].
  rewrite OB_MAX_SCN_TS_NS_val in *. by rewrite set_fields_rev by lia.
Qed.

Lemma ts_convert val t :
  is_u 64 t ->
  convert_from_ts t val =
    (if t <=? OB_MAX_SCN_TS_NS / 1000 then (OB_SUCCESS, t * 1000) else (OB_INVALID_ARGUMENT, val)) /\
  (t <= OB_MAX_SCN_TS_NS / 1000 -> convert_to_ts (t * 1000) = t).
Proof.
  intros [H0 Hm]. unfold convert_from_ts.
  assert (Hb : t <= OB_MAX_SCN_TS_NS / 1000 -> 0 <= t * 1000 <= OB_MAX_SCN_TS_NS).
  { intros H. pose proof (Z.mul_div_le OB_MAX_SCN_TS_NS 1000). lia. }
  split.
  - destruct (Z.leb_spec (OB_MAX_SCN_TS_NS / 1000 + 1) t), (Z.leb_spec t (OB_MAX_SCN_TS_NS / 1000)); try lia; [done |].
    specialize (Hb ltac:(lia)). rewrite OB_MAX_SCN_TS_NS_val in Hb.
    rewrite to_u_id, set_fields_rev by (unfold is_u; lia). done.
  - intros H. destruct (time_valid (t * 1000)) as [Hv Et]; [lia |].
    unfold convert_to_ts. rewrite Hv, Et. apply Z.div_mul. lia.
Qed.

(** The conversions accept exactly the values of the time range and are inverse
    to the accessors.  A transaction version comes back from a valid [SCN]
    with [INT64_MAX] standing for the maximum, a microsecond time comes back
    unchanged, and a rejected argument leaves the object alone. *)
Theorem conversions_inverse (val : SCN) (t : Z) :
  is_u 64 val -> is_s 64 t ->
  (is_valid val = true -> convert_for_tx (get_val_for_tx val) val = (OB_SUCCESS, val)) /\
  (convert_for_tx t val =
    if t =? INT64_MAX then (OB_SUCCESS, max_scn)
    else if (0 <=? t) && (t <=? OB_MAX_SCN_TS_NS) then (OB_SUCCESS, t) else (OB_INVALID_ARGUMENT, val)) /\
  (convert_for_gts t val =
    if (0 <=? t) && (t <=? OB_MAX_SCN_TS_NS) then (OB_SUCCESS, t) else (OB_INVALID_ARGUMENT, val)) /\
  (0 <= t -> convert_from_ts t val =
    if t <=? OB_MAX_SCN_TS_NS / 1000 then (OB_SUCCESS, t * 1000) else (OB_INVALID_ARGUMENT, val)) /\
  (0 <= t <= OB_MAX_SCN_TS_NS / 1000 -> convert_to_ts (t * 1000) = t).
Proof.
  intros Hu Ht. split; [by apply tx_convert_get |]. split; [by apply tx_get_convert |].
  split; [by apply gts_convert |]. unfold is_s in Ht.
  split; intros H; apply (ts_convert val t); unfold is_u; lia.
Qed.

(** ** Serialized forms *)

Lemma transform_max_id val : val <> INT64_MAX -> transform_max_ val = val.
Proof. intros H. unfold transform_max_. by destruct (Z.eqb_spec INT64_MAX val). Qed.

(** The routines reject a buffer without space with the error of the codec they
    call, unless it is empty. *)
Lemma fixed_serialize_ok val bytes buf_len pos :
  is_u 64 val -> 0 <= pos -> buf_len <= Z.of_nat (length bytes) -> 8 <= buf_len - pos ->
  fixed_serialize (Some bytes) buf_len pos val =
  Some (OB_SUCCESS, Some (written bytes pos (be_bytes 8 (s64 val))), pos + 8).
Proof.
  intros Hu Hpos Hl Hsp. unfold fixed_serialize. destruct (Z.leb_spec buf_len 0); [lia |].
  pose proof (@c_enc_ok _ codec_i64 (s64 val) bytes buf_len pos) as E.
  cbn [c_dom c_len c_enc c_bytes codec_i64] in E. rewrite E; [done | by apply to_s_range | done | done | done].
Qed.

Lemma fixed_deserialize_at val bytes data_len pos old :
  is_u 64 val -> bytes_at bytes pos (u8 <$> be_bytes 8 (s64 val)) -> pos + 8 <= data_len ->
  fixed_deserialize_without_transform (Some bytes) data_len pos old = Some (OB_SUCCESS, pos + 8, val).
Proof.
  intros Hu Hat Hsp. unfold fixed_deserialize_without_transform.
  destruct Hat as [Hpos Hat']. destruct (Z.leb_spec data_len 0); [lia |].
  pose proof (@c_dec_ok _ codec_i64 (s64 val) bytes data_len pos (s64 old)) as E.
  cbn [c_dom c_len c_dec c_bytes codec_i64] in E.
  rewrite E; [| by apply to_s_range | done | done]. simpl. by rewrite to_u_to_s.
Qed.

Lemma serialize_ok val bytes buf_len pos :
  is_u 64 val -> 0 <= pos -> buf_len <= Z.of_nat (length bytes) -> get_serialize_size val <= buf_len - pos ->
  serialize (Some bytes) buf_len pos val =
  Some (OB_SUCCESS, Some (written bytes pos (@c_bytes _ codec_u64 val)), pos + get_serialize_size val).
Proof.
  intros Hu Hpos Hl Hsp. unfold serialize.
  pose proof (encoded_length_vi64_bounds (s64 val)) as Hb. unfold get_serialize_size, encoded_length_u64 in *.
  destruct (Z.leb_spec buf_len 0); [lia |].
  pose proof (@c_enc_ok _ codec_u64 val bytes buf_len pos) as E.
  cbn [c_dom c_len c_enc codec_u64] in E. rewrite E; done.
Qed.

Lemma deserialize_at val bytes data_len pos old :
  is_u 64 val -> bytes_at bytes pos (u8 <$> @c_bytes _ codec_u64 val) ->
  pos + get_serialize_size val <= data_len ->
  deserialize (Some bytes) data_len pos old =
  Some (OB_SUCCESS, pos + get_serialize_size val, transform_max_ val).
Proof.
  intros Hu Hat Hsp. unfold deserialize.
  pose proof (encoded_length_vi64_bounds (s64 val)) as Hb. unfold get_serialize_size, encoded_length_u64 in *.
  destruct Hat as [Hpos Hat']. destruct (Z.leb_spec data_len 0); [lia |].
  pose proof (@c_dec_ok _ codec_u64 val bytes data_len pos old) as E.
  cbn [c_dom c_len c_dec codec_u64] in E. rewrite E; done.
Qed.

(** Both serialized forms of an [SCN] take the size their size functions
    announce and come back as the same value; only [INT64_MAX], the maximum of
    older versions, comes back as the maximum. *)
Theorem scn_serialize_round_trip (val : SCN) bytes buf_len pos old :
  is_u 64 val -> 0 <= pos -> buf_len <= Z.of_nat (length bytes) ->
  get_fixed_serialize_size val <= buf_len - pos -> get_serialize_size val <= buf_len - pos ->
  let back := if INT64_MAX =? val then max_scn else val in
  (exists bytes',
     fixed_serialize (Some bytes) buf_len pos val =
       Some (OB_SUCCESS, Some bytes', pos + get_fixed_serialize_size val) /\
     fixed_deserialize_without_transform (Some bytes') buf_len pos old =
       Some (OB_SUCCESS, pos + get_fixed_serialize_size val, val) /\
     fixed_deserialize (Some bytes') buf_len pos old =
       Some (OB_SUCCESS, pos + get_fixed_serialize_size val, back)) /\
  (exists bytes',
     serialize (Some bytes) buf_len pos val =
       Some (OB_SUCCESS, Some bytes', pos + get_serialize_size val) /\
     deserialize (Some bytes') buf_len pos old =
       Some (OB_SUCCESS, pos + get_serialize_size val, back)).
Proof.
  intros Hu Hpos Hl Hf Hv back. change (get_fixed_serialize_size val) with 8 in *.
  assert (Hback : transform_max_ val = back).
  { unfold transform_max_, back. destruct (Z.eqb_spec INT64_MAX val) as [<- | _]; done. }
  split.
  - eexists. split; [by apply fixed_serialize_ok |].
    assert (E : fixed_deserialize_without_transform
      (Some (written bytes pos (be_bytes 8 (s64 val)))) buf_len pos old = Some (OB_SUCCESS, pos + 8, val)).
    { apply fixed_deserialize_at; [done | | lia]. apply written_at; rewrite ?length_be_bytes; lia. }
    split; [done |]. unfold fixed_deserialize. rewrite E. simpl. by rewrite Hback.
  - eexists. split; [by apply serialize_ok |]. rewrite (deserialize_at val); [by rewrite Hback | done | | lia].
    apply written_at; [done |]. rewrite (@c_len_bytes _ codec_u64 val Hu).
    cbn [c_len codec_u64]. unfold get_serialize_size in Hv. lia.
Qed.

Lemma plus_minus_exact_witness : plus 7 5 = 12 /\ minus 7 5 = 2.
Proof.
  destruct (plus_minus_exact 7 5) as (H1 & H2 & _); [done | done | done |]. by rewrite H1, H2.
Defined.

Lemma conversions_inverse_witness :
  convert_for_tx (get_val_for_tx max_scn) max_scn = (OB_SUCCESS, max_scn) /\
  convert_for_gts 1000 max_scn = (OB_SUCCESS, 1000).
Proof.
  destruct (conversions_inverse max_scn 1000) as (H1 & _ & H3 & _); [done | done |].
  split; [by apply H1 | by rewrite H3].
Defined.

Lemma scn_serialize_round_trip_witness :
  exists bytes',
    serialize (Some (replicate 16 0)) 16 2 300 = Some (OB_SUCCESS, Some bytes', 4) /\
    deserialize (Some bytes') 16 2 0 = Some (OB_SUCCESS, 4, 300).
Proof. apply (scn_serialize_round_trip 300 (replicate 16 0) 16 2 0); done. Defined.
