(* ===== verification/Lsn.v ===== *)
(** * Log sequence numbers: [LSN] of [src/logservice/palf/lsn.h] and [lsn.cpp]

    The byte offset of a log in its stream, the blocks the stream is cut into, and
    the constants of [log_define.h] the log components share. *)

From Stdlib Require Import ZArith Lia Bool.
From stdpp Require Import base list option numbers.
From S2P Require Import Prelude Serialization Scn.

Local Open Scope Z_scope.

(** The word [val_] of an [LSN]. *)
Abbreviation LSN := Z.

Definition MAX_LOG_HEADER_SIZE : Z := 4 * 1024.
Definition MAX_INFO_BLOCK_SIZE : Z := 4 * 1024.
Definition MAX_LOG_BODY_SIZE : Z := 3 * 1024 * 1024 + 512 * 1024.
Definition PALF_PHY_BLOCK_SIZE : Z := Z.shiftl 1 26.
Definition PALF_BLOCK_SIZE : Z := PALF_PHY_BLOCK_SIZE - MAX_INFO_BLOCK_SIZE.
Definition CLOG_FILE_TAIL_PADDING_TRIGGER : Z := 4096.
Definition LOG_INVALID_LSN_VAL : Z := UINT64_MAX.
Definition OB_INVALID_LOG_ID : Z := -1.
Definition INVALID_PROPOSAL_ID : Z := INT64_MAX.

Definition lsn_is_valid (lsn : LSN) : bool := negb (LOG_INVALID_LSN_VAL =? lsn).
Definition lsn_reset : LSN := LOG_INVALID_LSN_VAL.

Definition lsn_eq (a b : LSN) : bool := a =? b.
Definition lsn_ne (a b : LSN) : bool := negb (a =? b).
Definition lsn_lt (a b : LSN) : bool := a <? b.
Definition lsn_gt (a b : LSN) : bool := lsn_lt b a.
Definition lsn_ge (a b : LSN) : bool := lsn_lt b a || lsn_eq b a.
Definition lsn_le (a b : LSN) : bool := lsn_gt b a || lsn_eq b a.

Definition lsn_add (lsn : LSN) (len : Z) : LSN := u64 (lsn + len).
Definition lsn_sub (lsn : LSN) (len : Z) : LSN := u64 (lsn - len).
Definition lsn_diff (lhs rhs : LSN) : Z := u64 (lhs - rhs).

Definition lsn_2_block (lsn : LSN) (block_size : Z) : Z := lsn / block_size.
Definition lsn_2_offset (lsn : LSN) (block_size : Z) : Z := lsn mod block_size.

(** The test of the arguments rejects only a null buffer without space. *)
Definition lsn_serialize (buf : buffer) (buf_len pos : Z) (lsn : LSN) : outcome (Z * buffer * Z) :=
  if bool_decide (buf = None) && (buf_len <=? 0) then Some (OB_INVALID_ARGUMENT, buf, pos)
  else
    '(ret, buf', new_pos) ← encode_i64 buf buf_len pos (s64 lsn);
    if ob_fail ret then Some (OB_BUF_NOT_ENOUGH, buf', pos) else Some (OB_SUCCESS, buf', new_pos).

Definition lsn_deserialize (buf : buffer) (data_len pos : Z) (lsn : LSN) : outcome (Z * Z * LSN) :=
  if bool_decide (buf = None) && (data_len <=? 0) then Some (OB_INVALID_ARGUMENT, pos, lsn)
  else
    '(ret, new_pos, val) ← decode_i64 buf data_len pos (s64 lsn);
    if ob_fail ret then Some (OB_BUF_NOT_ENOUGH, pos, u64 val) else Some (OB_SUCCESS, new_pos, u64 val).

Definition lsn_get_serialize_size (lsn : LSN) : Z := encoded_length_i64 (s64 lsn).

Definition max_proposal_id (a b : Z) : Z :=
  if (INVALID_PROPOSAL_ID =? a) && (INVALID_PROPOSAL_ID =? b)
     || negb (INVALID_PROPOSAL_ID =? a) && (INVALID_PROPOSAL_ID =? b) then a
  else if (INVALID_PROPOSAL_ID =? a) && negb (INVALID_PROPOSAL_ID =? b) then b
  else Z.max a b.

(** ** Blocks *)

Lemma PALF_BLOCK_SIZE_val : PALF_BLOCK_SIZE = 67104768.
Proof. done. Qed.

Lemma lsn_block_offset lsn size : 0 < size -> lsn = lsn_2_block lsn size * size + lsn_2_offset lsn size.
Proof. intros H. unfold lsn_2_block, lsn_2_offset. rewrite Z.mul_comm. by apply Z.div_mod; lia. Qed.

Lemma lsn_2_offset_range lsn size : 0 < size -> 0 <= lsn_2_offset lsn size < size.
Proof. intros H. by apply Z.mod_pos_bound. Qed.

Lemma lsn_2_block_nonneg lsn size : 0 <= lsn -> 0 < size -> 0 <= lsn_2_block lsn size.
Proof. intros. by apply Z.div_pos. Qed.

(** The block and the offset are recovered from their sum. *)
Lemma lsn_of_block block off size : 0 <= off < size ->
  lsn_2_block (block * size + off) size = block /\ lsn_2_offset (block * size + off) size = off.
Proof.
  intros H. unfold lsn_2_block, lsn_2_offset. rewrite (Z.add_comm _ off). split.
  - rewrite Z.div_add by lia. rewrite Z.div_small; lia.
  - rewrite Z.mod_add by lia. apply Z.mod_small. lia.
Qed.

(** ** Serialization *)

Lemma lsn_serialize_ok lsn bytes buf_len pos :
  is_u 64 lsn -> 0 <= pos -> buf_len <= Z.of_nat (length bytes) -> 8 <= buf_len - pos ->
  lsn_serialize (Some bytes) buf_len pos lsn =
  Some (OB_SUCCESS, Some (written bytes pos (be_bytes 8 (s64 lsn))), pos + 8).
Proof.
  intros Hu Hpos Hl Hsp. unfold lsn_serialize. cbn [bool_decide andb].
  pose proof (@c_enc_ok _ codec_i64 (s64 lsn) bytes buf_len pos) as E.
  cbn [c_dom c_len c_enc c_bytes codec_i64] in E. rewrite E; [done | by apply to_s_range | done | done | done].
Qed.

Lemma lsn_deserialize_at lsn bytes data_len pos old :
  is_u 64 lsn -> bytes_at bytes pos (u8 <$> be_bytes 8 (s64 lsn)) -> pos + 8 <= data_len ->
  lsn_deserialize (Some bytes) data_len pos old = Some (OB_SUCCESS, pos + 8, lsn).
Proof.
  intros Hu Hat Hsp. unfold lsn_deserialize. cbn [bool_decide andb].
  pose proof (@c_dec_ok _ codec_i64 (s64 lsn) bytes data_len pos (s64 old)) as E.
  cbn [c_dom c_len c_dec c_bytes codec_i64] in E.
  rewrite E; [| by apply to_s_range | done | done]. simpl. by rewrite to_u_to_s.
Qed.
