(* ===== verification/Crc64.v ===== *)
(** * The 64-bit checksum: [deps/oblib/src/lib/checksum/ob_crc64.cpp] and [ob_crc64.h]

    The routines behind [ob_crc64]: the one on the processor's [crc32]
    instructions, the one on a table, the one that takes eight bytes at a time
    through eight tables, and the older [ob_crc64_optimized] with the table it
    builds at start-up; and the incremental [ObBatchChecksum].  They are
    compared with one reference, the shift register of the polynomial that
    takes the data bit by bit. *)

From Stdlib Require Import ZArith Lia Bool.
From stdpp Require Import base numbers list sets.
From S2P Require Import Prelude Crc64Tables.

Local Open Scope Z_scope.

(** ** The shift register *)

(** One bit: the loop body of [ob_init_crc64_table], and of the comment that
    says how [crc32tab] is generated. *)
Definition shift_bit (polynom shift : Z) : Z :=
  if negb (Z.land shift 1 =? 0) then Z.lxor (Z.shiftr shift 1) polynom else Z.shiftr shift 1.

Definition shift_bits (polynom : Z) (n : nat) (shift : Z) : Z := Nat.iter n (shift_bit polynom) shift.

(** The checksum of [buf] from the register [crc], a byte after the other. *)
Definition crc_bitwise (polynom crc : Z) (buf : list Z) : Z :=
  foldl (fun crc b => shift_bits polynom 8 (Z.lxor crc b)) crc buf.

(** The bit-reversed polynomial of the [crc32] instructions. *)
Definition CRC32C_POLYNOM : Z := 0x82f63b78.

(** The word a little-endian machine reads at [bs]. *)
Fixpoint le_word (bs : list Z) : Z :=
  match bs with
  | [] => 0
  | b :: bs => b + 2 ^ 8 * le_word bs
  end.

(** The entry [i] of a table. *)
Definition entry (table : list Z) (i : Z) : Z := nth (Z.to_nat i) table 0.

(** [while (len >= n) { step on the next n bytes; len -= n }]: the register and
    the bytes left.  Every turn takes [n] bytes, so as many turns as there are
    bytes are enough. *)
Fixpoint while_len (n : nat) (step : Z -> list Z -> Z) (turns : nat) (crc : Z) (buf : list Z) : Z * list Z :=
  match turns with
  | O => (crc, buf)
  | S turns =>
      if (n <=? length buf)%nat then while_len n step turns (step crc (take n buf)) (drop n buf)
      else (crc, buf)
  end.

(** ** [crc64_sse42] *)

(** The instructions [crc32b] and [crc32q]: the low half of the register takes
    part, the high half of the result is zero. *)
Definition crc32_sse42_byte (crc : Z) (bs : list Z) : Z :=
  shift_bits CRC32C_POLYNOM 8 (Z.lxor (u32 crc) (le_word bs)).
Definition crc32_sse42_quadword (crc : Z) (bs : list Z) : Z :=
  shift_bits CRC32C_POLYNOM 64 (Z.lxor (u32 crc) (le_word bs)).

(** [while (len && ((uint64_t) buf & 7))]: up to the next aligned address. *)
Fixpoint crc32_sse42_align (addr crc : Z) (buf : list Z) : Z * list Z :=
  match buf with
  | [] => (crc, [])
  | b :: buf' =>
      if Z.land addr 7 =? 0 then (crc, buf)
      else crc32_sse42_align (addr + 1) (crc32_sse42_byte crc [b]) buf'
  end.

Definition crc32_sse42_4_quadwords (crc : Z) (bs : list Z) : Z :=
  let crc := crc32_sse42_quadword crc (take 8 bs) in
  let crc := crc32_sse42_quadword crc (take 8 (drop 8 bs)) in
  let crc := crc32_sse42_quadword crc (take 8 (drop 16 bs)) in
  crc32_sse42_quadword crc (take 8 (drop 24 bs)).

(** [addr] is the address of the block, [0] the null pointer. *)
Definition crc64_sse42 (addr uCRC64 : Z) (buf : list Z) : Z :=
  let len := length buf in
  if negb (addr =? 0) && (0 <? len)%nat then
    let '(crc, buf) := crc32_sse42_align addr uCRC64 buf in
    let '(crc, buf) := while_len 32 crc32_sse42_4_quadwords len crc buf in
    let '(crc, buf) := while_len 8 crc32_sse42_quadword len crc buf in
    (while_len 1 crc32_sse42_byte len crc buf).1
  else uCRC64.

(** ** [crc64_sse42_manually] *)

(** [buf[i]] is a signed [char], promoted to the width of [crc]. *)
Definition crc64_sse42_manually (crc : Z) (buf : list Z) : Z :=
  foldl (fun crc b => Z.lxor (entry crc32tab (Z.land (Z.lxor crc (u64 (s8 b))) 0xff)) (Z.shiftr crc 8)) crc buf.

(** ** [fast_crc64_sse42_manually] *)

Definition fast_crc64_8_bytes (localCrc : Z) (bs : list Z) : Z :=
  let byte i := u64 (s8 (nth i bs 0)) in
  let c0 := Z.lxor (byte 0%nat) localCrc in
  let localCrc := Z.shiftr localCrc 8 in
  let c1 := Z.lxor (byte 1%nat) localCrc in
  let localCrc := Z.shiftr localCrc 8 in
  let c2 := Z.lxor (byte 2%nat) localCrc in
  let localCrc := Z.shiftr localCrc 8 in
  let c3 := Z.lxor (byte 3%nat) localCrc in
  let localCrc :=
    Z.lxor (Z.lxor (entry T8_7 (Z.land c0 0xff)) (entry T8_6 (Z.land c1 0xff)))
           (Z.lxor (entry T8_5 (Z.land c2 0xff)) (entry T8_4 (Z.land c3 0xff))) in
  let c3 := entry T8_3 (Z.land (byte 4%nat) 0xff) in
  let c2 := entry T8_2 (Z.land (byte 5%nat) 0xff) in
  let c1 := entry T8_1 (Z.land (byte 6%nat) 0xff) in
  let c0 := entry T8_0 (Z.land (byte 7%nat) 0xff) in
  Z.lxor localCrc (Z.lxor (Z.lxor c3 c2) (Z.lxor c1 c0)).

Definition fast_crc64_byte (localCrc : Z) (bs : list Z) : Z :=
  Z.lxor (Z.shiftr localCrc 8) (entry T8_0 (Z.land (Z.lxor localCrc (u64 (s8 (nth 0 bs 0)))) 0xff)).

Definition fast_crc64_sse42_manually (crc : Z) (buf : list Z) : Z :=
  let '(localCrc, buf) := while_len 8 fast_crc64_8_bytes (length buf) crc buf in
  let '(localCrc, _) := while_len 1 fast_crc64_byte (length buf) localCrc buf in
  Z.land localCrc 0xffffffff.

(** ** [ob_crc64_optimized] *)

Definition OB_DEFAULT_CRC64_POLYNOM : Z := 0xD800000000000000.
Definition CRC64_TABLE_SIZE : Z := 256.

(** The two tables [ob_init_crc64_table] fills: [s_crc64_table] and
    [s_optimized_crc64_table]. *)
Definition ob_init_crc64_table (polynom : Z) : list Z * list Z :=
  let s_crc64_table := shift_bits polynom 8 <$> seqZ 0 CRC64_TABLE_SIZE in
  (s_crc64_table, (fun shift => u16 (s16 (Z.land (Z.shiftr shift 48) 0xffff))) <$> s_crc64_table).

(** The tables after [ob_global_init_crc64_table]. *)
Definition s_crc64_table : list Z := (ob_init_crc64_table OB_DEFAULT_CRC64_POLYNOM).1.
Definition s_optimized_crc64_table : list Z := (ob_init_crc64_table OB_DEFAULT_CRC64_POLYNOM).2.

Definition DO_1_STEP (uCRC64 : Z) (bs : list Z) : Z :=
  Z.lxor (entry s_crc64_table (Z.land (Z.lxor uCRC64 (nth 0 bs 0)) 0xff)) (Z.shiftr uCRC64 8).

(** The step in C, of the machines other than x86-64. *)
Definition DO_1_OPTIMIZED_STEP (uCRC64 : Z) (bs : list Z) : Z :=
  let table i := entry s_optimized_crc64_table i in
  let u_data := Z.lxor uCRC64 (le_word bs) in
  let table_result0 := table (u8 u_data) in
  let operand1 :=
    Z.lor (Z.lor (Z.lor (Z.shiftl (table (u8 (Z.shiftr u_data 48))) 40)
                        (Z.shiftl (table (u8 (Z.shiftr u_data 32))) 24))
                 (Z.shiftl (table (u8 (Z.shiftr u_data 16))) 8))
          (Z.shiftr table_result0 8) in
  let operand2 :=
    Z.lor (Z.lor (Z.lor (Z.shiftl (table (Z.lxor (u8 (Z.shiftr u_data 56)) (u8 table_result0))) 48)
                        (Z.shiftl (table (u8 (Z.shiftr u_data 40))) 32))
                 (Z.shiftl (table (u8 (Z.shiftr u_data 24))) 16))
          (table (u8 (Z.shiftr u_data 8))) in
  Z.lxor operand1 operand2.

(** The eight steps of a turn, on eight words. *)
Definition DO_8_OPTIMIZED_STEPS (uCRC64 : Z) (bs : list Z) : Z :=
  foldl (fun crc i => DO_1_OPTIMIZED_STEP crc (take 8 (drop (8 * i) bs))) uCRC64 (seq 0 8).

Definition ob_crc64_optimized (addr uCRC64 : Z) (buf : list Z) : Z :=
  if negb (addr =? 0) && negb (length buf =? 0)%nat then
    let '(crc, buf) := while_len 64 DO_8_OPTIMIZED_STEPS (length buf) uCRC64 buf in
    (while_len 1 DO_1_STEP (length buf) crc buf).1
  else uCRC64.

(** ** What a checksum routine promises

    The components that protect their data with [ob_crc64] rely on no more than
    this: the checksum fits 32 bits, and the checksum of a block can be taken in
    pieces. *)
Class Crc64 := {
  ob_crc64 : Z -> list Z -> Z;
  ob_crc64_range crc buf : is_u 32 crc -> Forall is_byte buf -> is_u 32 (ob_crc64 crc buf);
  ob_crc64_nil crc : is_u 32 crc -> ob_crc64 crc [] = crc;
  ob_crc64_app crc buf buf' : is_u 32 crc -> Forall is_byte buf -> Forall is_byte buf' ->
    ob_crc64 crc (buf ++ buf') = ob_crc64 (ob_crc64 crc buf) buf';
}.

(** ** [ObBatchChecksum] *)

Module ObBatchChecksum.
Definition BUFFER_SIZE : nat := 64.

Record t := mk { buffer_ : list Z; pos_ : nat; base_ : Z }.

Section ops.
Context `{Crc64}.

Definition reset (s : t) : t := mk (buffer_ s) 0 0.
Definition set_base (base : Z) (s : t) : t := mk (buffer_ s) (pos_ s) base.

(** [MEMCPY(&buffer_[pos_], src, length of src)]. *)
Definition copy_in (s : t) (src : list Z) : list Z :=
  take (pos_ s) (buffer_ s) ++ src ++ drop (pos_ s + length src) (buffer_ s).

(** The loop of [fill]; [src] is what is left to fill.  A turn takes at least a byte
    while the buffer is not full, so as many turns as bytes are enough. *)
Fixpoint fill_loop (turns : nat) (src : list Z) (s : t) : t :=
  match turns with
  | O => s
  | S turns =>
      if (0 <? length src)%nat then
        let size2copy := Nat.min (BUFFER_SIZE - pos_ s) (length src) in
        let s := mk (copy_in s (take size2copy src)) (pos_ s + size2copy) (base_ s) in
        let s :=
          if (BUFFER_SIZE <=? pos_ s)%nat then mk (buffer_ s) 0 (ob_crc64 (base_ s) (take BUFFER_SIZE (buffer_ s)))
          else s in
        fill_loop turns (drop size2copy src) s
      else s
  end.

Definition fill (src : list Z) (s : t) : t := fill_loop (length src) src s.

Definition calc (s : t) : Z * t :=
  if (0 <? pos_ s)%nat then
    let base := ob_crc64 (base_ s) (take (pos_ s) (buffer_ s)) in
    (base, mk (buffer_ s) 0 base)
  else (base_ s, s).
End ops.
End ObBatchChecksum.

(** ** Linearity of the register *)

Lemma land_1_testbit x : negb (Z.land x 1 =? 0) = Z.testbit x 0.
Proof.
  change (Z.land x 1) with (Z.land x (Z.ones 1)). rewrite Z.land_ones by lia.
  rewrite <- Z.bit0_mod. by destruct (Z.testbit x 0).
Qed.

Lemma shift_bit_additive polynom : additive (shift_bit polynom).
Proof.
  intros a b. unfold shift_bit. rewrite !land_1_testbit, Z.lxor_spec, Z.shiftr_lxor.
  destruct (Z.testbit a 0), (Z.testbit b 0); simpl.
  - rewrite (Z.lxor_comm (Z.shiftr b 1)), Z.lxor_assoc, <- (Z.lxor_assoc polynom).
    by rewrite Z.lxor_nilpotent, Z.lxor_0_l.
  - by rewrite !Z.lxor_assoc, (Z.lxor_comm polynom).
  - by rewrite Z.lxor_assoc.
  - done.
Qed.

Lemma shift_bits_additive polynom n : additive (shift_bits polynom n).
Proof. intros a b. induction n as [|n IH]; [done|]. simpl. by rewrite IH, shift_bit_additive. Qed.

#[export] Hint Resolve shift_bits_additive : additive.

(** Data above the bits shifted out is not touched. *)
Lemma shift_bits_shiftl polynom n x : shift_bits polynom n (Z.shiftl x (Z.of_nat n)) = x.
Proof.
  revert x. induction n as [|n IH]; intros x; [apply Z.shiftl_0_r|].
  unfold shift_bits in *. rewrite Nat.iter_succ_r.
  rewrite Nat2Z.inj_succ, <- Z.add_1_r, <- Z.shiftl_shiftl by lia.
  rewrite <- (IH x) at 2. f_equal. unfold shift_bit.
  rewrite land_1_testbit, Z.shiftl_spec_low by lia.
  by rewrite Z.shiftr_shiftl_l, Z.shiftl_0_r by lia.
Qed.

Lemma shift_bits_split polynom n lo hi :
  shift_bits polynom n (Z.lxor lo (Z.shiftl hi (Z.of_nat n))) = Z.lxor (shift_bits polynom n lo) hi.
Proof. by rewrite shift_bits_additive, shift_bits_shiftl. Qed.

Lemma shift_bits_add polynom n m x : shift_bits polynom (n + m) x = shift_bits polynom m (shift_bits polynom n x).
Proof. unfold shift_bits. by rewrite Nat.add_comm, Nat.iter_add. Qed.

(** ** Bytes and words *)

Lemma split_low_byte x : x = Z.lxor (u8 x) (Z.shiftl (Z.shiftr x 8) 8).
Proof.
  rewrite <- (lxor_low_high 8), Z.shiftr_div_pow2 by (lia || by apply to_u_range).
  unfold to_u. rewrite Z.add_comm. apply Z.div_mod. lia.
Qed.

Lemma shiftr_byte b : is_byte b -> Z.shiftr b 8 = 0.
Proof. intros Hb. rewrite Z.shiftr_div_pow2 by lia. by apply Z.div_small. Qed.

(** The next byte of the data meets the low byte of the register; the rest of the
    register moves down. *)
Lemma shift_byte polynom x : shift_bits polynom 8 x = Z.lxor (shift_bits polynom 8 (u8 x)) (Z.shiftr x 8).
Proof. rewrite (split_low_byte x) at 1. apply (shift_bits_split polynom 8). Qed.

Lemma shift_byte_lxor polynom crc b : is_byte b ->
  shift_bits polynom 8 (Z.lxor crc b) = Z.lxor (shift_bits polynom 8 (Z.lxor (u8 crc) b)) (Z.shiftr crc 8).
Proof.
  intros Hb. rewrite shift_byte, Z.shiftr_lxor, (shiftr_byte b Hb), Z.lxor_0_r, additive_u8.
  by rewrite (to_u_id 8 b Hb).
Qed.

Lemma u8_char b : is_byte b -> u8 (u64 (s8 b)) = b.
Proof.
  intros Hb. assert (u8 (u64 (s8 b)) = u8 (s8 b)) as ->; [|by apply to_u_to_s].
  unfold to_u. apply Z.mod_mod_divide. by exists (2 ^ 56).
Qed.

(** Taking a word at once is taking its bytes in turn. *)
Lemma shift_word polynom bs crc : Forall is_byte bs ->
  shift_bits polynom (8 * length bs) (Z.lxor crc (le_word bs)) = crc_bitwise polynom crc bs.
Proof.
  intros Hbs. revert crc. induction Hbs as [|b bs Hb _ IH]; intros crc.
  - apply Z.lxor_0_r.
  - cbn [length le_word crc_bitwise foldl]. rewrite Nat.mul_succ_r, Nat.add_comm, shift_bits_add.
    rewrite (lxor_low_high 8), <- Z.lxor_assoc by (lia || done).
    rewrite (shift_bits_split polynom 8). apply IH.
Qed.

(** The word's checksum as the sum of what each byte contributes. *)
Fixpoint contributions (polynom : Z) (bs : list Z) : Z :=
  match bs with
  | [] => 0
  | b :: bs => Z.lxor (shift_bits polynom (8 * S (length bs)) b) (contributions polynom bs)
  end.

Lemma shift_contributions polynom bs : Forall is_byte bs ->
  shift_bits polynom (8 * length bs) (le_word bs) = contributions polynom bs.
Proof.
  induction 1 as [|b bs Hb _ IH]; [done|].
  cbn [length le_word contributions]. rewrite Nat.mul_succ_r, Nat.add_comm, !shift_bits_add.
  rewrite (lxor_low_high 8) by (lia || done).
  by rewrite (shift_bits_split polynom 8), shift_bits_additive, IH.
Qed.

Lemma lxor_le_word crc b bs : is_byte b ->
  Z.lxor crc (le_word (b :: bs)) = u8 (Z.lxor b crc) + 2 ^ 8 * Z.lxor (Z.shiftr crc 8) (le_word bs).
Proof.
  intros Hb. cbn [le_word]. rewrite !(lxor_low_high 8) by (lia || by apply to_u_range || done).
  rewrite Z.shiftl_lxor, additive_u8, (to_u_id 8 b Hb), Z.lxor_assoc.
  rewrite (split_low_byte crc) at 1. by rewrite Z.lxor_assoc, !(lxor_swap b), !(lxor_swap (u8 crc)).
Qed.

Lemma le_word_range bs : Forall is_byte bs -> is_u (8 * Z.of_nat (length bs)) (le_word bs).
Proof.
  induction 1 as [|b bs Hb _ IH]; [done|]. unfold is_byte, is_u in *. cbn [length le_word].
  rewrite Nat2Z.inj_succ, Z.mul_succ_r, Z.pow_add_r by lia. nia.
Qed.

(** ** The reference *)

Lemma crc_bitwise_app polynom crc bs cs :
  crc_bitwise polynom crc (bs ++ cs) = crc_bitwise polynom (crc_bitwise polynom crc bs) cs.
Proof. apply foldl_app. Qed.

Lemma shift_bits_range w polynom n x : 0 <= w -> is_u w polynom -> is_u w x -> is_u w (shift_bits polynom n x).
Proof.
  intros Hw Hp Hx. induction n as [|n IH]; [done|]. simpl. unfold shift_bit at 1.
  case_match; auto using lxor_range, shiftr_range with lia.
Qed.

Lemma crc_bitwise_range w polynom crc bs :
  8 <= w -> is_u w polynom -> is_u w crc -> Forall is_byte bs -> is_u w (crc_bitwise polynom crc bs).
Proof.
  intros Hw Hp Hc Hb. revert crc Hc. induction Hb as [|b bs Hb _ IH]; intros crc Hc; [done|].
  apply IH, shift_bits_range, lxor_range; [lia | done | lia | done | by apply (is_u_mono 8)].
Qed.

Lemma CRC32C_range : is_u 32 CRC32C_POLYNOM.
Proof. done. Qed.

(** ** Loops over the block *)

(** A loop whose step on [n] bytes is the reference leaves fewer than [n] bytes, and
    the checksum is completed by the reference on those. *)
Lemma while_len_bitwise polynom (ok : Z -> Prop) n step turns crc buf :
  (0 < n)%nat -> (length buf <= turns)%nat -> ok crc -> Forall is_byte buf ->
  (forall crc bs, ok crc -> Forall is_byte bs -> length bs = n ->
     step crc bs = crc_bitwise polynom crc bs /\ ok (crc_bitwise polynom crc bs)) ->
  exists crc' buf', while_len n step turns crc buf = (crc', buf') /\ ok crc' /\ Forall is_byte buf' /\
    (length buf' < n)%nat /\ (length buf' <= length buf)%nat /\
    crc_bitwise polynom crc' buf' = crc_bitwise polynom crc buf.
Proof.
  intros Hn Ht Hc Hb Hstep. revert crc buf Ht Hc Hb.
  induction turns as [|turns IH]; intros crc buf Ht Hc Hb; simpl.
  { exists crc, buf. repeat split; try done; lia. }
  destruct (Nat.leb_spec n (length buf)).
  - destruct (Hstep crc (take n buf)) as [E Ho]; [done | by apply Forall_take | rewrite length_take; lia|].
    destruct (IH (step crc (take n buf)) (drop n buf)) as (crc' & buf' & -> & ? & ? & ? & ? & R).
    + rewrite length_drop. lia.
    + by rewrite E.
    + by apply Forall_drop.
    + exists crc', buf'. repeat split; try done; [rewrite length_drop in *; lia|].
      by rewrite R, E, <- crc_bitwise_app, take_drop.
  - exists crc, buf. repeat split; try done; lia.
Qed.

(** The last loop, byte by byte, leaves nothing. *)
Lemma while_len_last polynom (ok : Z -> Prop) step turns crc buf :
  (length buf <= turns)%nat -> ok crc -> Forall is_byte buf ->
  (forall crc bs, ok crc -> Forall is_byte bs -> length bs = 1%nat ->
     step crc bs = crc_bitwise polynom crc bs /\ ok (crc_bitwise polynom crc bs)) ->
  while_len 1 step turns crc buf = (crc_bitwise polynom crc buf, []) /\ ok (crc_bitwise polynom crc buf).
Proof.
  intros Ht Hc Hb Hs.
  destruct (while_len_bitwise polynom ok 1 step turns crc buf) as (crc' & buf' & -> & ? & _ & Hl & _ & R);
    [lia | done | done | done | done |].
  destruct buf'; [|simpl in Hl; lia]. simpl in R. by subst.
Qed.

(** ** The routine on the [crc32] instructions *)

Abbreviation crc32c := (crc_bitwise CRC32C_POLYNOM).

Lemma crc32c_range crc bs : is_u 32 crc -> Forall is_byte bs -> is_u 32 (crc32c crc bs).
Proof. intros. by apply crc_bitwise_range. Qed.

Lemma crc32_sse42_byte_ok crc bs :
  is_u 32 crc -> Forall is_byte bs -> length bs = 1%nat -> crc32_sse42_byte crc bs = crc32c crc bs.
Proof. intros Hc Hb Hl. unfold crc32_sse42_byte. by rewrite to_u_id, <- shift_word, Hl. Qed.

Lemma crc32_sse42_quadword_ok crc bs :
  is_u 32 crc -> Forall is_byte bs -> length bs = 8%nat -> crc32_sse42_quadword crc bs = crc32c crc bs.
Proof. intros Hc Hb Hl. unfold crc32_sse42_quadword. by rewrite to_u_id, <- shift_word, Hl. Qed.

(** The side conditions of a step on a piece of a block of known length. *)
Local Ltac side HF Hl :=
  repeat first [done | apply HF | apply crc32c_range | rewrite length_take, ?length_drop, Hl; done].

Lemma crc32_sse42_4_quadwords_ok crc bs :
  is_u 32 crc -> Forall is_byte bs -> length bs = 32%nat -> crc32_sse42_4_quadwords crc bs = crc32c crc bs.
Proof.
  intros Hc Hb Hl. unfold crc32_sse42_4_quadwords.
  assert (forall n, Forall is_byte (take 8 (drop n bs))) as HF by auto using Forall_take, Forall_drop.
  pose proof (HF 0%nat) as HF0. rewrite drop_0 in HF0.
  rewrite (crc32_sse42_quadword_ok crc) by side HF Hl.
  do 3 rewrite (crc32_sse42_quadword_ok (crc32c _ _)) by side HF Hl.
  rewrite <- !crc_bitwise_app. f_equal.
  do 32 (destruct bs as [|? bs]; [simpl in Hl; lia|]). by destruct bs; [|simpl in Hl; lia].
Qed.

Lemma crc32_sse42_align_ok addr crc buf : is_u 32 crc -> Forall is_byte buf ->
  exists crc' buf', crc32_sse42_align addr crc buf = (crc', buf') /\ is_u 32 crc' /\ Forall is_byte buf' /\
    (length buf' <= length buf)%nat /\ crc32c crc' buf' = crc32c crc buf.
Proof.
  intros Hc Hb. revert addr crc Hc. induction Hb as [|b buf Hb Hbs IH]; intros addr crc Hc.
  { by exists crc, []. }
  simpl. case_match.
  - exists crc, (b :: buf). split_and!; auto.
  - assert (Forall is_byte [b]) by by constructor.
    rewrite crc32_sse42_byte_ok by done.
    destruct (IH (addr + 1) (crc32c crc [b])) as (crc' & buf' & ? & ? & ? & ? & R); [by apply crc32c_range|].
    exists crc', buf'. split_and!; try done. simpl. lia.
Qed.

Lemma crc64_sse42_ok addr crc buf :
  addr <> 0 -> is_u 32 crc -> Forall is_byte buf -> crc64_sse42 addr crc buf = crc32c crc buf.
Proof.
  intros Ha Hc Hb. unfold crc64_sse42. destruct (Z.eqb_spec addr 0); [done|]. simpl.
  destruct (Nat.ltb_spec 0 (length buf)); [|by destruct buf; [|simpl in *; lia]].
  destruct (crc32_sse42_align_ok addr crc buf) as (crc1 & buf1 & -> & ? & ? & ? & <-); [done | done |].
  destruct (while_len_bitwise CRC32C_POLYNOM (is_u 32) 32 crc32_sse42_4_quadwords (length buf) crc1 buf1)
    as (crc2 & buf2 & -> & ? & ? & _ & ? & <-); [lia | lia | done | done | |].
  { intros. by split; [apply crc32_sse42_4_quadwords_ok | apply crc32c_range]. }
  destruct (while_len_bitwise CRC32C_POLYNOM (is_u 32) 8 crc32_sse42_quadword (length buf) crc2 buf2)
    as (crc3 & buf3 & -> & ? & ? & _ & ? & <-); [lia | lia | done | done | |].
  { intros. by split; [apply crc32_sse42_quadword_ok | apply crc32c_range]. }
  destruct (while_len_last CRC32C_POLYNOM (is_u 32) crc32_sse42_byte (length buf) crc3 buf3) as [-> _];
    [lia | done | done | | done].
  intros. by split; [apply crc32_sse42_byte_ok | apply crc32c_range].
Qed.

(** ** The routines on tables *)

(** [table] holds what a byte contributes after [n] bits. *)
Definition table_of (table : list Z) (polynom : Z) (n : nat) : Prop :=
  table = shift_bits polynom n <$> seqZ 0 256.

Lemma entry_table table polynom n i : table_of table polynom n -> is_byte i -> entry table i = shift_bits polynom n i.
Proof.
  intros -> Hi. unfold entry, is_byte, is_u in *. apply nth_lookup_Some.
  rewrite list_lookup_fmap, lookup_seqZ_lt by lia. simpl. do 2 f_equal. lia.
Qed.

(** The tables the source lists are those of the polynomial. *)
Lemma crc32_tables :
  table_of crc32tab CRC32C_POLYNOM 8 /\
  table_of T8_0 CRC32C_POLYNOM 8 /\ table_of T8_1 CRC32C_POLYNOM 16 /\
  table_of T8_2 CRC32C_POLYNOM 24 /\ table_of T8_3 CRC32C_POLYNOM 32 /\
  table_of T8_4 CRC32C_POLYNOM 40 /\ table_of T8_5 CRC32C_POLYNOM 48 /\
  table_of T8_6 CRC32C_POLYNOM 56 /\ table_of T8_7 CRC32C_POLYNOM 64.
Proof. by repeat split; vm_compute. Qed.

Lemma table_byte table polynom crc b : table_of table polynom 8 -> is_byte b ->
  Z.lxor (entry table (Z.land (Z.lxor crc (u64 (s8 b))) 0xff)) (Z.shiftr crc 8) = shift_bits polynom 8 (Z.lxor crc b).
Proof.
  intros Ht Hb. rewrite (entry_table _ _ _ _ Ht) by apply land_ff_byte.
  by rewrite <- u8_land, additive_u8, u8_char, <- shift_byte_lxor.
Qed.

Lemma crc64_sse42_manually_ok crc buf : Forall is_byte buf -> crc64_sse42_manually crc buf = crc32c crc buf.
Proof.
  intros Hb. revert crc. induction Hb as [|b buf Hb _ IH]; intros crc; [done|].
  cbn [crc64_sse42_manually crc_bitwise foldl]. rewrite (table_byte _ CRC32C_POLYNOM); [apply IH | apply crc32_tables | done].
Qed.

Lemma fast_crc64_byte_ok crc bs :
  Forall is_byte bs -> length bs = 1%nat -> fast_crc64_byte crc bs = crc32c crc bs.
Proof.
  intros Hb Hl. destruct bs as [|b [|]]; try done. rewrite Forall_singleton in Hb.
  unfold fast_crc64_byte. cbn [nth]. rewrite Z.lxor_comm.
  apply (table_byte _ CRC32C_POLYNOM); [apply crc32_tables | apply Hb].
Qed.

Lemma fast_crc64_8_bytes_ok crc bs :
  is_u 32 crc -> Forall is_byte bs -> length bs = 8%nat -> fast_crc64_8_bytes crc bs = crc32c crc bs.
Proof.
  intros Hc Hb Hl. destruct bs as [|b0 [|b1 [|b2 [|b3 [|b4 [|b5 [|b6 [|b7 [|]]]]]]]]]; try done.
  rewrite <- shift_word by done. pose proof Hb as Hb'.
  rewrite !Forall_cons in Hb'. destruct Hb' as (? & ? & ? & ? & ? & ? & ? & ? & _).
  do 4 rewrite lxor_le_word by done.
  assert (Z.shiftr (Z.shiftr (Z.shiftr (Z.shiftr crc 8) 8) 8) 8 = 0) as ->.
  { rewrite !Z.shiftr_shiftr, Z.shiftr_div_pow2 by lia. by apply Z.div_small. }
  rewrite Z.lxor_0_l.
  match goal with |- context [shift_bits ?p _ (?x0 + 2 ^ 8 * (?x1 + 2 ^ 8 * (?x2 + 2 ^ 8 * (?x3 + _))))] =>
    pose proof (shift_contributions p [x0; x1; x2; x3; b4; b5; b6; b7]) as E end.
  cbn [length le_word] in E |- *. rewrite E by (rewrite !Forall_cons; auto 20 using land_ff_byte, u8_byte). clear E.
  destruct crc32_tables as (_ & K0 & K1 & K2 & K3 & K4 & K5 & K6 & K7).
  unfold fast_crc64_8_bytes. cbn [nth contributions length].
  rewrite <- !u8_land.
  rewrite (entry_table _ _ _ _ K0), (entry_table _ _ _ _ K1), (entry_table _ _ _ _ K2), (entry_table _ _ _ _ K3),
    (entry_table _ _ _ _ K4), (entry_table _ _ _ _ K5), (entry_table _ _ _ _ K6), (entry_table _ _ _ _ K7)
    by apply u8_byte.
  rewrite !additive_u8, !u8_char, (to_u_id 8 b0), (to_u_id 8 b1), (to_u_id 8 b2), (to_u_id 8 b3) by assumption.
  rewrite !Z.lxor_assoc, Z.lxor_0_r. reflexivity.
Qed.

Lemma fast_crc64_sse42_manually_ok crc buf :
  is_u 32 crc -> Forall is_byte buf -> fast_crc64_sse42_manually crc buf = crc32c crc buf.
Proof.
  intros Hc Hb. unfold fast_crc64_sse42_manually.
  destruct (while_len_bitwise CRC32C_POLYNOM (is_u 32) 8 fast_crc64_8_bytes (length buf) crc buf)
    as (crc1 & buf1 & -> & ? & ? & _ & ? & <-); [lia | lia | done | done | |].
  { intros. by split; [apply fast_crc64_8_bytes_ok | apply crc32c_range]. }
  destruct (while_len_last CRC32C_POLYNOM (is_u 32) fast_crc64_byte (length buf1) crc1 buf1) as [-> Hr];
    [lia | done | done | |].
  { intros. by split; [apply fast_crc64_byte_ok | apply crc32c_range]. }
  rewrite (Z.land_ones _ 32) by lia. by apply to_u_id.
Qed.

(** ** [ob_crc64_optimized] *)

Abbreviation crc64_reference := (crc_bitwise OB_DEFAULT_CRC64_POLYNOM).

Lemma crc64_reference_range crc bs : is_u 64 crc -> Forall is_byte bs -> is_u 64 (crc64_reference crc bs).
Proof. intros. by apply crc_bitwise_range. Qed.

Lemma s_crc64_table_ok : table_of s_crc64_table OB_DEFAULT_CRC64_POLYNOM 8.
Proof. done. Qed.

Lemma DO_1_STEP_ok crc bs : Forall is_byte bs -> length bs = 1%nat -> DO_1_STEP crc bs = crc64_reference crc bs.
Proof.
  intros Hb Hl. destruct bs as [|b [|]]; try done. rewrite Forall_singleton in Hb. unfold DO_1_STEP. cbn [nth].
  rewrite (entry_table _ _ _ _ s_crc64_table_ok) by apply land_ff_byte.
  by rewrite <- u8_land, additive_u8, (to_u_id 8 b Hb), <- shift_byte_lxor.
Qed.

(** The high sixteen bits of an entry, the only ones that are not zero. *)
Definition high16 (i : Z) : Z := Z.shiftr (shift_bits OB_DEFAULT_CRC64_POLYNOM 8 i) 48.

Lemma additive_high16 : additive high16.
Proof. apply (additive_comp (fun x => Z.shiftr x 48)); auto with additive. Qed.

#[local] Hint Resolve additive_high16 : additive.

Lemma entry_optimized i : is_byte i -> entry s_optimized_crc64_table i = high16 i /\ is_u 16 (high16 i).
Proof.
  assert (Forall (fun i => entry s_optimized_crc64_table i = high16 i /\ 0 <= high16 i < 2 ^ 16) (seqZ 0 256)) as F.
  { apply (bool_decide_unpack _). vm_compute. exact I. }
  intros Hi. apply (proj1 (Forall_forall _ _) F), elem_of_seqZ. unfold is_byte, is_u in Hi. lia.
Qed.

(** [DO_1_OPTIMIZED_STEP] on the register combined with the word, with sums for the
    disjunctions of its disjoint parts. *)
Definition optimized_sum (u : Z) : Z :=
  let t i := high16 (u8 (Z.shiftr u i)) in
  let r := high16 (u8 u) in
  Z.lxor
    (Z.lxor (Z.lxor (Z.lxor (Z.shiftl (t 48) 40) (Z.shiftl (t 32) 24)) (Z.shiftl (t 16) 8)) (Z.shiftr r 8))
    (Z.lxor (Z.lxor (Z.lxor (Z.shiftl (high16 (Z.lxor (u8 (Z.shiftr u 56)) (u8 r))) 48) (Z.shiftl (t 40) 32))
                    (Z.shiftl (t 24) 16)) (t 8)).

Lemma optimized_sum_additive : additive optimized_sum.
Proof. unfold optimized_sum. additive. Qed.

Lemma optimized_sum_ok u : is_u 64 u -> optimized_sum u = shift_bits OB_DEFAULT_CRC64_POLYNOM 64 u.
Proof.
  apply (additive_ext _ _ 64).
  - apply optimized_sum_additive.
  - apply shift_bits_additive.
  - apply (bool_decide_unpack _). vm_compute. exact I.
Qed.

Lemma lor_shiftl n a b : 0 <= n -> is_u n b -> Z.lor (Z.shiftl a n) b = Z.lxor (Z.shiftl a n) b.
Proof. intros Hn Hb. rewrite Z.lxor_lor; [done|]. rewrite Z.land_comm. by apply land_low_high. Qed.

(** Four values of sixteen bits, side by side or partly cut off. *)
Lemma lor_4_parts a b c d k :
  0 <= k -> is_u 16 b -> is_u 16 c -> is_u k d ->
  Z.lor (Z.lor (Z.lor (Z.shiftl a (k + 32)) (Z.shiftl b (k + 16))) (Z.shiftl c k)) d =
  Z.lxor (Z.lxor (Z.lxor (Z.shiftl a (k + 32)) (Z.shiftl b (k + 16))) (Z.shiftl c k)) d.
Proof.
  intros Hk Hb Hc Hd.
  rewrite (lor_shiftl (k + 32) a);
    [|lia|replace (k + 32) with (16 + (k + 16)) by lia; by apply shiftl_range; lia || done].
  replace (k + 32) with (16 + (k + 16)) by lia.
  rewrite <- (Z.shiftl_shiftl a 16 (k + 16)), <- Z.shiftl_lxor by lia.
  rewrite (lor_shiftl (k + 16)); [|lia|replace (k + 16) with (16 + k) by lia; by apply shiftl_range; lia || done].
  replace (k + 16) with (16 + k) by lia.
  rewrite <- (Z.shiftl_shiftl _ 16 k), <- Z.shiftl_lxor by lia.
  by rewrite (lor_shiftl k).
Qed.

Lemma DO_1_OPTIMIZED_STEP_ok crc bs :
  is_u 64 crc -> Forall is_byte bs -> length bs = 8%nat -> DO_1_OPTIMIZED_STEP crc bs = crc64_reference crc bs.
Proof.
  intros Hc Hb Hl. rewrite <- shift_word, Hl by done.
  pose proof (le_word_range bs Hb) as Hw. rewrite Hl in Hw. change (8 * Z.of_nat 8) with 64 in Hw.
  assert (is_u 64 (Z.lxor crc (le_word bs))) as Hu by by apply lxor_range.
  change (8 * 8)%nat with 64%nat. rewrite <- (optimized_sum_ok _ Hu). unfold DO_1_OPTIMIZED_STEP, optimized_sum.
  set (u := Z.lxor crc (le_word bs)) in *. clearbody u.
  assert (forall i, is_byte i -> entry s_optimized_crc64_table i = high16 i) as E by (intros; by apply entry_optimized).
  rewrite !E by (repeat first [apply u8_byte | apply lxor_range | lia]).
  assert (forall i, is_u 16 (high16 (u8 i))) as R by (intros; apply entry_optimized, u8_byte).
  f_equal.
  - apply (lor_4_parts _ _ _ _ 8); try done.
    unfold is_u in *. rewrite Z.shiftr_div_pow2 by lia. specialize (R u). split; [apply Z.div_pos; lia|].
    apply Z.div_lt_upper_bound; lia.
  - by apply (lor_4_parts _ _ _ _ 16).
Qed.

Lemma DO_8_OPTIMIZED_STEPS_ok crc bs :
  is_u 64 crc -> Forall is_byte bs -> length bs = 64%nat -> DO_8_OPTIMIZED_STEPS crc bs = crc64_reference crc bs.
Proof.
  intros Hc Hb Hl. unfold DO_8_OPTIMIZED_STEPS.
  assert (forall k, (k <= 8)%nat ->
    foldl (fun crc i => DO_1_OPTIMIZED_STEP crc (take 8 (drop (8 * i) bs))) crc (seq 0 k) =
    crc64_reference crc (take (8 * k) bs)) as G.
  { induction k as [|k IH]; intros Hk; [done|].
    rewrite seq_S, foldl_app, IH by lia. cbn [foldl]. rewrite DO_1_OPTIMIZED_STEP_ok.
    - rewrite <- crc_bitwise_app, Nat.mul_succ_r, take_take_drop. done.
    - apply crc64_reference_range; [done | by apply Forall_take].
    - by apply Forall_take, Forall_drop.
    - rewrite length_take, length_drop, Hl. lia. }
  rewrite G by lia. by rewrite take_ge by lia.
Qed.

Lemma ob_crc64_optimized_ok addr crc buf :
  addr <> 0 -> is_u 64 crc -> Forall is_byte buf -> ob_crc64_optimized addr crc buf = crc64_reference crc buf.
Proof.
  intros Ha Hc Hb. unfold ob_crc64_optimized. destruct (Z.eqb_spec addr 0); [done|]. simpl.
  destruct (Nat.eqb_spec (length buf) 0) as [Hz|]; [by destruct buf|]. simpl.
  destruct (while_len_bitwise OB_DEFAULT_CRC64_POLYNOM (is_u 64) 64 DO_8_OPTIMIZED_STEPS (length buf) crc buf)
    as (crc1 & buf1 & -> & ? & ? & _ & ? & <-); [lia | lia | done | done | |].
  { intros. by split; [apply DO_8_OPTIMIZED_STEPS_ok | apply crc64_reference_range]. }
  destruct (while_len_last OB_DEFAULT_CRC64_POLYNOM (is_u 64) DO_1_STEP (length buf1) crc1 buf1) as [-> _];
    [lia | done | done | | done].
  intros. by split; [apply DO_1_STEP_ok | apply crc64_reference_range].
Qed.

(** ** The routines keep the promise *)

Program Definition crc64_of_reference (f : Z -> list Z -> Z)
  (Hf : forall crc buf, is_u 32 crc -> Forall is_byte buf -> f crc buf = crc32c crc buf) : Crc64 :=
  {| ob_crc64 := f |}.
Next Obligation. intros f Hf crc buf Hc Hb. rewrite Hf by done. by apply crc32c_range. Qed.
Next Obligation. intros f Hf crc Hc. by rewrite Hf. Qed.
Next Obligation.
  intros f Hf crc buf buf' Hc Hb Hb'. rewrite (Hf crc buf), (Hf crc (buf ++ buf')) by (done || by apply Forall_app).
  rewrite Hf; [apply crc_bitwise_app | by apply crc32c_range | done].
Qed.

(** The routine of a processor without the instructions, the one that can be
    evaluated fast. *)
Definition crc64_fast : Crc64 := crc64_of_reference fast_crc64_sse42_manually fast_crc64_sse42_manually_ok.

Definition crc64_instructions (addr : Z) (Ha : addr <> 0) : Crc64 :=
  crc64_of_reference (crc64_sse42 addr) (fun crc buf => crc64_sse42_ok addr crc buf Ha).

(** ** [ObBatchChecksum] computes the checksum of everything filled in *)

Section batch.
Context `{Crc64}.
Import ObBatchChecksum.

(** [s] has taken in [data] after the checksum [base]. *)
Definition taken (base : Z) (data : list Z) (s : t) : Prop :=
  length (buffer_ s) = BUFFER_SIZE /\ (pos_ s < BUFFER_SIZE)%nat /\
  exists summed, Forall is_byte data /\ data = summed ++ take (pos_ s) (buffer_ s) /\
    base_ s = ob_crc64 base summed.

Lemma length_copy_in s src :
  length (buffer_ s) = BUFFER_SIZE -> (pos_ s + length src <= BUFFER_SIZE)%nat ->
  length (copy_in s src) = BUFFER_SIZE.
Proof.
  intros Hl Hp. unfold copy_in. rewrite !length_app, length_take, length_drop. lia.
Qed.

Lemma take_copy_in s src n :
  length (buffer_ s) = BUFFER_SIZE -> (pos_ s + length src <= BUFFER_SIZE)%nat -> n = (pos_ s + length src)%nat ->
  take n (copy_in s src) = take (pos_ s) (buffer_ s) ++ src.
Proof.
  intros Hl Hp ->. unfold copy_in. rewrite app_assoc. apply take_app_length'.
  rewrite length_app, length_take. lia.
Qed.

Lemma fill_loop_taken base turns src data s :
  is_u 32 base -> (length src <= turns)%nat -> Forall is_byte src -> taken base data s ->
  taken base (data ++ src) (fill_loop turns src s).
Proof.
  intros Hbase. revert src data s. induction turns as [|turns IH]; intros src data s Ht Hsrc Hs.
  { assert (src = []) as -> by (apply length_zero_iff_nil; lia). by rewrite app_nil_r. }
  cbn [fill_loop]. destruct (Nat.ltb_spec 0 (length src)) as [Hpos|].
  2: { assert (src = []) as -> by (apply length_zero_iff_nil; lia). by rewrite app_nil_r. }
  destruct Hs as (Hl & Hp & summed & Hd & -> & Hb). cbn [pos_ buffer_ base_].
  set (size := Nat.min (BUFFER_SIZE - pos_ s) (length src)).
  assert (length (take size src) = size) as Hsz by (rewrite length_take; lia).
  assert (Forall is_byte (take size src)) as Htk by by apply Forall_take.
  rewrite <- (take_drop size src) at 1. rewrite app_assoc.
  apply IH; [rewrite length_drop; lia | by apply Forall_drop |].
  apply Forall_app in Hd as [Hsum Hrest].
  destruct (Nat.leb_spec BUFFER_SIZE (pos_ s + size)).
  - assert (pos_ s + size = BUFFER_SIZE)%nat as Hfull by lia.
    split; [by apply length_copy_in; lia|]. split; [unfold BUFFER_SIZE; cbn [pos_]; lia|].
    exists (summed ++ take (pos_ s) (buffer_ s) ++ take size src). cbn [pos_ buffer_ base_].
    rewrite take_0, app_nil_r, app_assoc, take_copy_in by lia. split_and!.
    + by rewrite !Forall_app.
    + done.
    + rewrite Hb. symmetry. rewrite <- app_assoc. apply ob_crc64_app; [done | done | by apply Forall_app].
  - split; [by apply length_copy_in; lia|]. split; [done|].
    exists summed. cbn [pos_ buffer_ base_]. rewrite take_copy_in, app_assoc by lia. split_and!; try done.
    by rewrite !Forall_app.
Qed.

Lemma calc_taken base data s : is_u 32 base -> taken base data s -> (calc s).1 = ob_crc64 base data.
Proof.
  intros Hbase (Hl & Hp & summed & Hd & -> & Hb). unfold calc. apply Forall_app in Hd as [Hsum Hrest].
  destruct (Nat.ltb_spec 0 (pos_ s)); cbn [fst].
  - by rewrite ob_crc64_app, Hb.
  - assert (pos_ s = 0%nat) as -> by lia. by rewrite take_0, app_nil_r.
Qed.
End batch.

(** C33: every routine the processor may select computes the same checksum.  For a
    register of 32 bits and any block of memory at any address, the routine on the
    [crc32] instructions (with its unaligned head, its turns of four words and its
    tail), the one on a table of 256 entries and the one on eight tables give the
    value of the bit-by-bit shift register; a log written on one machine is checked
    with the same value on another. *)
Theorem crc_routines_agree addr crc buf :
  addr <> 0 -> is_u 32 crc -> Forall is_byte buf ->
  crc64_sse42 addr crc buf = crc_bitwise CRC32C_POLYNOM crc buf /\
  crc64_sse42_manually crc buf = crc_bitwise CRC32C_POLYNOM crc buf /\
  fast_crc64_sse42_manually crc buf = crc_bitwise CRC32C_POLYNOM crc buf.
Proof.
  intros. split_and!.
  - by apply crc64_sse42_ok.
  - by apply crc64_sse42_manually_ok.
  - by apply fast_crc64_sse42_manually_ok.
Qed.

Lemma crc_routines_agree_witness :
  let buf := seqZ 1 45 in
  crc64_sse42 4099 17 buf = fast_crc64_sse42_manually 17 buf /\ fast_crc64_sse42_manually 17 buf <> 17.
Proof.
  split; [|by vm_compute].
  destruct (crc_routines_agree 4099 17 (seqZ 1 45)) as (-> & _ & ->); [done | done | | done].
  apply (bool_decide_unpack _). by vm_compute.
Defined.

(** The checksum with the table built at start-up, that takes sixty-four bytes a
    turn through the table of the high halves of the entries only, is the shift
    register of its polynomial, for every block and every register. *)
Theorem ob_crc64_optimized_correct addr crc buf :
  addr <> 0 -> is_u 64 crc -> Forall is_byte buf ->
  ob_crc64_optimized addr crc buf = crc_bitwise OB_DEFAULT_CRC64_POLYNOM crc buf.
Proof. apply ob_crc64_optimized_ok. Qed.

Lemma ob_crc64_optimized_correct_witness :
  let buf := seqZ 1 131 in
  ob_crc64_optimized 8 (2 ^ 63 + 5) buf = crc_bitwise OB_DEFAULT_CRC64_POLYNOM (2 ^ 63 + 5) buf.
Proof.
  apply (ob_crc64_optimized_correct 8 (2 ^ 63 + 5) (seqZ 1 131)); [done | done |].
  apply (bool_decide_unpack _). by vm_compute.
Defined.

(** Filling a batch checksum block by block, whatever the sizes of the blocks, and
    taking the result is the checksum of the blocks put one after the other, from the
    base that was set. *)
Theorem batch_checksum_correct `{Crc64} base blocks s :
  is_u 32 base -> Forall (Forall is_byte) blocks ->
  length (ObBatchChecksum.buffer_ s) = ObBatchChecksum.BUFFER_SIZE ->
  (ObBatchChecksum.calc
     (foldl (fun s b => ObBatchChecksum.fill b s)
        (ObBatchChecksum.set_base base (ObBatchChecksum.reset s)) blocks)).1 =
  ob_crc64 base (concat blocks).
Proof.
  intros Hbase Hb Hl. apply calc_taken; [done|].
  change (concat blocks) with ([] ++ concat blocks).
  set (s0 := ObBatchChecksum.set_base _ _).
  assert (taken base [] s0) as H0.
  { split; [done|]. split; [apply Nat.lt_0_succ|]. exists []. by rewrite ob_crc64_nil. }
  clearbody s0. generalize dependent (@nil Z). revert s0.
  induction Hb as [|b blocks Hb _ IH]; intros s0 data H0; [by rewrite app_nil_r|].
  cbn [concat foldl]. rewrite app_assoc. by apply IH, fill_loop_taken.
Qed.

Lemma batch_checksum_correct_witness :
  let s := ObBatchChecksum.mk (replicate 64 7) 9 3 in
  let blocks := [seqZ 0 50; []; seqZ 50 150] in
  (@ObBatchChecksum.calc crc64_fast
     (foldl (fun s b => @ObBatchChecksum.fill crc64_fast b s)
        (ObBatchChecksum.set_base 5 (ObBatchChecksum.reset s)) blocks)).1 =
  fast_crc64_sse42_manually 5 (seqZ 0 200).
Proof.
  change (seqZ 0 200) with (concat [seqZ 0 50; []; seqZ 50 150]).
  apply (@batch_checksum_correct crc64_fast 5 [seqZ 0 50; []; seqZ 50 150]); [done | | done].
  apply (bool_decide_unpack _). by vm_compute.
Defined.
