(* ===== verification/Parity.v ===== *)
(** * Parity: [deps/oblib/src/lib/checksum/ob_parity_check.cpp]

    [parity_check] on words of 16, 32 and 64 bits: the word is folded onto its
    low byte, and the byte looked up. *)

From Stdlib Require Import ZArith Lia Bool.
From stdpp Require Import base numbers list sets.
From S2P Require Import Prelude.

Local Open Scope Z_scope.

(** The macros that lay the table out. *)
Definition P2 (n : bool) : list bool := [n; xorb n true; xorb n true; n].
Definition P4 (n : bool) : list bool := P2 n ++ P2 (xorb n true) ++ P2 (xorb n true) ++ P2 n.
Definition P6 (n : bool) : list bool := P4 n ++ P4 (xorb n true) ++ P4 (xorb n true) ++ P4 n.
Definition ParityTable : list bool := P6 false ++ P6 true ++ P6 true ++ P6 false.

Definition parity_lookup (val : Z) : bool := nth (Z.to_nat (Z.land val 0xff)) ParityTable false.

Definition parity_check16 (value : Z) : bool :=
  let val := value in
  let val := Z.lxor val (Z.shiftr val 8) in
  parity_lookup val.

Definition parity_check32 (value : Z) : bool :=
  let val := value in
  let val := Z.lxor val (Z.shiftr val 16) in
  let val := Z.lxor val (Z.shiftr val 8) in
  parity_lookup val.

Definition parity_check64 (value : Z) : bool :=
  let val := value in
  let val := Z.lxor val (Z.shiftr val 32) in
  let val := Z.lxor val (Z.shiftr val 16) in
  let val := Z.lxor val (Z.shiftr val 8) in
  parity_lookup val.

(** ** The number of ones is odd *)

Fixpoint parity (n : nat) (v : Z) : bool :=
  match n with
  | O => false
  | S n => xorb (Z.testbit v (Z.of_nat n)) (parity n v)
  end.

Lemma parity_lxor n a b : parity n (Z.lxor a b) = xorb (parity n a) (parity n b).
Proof.
  induction n as [|n IH]; [done|]. simpl. rewrite Z.lxor_spec, IH.
  by destruct (Z.testbit a _), (Z.testbit b _), (parity n a), (parity n b).
Qed.

Lemma b2z_xorb a b : Z.b2z (xorb a b) = Z.lxor (Z.b2z a) (Z.b2z b).
Proof. by destruct a, b. Qed.

Lemma additive_parity n : additive (fun v => Z.b2z (parity n v)).
Proof. intros a b. by rewrite parity_lxor, b2z_xorb. Qed.

Lemma parity_lookup_ok val : parity_lookup val = parity 8 (u8 val).
Proof.
  assert (Forall (fun i => nth (Z.to_nat i) ParityTable false = parity 8 i) (seqZ 0 256)) as F.
  { apply (bool_decide_unpack _). by vm_compute. }
  unfold parity_lookup. rewrite <- u8_land. pose proof (to_u_range 8 val) as R. unfold is_u in R.
  apply (proj1 (Forall_forall _ _) F), elem_of_seqZ. lia.
Qed.

Lemma additive_parity_lookup : additive (fun v => Z.b2z (parity_lookup v)).
Proof. intros a b. by rewrite !parity_lookup_ok, additive_u8, parity_lxor, b2z_xorb. Qed.

Lemma parity_ext (f : Z -> bool) n v :
  additive (fun v => Z.b2z (f v)) -> Forall (fun i => f (2 ^ i) = parity n (2 ^ i)) (seqZ 0 (Z.of_nat n)) ->
  is_u (Z.of_nat n) v -> f v = parity n v.
Proof.
  intros Hf Hb Hv. apply Z.b2z_inj. apply (additive_ext (fun v => Z.b2z (f v)) (fun v => Z.b2z (parity n v)) n); try done.
  - apply additive_parity.
  - eapply Forall_impl; [exact Hb|]. by intros i ->.
Qed.

(** Folding and the table compute the parity of the whole word. *)
Lemma parity_check16_ok v : is_u 16 v -> parity_check16 v = parity 16 v.
Proof.
  apply (parity_ext parity_check16 16); [|apply (bool_decide_unpack _); by vm_compute].
  apply (additive_comp (fun v => Z.b2z (parity_lookup v))); [additive | apply additive_parity_lookup].
Qed.

Lemma parity_check32_ok v : is_u 32 v -> parity_check32 v = parity 32 v.
Proof.
  apply (parity_ext parity_check32 32); [|apply (bool_decide_unpack _); by vm_compute].
  apply (additive_comp (fun v => Z.b2z (parity_lookup v))); [additive | apply additive_parity_lookup].
Qed.

Lemma parity_check64_ok v : is_u 64 v -> parity_check64 v = parity 64 v.
Proof.
  apply (parity_ext parity_check64 64); [|apply (bool_decide_unpack _); by vm_compute].
  apply (additive_comp (fun v => Z.b2z (parity_lookup v))); [additive | apply additive_parity_lookup].
Qed.

(** One bit more or less changes the parity. *)
Lemma parity_pow2 n i : parity n (2 ^ Z.of_nat i) = (i <? n)%nat.
Proof.
  induction n as [|n IH]; [done|]. cbn [parity]. rewrite IH, Z.pow2_bits_eqb by lia.
  destruct (Z.eqb_spec (Z.of_nat i) (Z.of_nat n)), (Nat.ltb_spec i n), (Nat.ltb_spec i (S n)); simpl; lia || done.
Qed.

Lemma parity_flip n v i : (i < n)%nat -> parity n (Z.lxor v (2 ^ Z.of_nat i)) = negb (parity n v).
Proof.
  intros Hi. rewrite parity_lxor, parity_pow2. apply Nat.ltb_lt in Hi as ->. by destruct (parity n v).
Qed.
