(* ===== verification/HeaderFormat.v ===== *)
(** * Fixed-layout headers

    The headers of the log are written and read field by field, each field by a
    routine of [Serialization], [Scn] or [Lsn], in one condition
    [OB_FAIL(e1) || OB_FAIL(e2) || ...].  This file holds that sequencing, the
    contract of a field's routines, and the parity of the bytes of a header. *)

From Stdlib Require Import ZArith Lia Bool.
From stdpp Require Import base option numbers list sets.
From S2P Require Import Prelude Serialization Scn Lsn Parity.

Local Open Scope Z_scope.

(** ** Sequencing *)

Abbreviation encoder := (buffer -> Z -> Z -> outcome (Z * buffer * Z)).
Abbreviation decoder H := (buffer -> Z -> Z -> H -> outcome (Z * Z * H)).

Fixpoint enc_seq (es : list encoder) (buf : buffer) (buf_len pos : Z) : outcome (Z * buffer * Z) :=
  match es with
  | [] => Some (OB_SUCCESS, buf, pos)
  | e :: es =>
      '(ret, buf, pos) ← e buf buf_len pos;
      if ob_fail ret then Some (ret, buf, pos) else enc_seq es buf buf_len pos
  end.

Fixpoint dec_seq {H} (ds : list (decoder H)) (buf : buffer) (data_len pos : Z) (h : H) : outcome (Z * Z * H) :=
  match ds with
  | [] => Some (OB_SUCCESS, pos, h)
  | d :: ds =>
      '(ret, pos, h) ← d buf data_len pos h;
      if ob_fail ret then Some (ret, pos, h) else dec_seq ds buf data_len pos h
  end.

(** Decoding into a member of an object. *)
Definition field {H A} (dec : decoder A) (get : H -> A) (set : A -> H -> H) : decoder H :=
  fun buf data_len pos h =>
    '(ret, pos, v) ← dec buf data_len pos (get h); Some (ret, pos, set v h).

(** [buf + pos]. *)
Definition ptr_add (bytes : list Z) (pos : Z) : list Z := drop (Z.to_nat pos) bytes.

(** ** Contracts *)

Definition slice (bytes : list Z) (pos : Z) (n : nat) : list Z := take n (drop (Z.to_nat pos) bytes).

(** With space for [bs] the encoder stores it; without, it fails and nothing is
    stored. *)
Definition writes (e : encoder) (bs : list Z) : Prop :=
  forall bytes buf_len pos, 0 <= pos -> buf_len <= Z.of_nat (length bytes) ->
    if Z.of_nat (length bs) <=? buf_len - pos then
      e (Some bytes) buf_len pos = Some (OB_SUCCESS, Some (written bytes pos bs), pos + Z.of_nat (length bs))
    else exists ret, ob_fail ret = true /\ e (Some bytes) buf_len pos = Some (ret, Some bytes, pos).

(** With [n] bytes left the decoder makes [f] of them; without, it fails. *)
Definition reads {H} (d : decoder H) (n : nat) (f : list Z -> H -> H) : Prop :=
  forall bytes data_len pos h, 0 <= pos -> data_len <= Z.of_nat (length bytes) ->
    if Z.of_nat n <=? data_len - pos then
      d (Some bytes) data_len pos h = Some (OB_SUCCESS, pos + Z.of_nat n, f (slice bytes pos n) h)
    else exists ret pos' h', ob_fail ret = true /\ d (Some bytes) data_len pos h = Some (ret, pos', h').

Lemma length_slice bytes pos n :
  0 <= pos -> pos + Z.of_nat n <= Z.of_nat (length bytes) -> length (slice bytes pos n) = n.
Proof. intros. unfold slice. rewrite length_take, length_drop. lia. Qed.

Lemma take_then_drop {A} n m k (l : list A) : k = (n + m)%nat -> take m (drop n l) ++ drop k l = drop n l.
Proof. intros ->. rewrite <- drop_drop. apply take_drop. Qed.

Lemma slice_take bytes pos n m : (n <= m)%nat -> take n (slice bytes pos m) = slice bytes pos n.
Proof. intros. unfold slice. rewrite take_take. f_equal. lia. Qed.

Lemma slice_drop bytes pos n m : 0 <= pos -> drop n (slice bytes pos (n + m)) = slice bytes (pos + Z.of_nat n) m.
Proof.
  intros. unfold slice. rewrite <- take_drop_commute, drop_drop. do 2 f_equal. lia.
Qed.

Lemma slice_at bytes pos n :
  0 <= pos -> pos + Z.of_nat n <= Z.of_nat (length bytes) -> bytes_at bytes pos (slice bytes pos n).
Proof.
  intros Hp Hl. split; [done|]. intros i b Hi. unfold slice in Hi.
  apply lookup_take_Some in Hi as [Hi _]. by rewrite lookup_drop in Hi.
Qed.

Lemma fmap_u8_bytes bs : Forall is_byte bs -> u8 <$> bs = bs.
Proof.
  induction 1 as [|b bs Hb _ IH]; [done|]. rewrite fmap_cons, IH. f_equal. by apply to_u_id.
Qed.

Lemma slice_written bytes pos bs n :
  0 <= pos -> pos + Z.of_nat (length bs) <= Z.of_nat (length bytes) -> n = length bs ->
  slice (written bytes pos bs) pos n = u8 <$> bs.
Proof.
  intros Hp Hl ->. unfold slice, written. rewrite drop_app_length' by (rewrite length_take; lia).
  apply take_app_length'. by rewrite length_fmap.
Qed.

(** Storing [a] in front of [b] is storing both. *)
Lemma written_before bytes pos a b :
  0 <= pos -> pos + Z.of_nat (length a + length b) <= Z.of_nat (length bytes) ->
  written (written bytes (pos + Z.of_nat (length a)) b) pos a = written bytes pos (a ++ b).
Proof.
  intros Hp Hl. unfold written. rewrite fmap_app, length_app, <- !app_assoc. f_equal; [|f_equal].
  - rewrite take_app_le, take_take by (rewrite length_take; lia). f_equal. lia.
  - rewrite drop_app_length' by (rewrite length_take; lia). do 2 f_equal. lia.
Qed.

(** *** Sequences *)

Lemma enc_seq_ok es bss bytes buf_len pos :
  Forall2 writes es bss -> 0 <= pos -> buf_len <= Z.of_nat (length bytes) ->
  if Z.of_nat (length (concat bss)) <=? buf_len - pos then
    enc_seq es (Some bytes) buf_len pos =
    Some (OB_SUCCESS, Some (written bytes pos (concat bss)), pos + Z.of_nat (length (concat bss)))
  else 0 < Z.of_nat (length (concat bss)) ->
    exists ret bytes' pos', ob_fail ret = true /\
      enc_seq es (Some bytes) buf_len pos = Some (ret, Some bytes', pos').
Proof.
  intros Hw. revert bytes pos. induction Hw as [|e bs es bss He Hw IH]; intros bytes pos Hpos Hl.
  { cbn [concat length enc_seq]. case_match; [by rewrite written_nil, Z.add_0_r | lia]. }
  cbn [concat enc_seq]. rewrite length_app. specialize (He bytes buf_len pos Hpos Hl).
  destruct (Z.leb_spec (Z.of_nat (length bs)) (buf_len - pos)).
  - rewrite He. cbn [mbind option_bind]. change (ob_fail OB_SUCCESS) with false. cbv iota.
    specialize (IH (written bytes pos bs) (pos + Z.of_nat (length bs))).
    rewrite length_written in IH by lia. specialize (IH ltac:(lia) Hl).
    destruct (Z.leb_spec (Z.of_nat (length (concat bss))) (buf_len - (pos + Z.of_nat (length bs)))).
    + destruct (Z.leb_spec (Z.of_nat (length bs + length (concat bss))) (buf_len - pos)); [|lia].
      rewrite IH, written_app by lia. do 2 f_equal. lia.
    + destruct (Z.leb_spec (Z.of_nat (length bs + length (concat bss))) (buf_len - pos)); [lia|].
      intros _. apply IH. lia.
  - destruct (Z.leb_spec (Z.of_nat (length bs + length (concat bss))) (buf_len - pos)); [lia|].
    destruct He as (ret & Hf & ->). cbn [mbind option_bind]. rewrite Hf. intros _. by exists ret, bytes, pos.
Qed.

(** What a sequence of fields makes of its bytes. *)
Fixpoint parse {H} (fs : list (nat * (list Z -> H -> H))) (bs : list Z) (h : H) : H :=
  match fs with
  | [] => h
  | (n, f) :: fs => parse fs (drop n bs) (f (take n bs) h)
  end.

Lemma parse_app {H} n (f : list Z -> H -> H) fs bs rest h :
  length bs = n -> parse ((n, f) :: fs) (bs ++ rest) h = parse fs rest (f bs h).
Proof. intros <-. cbn [parse]. by rewrite take_app_length, drop_app_length. Qed.

Lemma parse_last {H} n (f : list Z -> H -> H) bs h : length bs = n -> parse [(n, f)] bs h = f bs h.
Proof. intros <-. cbn [parse]. by rewrite take_ge. Qed.

Definition width {A} (fs : list (nat * A)) : nat := sum_list (fs.*1).

Lemma dec_seq_ok {H} (ds : list (decoder H)) fs bytes data_len pos h :
  Forall2 (fun d nf => reads d nf.1 nf.2) ds fs -> 0 <= pos -> data_len <= Z.of_nat (length bytes) ->
  if Z.of_nat (width fs) <=? data_len - pos then
    dec_seq ds (Some bytes) data_len pos h =
    Some (OB_SUCCESS, pos + Z.of_nat (width fs), parse fs (slice bytes pos (width fs)) h)
  else 0 < Z.of_nat (width fs) ->
    exists ret pos' h', ob_fail ret = true /\ dec_seq ds (Some bytes) data_len pos h = Some (ret, pos', h').
Proof.
  intros Hw. revert pos h. induction Hw as [|d [n f] ds fs Hd Hw IH]; intros pos h Hpos Hl.
  { cbn. case_match; [by rewrite Z.add_0_r | lia]. }
  change (width ((n, f) :: fs)) with (n + width fs)%nat. cbn [dec_seq parse].
  specialize (Hd bytes data_len pos h Hpos Hl). cbn [fst snd] in Hd.
  destruct (Z.leb_spec (Z.of_nat n) (data_len - pos)).
  - rewrite Hd. cbn [mbind option_bind]. change (ob_fail OB_SUCCESS) with false. cbv iota.
    specialize (IH (pos + Z.of_nat n) (f (slice bytes pos n) h) ltac:(lia) Hl).
    rewrite slice_take, slice_drop by lia.
    destruct (Z.leb_spec (Z.of_nat (width fs)) (data_len - (pos + Z.of_nat n))).
    + destruct (Z.leb_spec (Z.of_nat (n + width fs)) (data_len - pos)); [|lia].
      rewrite IH. do 3 f_equal. lia.
    + destruct (Z.leb_spec (Z.of_nat (n + width fs)) (data_len - pos)); [lia|].
      intros _. apply IH. lia.
  - destruct (Z.leb_spec (Z.of_nat (n + width fs)) (data_len - pos)); [lia|].
    destruct Hd as (ret & pos' & h' & Hf & ->). cbn [mbind option_bind]. rewrite Hf. intros _. by eauto.
Qed.

(** *** Fields *)

Lemma encode_bytes_writes bs : writes (fun buf buf_len pos => encode_bytes buf buf_len pos bs) bs.
Proof.
  intros bytes buf_len pos Hp Hl. destruct (Z.leb_spec (Z.of_nat (length bs)) (buf_len - pos)).
  - by apply encode_bytes_ok.
  - exists OB_SIZE_OVERFLOW. split; [done|]. by apply encode_bytes_overflow.
Qed.

Lemma encode_i16_writes v : writes (fun buf buf_len pos => encode_i16 buf buf_len pos v) (be_bytes 2 v).
Proof. apply encode_bytes_writes. Qed.
Lemma encode_i32_writes v : writes (fun buf buf_len pos => encode_i32 buf buf_len pos v) (be_bytes 4 v).
Proof. apply encode_bytes_writes. Qed.
Lemma encode_i64_writes v : writes (fun buf buf_len pos => encode_i64 buf buf_len pos v) (be_bytes 8 v).
Proof. apply encode_bytes_writes. Qed.

Lemma lsn_serialize_writes v :
  writes (fun buf buf_len pos => lsn_serialize buf buf_len pos v) (be_bytes 8 (s64 v)).
Proof.
  intros bytes buf_len pos Hp Hl. pose proof (encode_i64_writes (s64 v) bytes buf_len pos Hp Hl) as E.
  unfold lsn_serialize. cbn [bool_decide andb]. rewrite length_be_bytes in *. case_match.
  - by rewrite E.
  - destruct E as (ret & Hf & ->). cbn [mbind option_bind]. rewrite Hf. by exists OB_BUF_NOT_ENOUGH.
Qed.

Lemma fixed_serialize_writes v :
  writes (fun buf buf_len pos => fixed_serialize buf buf_len pos v) (be_bytes 8 (s64 v)).
Proof.
  intros bytes buf_len pos Hp Hl. pose proof (encode_i64_writes (s64 v) bytes buf_len pos Hp Hl) as E.
  unfold fixed_serialize. rewrite length_be_bytes in *.
  destruct (Z.leb_spec buf_len 0).
  - destruct (Z.leb_spec (Z.of_nat 8) (buf_len - pos)); [lia|]. by exists OB_INVALID_ARGUMENT.
  - case_match.
    + by rewrite E.
    + destruct E as (ret & Hf & ->). cbn [mbind option_bind]. rewrite Hf. by exists ret.
Qed.

Lemma decode_bytes_reads n value : reads (fun buf data_len pos old => decode_bytes buf data_len pos n value old) n
  (fun bs _ => value bs).
Proof.
  intros bytes data_len pos h Hp Hl. destruct (Z.leb_spec (Z.of_nat n) (data_len - pos)).
  - pose proof (length_slice bytes pos n Hp ltac:(lia)) as L. rewrite <- L at 1 2.
    apply decode_bytes_at; [apply slice_at; lia | lia].
  - exists OB_DESERIALIZE_ERROR, pos, h. split; [done|]. unfold decode_bytes.
    destruct (Z.leb_spec (Z.of_nat n) (data_len - pos)); [lia | done].
Qed.

Lemma decode_i16_reads : reads decode_i16 2 (fun bs _ => s16 (be_value bs)).
Proof. apply decode_bytes_reads. Qed.
Lemma decode_i32_reads : reads decode_i32 4 (fun bs _ => s32 (be_value bs)).
Proof. apply decode_bytes_reads. Qed.
Lemma decode_i64_reads : reads decode_i64 8 (fun bs _ => s64 (be_value bs)).
Proof. apply decode_bytes_reads. Qed.

Lemma be_value_range bs : is_u (8 * Z.of_nat (length bs)) (be_value bs).
Proof.
  induction bs as [|b bs IH]; [done|]. cbn [be_value length].
  pose proof (land_ff_byte b) as Hb. unfold is_byte, is_u in *. rewrite Nat2Z.inj_succ, Z.mul_succ_r, Z.pow_add_r by lia.
  rewrite Z.lor_comm, <- add_low_high by lia. nia.
Qed.

Lemma lsn_deserialize_reads : reads lsn_deserialize 8 (fun bs _ => u64 (be_value bs)).
Proof.
  intros bytes data_len pos h Hp Hl. pose proof (decode_i64_reads bytes data_len pos (s64 h) Hp Hl) as E.
  unfold lsn_deserialize. cbn [bool_decide andb]. case_match.
  - rewrite E. cbn [mbind option_bind]. change (ob_fail OB_SUCCESS) with false. cbv iota. by rewrite to_u_of_to_s.
  - destruct E as (ret & pos' & h' & Hf & ->). cbn [mbind option_bind]. rewrite Hf.
    by exists OB_BUF_NOT_ENOUGH, pos, (u64 h').
Qed.

Lemma fixed_deserialize_reads : reads fixed_deserialize 8 (fun bs _ => transform_max_ (u64 (be_value bs))).
Proof.
  intros bytes data_len pos h Hp Hl. pose proof (decode_i64_reads bytes data_len pos (s64 h) Hp Hl) as E.
  unfold fixed_deserialize, fixed_deserialize_without_transform.
  destruct (Z.leb_spec data_len 0).
  - destruct (Z.leb_spec (Z.of_nat 8) (data_len - pos)); [lia|]. by exists OB_INVALID_ARGUMENT, pos, h.
  - case_match.
    + rewrite E. cbn [mbind option_bind]. change (ob_fail OB_SUCCESS) with false. cbv iota. by rewrite to_u_of_to_s.
    + destruct E as (ret & pos' & h' & Hf & ->). cbn [mbind option_bind]. rewrite Hf. by eexists ret, pos, _.
Qed.

Lemma field_reads {H A} (dec : decoder A) n f (get : H -> A) set :
  reads dec n f -> reads (field dec get set) n (fun bs h => set (f bs (get h)) h).
Proof.
  intros Hd bytes data_len pos h Hp Hl. specialize (Hd bytes data_len pos (get h) Hp Hl). unfold field. case_match.
  - by rewrite Hd.
  - destruct Hd as (ret & pos' & v & Hf & ->). by eexists ret, pos', _.
Qed.

(** What is read back of what was stored. *)
Lemma s16_be_bytes v : is_s 16 v -> s16 (be_value (be_bytes 2 v)) = v.
Proof. intros. rewrite be_value_bytes. by apply to_s_to_u. Qed.
Lemma s32_be_bytes v : is_s 32 v -> s32 (be_value (be_bytes 4 v)) = v.
Proof. intros. rewrite be_value_bytes. by apply to_s_to_u. Qed.
Lemma s64_be_bytes v : is_s 64 v -> s64 (be_value (be_bytes 8 v)) = v.
Proof. intros. rewrite be_value_bytes. by apply to_s_to_u. Qed.
Lemma u64_be_bytes v : is_u 64 v -> u64 (be_value (be_bytes 8 (s64 v))) = v.
Proof.
  intros. rewrite be_value_bytes. change (8 * Z.of_nat 8) with 64.
  by rewrite to_u_of_to_s, !(to_u_id 64) by (done || by apply to_u_range).
Qed.

Create HintDb header.
#[export] Hint Resolve encode_i16_writes encode_i32_writes encode_i64_writes lsn_serialize_writes
  fixed_serialize_writes : header.

(** The contracts of the fields of a header, one after the other. *)
Ltac fields_written := repeat (apply Forall2_cons_2; [auto with header|]); apply Forall2_nil_2.
Ltac fields_read :=
  repeat (apply Forall2_cons_2;
    [cbn [fst snd];
     first [ exact (field_reads _ _ _ _ _ decode_i16_reads) | exact (field_reads _ _ _ _ _ decode_i32_reads)
           | exact (field_reads _ _ _ _ _ decode_i64_reads) | exact (field_reads _ _ _ _ _ lsn_deserialize_reads)
           | exact (field_reads _ _ _ _ _ fixed_deserialize_reads)]|]);
  apply Forall2_nil_2.

(** ** Parity of the bytes *)

Definition bytes_parity (bs : list Z) : bool := foldr (fun b p => xorb (parity 8 b) p) false bs.

Lemma parity_bits n a b : (forall i, 0 <= i < Z.of_nat n -> Z.testbit a i = Z.testbit b i) -> parity n a = parity n b.
Proof.
  intros H. induction n as [|n IH]; [done|]. cbn [parity]. rewrite H by lia. f_equal. apply IH. intros. apply H. lia.
Qed.

Lemma parity_to_u n v : parity n (to_u (Z.of_nat n) v) = parity n v.
Proof. apply parity_bits. intros i Hi. apply Z.mod_pow2_bits_low. lia. Qed.

Lemma parity_add n m v : parity (n + m) v = xorb (parity n (Z.shiftr v (Z.of_nat m))) (parity m v).
Proof.
  induction n as [|n IH]; [symmetry; apply xorb_false_l|]. cbn [parity Nat.add].
  rewrite IH, Z.shiftr_spec by lia. rewrite Nat2Z.inj_add. by destruct (Z.testbit _ _), (parity n _), (parity m _).
Qed.

Lemma parity_be_value bs : parity (8 * length bs) (be_value bs) = bytes_parity bs.
Proof.
  induction bs as [|b bs IH]; [done|]. cbn [length be_value bytes_parity foldr].
  replace (8 * S (length bs))%nat with (8 + 8 * length bs)%nat by lia. rewrite parity_add. f_equal.
  - pose proof (be_value_range bs) as R. rewrite Z.shiftr_lor, Nat2Z.inj_mul, Z.shiftr_shiftl_l, Z.sub_diag by lia.
    rewrite Z.shiftl_0_r, (Z.shiftr_div_pow2 (be_value bs)) by lia. change (Z.of_nat 8) with 8.
    rewrite (Z.div_small (be_value bs)) by done. rewrite Z.lor_0_r, <- u8_land. apply (parity_to_u 8).
  - etrans; [|exact IH]. apply parity_bits. intros i Hi. rewrite Z.lor_spec, Z.shiftl_spec_low by lia. done.
Qed.

(** A word's parity is that of the bytes it is stored as. *)
Lemma parity_be_bytes n v : parity (8 * n) v = bytes_parity (be_bytes n v).
Proof.
  rewrite <- parity_be_value, be_value_bytes, length_be_bytes.
  rewrite <- (parity_to_u (8 * n) v) at 1. by rewrite Nat2Z.inj_mul.
Qed.

Lemma bytes_parity_app bs cs : bytes_parity (bs ++ cs) = xorb (bytes_parity bs) (bytes_parity cs).
Proof.
  induction bs as [|b bs IH]; [symmetry; apply xorb_false_l|].
  change (bytes_parity ((b :: bs) ++ cs)) with (xorb (parity 8 b) (bytes_parity (bs ++ cs))).
  rewrite IH. symmetry. apply xorb_assoc_reverse.
Qed.

(** The bytes with the bit [j] of the byte [i] inverted. *)
Definition flip_bit (i j : nat) (bs : list Z) : list Z := alter (fun b => Z.lxor b (2 ^ Z.of_nat j)) i bs.

Lemma bytes_parity_flip i j bs :
  (i < length bs)%nat -> (j < 8)%nat -> bytes_parity (flip_bit i j bs) = negb (bytes_parity bs).
Proof.
  revert i. induction bs as [|b bs IH]; intros [|i] Hi Hj; cbn [length] in Hi; try lia.
  - change (xorb (parity 8 (Z.lxor b (2 ^ Z.of_nat j))) (bytes_parity bs) =
            negb (xorb (parity 8 b) (bytes_parity bs))).
    rewrite parity_flip by done. by destruct (parity 8 b), (bytes_parity bs).
  - change (xorb (parity 8 b) (bytes_parity (flip_bit i j bs)) = negb (xorb (parity 8 b) (bytes_parity bs))).
    rewrite IH by lia. by destruct (parity 8 b), (bytes_parity bs).
Qed.

(** ** Bytes and values *)

Lemma be_bytes_byte n v : Forall is_byte (be_bytes n v).
Proof. induction n as [|n IH]; [done|]. cbn [be_bytes]. constructor; [apply land_ff_byte | exact IH]. Qed.

Lemma be_bytes_bits n a b :
  (forall i, 0 <= i < 8 * Z.of_nat n -> Z.testbit a i = Z.testbit b i) -> be_bytes n a = be_bytes n b.
Proof.
  intros H. induction n as [|n IH]; [done|]. cbn [be_bytes]. f_equal; [|apply IH; intros; apply H; lia].
  change 0xff with (Z.ones 8). apply Z.bits_inj'. intros i Hi. rewrite !Z.land_spec, !Z.shiftr_spec by done.
  destruct (Z.lt_ge_cases i 8); [by rewrite H by lia|]. by rewrite Z.ones_spec_high, !andb_false_r by lia.
Qed.

Lemma be_bytes_to_u n v : be_bytes n (to_u (8 * Z.of_nat n) v) = be_bytes n v.
Proof. apply be_bytes_bits. intros. apply Z.mod_pow2_bits_low. lia. Qed.

Lemma be_bytes_to_s n v : (0 < n)%nat -> be_bytes n (to_s (8 * Z.of_nat n) v) = be_bytes n v.
Proof. intros. by rewrite <- be_bytes_to_u, to_u_of_to_s, be_bytes_to_u by lia. Qed.

Lemma be_bytes_value bs : Forall is_byte bs -> be_bytes (length bs) (be_value bs) = bs.
Proof.
  induction 1 as [|b bs Hb _ IH]; [done|]. cbn [length be_bytes be_value].
  pose proof (be_value_range bs) as R. f_equal.
  - rewrite Z.shiftr_lor, Z.shiftr_shiftl_l, Z.sub_diag, Z.shiftl_0_r by lia.
    rewrite (Z.shiftr_div_pow2 (be_value bs)), (Z.div_small (be_value bs)), Z.lor_0_r by (done || lia).
    rewrite <- !u8_land, !(to_u_id 8); try done. by rewrite to_u_id.
  - etrans; [|exact IH]. apply be_bytes_bits. intros i Hi. by rewrite Z.lor_spec, Z.shiftl_spec_low by lia.
Qed.

Lemma be_bytes_s16 bs : Forall is_byte bs -> length bs = 2%nat -> be_bytes 2 (s16 (be_value bs)) = bs.
Proof. intros Hb Hl. rewrite (be_bytes_to_s 2), <- Hl by lia. by apply be_bytes_value. Qed.
Lemma be_bytes_s32 bs : Forall is_byte bs -> length bs = 4%nat -> be_bytes 4 (s32 (be_value bs)) = bs.
Proof. intros Hb Hl. rewrite (be_bytes_to_s 4), <- Hl by lia. by apply be_bytes_value. Qed.
Lemma be_bytes_s64 bs : Forall is_byte bs -> length bs = 8%nat -> be_bytes 8 (s64 (be_value bs)) = bs.
Proof. intros Hb Hl. rewrite (be_bytes_to_s 8), <- Hl by lia. by apply be_bytes_value. Qed.
Lemma be_bytes_u64 bs : Forall is_byte bs -> length bs = 8%nat -> be_bytes 8 (s64 (u64 (be_value bs))) = bs.
Proof.
  intros Hb Hl. rewrite (be_bytes_to_s 8) by lia. change (to_u 64) with (to_u (8 * Z.of_nat 8)).
  rewrite be_bytes_to_u, <- Hl. by apply be_bytes_value.
Qed.

(** ** A bit inverted *)

Lemma length_flip_bit i j bs : length (flip_bit i j bs) = length bs.
Proof. apply length_alter. Qed.

Lemma flip_byte j b : (j < 8)%nat -> is_byte b -> is_byte (Z.lxor b (2 ^ Z.of_nat j)).
Proof.
  intros Hj Hb. apply lxor_range; [lia | done|]. split; [lia|]. apply Z.pow_lt_mono_r; lia.
Qed.

Lemma flip_bit_byte i j bs : (j < 8)%nat -> Forall is_byte bs -> Forall is_byte (flip_bit i j bs).
Proof.
  intros Hj Hb. apply Forall_alter; [done|]. intros b _ Hbb. by apply flip_byte.
Qed.

Lemma be_value_flip i j bs :
  Forall is_byte bs -> (i < length bs)%nat -> (j < 8)%nat ->
  be_value (flip_bit i j bs) = Z.lxor (be_value bs) (2 ^ Z.of_nat (8 * (length bs - 1 - i) + j)).
Proof.
  intros Hb. revert i. induction Hb as [|b bs Hb Hbs IH]; intros i Hi Hj; cbn [length] in Hi; [lia|].
  pose proof (be_value_range bs) as R. destruct i as [|i].
  - change (flip_bit 0 j (b :: bs)) with (Z.lxor b (2 ^ Z.of_nat j) :: bs). cbn [be_value length].
    rewrite <- !u8_land, (to_u_id 8 b Hb), (to_u_id 8 (Z.lxor b _)) by by apply flip_byte.
    rewrite !(Z.lor_comm _ (be_value bs)), <- !add_low_high, !lxor_low_high by (done || lia).
    rewrite Z.shiftl_lxor, Z.lxor_assoc. do 2 f_equal.
    rewrite Z.shiftl_mul_pow2, <- Z.pow_add_r by lia. f_equal. lia.
  - change (flip_bit (S i) j (b :: bs)) with (b :: flip_bit i j bs). cbn [be_value length].
    pose proof (be_value_range (flip_bit i j bs)) as R'.
    rewrite length_flip_bit in *. rewrite !(Z.lor_comm _ (be_value _)), <- !add_low_high, !lxor_low_high by (done || lia).
    rewrite IH by lia. rewrite !Z.lxor_assoc, (Z.lxor_comm (Z.shiftl _ _)).
    do 3 f_equal. lia.
Qed.

(** The only pair of times one bit apart whose serialized forms stand for the same
    time is the largest time and [INT64_MAX], which is read as the largest time. *)
Lemma flipped_max scn k : (k < 64)%nat -> Scn.is_valid scn = true -> Z.lxor scn (2 ^ Z.of_nat k) = INT64_MAX ->
  transform_max_ INT64_MAX = scn.
Proof.
  intros Hk Hv E. assert (scn = Z.lxor INT64_MAX (2 ^ Z.of_nat k)) as ->.
  { by rewrite <- E, Z.lxor_assoc, Z.lxor_nilpotent, Z.lxor_0_r. }
  clear E. assert (Forall (fun k => Scn.is_valid (Z.lxor INT64_MAX (2 ^ Z.of_nat k)) = true ->
    transform_max_ INT64_MAX = Z.lxor INT64_MAX (2 ^ Z.of_nat k)) (seq 0 64)) as F.
  { apply (bool_decide_unpack _). by vm_compute. }
  apply (proj1 (Forall_forall _ _) F); [apply elem_of_seq; lia | done].
Qed.

(** Inverting a bit of a header that holds a valid time: the serialized time does not
    become [INT64_MAX], or the header is read as before. *)
Lemma flip_around_scn pre post scn i j :
  Forall is_byte pre -> Forall is_byte post -> is_u 64 scn -> Scn.is_valid scn = true ->
  (i < length pre + 8 + length post)%nat -> (j < 8)%nat ->
  exists pre' raw post',
    flip_bit i j (pre ++ be_bytes 8 (s64 scn) ++ post) = pre' ++ raw ++ post' /\
    length pre' = length pre /\ length raw = 8%nat /\ length post' = length post /\
    Forall is_byte pre' /\ Forall is_byte raw /\ Forall is_byte post' /\
    (u64 (be_value raw) <> INT64_MAX \/ (pre' = pre /\ post' = post /\ transform_max_ (u64 (be_value raw)) = scn)).
Proof.
  intros Hpre Hpost Hu Hv Hi Hj. assert (scn <> INT64_MAX) as Hne by (intros ->; done).
  pose proof (be_bytes_byte 8 (s64 scn)) as Hraw. pose proof (length_be_bytes 8 (s64 scn)) as Hl.
  unfold flip_bit. destruct (decide (i < length pre)%nat); [|destruct (decide (i < length pre + 8)%nat)].
  - rewrite alter_app_l by done. eexists _, _, _. split; [done|].
    rewrite length_alter. split_and!; try done; [by apply flip_bit_byte|]. left. by rewrite u64_be_bytes.
  - rewrite alter_app_r_alt, alter_app_l by lia. eexists _, _, _. split; [done|].
    rewrite length_alter. split_and!; try done; [by apply flip_bit_byte|].
    fold (flip_bit (i - length pre) j (be_bytes 8 (s64 scn))). rewrite be_value_flip, Hl by (done || lia).
    assert (be_value (be_bytes 8 (s64 scn)) = scn) as ->.
    { rewrite be_value_bytes. change (8 * Z.of_nat 8) with 64. by apply to_u_to_s. }
    set (k := (8 * (8 - 1 - (i - length pre)) + j)%nat). assert (k < 64)%nat by lia.
    rewrite (to_u_id 64) by (apply lxor_range; [lia | done | split; [lia | apply Z.pow_lt_mono_r; lia]]).
    destruct (decide (Z.lxor scn (2 ^ Z.of_nat k) = INT64_MAX)) as [E|]; [right | by left].
    split_and!; try done. rewrite E. by apply (flipped_max _ k).
  - rewrite !alter_app_r_alt by lia. eexists _, _, _. split; [done|].
    rewrite length_alter. split_and!; try done; [by apply flip_bit_byte|]. left. by rewrite u64_be_bytes.
Qed.

(** ** The parity checks of the members of a header *)

Lemma check_field16 v : parity_check16 (u16 v) = bytes_parity (be_bytes 2 v).
Proof. rewrite parity_check16_ok by by apply to_u_range. by rewrite (parity_to_u 16), <- (parity_be_bytes 2). Qed.
Lemma check_field32 v : parity_check32 (u32 v) = bytes_parity (be_bytes 4 v).
Proof. rewrite parity_check32_ok by by apply to_u_range. by rewrite (parity_to_u 32), <- (parity_be_bytes 4). Qed.
Lemma check_field64 v : parity_check64 (u64 v) = bytes_parity (be_bytes 8 v).
Proof. rewrite parity_check64_ok by by apply to_u_range. by rewrite (parity_to_u 64), <- (parity_be_bytes 8). Qed.

Lemma check_scn v : is_u 64 v -> parity_check64 v = bytes_parity (be_bytes 8 (s64 v)).
Proof. intros Hv. rewrite (be_bytes_to_s 8), <- check_field64 by lia. by rewrite to_u_id. Qed.

(** The flag word: its other bits and the parity bit. *)
Lemma check_flag flag :
  bytes_parity (be_bytes 8 flag) = xorb (parity_check64 (u64 (Z.land flag (Z.lnot 1)))) (Z.testbit flag 0).
Proof.
  rewrite check_field64, <- !(parity_be_bytes 8).
  assert (flag = Z.lxor (Z.land flag (Z.lnot 1)) (Z.land flag 1)) as E.
  { apply Z.bits_inj'. intros i Hi. rewrite Z.lxor_spec, !Z.land_spec.
    rewrite Z.lnot_spec by lia. by destruct (Z.testbit flag i), (Z.testbit 1 i). }
  rewrite E at 1. rewrite parity_lxor. f_equal.
  change 1 with (Z.ones 1). rewrite Z.land_ones, <- Z.bit0_mod by lia. by destruct (Z.testbit flag 0).
Qed.

Lemma parity_bit_check (p : bool) flag : ((if p then 1 else 0) =? Z.land flag 1) = negb (xorb p (Z.testbit flag 0)).
Proof.
  change 1 with (Z.ones 1) at 2. rewrite Z.land_ones, <- Z.bit0_mod by lia. by destruct p, (Z.testbit flag 0).
Qed.

(** Inverting a bit inside of a slice. *)
Lemma slice_flip bytes pos n i j :
  0 <= pos -> pos + Z.of_nat n <= Z.of_nat (length bytes) -> (i < n)%nat ->
  slice (flip_bit (Z.to_nat pos + i) j bytes) pos n = flip_bit i j (slice bytes pos n).
Proof.
  intros Hp Hl Hi. unfold slice, flip_bit. rewrite <- (take_drop (Z.to_nat pos) bytes) at 1.
  rewrite alter_app_r_alt, length_take by (rewrite length_take; lia).
  rewrite drop_app_length' by (rewrite length_take; lia).
  rewrite <- (take_drop n (drop (Z.to_nat pos) bytes)) at 1.
  replace (Z.to_nat pos + i - Nat.min (Z.to_nat pos) (length bytes))%nat with i by lia.
  rewrite alter_app_l by (rewrite length_take, length_drop; lia).
  apply take_app_length'. rewrite length_alter, length_take, length_drop. lia.
Qed.

Lemma transform_max_range v : is_u 64 v -> is_u 64 (transform_max_ v).
Proof. intros Hv. unfold transform_max_. by destruct (Z.eqb_spec INT64_MAX v) as [<-|]. Qed.

(** ** Headers with a parity bit and a time

    A header laid out as some bytes, a time and some more bytes, whose check holds if
    the number of ones in all of them is even. *)
Section flip.
Context {H : Type} (n m : nat) (pre post : H -> list Z) (time : H -> Z) (of_bytes : list Z -> H) (check : H -> bool).

Definition layout (h : H) : list Z := pre h ++ be_bytes 8 (s64 (time h)) ++ post h.

Definition parts (p r q : list Z) : Prop :=
  length p = n /\ length r = 8%nat /\ length q = m /\ Forall is_byte p /\ Forall is_byte r /\ Forall is_byte q.

Context (Hcheck : forall h, is_u 64 (time h) -> check h = negb (bytes_parity (layout h)))
  (Htime : forall p r q, parts p r q -> time (of_bytes (p ++ r ++ q)) = transform_max_ (u64 (be_value r)))
  (Hlayout : forall p r q, parts p r q -> u64 (be_value r) <> INT64_MAX -> layout (of_bytes (p ++ r ++ q)) = p ++ r ++ q)
  (Hsame : forall p r r' q, parts p r q -> parts p r' q ->
     transform_max_ (u64 (be_value r)) = transform_max_ (u64 (be_value r')) ->
     of_bytes (p ++ r ++ q) = of_bytes (p ++ r' ++ q)).

(** A header with one bit of its bytes inverted fails the check, or is read as it was. *)
Lemma layout_flip h i j :
  length (pre h) = n -> length (post h) = m -> Forall is_byte (pre h) -> Forall is_byte (post h) ->
  is_u 64 (time h) -> Scn.is_valid (time h) = true -> check h = true -> of_bytes (layout h) = h ->
  (i < n + 8 + m)%nat -> (j < 8)%nat ->
  check (of_bytes (flip_bit i j (layout h))) = false \/ of_bytes (flip_bit i j (layout h)) = h.
Proof.
  intros Hn Hm Fp Fq Hu Hv Hc Hback Hi Hj. rewrite Hcheck, negb_true_iff in Hc by done.
  assert (length (layout h) = (n + 8 + m)%nat) as HL.
  { unfold layout. rewrite !length_app, length_be_bytes. lia. }
  pose proof (bytes_parity_flip i j (layout h)) as Hflip. rewrite Hc, HL in Hflip. specialize (Hflip Hi Hj).
  destruct (flip_around_scn (pre h) (post h) (time h) i j)
    as (p & r & q & E & Lp & Lr & Lq & Fp' & Fr & Fq' & Hcase); try done; [lia|].
  fold (layout h) in E. rewrite E in *. assert (parts p r q) as HP by (split_and!; try done; congruence).
  destruct Hcase as [Hne | (-> & -> & Hs)].
  - left. rewrite Hcheck; [by rewrite Hlayout, Hflip|]. rewrite Htime by done.
    apply transform_max_range. by apply to_u_range.
  - right. etrans; [|exact Hback]. apply Hsame; [done | |].
    + split_and!; try done. apply be_bytes_byte.
    + rewrite Hs, u64_be_bytes, transform_max_id by (done || by intros Hx; rewrite Hx in Hv). done.
Qed.
End flip.
