(* ===== verification/LogBaseHeader.v ===== *)
(** * The common header of log bodies: [src/logservice/ob_log_base_header.{h,cpp}]

    The header every component puts before what it logs: the component the log
    belongs to, how it has to wait in replay, and a hint for the replay queue. *)

From Stdlib Require Import ZArith Lia Bool.
From stdpp Require Import base option numbers list sets.
From S2P Require Import Prelude Serialization Scn Lsn Parity HeaderFormat.

Local Open Scope Z_scope.

(** The values of [ObLogBaseType] the log service itself uses. *)
Definition INVALID_LOG_BASE_TYPE : Z := 0.
Definition PADDING_LOG_BASE_TYPE : Z := 25.

Inductive ObReplayBarrierType := INVALID_BARRIER | STRICT_BARRIER | PRE_BARRIER | NO_NEED_BARRIER.

#[export] Instance ObReplayBarrierType_eq_dec : EqDecision ObReplayBarrierType.
Proof. solve_decision. Defined.

Module ObLogBaseHeader.
Definition BASE_HEADER_VERSION : Z := 1.
Definition NEED_POST_REPLAY_BARRIER_FLAG : Z := 2 ^ 31.
Definition NEED_PRE_REPLAY_BARRIER_FLAG : Z := 2 ^ 30.
Definition PAYLOAD_IS_COMPRESSED : Z := 2 ^ 29.

Record t := mk { version_ : Z; log_type_ : Z; flag_ : Z; replay_hint_ : Z }.

(** [flag_ | mask], computed on 32 unsigned bits and stored in an [int32_t]. *)
Definition flag_or (flag mask : Z) : Z := s32 (Z.lor (u32 flag) mask).

(** The constructor with a hint; an invalid barrier type is logged and handled as
    a strict one. *)
Definition make (log_type : Z) (replay_barrier_type : ObReplayBarrierType) (replay_hint : Z) : t :=
  let flag :=
    match replay_barrier_type with
    | NO_NEED_BARRIER => 0
    | PRE_BARRIER => flag_or 0 NEED_PRE_REPLAY_BARRIER_FLAG
    | STRICT_BARRIER => s32 (Z.lor (Z.lor (u32 0) NEED_POST_REPLAY_BARRIER_FLAG) NEED_PRE_REPLAY_BARRIER_FLAG)
    | INVALID_BARRIER => s32 (Z.lor (Z.lor (u32 0) NEED_POST_REPLAY_BARRIER_FLAG) NEED_PRE_REPLAY_BARRIER_FLAG)
    end in
  mk BASE_HEADER_VERSION (s16 log_type) flag replay_hint.

Definition reset : t := mk 0 INVALID_LOG_BASE_TYPE 0 0.

Definition set_compressed (h : t) : t :=
  mk (version_ h) (log_type_ h) (flag_or (flag_ h) PAYLOAD_IS_COMPRESSED) (replay_hint_ h).
Definition is_compressed (h : t) : bool := negb (Z.land (u32 (flag_ h)) PAYLOAD_IS_COMPRESSED =? 0).
Definition is_valid (h : t) : bool := (0 <? version_ h) && (0 <? log_type_ h).
Definition need_pre_replay_barrier (h : t) : bool := negb (Z.land (u32 (flag_ h)) NEED_PRE_REPLAY_BARRIER_FLAG =? 0).
Definition need_post_replay_barrier (h : t) : bool := negb (Z.land (u32 (flag_ h)) NEED_POST_REPLAY_BARRIER_FLAG =? 0).
Definition get_log_type (h : t) : Z := log_type_ h.
Definition get_replay_hint (h : t) : Z := replay_hint_ h.

(** Both move the caller's position field by field, also when a later field fails. *)
Definition serialize (buf : buffer) (buf_len pos : Z) (h : t) : outcome (Z * buffer * Z) :=
  if bool_decide (buf = None) || (buf_len <=? 0) then Some (OB_INVALID_ARGUMENT, buf, pos)
  else
    enc_seq [fun buf buf_len pos => encode_i16 buf buf_len pos (version_ h);
             fun buf buf_len pos => encode_i16 buf buf_len pos (log_type_ h);
             fun buf buf_len pos => encode_i32 buf buf_len pos (flag_ h);
             fun buf buf_len pos => encode_i64 buf buf_len pos (replay_hint_ h)] buf buf_len pos.

Definition deserialize (buf : buffer) (data_len pos : Z) (h : t) : outcome (Z * Z * t) :=
  if bool_decide (buf = None) || (data_len <=? 0) then Some (OB_INVALID_ARGUMENT, pos, h)
  else
    dec_seq [field decode_i16 version_ (fun v h => mk v (log_type_ h) (flag_ h) (replay_hint_ h));
             field decode_i16 log_type_ (fun v h => mk (version_ h) v (flag_ h) (replay_hint_ h));
             field decode_i32 flag_ (fun v h => mk (version_ h) (log_type_ h) v (replay_hint_ h));
             field decode_i64 replay_hint_ (fun v h => mk (version_ h) (log_type_ h) (flag_ h) v)]
      buf data_len pos h.

Definition get_serialize_size (h : t) : Z :=
  encoded_length_i16 (version_ h) + encoded_length_i16 (log_type_ h) +
  encoded_length_i32 (flag_ h) + encoded_length_i64 (replay_hint_ h).

(** The members are in the range of their types. *)
Definition wf (h : t) : Prop :=
  is_s 16 (version_ h) /\ is_s 16 (log_type_ h) /\ is_s 32 (flag_ h) /\ is_s 64 (replay_hint_ h).

Definition bytes_of (h : t) : list Z :=
  be_bytes 2 (version_ h) ++ be_bytes 2 (log_type_ h) ++ be_bytes 4 (flag_ h) ++ be_bytes 8 (replay_hint_ h).

Lemma length_bytes_of h : length (bytes_of h) = 16%nat.
Proof. unfold bytes_of. by rewrite !length_app, !length_be_bytes. Qed.

Lemma base_serialize_ok h bytes buf_len pos :
  0 <= pos -> buf_len <= Z.of_nat (length bytes) -> 16 <= buf_len - pos ->
  serialize (Some bytes) buf_len pos h = Some (OB_SUCCESS, Some (written bytes pos (bytes_of h)), pos + 16).
Proof.
  intros Hp Hl Hs. unfold serialize. rewrite bool_decide_eq_false_2 by done. cbn [orb]. destruct (Z.leb_spec buf_len 0); [lia|].
  match goal with |- enc_seq ?es _ _ _ = _ =>
    pose proof (enc_seq_ok es [be_bytes 2 (version_ h); be_bytes 2 (log_type_ h); be_bytes 4 (flag_ h);
      be_bytes 8 (replay_hint_ h)] bytes buf_len pos) as E end.
  replace (concat _) with (bytes_of h) in E by (unfold bytes_of; cbn [concat]; by rewrite app_nil_r).
  rewrite length_bytes_of in E. destruct (Z.leb_spec (Z.of_nat 16) (buf_len - pos)); [|lia].
  apply E; [fields_written | done | done].
Qed.

(** The decoder's fields. *)
Definition fields : list (nat * (list Z -> t -> t)) :=
  [(2%nat, fun bs h => mk (s16 (be_value bs)) (log_type_ h) (flag_ h) (replay_hint_ h));
   (2%nat, fun bs h => mk (version_ h) (s16 (be_value bs)) (flag_ h) (replay_hint_ h));
   (4%nat, fun bs h => mk (version_ h) (log_type_ h) (s32 (be_value bs)) (replay_hint_ h));
   (8%nat, fun bs h => mk (version_ h) (log_type_ h) (flag_ h) (s64 (be_value bs)))].

Lemma parse_bytes_of h old : wf h -> parse fields (bytes_of h) old = h.
Proof.
  intros (H1 & H2 & H3 & H4). destruct h as [v ty f r]. unfold bytes_of. cbn [version_ log_type_ flag_ replay_hint_] in *.
  unfold fields. rewrite !parse_app, parse_last by apply length_be_bytes.
  cbn [version_ log_type_ flag_ replay_hint_]. by rewrite !s16_be_bytes, s32_be_bytes, s64_be_bytes.
Qed.

Lemma base_deserialize_ok h bytes data_len pos old :
  wf h -> 0 <= pos -> data_len <= Z.of_nat (length bytes) -> 16 <= data_len - pos ->
  slice bytes pos 16 = bytes_of h ->
  deserialize (Some bytes) data_len pos old = Some (OB_SUCCESS, pos + 16, h).
Proof.
  intros Hwf Hp Hl Hs Hb. unfold deserialize. rewrite bool_decide_eq_false_2 by done. cbn [orb]. destruct (Z.leb_spec data_len 0); [lia|].
  match goal with |- dec_seq ?ds _ _ _ _ = _ =>
    pose proof (dec_seq_ok ds fields bytes data_len pos old) as E end.
  change (width fields) with 16%nat in E. destruct (Z.leb_spec (Z.of_nat 16) (data_len - pos)); [|lia].
  rewrite E; [by rewrite Hb, parse_bytes_of | unfold fields; fields_read | done | done].
Qed.
End ObLogBaseHeader.

(** A base header comes back from its serialized form with every member, and its
    flags say how it was made: a strict barrier (and an invalid type) waits before and
    after, a pre barrier only before, none not at all, and marking the payload as
    compressed does not touch the barriers. *)
Theorem base_header_round_trip log_type barrier hint bytes buf_len pos old :
  is_s 16 log_type -> is_s 64 hint -> 0 <= pos -> buf_len <= Z.of_nat (length bytes) -> 16 <= buf_len - pos ->
  let h := ObLogBaseHeader.make log_type barrier hint in
  let c := ObLogBaseHeader.set_compressed h in
  let pre := negb (bool_decide (barrier = NO_NEED_BARRIER)) in
  let post := bool_decide (barrier = STRICT_BARRIER) || bool_decide (barrier = INVALID_BARRIER) in
  (exists bytes',
     ObLogBaseHeader.serialize (Some bytes) buf_len pos c =
       Some (OB_SUCCESS, Some bytes', pos + ObLogBaseHeader.get_serialize_size c) /\
     ObLogBaseHeader.deserialize (Some bytes') buf_len pos old =
       Some (OB_SUCCESS, pos + ObLogBaseHeader.get_serialize_size c, c)) /\
  ObLogBaseHeader.get_log_type c = log_type /\ ObLogBaseHeader.get_replay_hint c = hint /\
  ObLogBaseHeader.is_compressed h = false /\ ObLogBaseHeader.is_compressed c = true /\
  ObLogBaseHeader.need_pre_replay_barrier h = pre /\ ObLogBaseHeader.need_pre_replay_barrier c = pre /\
  ObLogBaseHeader.need_post_replay_barrier h = post /\ ObLogBaseHeader.need_post_replay_barrier c = post.
Proof.
  intros Hty Hh Hp Hl Hs h c pre post.
  assert (ObLogBaseHeader.wf c) as Hwf.
  { split; [done|]. split; [by apply to_s_range|]. split; [by apply to_s_range | done]. }
  split.
  - eexists. split; [by apply ObLogBaseHeader.base_serialize_ok|].
    apply ObLogBaseHeader.base_deserialize_ok; try done.
    + rewrite length_written by (rewrite ?ObLogBaseHeader.length_bytes_of; lia). done.
    + rewrite slice_written by (rewrite ?ObLogBaseHeader.length_bytes_of; lia).
      unfold ObLogBaseHeader.bytes_of. by rewrite !fmap_app, !u8_be_bytes.
  - split; [by apply to_s_id|]. split; [done|]. by destruct barrier.
Qed.

Lemma base_header_round_trip_witness :
  exists bytes',
    ObLogBaseHeader.serialize (Some (replicate 20 0)) 20 3
      (ObLogBaseHeader.set_compressed (ObLogBaseHeader.make 25 STRICT_BARRIER 7)) = Some (OB_SUCCESS, Some bytes', 19) /\
    ObLogBaseHeader.deserialize (Some bytes') 20 3 ObLogBaseHeader.reset =
      Some (OB_SUCCESS, 19, ObLogBaseHeader.set_compressed (ObLogBaseHeader.make 25 STRICT_BARRIER 7)).
Proof.
  destruct (base_header_round_trip 25 STRICT_BARRIER 7 (replicate 20 0) 20 3 ObLogBaseHeader.reset) as [E _];
    [done | done | done | done | done | exact E].
Defined.
