(* ===== verification/LogEntryHeader.v ===== *)
(** * Log entries: [src/logservice/palf/log_entry_header.{h,cpp}] and [log_entry.{h,cpp}]

    The header of a log entry, with a parity bit over its own members and a
    checksum of the data behind it; the entry, a header and a pointer to its
    data; and the entry that pads the end of a block. *)

From Stdlib Require Import ZArith Lia Bool.
From stdpp Require Import base option numbers list sets.
From S2P Require Import Prelude Serialization Scn Lsn Parity Crc64 HeaderFormat LogBaseHeader.

Local Open Scope Z_scope.

(** [ob_crc64(buf, len)] of the memory [buf] points to. *)
Definition crc_block `{Crc64} (buf : list Z) (len : Z) : outcome Z :=
  if len <=? Z.of_nat (length buf) then Some (ob_crc64 0 (take (Z.to_nat len) buf)) else None.

Module LogEntryHeader.
Definition MAGIC : Z := 0x4C48.
Definition LOG_ENTRY_HEADER_VERSION : Z := 1.
Definition PADDING_TYPE_MASK : Z := Z.shiftl 1 1.
(** [sizeof(LogEntryHeader)] and [sizeof(logservice::ObLogBaseHeader)]. *)
Definition HEADER_SER_SIZE : Z := 32.
Definition BASE_HEADER_SIZE : Z := 16.
Definition PADDING_LOG_ENTRY_SIZE : Z := HEADER_SER_SIZE + BASE_HEADER_SIZE.

Record t := mk {
  magic_ : Z; version_ : Z; log_size_ : Z; scn_ : SCN; data_checksum_ : Z; flag_ : Z }.

(** The constructor. *)
Definition make : t := mk 0 0 0 invalid_scn 0 0.
Definition reset (h : t) : t := mk 0 0 (-1) (Scn.reset (scn_ h)) 0 0.

Definition is_valid (h : t) : bool :=
  (magic_ h =? MAGIC) && (0 <? log_size_ h) && Scn.is_valid (scn_ h).

Definition get_data_len (h : t) : Z := log_size_ h.
Definition get_scn (h : t) : SCN := scn_ h.
Definition get_data_checksum (h : t) : Z := data_checksum_ h.

Definition get_header_parity_check_res_ (h : t) : bool :=
  let bool_ret := parity_check16 (u16 (magic_ h)) in
  let bool_ret := xorb bool_ret (parity_check16 (u16 (version_ h))) in
  let bool_ret := xorb bool_ret (parity_check32 (u32 (log_size_ h))) in
  let bool_ret := xorb bool_ret (parity_check64 (scn_ h)) in
  let bool_ret := xorb bool_ret (parity_check64 (u64 (data_checksum_ h))) in
  let tmp_flag := Z.land (flag_ h) (Z.lnot 0x1) in
  xorb bool_ret (parity_check64 (u64 tmp_flag)).

Definition set_flag (flag : Z) (h : t) : t :=
  mk (magic_ h) (version_ h) (log_size_ h) (scn_ h) (data_checksum_ h) flag.

(** The bit is set, never cleared. *)
Definition update_header_checksum_ (h : t) : t :=
  if get_header_parity_check_res_ h then set_flag (Z.lor (flag_ h) 0x1) h else h.

Definition check_header_checksum_ (h : t) : bool :=
  let header_checksum := if get_header_parity_check_res_ h then 1 else 0 in
  let saved_header_checksum := Z.land (flag_ h) 0x1 in
  header_checksum =? saved_header_checksum.

Definition is_padding_log_ (h : t) : bool := 0 <? Z.land (flag_ h) PADDING_TYPE_MASK.

Definition check_header_integrity (h : t) : bool := is_valid h && check_header_checksum_ h.

Section ops.
Context `{Crc64}.

Definition generate_header (log_data : buffer) (data_len : Z) (scn : SCN) (h : t) : outcome (Z * t) :=
  match log_data with
  | None => Some (OB_INVALID_ARGUMENT, h)
  | Some log_data =>
      if (data_len <=? 0) || negb (Scn.is_valid scn) then Some (OB_INVALID_ARGUMENT, h)
      else
        crc ← crc_block log_data data_len;
        Some (OB_SUCCESS,
              update_header_checksum_ (mk MAGIC LOG_ENTRY_HEADER_VERSION (s32 data_len) scn (s64 crc) (flag_ h)))
  end.

Definition generate_padding_header_ (log_data : buffer) (base_header_len padding_data_len : Z) (scn : SCN) (h : t) :
    outcome (Z * t) :=
  match log_data with
  | None => Some (OB_INVALID_ARGUMENT, h)
  | Some log_data =>
      if (base_header_len <=? 0) || (padding_data_len <=? 0) || negb (Scn.is_valid scn)
      then Some (OB_INVALID_ARGUMENT, h)
      else
        crc ← crc_block log_data base_header_len;
        Some (OB_SUCCESS,
              update_header_checksum_
                (mk MAGIC LOG_ENTRY_HEADER_VERSION (s32 padding_data_len) scn (s64 crc)
                    (Z.lor (flag_ h) PADDING_TYPE_MASK)))
  end.

(** For a padding log only the base header is checked. *)
Definition check_integrity (buf : buffer) (data_len : Z) (h : t) : outcome bool :=
  let valid_data_len := if is_padding_log_ h then BASE_HEADER_SIZE else data_len in
  match buf with
  | None => Some false
  | Some bytes =>
      if data_len <=? 0 then Some false
      else if negb (MAGIC =? magic_ h) then Some false
      else if negb (check_header_checksum_ h) then Some false
      else
        crc ← crc_block bytes valid_data_len;
        Some (data_checksum_ h =? s64 crc)
  end.
End ops.

(** Every failure of a field is a lack of space. *)
Definition serialize (buf : buffer) (buf_len pos : Z) (h : t) : outcome (Z * buffer * Z) :=
  if bool_decide (buf = None) || (buf_len <=? 0) then Some (OB_INVALID_ARGUMENT, buf, pos)
  else
    '(ret, buf, new_pos) ←
      enc_seq [fun buf buf_len pos => encode_i16 buf buf_len pos (magic_ h);
               fun buf buf_len pos => encode_i16 buf buf_len pos (version_ h);
               fun buf buf_len pos => encode_i32 buf buf_len pos (log_size_ h);
               fun buf buf_len pos => fixed_serialize buf buf_len pos (scn_ h);
               fun buf buf_len pos => encode_i64 buf buf_len pos (data_checksum_ h);
               fun buf buf_len pos => encode_i64 buf buf_len pos (flag_ h)] buf buf_len pos;
    if ob_fail ret then Some (OB_BUF_NOT_ENOUGH, buf, pos) else Some (OB_SUCCESS, buf, new_pos).

Definition deserialize (buf : buffer) (data_len pos : Z) (h : t) : outcome (Z * Z * t) :=
  if bool_decide (buf = None) || (data_len <=? 0) then Some (OB_INVALID_ARGUMENT, pos, h)
  else
    '(ret, new_pos, h) ←
      dec_seq [field decode_i16 magic_
                 (fun v h => mk v (version_ h) (log_size_ h) (scn_ h) (data_checksum_ h) (flag_ h));
               field decode_i16 version_
                 (fun v h => mk (magic_ h) v (log_size_ h) (scn_ h) (data_checksum_ h) (flag_ h));
               field decode_i32 log_size_
                 (fun v h => mk (magic_ h) (version_ h) v (scn_ h) (data_checksum_ h) (flag_ h));
               field fixed_deserialize scn_
                 (fun v h => mk (magic_ h) (version_ h) (log_size_ h) v (data_checksum_ h) (flag_ h));
               field decode_i64 data_checksum_
                 (fun v h => mk (magic_ h) (version_ h) (log_size_ h) (scn_ h) v (flag_ h));
               field decode_i64 flag_
                 (fun v h => mk (magic_ h) (version_ h) (log_size_ h) (scn_ h) (data_checksum_ h) v)]
        buf data_len pos h;
    if ob_fail ret then Some (OB_BUF_NOT_ENOUGH, pos, h)
    else if negb (check_header_integrity h) then Some (OB_INVALID_DATA, pos, h)
    else Some (OB_SUCCESS, new_pos, h).

Definition get_serialize_size (h : t) : Z :=
  encoded_length_i16 (magic_ h) + encoded_length_i16 (version_ h) + encoded_length_i32 (log_size_ h) +
  get_fixed_serialize_size (scn_ h) + encoded_length_i64 (data_checksum_ h) + encoded_length_i64 (flag_ h).

(** The base header is serialized behind the place of the header, the header
    generated over it and serialized in front of it. *)
Definition generate_padding_log_buf `{Crc64} (padding_data_len : Z) (scn : SCN) (out_buf : buffer)
    (padding_valid_data_len : Z) : outcome (Z * buffer) :=
  let header := make in
  let base_header := ObLogBaseHeader.make PADDING_LOG_BASE_TYPE NO_NEED_BARRIER 0 in
  let base_header_len := ObLogBaseHeader.get_serialize_size base_header in
  let header_len := get_serialize_size header in
  let serialize_len := base_header_len + header_len in
  let serialize_header_pos := 0 in
  let serialize_base_header_pos := serialize_header_pos + header_len in
  if (padding_data_len <=? 0) || negb (Scn.is_valid scn) || bool_decide (out_buf = None)
     || (padding_valid_data_len <? serialize_len) || (padding_data_len <? padding_valid_data_len)
  then Some (OB_INVALID_ARGUMENT, out_buf)
  else
    '(ret, out_buf, _) ← ObLogBaseHeader.serialize out_buf padding_valid_data_len serialize_base_header_pos base_header;
    if ob_fail ret then Some (ret, out_buf)
    else
      let serialize_base_header_pos := serialize_header_pos + header_len in
      '(ret, header) ← generate_padding_header_ ((fun bytes => ptr_add bytes serialize_base_header_pos) <$> out_buf)
                         base_header_len padding_data_len scn header;
      if ob_fail ret then Some (ret, out_buf)
      else
        '(ret, out_buf, _) ← serialize out_buf header_len serialize_header_pos header;
        Some (ret, out_buf).
End LogEntryHeader.

(** ** [LogEntry] *)

Module LogEntry.
(** [buf_] is the memory the pointer to the data points to. *)
Record t := mk { header_ : LogEntryHeader.t; buf_ : buffer }.

Definition make : t := mk LogEntryHeader.make None.
Definition reset (e : t) : t := mk (LogEntryHeader.reset (header_ e)) None.
Definition is_valid (e : t) : bool := LogEntryHeader.is_valid (header_ e) && negb (bool_decide (buf_ e = None)).
Definition shallow_copy (input e : t) : Z * t := (OB_SUCCESS, if is_valid input then input else e).

Definition check_integrity `{Crc64} (e : t) : outcome bool :=
  LogEntryHeader.check_integrity (buf_ e) (LogEntryHeader.get_data_len (header_ e)) (header_ e).

Definition serialize (buf : buffer) (buf_len pos : Z) (e : t) : outcome (Z * buffer * Z) :=
  let data_len := LogEntryHeader.get_data_len (header_ e) in
  if bool_decide (buf = None) || (buf_len <=? 0) then Some (OB_INVALID_ARGUMENT, buf, pos)
  else
    '(ret, buf, new_pos) ← LogEntryHeader.serialize buf buf_len pos (header_ e);
    if ob_fail ret then Some (ret, buf, pos)
    else if buf_len - new_pos <? data_len then Some (OB_BUF_NOT_ENOUGH, buf, pos)
    else
      bytes ← buf; src ← buf_ e;
      bytes ← memcpy bytes new_pos src data_len;
      Some (OB_SUCCESS, Some bytes, new_pos + data_len).

Definition deserialize (buf : buffer) (data_len pos : Z) (e : t) : outcome (Z * Z * t) :=
  if bool_decide (buf = None) || (data_len <=? 0) then Some (OB_INVALID_ARGUMENT, pos, e)
  else
    '(ret, new_pos, header) ← LogEntryHeader.deserialize buf data_len pos (header_ e);
    if ob_fail ret then Some (ret, pos, mk header (buf_ e))
    else if data_len - new_pos <? LogEntryHeader.get_data_len header
    then Some (OB_BUF_NOT_ENOUGH, pos, mk header (buf_ e))
    else
      Some (OB_SUCCESS, new_pos + LogEntryHeader.get_data_len header,
            mk header
              (if 0 <? LogEntryHeader.get_data_len header then (fun bytes => ptr_add bytes new_pos) <$> buf else None)).

Definition get_serialize_size (e : t) : Z :=
  LogEntryHeader.get_serialize_size (header_ e) + LogEntryHeader.get_data_len (header_ e).
End LogEntry.

(** ** The header in bytes *)

Section header.
Import LogEntryHeader.

(** The members are in the range of their types. *)
Definition header_wf (h : t) : Prop :=
  is_s 16 (magic_ h) /\ is_s 16 (version_ h) /\ is_s 32 (log_size_ h) /\ is_u 64 (scn_ h) /\
  is_s 64 (data_checksum_ h) /\ is_s 64 (flag_ h).

Definition header_pre (h : t) : list Z :=
  be_bytes 2 (magic_ h) ++ be_bytes 2 (version_ h) ++ be_bytes 4 (log_size_ h).
Definition header_post (h : t) : list Z := be_bytes 8 (data_checksum_ h) ++ be_bytes 8 (flag_ h).
Definition header_bytes (h : t) : list Z := header_pre h ++ be_bytes 8 (s64 (scn_ h)) ++ header_post h.

Lemma length_header_bytes h : length (header_bytes h) = 32%nat.
Proof. unfold header_bytes, header_pre, header_post. by rewrite !length_app, !length_be_bytes. Qed.

Lemma header_bytes_byte h : Forall is_byte (header_bytes h).
Proof. unfold header_bytes, header_pre, header_post. rewrite !Forall_app. auto 20 using be_bytes_byte. Qed.

Lemma header_serialize_spec h bytes buf_len pos :
  0 <= pos -> 0 < buf_len <= Z.of_nat (length bytes) ->
  if 32 <=? buf_len - pos then
    serialize (Some bytes) buf_len pos h = Some (OB_SUCCESS, Some (written bytes pos (header_bytes h)), pos + 32)
  else exists bytes', serialize (Some bytes) buf_len pos h = Some (OB_BUF_NOT_ENOUGH, Some bytes', pos).
Proof.
  intros Hp [Hb Hl]. unfold serialize. rewrite bool_decide_eq_false_2 by done. cbn [orb].
  destruct (Z.leb_spec buf_len 0); [lia|].
  match goal with |- context [enc_seq ?es _ _ _] =>
    pose proof (enc_seq_ok es [be_bytes 2 (magic_ h); be_bytes 2 (version_ h); be_bytes 4 (log_size_ h);
      be_bytes 8 (s64 (scn_ h)); be_bytes 8 (data_checksum_ h); be_bytes 8 (flag_ h)] bytes buf_len pos
      ltac:(fields_written) Hp Hl) as E end.
  replace (concat _) with (header_bytes h) in E
    by (unfold header_bytes, header_pre, header_post; cbn [concat]; by rewrite <- !app_assoc, app_nil_r).
  rewrite length_header_bytes in E. change (Z.of_nat 32) with 32 in E.
  destruct (Z.leb_spec 32 (buf_len - pos)).
  - by rewrite E.
  - destruct E as (ret & bytes' & pos' & Hf & ->); [lia|]. cbn [mbind option_bind]. rewrite Hf. by exists bytes'.
Qed.

(** What the decoder makes of 32 bytes, before the checks. *)
Definition header_fields : list (nat * (list Z -> t -> t)) :=
  [(2%nat, fun bs h => mk (s16 (be_value bs)) (version_ h) (log_size_ h) (scn_ h) (data_checksum_ h) (flag_ h));
   (2%nat, fun bs h => mk (magic_ h) (s16 (be_value bs)) (log_size_ h) (scn_ h) (data_checksum_ h) (flag_ h));
   (4%nat, fun bs h => mk (magic_ h) (version_ h) (s32 (be_value bs)) (scn_ h) (data_checksum_ h) (flag_ h));
   (8%nat, fun bs h => mk (magic_ h) (version_ h) (log_size_ h) (transform_max_ (u64 (be_value bs)))
                          (data_checksum_ h) (flag_ h));
   (8%nat, fun bs h => mk (magic_ h) (version_ h) (log_size_ h) (scn_ h) (s64 (be_value bs)) (flag_ h));
   (8%nat, fun bs h => mk (magic_ h) (version_ h) (log_size_ h) (scn_ h) (data_checksum_ h) (s64 (be_value bs)))].

Definition header_of_bytes (bs : list Z) : t := parse header_fields bs make.

Lemma header_of_parts pre raw post old :
  length pre = 8%nat -> length raw = 8%nat -> length post = 16%nat ->
  parse header_fields (pre ++ raw ++ post) old =
  mk (s16 (be_value (take 2 pre))) (s16 (be_value (take 2 (drop 2 pre)))) (s32 (be_value (drop 4 pre)))
     (transform_max_ (u64 (be_value raw))) (s64 (be_value (take 8 post))) (s64 (be_value (drop 8 post))).
Proof.
  intros Hp Hr Hq. rewrite <- (take_drop 2 pre) at 1. rewrite <- (take_drop 2 (drop 2 pre)) at 1.
  rewrite <- (take_drop 8 post) at 1. rewrite drop_drop, <- !app_assoc. unfold header_fields.
  rewrite !parse_app, parse_last by (rewrite ?length_take, ?length_drop, ?Hp, ?Hr, ?Hq; done). done.
Qed.

Lemma header_width : width header_fields = 32%nat.
Proof. done. Qed.

Lemma header_deserialize_spec bytes data_len pos old :
  0 <= pos -> 0 < data_len <= Z.of_nat (length bytes) ->
  if 32 <=? data_len - pos then
    let h := parse header_fields (slice bytes pos 32) old in
    deserialize (Some bytes) data_len pos old =
    if check_header_integrity h then Some (OB_SUCCESS, pos + 32, h) else Some (OB_INVALID_DATA, pos, h)
  else exists h, deserialize (Some bytes) data_len pos old = Some (OB_BUF_NOT_ENOUGH, pos, h).
Proof.
  intros Hp [Hb Hl]. unfold deserialize. rewrite bool_decide_eq_false_2 by done. cbn [orb].
  destruct (Z.leb_spec data_len 0); [lia|].
  match goal with |- context [dec_seq ?ds _ _ _ _] =>
    assert (Forall2 (fun d nf => reads d nf.1 nf.2) ds header_fields) as Hds by (unfold header_fields; fields_read);
    pose proof (dec_seq_ok ds header_fields bytes data_len pos old Hds Hp Hl) as E end.
  rewrite header_width in E. change (Z.of_nat 32) with 32 in E.
  destruct (Z.leb_spec 32 (data_len - pos)).
  - revert E. generalize (parse header_fields (slice bytes pos 32) old) as h. intros h E. rewrite E.
    cbn [mbind option_bind]. change (ob_fail OB_SUCCESS) with false. by destruct (check_header_integrity h).
  - destruct E as (ret & pos' & h & Hf & ->); [lia|]. cbn [mbind option_bind]. rewrite Hf. by exists h.
Qed.

(** ** The parity bit *)

(** The check accepts exactly the headers whose bytes have an even number of ones. *)
Lemma check_header_parity h : is_u 64 (scn_ h) -> check_header_checksum_ h = negb (bytes_parity (header_bytes h)).
Proof.
  intros Hs. unfold check_header_checksum_. rewrite parity_bit_check. f_equal.
  unfold header_bytes, header_pre, header_post. rewrite !bytes_parity_app, (check_flag (flag_ h)).
  unfold get_header_parity_check_res_. rewrite !check_field16, check_field32, check_field64, check_scn by done.
  by rewrite !xorb_assoc.
Qed.

(** After the update the check succeeds, from a flag whose parity bit is clear. *)
Lemma update_header_checksum_check h : is_u 64 (scn_ h) -> Z.testbit (flag_ h) 0 = false ->
  check_header_checksum_ (update_header_checksum_ h) = true.
Proof.
  intros Hs Hf. unfold update_header_checksum_. destruct (get_header_parity_check_res_ h) eqn:E.
  - unfold check_header_checksum_. rewrite parity_bit_check.
    assert (get_header_parity_check_res_ (set_flag (Z.lor (flag_ h) 1) h) = get_header_parity_check_res_ h) as ->.
    { unfold get_header_parity_check_res_, set_flag. cbn [magic_ version_ log_size_ scn_ data_checksum_ flag_].
      by rewrite Z.land_lor_distr_l, Z.lor_0_r. }
    rewrite E. cbn [set_flag flag_]. by rewrite Z.lor_spec, orb_true_r.
  - unfold check_header_checksum_. by rewrite parity_bit_check, E, Hf.
Qed.

(** Reading back. *)
Lemma header_of_header_bytes h old : header_wf h -> Scn.is_valid (scn_ h) = true ->
  parse header_fields (header_bytes h) old = h.
Proof.
  intros (H1 & H2 & H3 & H4 & H5 & H6) Hv. destruct h as [m v l s d f].
  cbn [magic_ version_ log_size_ scn_ data_checksum_ flag_] in *.
  unfold header_bytes, header_pre, header_post. cbn [magic_ version_ log_size_ scn_ data_checksum_ flag_].
  rewrite <- !app_assoc. unfold header_fields. rewrite !parse_app, parse_last by apply length_be_bytes.
  cbn [magic_ version_ log_size_ scn_ data_checksum_ flag_].
  rewrite !s16_be_bytes, s32_be_bytes, !s64_be_bytes, u64_be_bytes, transform_max_id by (done || by intros ->). done.
Qed.

Lemma header_bytes_of_parts pre raw post :
  length pre = 8%nat -> length raw = 8%nat -> length post = 16%nat ->
  Forall is_byte pre -> Forall is_byte raw -> Forall is_byte post -> u64 (be_value raw) <> INT64_MAX ->
  header_bytes (header_of_bytes (pre ++ raw ++ post)) = pre ++ raw ++ post.
Proof.
  intros Hp Hr Hq Fp Fr Fq Hne. unfold header_of_bytes. rewrite header_of_parts by done.
  unfold header_bytes, header_pre, header_post. cbn [magic_ version_ log_size_ scn_ data_checksum_ flag_].
  rewrite transform_max_id, !be_bytes_s16, be_bytes_s32, !be_bytes_s64, be_bytes_u64;
    try (by (rewrite ?length_take, ?length_drop, ?Hp, ?Hr, ?Hq)); auto using Forall_take, Forall_drop.
  rewrite (take_drop 8 post). rewrite <- (drop_drop pre 2 2) at 1.
  by rewrite (take_drop 2 (drop 2 pre)), (take_drop 2 pre).
Qed.

Lemma header_of_bytes_scn pre raw post :
  length pre = 8%nat -> length raw = 8%nat -> length post = 16%nat ->
  scn_ (header_of_bytes (pre ++ raw ++ post)) = transform_max_ (u64 (be_value raw)).
Proof. intros. unfold header_of_bytes. by rewrite header_of_parts. Qed.

(** The members that were there before do not matter. *)
Lemma header_parse_old bs old : length bs = 32%nat -> parse header_fields bs old = header_of_bytes bs.
Proof.
  intros Hl. unfold header_of_bytes. rewrite <- (take_drop 8 bs), <- (take_drop 8 (drop 8 bs)).
  by rewrite !header_of_parts by (rewrite ?length_take, ?length_drop, ?Hl; done).
Qed.

(** A header with one bit of its bytes inverted is rejected, or read as it was. *)
Lemma header_flip h i j :
  header_wf h -> check_header_integrity h = true -> (i < 32)%nat -> (j < 8)%nat ->
  let h' := header_of_bytes (flip_bit i j (header_bytes h)) in
  check_header_integrity h' = false \/ h' = h.
Proof.
  intros Hwf Hc Hi Hj h'. pose proof Hwf as (_ & _ & _ & Hu & _).
  pose proof (header_bytes_byte h) as HF. unfold header_bytes in HF. rewrite !Forall_app in HF. destruct HF as (Fp & _ & Fq).
  unfold check_header_integrity, is_valid in Hc. rewrite !andb_true_iff in Hc. destruct Hc as [[_ Hv] Hc].
  destruct (layout_flip 8 16 header_pre header_post scn_ header_of_bytes check_header_checksum_) with (h := h) (i := i) (j := j)
    as [E | E]; try done.
  - apply check_header_parity.
  - intros p r q (? & ? & ? & _). by apply header_of_bytes_scn.
  - intros p r q (? & ? & ? & ? & ? & ?) ?. by apply header_bytes_of_parts.
  - intros p r r' q (? & ? & ? & _) (_ & ? & _) E. unfold header_of_bytes. rewrite !header_of_parts by done. by rewrite E.
  - by apply header_of_header_bytes.
  - left. unfold check_header_integrity. apply andb_false_iff. by right.
  - by right.
Qed.
End header.

(** ** Entries *)

Section entry.
Context `{Crc64}.

(** The bytes the data checksum of [h] covers. *)
Definition checked_len (h : LogEntryHeader.t) : Z :=
  if LogEntryHeader.is_padding_log_ h then LogEntryHeader.BASE_HEADER_SIZE else LogEntryHeader.get_data_len h.

(** [h] is the header of [data]. *)
Record entry_ok (h : LogEntryHeader.t) (data : list Z) : Prop := {
  eo_wf : header_wf h;
  eo_integrity : LogEntryHeader.check_header_integrity h = true;
  eo_len : LogEntryHeader.get_data_len h = Z.of_nat (length data);
  eo_bytes : Forall is_byte data;
  eo_checked : 0 <= checked_len h <= Z.of_nat (length data);
  eo_checksum : LogEntryHeader.data_checksum_ h = s64 (ob_crc64 0 (take (Z.to_nat (checked_len h)) data));
}.

Definition entry_bytes (h : LogEntryHeader.t) (data : list Z) : list Z := header_bytes h ++ data.

Lemma entry_ok_valid h data : entry_ok h data -> Scn.is_valid (LogEntryHeader.scn_ h) = true /\ data <> [].
Proof.
  intros E. pose proof (eo_integrity _ _ E) as I. pose proof (eo_len _ _ E) as L.
  unfold LogEntryHeader.check_header_integrity, LogEntryHeader.is_valid in I. rewrite !andb_true_iff in I.
  destruct I as [[[_ Hp] Hv] _]. split; [done|]. intros ->. unfold LogEntryHeader.get_data_len in L.
  rewrite L in Hp. done.
Qed.

Lemma length_entry_bytes h data : Z.of_nat (length (entry_bytes h data)) = 32 + Z.of_nat (length data).
Proof. unfold entry_bytes. rewrite length_app, length_header_bytes. lia. Qed.

Lemma entry_bytes_byte h data : entry_ok h data -> Forall is_byte (entry_bytes h data).
Proof. intros E. apply Forall_app. split; [apply header_bytes_byte | apply (eo_bytes _ _ E)]. Qed.

Lemma entry_ok_check h data rest :
  entry_ok h data -> LogEntryHeader.check_integrity (Some (data ++ rest)) (LogEntryHeader.get_data_len h) h = Some true.
Proof.
  intros E. destruct (entry_ok_valid _ _ E) as [_ Hne]. pose proof (eo_integrity _ _ E) as I.
  unfold LogEntryHeader.check_header_integrity, LogEntryHeader.is_valid in I. rewrite !andb_true_iff in I.
  destruct I as [[[Hm _] _] Hc]. apply Z.eqb_eq in Hm. unfold LogEntryHeader.check_integrity.
  rewrite (eo_len _ _ E). destruct (Z.leb_spec (Z.of_nat (length data)) 0) as [Hz|]; [by destruct data|].
  rewrite Hm, Z.eqb_refl, Hc. cbn [negb]. rewrite <- (eo_len _ _ E). fold (checked_len h). unfold crc_block.
  pose proof (eo_checked _ _ E) as Hk. rewrite length_app.
  destruct (Z.leb_spec (checked_len h) (Z.of_nat (length data + length rest))); [|lia].
  rewrite take_app_le by lia. cbn [mbind option_bind]. by rewrite (eo_checksum _ _ E), Z.eqb_refl.
Qed.

(** An entry found at [pos] is read: the header, a pointer to the data, the position
    behind it; and its checksum is right. *)
Lemma entry_deserialize_ok h data bytes data_len pos old :
  entry_ok h data -> 0 <= pos -> data_len <= Z.of_nat (length bytes) ->
  pos + 32 + Z.of_nat (length data) <= data_len ->
  slice bytes pos (32 + length data) = entry_bytes h data ->
  LogEntryHeader.deserialize (Some bytes) data_len pos (LogEntry.header_ old) = Some (OB_SUCCESS, pos + 32, h) /\
  let e := LogEntry.mk h (Some (ptr_add bytes (pos + 32))) in
  LogEntry.deserialize (Some bytes) data_len pos old = Some (OB_SUCCESS, pos + 32 + Z.of_nat (length data), e) /\
  LogEntry.check_integrity e = Some true /\ take (length data) (ptr_add bytes (pos + 32)) = data.
Proof.
  intros E Hp Hl Hs Hb. destruct (entry_ok_valid _ _ E) as [Hv Hne].
  assert (slice bytes pos 32 = header_bytes h) as Hh.
  { rewrite <- (slice_take bytes pos 32 (32 + length data)), Hb by lia. apply take_app_length'.
    by rewrite length_header_bytes. }
  assert (LogEntryHeader.deserialize (Some bytes) data_len pos (LogEntry.header_ old) = Some (OB_SUCCESS, pos + 32, h)) as D.
  { pose proof (header_deserialize_spec bytes data_len pos (LogEntry.header_ old) Hp ltac:(lia)) as D.
    destruct (Z.leb_spec 32 (data_len - pos)); [|lia]. cbv zeta in D.
    by rewrite Hh, header_of_header_bytes, (eo_integrity _ _ E) in D by (done || apply E). }
  split; [done|]. intros e.
  assert (take (length data) (ptr_add bytes (pos + 32)) = data) as Hd.
  { change (slice bytes (pos + Z.of_nat 32) (length data) = data).
    rewrite <- slice_drop, Hb by lia. apply drop_app_length'. by rewrite length_header_bytes. }
  split_and!; [| |done].
  - unfold LogEntry.deserialize. rewrite bool_decide_eq_false_2 by done. cbn [orb].
    destruct (Z.leb_spec data_len 0); [lia|]. rewrite D. cbn [mbind option_bind].
    change (ob_fail OB_SUCCESS) with false. cbv iota. rewrite (eo_len _ _ E).
    destruct (Z.ltb_spec (data_len - (pos + 32)) (Z.of_nat (length data))); [lia|].
    by destruct (Z.ltb_spec 0 (Z.of_nat (length data))); [|destruct data].
  - unfold LogEntry.check_integrity, e. cbn [LogEntry.buf_ LogEntry.header_].
    rewrite <- (take_drop (length data) (ptr_add bytes (pos + 32))), Hd. by apply entry_ok_check.
Qed.

(** A header filled in for [data], once its parity bit is set. *)
Lemma update_entry_ok data scn flag crc :
  let h := LogEntryHeader.mk LogEntryHeader.MAGIC LogEntryHeader.LOG_ENTRY_HEADER_VERSION
             (s32 (Z.of_nat (length data))) scn (s64 crc) flag in
  data <> [] -> Z.of_nat (length data) < 2 ^ 31 -> Forall is_byte data -> is_u 64 scn -> Scn.is_valid scn = true ->
  flag = 0 \/ flag = LogEntryHeader.PADDING_TYPE_MASK ->
  checked_len h <= Z.of_nat (length data) -> crc = ob_crc64 0 (take (Z.to_nat (checked_len h)) data) ->
  entry_ok (LogEntryHeader.update_header_checksum_ h) data /\
  LogEntryHeader.get_scn (LogEntryHeader.update_header_checksum_ h) = scn /\
  LogEntryHeader.is_padding_log_ (LogEntryHeader.update_header_checksum_ h) = LogEntryHeader.is_padding_log_ h.
Proof.
  intros h Hne Hl Hb Hu Hv Hf Hk Hcrc.
  assert (s32 (Z.of_nat (length data)) = Z.of_nat (length data)) as Hs by (apply to_s_id; unfold is_s; lia).
  assert (0 < Z.of_nat (length data)) by (destruct data; simpl; [done | lia]).
  assert (Z.testbit flag 0 = false) as Ht by by destruct Hf as [-> | ->].
  pose proof (update_header_checksum_check h Hu Ht) as Hc.
  assert (exists f, is_s 64 f /\ (0 <? Z.land f LogEntryHeader.PADDING_TYPE_MASK) = LogEntryHeader.is_padding_log_ h /\
    LogEntryHeader.update_header_checksum_ h = LogEntryHeader.set_flag f h) as (f & Hfs & Hfp & E).
  { unfold LogEntryHeader.update_header_checksum_. case_match; [exists (Z.lor flag 1) | exists flag].
    - split; [by destruct Hf as [-> | ->]|]. split; [by destruct Hf as [-> | ->] | done].
    - split; [by destruct Hf as [-> | ->]|]. done. }
  rewrite E in *. split; [|done].
  assert (checked_len (LogEntryHeader.set_flag f h) = checked_len h) as Hck.
  { unfold checked_len, LogEntryHeader.is_padding_log_ at 1. cbn [LogEntryHeader.set_flag LogEntryHeader.flag_].
    by rewrite Hfp. }
  split.
  - split_and!; try done; by apply to_s_range.
  - unfold LogEntryHeader.check_header_integrity. rewrite Hc, andb_true_r.
    unfold LogEntryHeader.is_valid. cbn [LogEntryHeader.set_flag LogEntryHeader.magic_ LogEntryHeader.log_size_
      LogEntryHeader.scn_ h]. rewrite Hs, Hv, andb_true_r. by apply Z.ltb_lt.
  - done.
  - done.
  - rewrite Hck. split; [|done]. unfold checked_len. case_match; [done|].
    unfold LogEntryHeader.get_data_len. cbn [LogEntryHeader.log_size_ h]. lia.
  - rewrite Hck. by rewrite <- Hcrc.
Qed.

(** [generate_header] makes the header of its data. *)
Lemma generate_header_ok data scn :
  data <> [] -> Z.of_nat (length data) < 2 ^ 31 -> Forall is_byte data -> is_u 64 scn -> Scn.is_valid scn = true ->
  exists h, LogEntryHeader.generate_header (Some data) (Z.of_nat (length data)) scn LogEntryHeader.make =
      Some (OB_SUCCESS, h) /\ entry_ok h data /\ LogEntryHeader.get_scn h = scn.
Proof.
  intros Hne Hl Hb Hu Hv. unfold LogEntryHeader.generate_header.
  assert (s32 (Z.of_nat (length data)) = Z.of_nat (length data)) as Hs by (apply to_s_id; unfold is_s; lia).
  destruct (Z.leb_spec (Z.of_nat (length data)) 0); [by destruct data|]. rewrite Hv. cbn [orb negb].
  unfold crc_block. rewrite Z.leb_refl, Nat2Z.id, take_ge by lia. cbn [mbind option_bind].
  eexists. split; [done|].
  destruct (update_entry_ok data scn 0 (ob_crc64 0 data)) as (E & Hscn & _); try done; auto.
  - change (checked_len _) with (s32 (Z.of_nat (length data))). lia.
  - change (checked_len _) with (s32 (Z.of_nat (length data))). by rewrite Hs, Nat2Z.id, take_ge.
Qed.

(** Serialization writes the entry in place, or reports that there is no space. *)
Lemma entry_serialize_spec h data rest bytes buf_len pos :
  entry_ok h data -> 0 <= pos -> 0 < buf_len <= Z.of_nat (length bytes) ->
  let e := LogEntry.mk h (Some (data ++ rest)) in
  if 32 + Z.of_nat (length data) <=? buf_len - pos then
    LogEntry.serialize (Some bytes) buf_len pos e =
    Some (OB_SUCCESS, Some (written bytes pos (entry_bytes h data)), pos + 32 + Z.of_nat (length data))
  else exists bytes', LogEntry.serialize (Some bytes) buf_len pos e = Some (OB_BUF_NOT_ENOUGH, Some bytes', pos).
Proof.
  intros E Hp Hl e. unfold LogEntry.serialize. rewrite bool_decide_eq_false_2 by done. cbn [orb].
  destruct (Z.leb_spec buf_len 0); [lia|]. cbn [LogEntry.header_ e LogEntry.buf_]. rewrite (eo_len _ _ E).
  pose proof (header_serialize_spec h bytes buf_len pos Hp Hl) as S.
  destruct (Z.leb_spec 32 (buf_len - pos)).
  - rewrite S. cbn [mbind option_bind]. change (ob_fail OB_SUCCESS) with false. cbv iota.
    destruct (Z.ltb_spec (buf_len - (pos + 32)) (Z.of_nat (length data))),
      (Z.leb_spec (32 + Z.of_nat (length data)) (buf_len - pos)); try lia; [by eexists|].
    unfold memcpy. rewrite length_app. destruct (Z.ltb_spec (Z.of_nat (length data + length rest)) (Z.of_nat (length data))); [lia|].
    rewrite Nat2Z.id, take_app_length. rewrite put_bytes_written.
    + cbn [mbind option_bind]. change 32 with (Z.of_nat 32) at 1.
      rewrite <- (length_header_bytes h). rewrite written_app; [done | done |].
      rewrite length_header_bytes. lia.
    + lia.
    + rewrite length_written; rewrite ?length_header_bytes; lia.
  - destruct S as (bytes' & ->). cbn [mbind option_bind]. change (ob_fail OB_BUF_NOT_ENOUGH) with true. cbv iota.
    destruct (Z.leb_spec (32 + Z.of_nat (length data)) (buf_len - pos)); [lia|]. by eexists.
Qed.
End entry.


(** C34: an entry written to the log is read back.  The header generated for a body and
    a time, serialized with the body at any place of a buffer, is deserialized to the
    same header, a pointer to the same body and the position behind it, and the entry
    passes its integrity check; a buffer that is too short is refused with
    [OB_BUF_NOT_ENOUGH] and leaves the position alone. *)
Theorem log_entry_round_trip `{Crc64} data scn bytes buf_len pos old :
  data <> [] -> Z.of_nat (length data) < 2 ^ 31 -> Forall is_byte data -> is_u 64 scn -> Scn.is_valid scn = true ->
  0 <= pos -> 0 < buf_len <= Z.of_nat (length bytes) ->
  exists h,
    LogEntryHeader.generate_header (Some data) (Z.of_nat (length data)) scn LogEntryHeader.make =
      Some (OB_SUCCESS, h) /\ LogEntryHeader.get_scn h = scn /\
    let e := LogEntry.mk h (Some data) in
    let size := LogEntry.get_serialize_size e in
    if size <=? buf_len - pos then
      exists bytes',
        let data' := ptr_add bytes' (pos + LogEntryHeader.HEADER_SER_SIZE) in
        let e' := LogEntry.mk h (Some data') in
        LogEntry.serialize (Some bytes) buf_len pos e = Some (OB_SUCCESS, Some bytes', pos + size) /\
        LogEntry.deserialize (Some bytes') buf_len pos old = Some (OB_SUCCESS, pos + size, e') /\
        take (length data) data' = data /\ LogEntry.check_integrity e' = Some true
    else exists bytes', LogEntry.serialize (Some bytes) buf_len pos e = Some (OB_BUF_NOT_ENOUGH, Some bytes', pos).
Proof.
  intros Hne Hl Hb Hu Hv Hp Hbuf. destruct (generate_header_ok data scn) as (h & G & E & Hs); try done.
  exists h. split; [done|]. split; [done|]. cbv zeta.
  assert (LogEntry.get_serialize_size (LogEntry.mk h (Some data)) = 32 + Z.of_nat (length data)) as ->.
  { unfold LogEntry.get_serialize_size. cbn [LogEntry.header_]. by rewrite (eo_len _ _ E). }
  pose proof (entry_serialize_spec h data [] bytes buf_len pos E Hp Hbuf) as S. cbv zeta in S.
  rewrite app_nil_r in S. destruct (Z.leb_spec (32 + Z.of_nat (length data)) (buf_len - pos)); [|done].
  pose proof (length_entry_bytes h data) as Le. exists (written bytes pos (entry_bytes h data)).
  rewrite !Z.add_assoc. split; [done|].
  destruct (entry_deserialize_ok h data (written bytes pos (entry_bytes h data)) buf_len pos old)
    as (_ & D & C & T); try done.
  - rewrite length_written; lia.
  - lia.
  - rewrite slice_written by lia. by apply fmap_u8_bytes, entry_bytes_byte.
Qed.

Lemma log_entry_round_trip_witness :
  exists h bytes',
    @LogEntryHeader.generate_header crc64_fast (Some [1; 2; 3]) 3 100 LogEntryHeader.make = Some (OB_SUCCESS, h) /\
    LogEntry.serialize (Some (replicate 40 0)) 40 2 (LogEntry.mk h (Some [1; 2; 3])) =
      Some (OB_SUCCESS, Some bytes', 37) /\
    take 3 (ptr_add bytes' 34) = [1; 2; 3].
Proof.
  destruct (@log_entry_round_trip crc64_fast [1; 2; 3] 100 (replicate 40 0) 40 2 LogEntry.make) as (h & G & _ & R);
    [done | done | by repeat constructor | done | done | done | done |].
  assert (Z.of_nat (length [1; 2; 3]) = 3) as L by done. rewrite L in G.
  assert (LogEntryHeader.get_data_len h = 3) as Hs.
  { vm_compute in G. by injection G as <-. }
  assert (LogEntry.get_serialize_size (LogEntry.mk h (Some [1; 2; 3])) = 35) as Hz.
  { unfold LogEntry.get_serialize_size. cbn [LogEntry.header_]. by rewrite Hs. }
  cbv zeta in R. rewrite Hz in R. destruct R as (bytes' & S & _ & T & _).
  exists h, bytes'. exact (conj G (conj S T)).
Defined.

(** C36: a header damaged in one bit is not taken for another header.  Inverting any bit
    of the bytes of a header that was serialized makes its deserialization fail with
    [OB_INVALID_DATA], with one exception where the header that comes out is the one
    that went in: a bit that turns the largest time into [INT64_MAX], which stands for
    the same time. *)
Theorem log_entry_header_bit_flip h bytes buf_len pos i j old :
  header_wf h -> LogEntryHeader.check_header_integrity h = true ->
  0 <= pos -> buf_len <= Z.of_nat (length bytes) -> LogEntryHeader.HEADER_SER_SIZE <= buf_len - pos ->
  0 <= i < LogEntryHeader.HEADER_SER_SIZE -> (j < 8)%nat ->
  exists bytes',
    LogEntryHeader.serialize (Some bytes) buf_len pos h =
      Some (OB_SUCCESS, Some bytes', pos + LogEntryHeader.HEADER_SER_SIZE) /\
    let damaged := flip_bit (Z.to_nat (pos + i)) j bytes' in
    (exists h', LogEntryHeader.deserialize (Some damaged) buf_len pos old = Some (OB_INVALID_DATA, pos, h')) \/
    LogEntryHeader.deserialize (Some damaged) buf_len pos old =
      Some (OB_SUCCESS, pos + LogEntryHeader.HEADER_SER_SIZE, h).
Proof.
  intros Hwf Hc Hp Hl Hs Hi Hj. change LogEntryHeader.HEADER_SER_SIZE with 32 in *.
  pose proof (header_serialize_spec h bytes buf_len pos Hp ltac:(lia)) as S.
  destruct (Z.leb_spec 32 (buf_len - pos)); [|lia]. eexists. split; [done|]. cbv zeta.
  pose proof (length_header_bytes h) as Lh. set (bytes' := written bytes pos (header_bytes h)).
  assert (length bytes' = length bytes) as Lb by (apply length_written; lia).
  replace (Z.to_nat (pos + i)) with (Z.to_nat pos + Z.to_nat i)%nat by lia.
  assert (slice (flip_bit (Z.to_nat pos + Z.to_nat i) j bytes') pos 32 = flip_bit (Z.to_nat i) j (header_bytes h)) as Hsl.
  { rewrite slice_flip by lia. f_equal. unfold bytes'. rewrite slice_written by lia.
    by apply fmap_u8_bytes, header_bytes_byte. }
  pose proof (header_deserialize_spec (flip_bit (Z.to_nat pos + Z.to_nat i) j bytes') buf_len pos old Hp) as D.
  rewrite length_flip_bit in D. specialize (D ltac:(lia)).
  destruct (Z.leb_spec 32 (buf_len - pos)); [|lia]. cbv zeta in D.
  rewrite Hsl, header_parse_old in D by (by rewrite length_flip_bit).
  rewrite D. destruct (header_flip h (Z.to_nat i) j Hwf Hc ltac:(lia) Hj) as [-> | ->].
  - left. by eexists.
  - right. by rewrite Hc.
Qed.

Lemma log_entry_header_bit_flip_witness :
  let h := LogEntryHeader.update_header_checksum_ (LogEntryHeader.mk LogEntryHeader.MAGIC 1 5 max_scn 77 0) in
  exists bytes',
    LogEntryHeader.serialize (Some (replicate 32 0)) 32 0 h = Some (OB_SUCCESS, Some bytes', 32) /\
    let damaged := flip_bit 8 6 bytes' in
    (exists h', LogEntryHeader.deserialize (Some damaged) 32 0 LogEntryHeader.make = Some (OB_INVALID_DATA, 0, h')) \/
    LogEntryHeader.deserialize (Some damaged) 32 0 LogEntryHeader.make = Some (OB_SUCCESS, 32, h).
Proof.
  apply (log_entry_header_bit_flip
    (LogEntryHeader.update_header_checksum_ (LogEntryHeader.mk LogEntryHeader.MAGIC 1 5 max_scn 77 0))
    (replicate 32 0) 32 0 8 6 LogEntryHeader.make);
    [vm_compute; repeat split; discriminate | by vm_compute | lia | done | done | done | lia].
Defined.

(** ** Padding *)

Section padding.
Context `{Crc64}.

Definition padding_base : ObLogBaseHeader.t := ObLogBaseHeader.make PADDING_LOG_BASE_TYPE NO_NEED_BARRIER 0.

Lemma padding_base_byte : Forall is_byte (ObLogBaseHeader.bytes_of padding_base).
Proof. unfold ObLogBaseHeader.bytes_of. rewrite !Forall_app. auto 10 using be_bytes_byte. Qed.

(** The header [generate_padding_log_buf] makes. *)
Definition padding_header (padding_data_len : Z) (scn : SCN) : LogEntryHeader.t :=
  LogEntryHeader.update_header_checksum_
    (LogEntryHeader.mk LogEntryHeader.MAGIC LogEntryHeader.LOG_ENTRY_HEADER_VERSION (s32 padding_data_len) scn
       (s64 (ob_crc64 0 (ObLogBaseHeader.bytes_of padding_base))) LogEntryHeader.PADDING_TYPE_MASK).

(** It is the header of the base header and whatever fills the rest. *)
Lemma padding_header_ok padding_data_len scn fill :
  is_u 64 scn -> Scn.is_valid scn = true -> padding_data_len < 2 ^ 31 -> Forall is_byte fill ->
  Z.of_nat (length fill) = padding_data_len - LogEntryHeader.BASE_HEADER_SIZE ->
  let h := padding_header padding_data_len scn in
  entry_ok h (ObLogBaseHeader.bytes_of padding_base ++ fill) /\
  LogEntryHeader.get_scn h = scn /\ LogEntryHeader.is_padding_log_ h = true.
Proof.
  intros Hu Hv Hpl Hf Hl. change LogEntryHeader.BASE_HEADER_SIZE with 16 in *.
  pose proof (ObLogBaseHeader.length_bytes_of padding_base) as Lb. pose proof padding_base_byte as Fb.
  unfold padding_header. set (base := ObLogBaseHeader.bytes_of padding_base) in *. clearbody base.
  assert (padding_data_len = Z.of_nat (length (base ++ fill))) as -> by (rewrite length_app; lia).
  apply update_entry_ok; auto.
  - destruct base; done.
  - by apply Forall_app.
  - change (checked_len _) with 16. rewrite length_app. lia.
  - change (checked_len _) with 16. by rewrite take_app_length'.
Qed.

(** The two headers of a padding log are written at the front of the buffer. *)
Lemma generate_padding_log_buf_ok padding_data_len scn out valid_len :
  Scn.is_valid scn = true ->
  LogEntryHeader.PADDING_LOG_ENTRY_SIZE <= valid_len <= padding_data_len -> valid_len <= Z.of_nat (length out) ->
  LogEntryHeader.generate_padding_log_buf padding_data_len scn (Some out) valid_len =
    Some (OB_SUCCESS, Some (written out 0 (header_bytes (padding_header padding_data_len scn) ++
                                           ObLogBaseHeader.bytes_of padding_base))).
Proof.
  intros Hv Hval Hout. change LogEntryHeader.PADDING_LOG_ENTRY_SIZE with 48 in *.
  pose proof (ObLogBaseHeader.length_bytes_of padding_base) as Lb.
  unfold LogEntryHeader.generate_padding_log_buf. fold padding_base.
  change (ObLogBaseHeader.get_serialize_size padding_base) with 16.
  change (LogEntryHeader.get_serialize_size LogEntryHeader.make) with 32.
  destruct (Z.leb_spec padding_data_len 0), (Z.ltb_spec valid_len (16 + 32)),
    (Z.ltb_spec padding_data_len valid_len); try lia.
  rewrite Hv, bool_decide_eq_false_2 by done. cbn [orb negb]. rewrite ObLogBaseHeader.base_serialize_ok by lia.
  cbn [mbind option_bind]. change (ob_fail OB_SUCCESS) with false. cbv iota.
  cbn [fmap option_fmap option_map]. unfold LogEntryHeader.generate_padding_header_.
  destruct (Z.leb_spec padding_data_len 0); [lia|]. rewrite Hv. cbn [orb negb Z.leb Z.compare]. unfold crc_block.
  set (base := ObLogBaseHeader.bytes_of padding_base) in *.
  assert (exists rest, ptr_add (written out (0 + 32) base) (0 + 32) = base ++ rest) as [rest ->].
  { exists (drop 48 out). unfold ptr_add, written. rewrite drop_app_length' by (rewrite length_take; lia).
    rewrite fmap_u8_bytes by apply padding_base_byte. by rewrite Lb. }
  rewrite length_app, Lb. destruct (Z.leb_spec 16 (Z.of_nat (16 + length rest))); [|lia].
  rewrite take_app_length' by (by rewrite Lb). cbn [mbind option_bind].
  change (ob_fail OB_SUCCESS) with false. cbv iota.
  change (LogEntryHeader.update_header_checksum_ _) with (padding_header padding_data_len scn).
  set (h := padding_header padding_data_len scn).
  pose proof (header_serialize_spec h (written out (0 + 32) base) 32 0 ltac:(lia)) as S.
  rewrite length_written in S by lia. specialize (S ltac:(lia)). cbn [Z.leb Z.compare Z.sub Z.add Z.opp] in S.
  change (0 + 32) with 32 in *. rewrite S. cbn [mbind option_bind]. do 3 f_equal.
  pose proof (written_before out 0 (header_bytes h) base) as W. rewrite length_header_bytes in W.
  apply W; lia.
Qed.
End padding.

(** The entry that pads the end of a block is read as an entry.  Its two headers
    fill the 48 bytes the allocator reserves at least; with any bytes behind them up to
    the announced length the entry is deserialized, is marked as padding, carries the
    time it was generated for and passes its integrity check, and the base header
    behind the entry's header is that of a padding log. *)
Theorem padding_log_round_trip `{Crc64} padding_data_len scn out valid_len fill old :
  is_u 64 scn -> Scn.is_valid scn = true -> padding_data_len < 2 ^ 31 ->
  LogEntryHeader.PADDING_LOG_ENTRY_SIZE <= valid_len <= padding_data_len -> valid_len <= Z.of_nat (length out) ->
  Forall is_byte fill -> Z.of_nat (length fill) = padding_data_len - LogEntryHeader.BASE_HEADER_SIZE ->
  exists out' h,
    LogEntryHeader.generate_padding_log_buf padding_data_len scn (Some out) valid_len =
      Some (OB_SUCCESS, Some out') /\
    let size := LogEntryHeader.HEADER_SER_SIZE + padding_data_len in
    let entry := take 48 out' ++ fill in
    let e := LogEntry.mk h (Some (ptr_add entry LogEntryHeader.HEADER_SER_SIZE)) in
    LogEntry.deserialize (Some entry) size 0 old = Some (OB_SUCCESS, size, e) /\
    LogEntry.check_integrity e = Some true /\
    LogEntryHeader.get_scn h = scn /\ LogEntryHeader.is_padding_log_ h = true /\
    ObLogBaseHeader.deserialize (Some entry) size LogEntryHeader.HEADER_SER_SIZE ObLogBaseHeader.reset =
      Some (OB_SUCCESS, LogEntryHeader.PADDING_LOG_ENTRY_SIZE,
            ObLogBaseHeader.make PADDING_LOG_BASE_TYPE NO_NEED_BARRIER 0).
Proof.
  intros Hu Hv Hpl Hval Hout Hf Hl. change LogEntryHeader.PADDING_LOG_ENTRY_SIZE with 48 in *.
  change LogEntryHeader.BASE_HEADER_SIZE with 16 in *. change LogEntryHeader.HEADER_SER_SIZE with 32 in *.
  destruct (padding_header_ok padding_data_len scn fill) as (E & Hs & Hp); try done.
  pose proof (ObLogBaseHeader.length_bytes_of padding_base) as Lb. pose proof padding_base_byte as Fb.
  eexists _, (padding_header padding_data_len scn). split; [by apply generate_padding_log_buf_ok|]. cbv zeta.
  set (h := padding_header padding_data_len scn) in *. pose proof (length_header_bytes h) as Lh.
  change (take 48 (written _ 0 _)) with (slice (written out 0 (header_bytes h ++ ObLogBaseHeader.bytes_of padding_base)) 0 48).
  rewrite slice_written by (rewrite ?length_app; lia).
  rewrite fmap_u8_bytes by (apply Forall_app; auto using header_bytes_byte).
  rewrite <- app_assoc. set (data := ObLogBaseHeader.bytes_of padding_base ++ fill) in *.
  assert (length data = (16 + length fill)%nat) as Ld by (unfold data; rewrite length_app; lia).
  destruct (entry_deserialize_ok h data (header_bytes h ++ data) (32 + padding_data_len) 0 old) as (_ & D & C & T);
    try done; try (rewrite ?length_app; lia).
  { unfold slice. rewrite drop_0, take_ge; [done | rewrite length_app; lia]. }
  rewrite D. split_and!; try done.
  - do 3 f_equal. lia.
  - apply ObLogBaseHeader.base_deserialize_ok; try done; rewrite ?length_app; lia.
Qed.

Lemma padding_log_round_trip_witness :
  exists out' h,
    @LogEntryHeader.generate_padding_log_buf crc64_fast 100 7 (Some (replicate 60 0)) 48 = Some (OB_SUCCESS, Some out') /\
    @LogEntry.check_integrity crc64_fast (LogEntry.mk h (Some (ptr_add (take 48 out' ++ replicate 84 9) 32))) = Some true /\
    LogEntryHeader.is_padding_log_ h = true.
Proof.
  destruct (@padding_log_round_trip crc64_fast 100 7 (replicate 60 0) 48 (replicate 84 9) LogEntry.make)
    as (out' & h & G & _ & C & _ & P & _);
    [done | done | done | done | done | apply (bool_decide_unpack _); by vm_compute | done |].
  exists out', h. exact (conj G (conj C P)).
Defined.
