(* ===== verification/LogWriteBuf.v ===== *)
(** * Scattered log buffers: [src/logservice/palf/log_writer_utils.{h,cpp}]

    A [LogWriteBuf] is a short array of pointers into memory, each with a length:
    a log that wraps around the end of the group buffer is two pieces of it.  The
    memory is a function of the address. *)

From Stdlib Require Import ZArith Lia Bool.
From stdpp Require Import base option numbers list sets.
From S2P Require Import Prelude Serialization Scn Lsn Parity HeaderFormat.

Local Open Scope Z_scope.

Definition MAX_LOG_BUFFER_SIZE : Z := MAX_LOG_BODY_SIZE + MAX_LOG_HEADER_SIZE + CLOG_FILE_TAIL_PADDING_TRIGGER.

(** The bytes at [addr, addr + len). *)
Definition mem_block (mem : Z -> Z) (addr len : Z) : list Z := mem <$> seqZ addr len.

Module LogWriteBuf.
Record InnerStruct := mk_inner { buf_ : Z; buf_len_ : Z }.

(** [write_buf_]. *)
Abbreviation t := (list InnerStruct).

Definition reset : t := [].
Definition get_buf_count (wb : t) : Z := Z.of_nat (length wb).
Definition is_valid (wb : t) : bool := 0 <? get_buf_count wb.

Definition get_total_size (wb : t) : Z := foldl (fun total_size s => total_size + buf_len_ s) 0 wb.

Definition get_write_buf (idx : Z) (wb : t) (buf buf_len : Z) : Z * Z * Z :=
  if get_buf_count wb <=? idx then (OB_ARRAY_OUT_OF_RANGE, buf, buf_len)
  else
    match wb !! Z.to_nat idx with
    | Some s => (OB_SUCCESS, buf_ s, buf_len_ s)
    | None => (OB_ARRAY_OUT_OF_RANGE, buf, buf_len)
    end.

(** Two single adjacent pieces become one; [write_buf_[0]] of an empty buffer is a
    fault. *)
Definition merge (rhs wb : t) : outcome (Z * bool * t) :=
  let lhs_size := get_total_size wb in
  let lhs_count := get_buf_count wb in
  let rhs_size := get_total_size rhs in
  let rhs_count := get_buf_count rhs in
  if (2 <=? lhs_count) || (2 <=? rhs_count) then Some (OB_SUCCESS, false, wb)
  else if (MAX_LOG_BUFFER_SIZE <? lhs_size) || (MAX_LOG_BUFFER_SIZE <? rhs_size) then
    Some (OB_ERR_UNEXPECTED, false, wb)
  else if MAX_LOG_BUFFER_SIZE <? lhs_size + rhs_size then Some (OB_SUCCESS, false, wb)
  else
    l ← head wb; r ← head rhs;
    if buf_ l =? buf_ r then Some (OB_ERR_UNEXPECTED, false, wb)
    else if negb (buf_ l + lhs_size =? buf_ r) then Some (OB_SUCCESS, false, wb)
    else Some (OB_SUCCESS, true, mk_inner (buf_ l) (buf_len_ l + rhs_size) :: tail wb).

(** [array_push n] is the result of growing an array of [n] elements.  A turn takes a
    step's worth of bytes, so as many turns as there are steps are enough. *)
Fixpoint push_loop (array_push : nat -> Z) (turns : nat) (buf buf_len remain_buf_len : Z) (wb : t) : Z * t :=
  match turns with
  | O => (OB_SUCCESS, wb)
  | S turns =>
      if 0 <? remain_buf_len then
        let limit_buf_len := Z.min remain_buf_len MAX_LOG_BUFFER_SIZE in
        let inner_struct := mk_inner (buf + buf_len - remain_buf_len) limit_buf_len in
        let ret := array_push (length wb) in
        if ob_fail ret then (ret, wb)
        else push_loop array_push turns buf buf_len (remain_buf_len - limit_buf_len) (wb ++ [inner_struct])
      else (OB_SUCCESS, wb)
  end.

Definition push_back (array_push : nat -> Z) (buf buf_len : Z) (wb : t) : Z * t :=
  if (buf =? 0) || (buf_len <=? 0) then (OB_INVALID_ARGUMENT, wb)
  else push_loop array_push (Z.to_nat (buf_len / MAX_LOG_BUFFER_SIZE + 1)) buf buf_len buf_len wb.

Fixpoint check_memory_is_continous (wb : t) : bool :=
  match wb with
  | s :: (s' :: _) as rest =>
      if negb (buf_ s + buf_len_ s =? buf_ s') then false else check_memory_is_continous rest
  | _ => true
  end.

(** The piece points into the buffer, which is at the address [addr]; the length that
    was read is not compared with that of the data. *)
Definition deserialize (array_push : nat -> Z) (addr : Z) (buf : buffer) (data_len pos : Z) (wb : t) : outcome (Z * Z * t) :=
  if bool_decide (buf = None) || (data_len <=? 0) || (pos <? 0) then Some (OB_INVALID_ARGUMENT, pos, wb)
  else
    '(ret, new_pos, total_size) ← decode_i64 buf data_len pos 0;
    if ob_fail ret then Some (ret, pos, wb)
    else
      let ret := array_push (length wb) in
      if ob_fail ret then Some (ret, pos, wb)
      else Some (OB_SUCCESS, new_pos + total_size, wb ++ [mk_inner (addr + new_pos) total_size]).

Section memory.
Context (mem : Z -> Z).

(** The bytes of the pieces, and all of them in order. *)
Definition pieces (wb : t) : list (list Z) := (fun s => mem_block mem (buf_ s) (buf_len_ s)) <$> wb.
Definition content (wb : t) : list Z := concat (pieces wb).

(** What [memcpy_to_continous_memory] stores at [dest_buf]. *)
Definition memcpy_to_continous_memory (dest_buf : list Z) (wb : t) : outcome (list Z) :=
  '(dest, _) ← foldl (fun acc bs =>
      '(dest, pos) ← acc; dest ← memcpy dest pos bs (Z.of_nat (length bs)); Some (dest, pos + Z.of_nat (length bs)))
    (Some (dest_buf, 0)) (pieces wb);
  Some dest.

(** The length, then the pieces. *)
Definition serialize (buf : buffer) (buf_len pos : Z) (wb : t) : outcome (Z * buffer * Z) :=
  if bool_decide (buf = None) || (buf_len <=? 0) || (pos <? 0) then Some (OB_INVALID_ARGUMENT, buf, pos)
  else
    '(ret, buf, new_pos) ← encode_i64 buf buf_len pos (get_total_size wb);
    if ob_fail ret then Some (ret, buf, pos)
    else
      bytes ← buf;
      '(bytes, new_pos) ← foldl (fun acc bs =>
          '(dest, pos) ← acc; dest ← memcpy dest pos bs (Z.of_nat (length bs)); Some (dest, pos + Z.of_nat (length bs)))
        (Some (bytes, new_pos)) (pieces wb);
      Some (OB_SUCCESS, Some bytes, new_pos).

Definition get_serialize_size (wb : t) : Z :=
  encoded_length_i64 (get_total_size wb) + get_total_size wb.
End memory.
End LogWriteBuf.

Section lemmas.
Import LogWriteBuf.
Context (mem : Z -> Z).

Lemma length_mem_block addr len : 0 <= len -> Z.of_nat (length (mem_block mem addr len)) = len.
Proof. intros. unfold mem_block. rewrite length_fmap, length_seqZ. lia. Qed.

Lemma mem_block_app addr n m : 0 <= n -> 0 <= m ->
  mem_block mem addr n ++ mem_block mem (addr + n) m = mem_block mem addr (n + m).
Proof. intros. unfold mem_block. rewrite <- fmap_app. f_equal. symmetry. by apply seqZ_app. Qed.

Lemma pieces_app wb wb' : pieces mem (wb ++ wb') = pieces mem wb ++ pieces mem wb'.
Proof. apply fmap_app. Qed.

Lemma content_app wb wb' : content mem (wb ++ wb') = content mem wb ++ content mem wb'.
Proof. unfold content. by rewrite pieces_app, concat_app. Qed.

Lemma content_one s : content mem [s] = mem_block mem (buf_ s) (buf_len_ s).
Proof. apply app_nil_r. Qed.

Lemma get_total_size_app wb wb' : get_total_size (wb ++ wb') = get_total_size wb + get_total_size wb'.
Proof.
  unfold get_total_size. rewrite foldl_app. generalize (foldl (fun n s => n + buf_len_ s) 0 wb).
  induction wb' as [|s wb' IH]; intros n; cbn [foldl]; [lia|].
  rewrite (IH (n + buf_len_ s)), (IH (0 + buf_len_ s)). lia.
Qed.

(** The size is that of the content, for pieces of non-negative length. *)
Lemma get_total_size_content wb : Forall (fun s => 0 <= buf_len_ s) wb ->
  get_total_size wb = Z.of_nat (length (content mem wb)).
Proof.
  induction 1 as [|s wb Hs _ IH]; [done|]. change (s :: wb) with ([s] ++ wb).
  rewrite get_total_size_app, content_app, length_app, IH, content_one.
  change (get_total_size [s]) with (0 + buf_len_ s). pose proof (length_mem_block (buf_ s) (buf_len_ s) Hs). lia.
Qed.

Lemma push_loop_content array_push turns buf buf_len remain wb :
  (forall n, array_push n = OB_SUCCESS) -> 0 <= remain <= buf_len ->
  remain <= Z.of_nat turns * MAX_LOG_BUFFER_SIZE ->
  exists wb', push_loop array_push turns buf buf_len remain wb = (OB_SUCCESS, wb ++ wb') /\
    content mem wb' = mem_block mem (buf + buf_len - remain) remain /\
    Forall (fun s => 0 <= buf_len_ s <= MAX_LOG_BUFFER_SIZE) wb'.
Proof.
  intros Ha. revert remain wb. induction turns as [|turns IH]; intros remain wb Hr Ht.
  { assert (remain = 0) as -> by lia. exists []. by rewrite app_nil_r. }
  cbn [push_loop]. destruct (Z.ltb_spec 0 remain).
  2: { assert (remain = 0) as -> by lia. exists []. by rewrite app_nil_r. }
  rewrite Ha. change (ob_fail OB_SUCCESS) with false. cbv iota.
  assert (0 < MAX_LOG_BUFFER_SIZE) by done. set (n := Z.min remain MAX_LOG_BUFFER_SIZE).
  destruct (IH (remain - n) (wb ++ [mk_inner (buf + buf_len - remain) n])) as (wb' & -> & Hc & Hf); [lia | lia |].
  exists (mk_inner (buf + buf_len - remain) n :: wb'). rewrite <- app_assoc. split_and!; [done| |].
  - change (?s :: wb') with ([s] ++ wb'). rewrite content_app, Hc, content_one. cbn [buf_ buf_len_].
    replace (buf + buf_len - (remain - n)) with (buf + buf_len - remain + n) by lia.
    rewrite mem_block_app by lia. f_equal. lia.
  - constructor; [cbn [buf_len_]; lia | done].
Qed.

(** A block of memory of any size is appended in pieces the writer can take. *)
Lemma push_back_content array_push buf buf_len wb :
  (forall n, array_push n = OB_SUCCESS) -> buf <> 0 -> 0 < buf_len ->
  exists wb', push_back array_push buf buf_len wb = (OB_SUCCESS, wb ++ wb') /\
    content mem wb' = mem_block mem buf buf_len /\
    Forall (fun s => 0 <= buf_len_ s <= MAX_LOG_BUFFER_SIZE) wb'.
Proof.
  intros Ha Hb Hl. unfold push_back. destruct (Z.eqb_spec buf 0); [done|]. destruct (Z.leb_spec buf_len 0); [lia|].
  cbn [orb]. assert (0 < MAX_LOG_BUFFER_SIZE) by done.
  pose proof (Z.mul_succ_div_gt buf_len MAX_LOG_BUFFER_SIZE) as Hd.
  pose proof (Z.div_pos buf_len MAX_LOG_BUFFER_SIZE).
  destruct (push_loop_content array_push (Z.to_nat (buf_len / MAX_LOG_BUFFER_SIZE + 1)) buf buf_len buf_len wb)
    as (wb' & ? & Hc & Hf); [done | lia | nia |].
  exists wb'. replace (buf + buf_len - buf_len) with buf in Hc by lia. done.
Qed.

Lemma push_back_small array_push buf buf_len wb :
  (forall n, array_push n = OB_SUCCESS) -> buf <> 0 -> 0 < buf_len <= MAX_LOG_BUFFER_SIZE ->
  push_back array_push buf buf_len wb = (OB_SUCCESS, wb ++ [mk_inner buf buf_len]).
Proof.
  intros Ha Hb Hl. unfold push_back. destruct (Z.eqb_spec buf 0); [done|]. destruct (Z.leb_spec buf_len 0); [lia|].
  cbn [orb]. rewrite Z2Nat.inj_add by (try apply Z.div_pos; done || lia). rewrite Nat.add_1_r. cbn [push_loop].
  destruct (Z.ltb_spec 0 buf_len); [|lia]. rewrite Ha. change (ob_fail OB_SUCCESS) with false. cbv iota.
  rewrite Z.min_l, Z.sub_diag by lia. replace (buf + buf_len - buf_len) with buf by lia.
  by destruct (Z.to_nat (buf_len / MAX_LOG_BUFFER_SIZE)).
Qed.

(** Two buffers that are merged hold the bytes of one after those of the other. *)
Lemma merge_content rhs wb wb' :
  Forall (fun s => 0 <= buf_len_ s) wb -> Forall (fun s => 0 <= buf_len_ s) rhs ->
  merge rhs wb = Some (OB_SUCCESS, true, wb') -> content mem wb' = content mem wb ++ content mem rhs.
Proof.
  intros Hw Hr. unfold merge, get_buf_count.
  destruct (Z.leb_spec 2 (Z.of_nat (length wb))), (Z.leb_spec 2 (Z.of_nat (length rhs))); try done. cbn [orb].
  do 2 (case_match; [done|]). destruct wb as [|l [|]]; cbn [length] in *; try done; try lia.
  destruct rhs as [|r [|]]; cbn [length] in *; try done; try lia. cbn [head mbind option_bind tail].
  rewrite Forall_singleton in *. case_match; [done|].
  change (get_total_size [l]) with (0 + buf_len_ l). change (get_total_size [r]) with (0 + buf_len_ r).
  destruct (Z.eqb_spec (buf_ l + (0 + buf_len_ l)) (buf_ r)) as [E|]; [|done]. cbn [negb].
  intros [= <-]. rewrite !content_one, <- E. cbn [buf_ buf_len_]. rewrite Z.add_0_l. by rewrite mem_block_app.
Qed.
End lemmas.
