(* ===== verification/LogGroupEntryHeader.v ===== *)
(** * Log groups: [src/logservice/palf/log_group_entry_header.{h,cpp}]

    Entries are written to disk and replicated in groups; the header of a group
    carries its place in the log, a parity bit over its own members and the
    checksum accumulated over all groups.  The writer computes the checksum of a
    group from the pieces of the ring buffer its entries lie in, the reader from
    the bytes it received. *)

From Stdlib Require Import ZArith Lia Bool.
From stdpp Require Import base option numbers list sets.
From S2P Require Import Prelude Serialization Scn Lsn Parity Crc64 HeaderFormat LogBaseHeader LogEntryHeader.

Local Open Scope Z_scope.

Definition is_valid_log_id (log_id : Z) : bool := 0 <? log_id.

(** The eight bytes of an [int64_t] in memory, and the checksum continued over them. *)
Definition int64_bytes (v : Z) : list Z := reverse (be_bytes 8 v).
Definition crc_int64 `{Crc64} (crc v : Z) : Z := s64 (ob_crc64 (u64 crc) (int64_bytes v)).

Module LogGroupEntryHeader.
Definition MAGIC : Z := 0x4752.
Definition LOG_GROUP_ENTRY_HEADER_VERSION : Z := 1.
Definition PADDING_TYPE_MASK : Z := Z.shiftl 1 1.
Definition RAW_WRITE_MASK : Z := Z.shiftl 1 2.
Definition PADDING_LOG_DATA_CHECKSUM : Z := 0.
(** [sizeof(LogGroupEntryHeader)]. *)
Definition HEADER_SER_SIZE : Z := 56.

Record t := mk {
  magic_ : Z; version_ : Z; group_size_ : Z; proposal_id_ : Z; committed_end_lsn_ : LSN; max_scn_ : SCN;
  accumulated_checksum_ : Z; log_id_ : Z; flag_ : Z }.

Definition reset : t := mk 0 0 0 INVALID_PROPOSAL_ID lsn_reset invalid_scn 0 0 0.

Definition is_valid (h : t) : bool :=
  (MAGIC =? magic_ h) && (LOG_GROUP_ENTRY_HEADER_VERSION =? version_ h)
  && negb (INVALID_PROPOSAL_ID =? proposal_id_ h) && lsn_is_valid (committed_end_lsn_ h)
  && Scn.is_valid (max_scn_ h) && is_valid_log_id (log_id_ h).

Definition get_data_len (h : t) : Z := group_size_ h.
Definition get_accum_checksum (h : t) : Z := accumulated_checksum_ h.
Definition get_max_scn (h : t) : SCN := max_scn_ h.
Definition is_padding_log (h : t) : bool := 0 <? Z.land (flag_ h) PADDING_TYPE_MASK.
Definition is_raw_write (h : t) : bool := 0 <? Z.land (flag_ h) RAW_WRITE_MASK.

Definition eqb (h header : t) : bool :=
  (magic_ h =? magic_ header) && (version_ h =? version_ header) && (group_size_ h =? group_size_ header)
  && (proposal_id_ h =? proposal_id_ header) && lsn_eq (committed_end_lsn_ h) (committed_end_lsn_ header)
  && scn_eq (max_scn_ h) (max_scn_ header) && (accumulated_checksum_ h =? accumulated_checksum_ header)
  && (log_id_ h =? log_id_ header) && (flag_ h =? flag_ header).

(** Assignments to members. *)
Definition set_magic (v : Z) (h : t) : t := mk v (version_ h) (group_size_ h) (proposal_id_ h) (committed_end_lsn_ h)
  (max_scn_ h) (accumulated_checksum_ h) (log_id_ h) (flag_ h).
Definition set_version (v : Z) (h : t) : t := mk (magic_ h) v (group_size_ h) (proposal_id_ h) (committed_end_lsn_ h)
  (max_scn_ h) (accumulated_checksum_ h) (log_id_ h) (flag_ h).
Definition set_group_size (v : Z) (h : t) : t := mk (magic_ h) (version_ h) v (proposal_id_ h) (committed_end_lsn_ h)
  (max_scn_ h) (accumulated_checksum_ h) (log_id_ h) (flag_ h).
Definition set_proposal_id (v : Z) (h : t) : t := mk (magic_ h) (version_ h) (group_size_ h) v (committed_end_lsn_ h)
  (max_scn_ h) (accumulated_checksum_ h) (log_id_ h) (flag_ h).
Definition set_committed_end_lsn (v : LSN) (h : t) : t := mk (magic_ h) (version_ h) (group_size_ h) (proposal_id_ h) v
  (max_scn_ h) (accumulated_checksum_ h) (log_id_ h) (flag_ h).
Definition set_max_scn (v : SCN) (h : t) : t := mk (magic_ h) (version_ h) (group_size_ h) (proposal_id_ h)
  (committed_end_lsn_ h) v (accumulated_checksum_ h) (log_id_ h) (flag_ h).
Definition set_accumulated_checksum (v : Z) (h : t) : t := mk (magic_ h) (version_ h) (group_size_ h) (proposal_id_ h)
  (committed_end_lsn_ h) (max_scn_ h) v (log_id_ h) (flag_ h).
Definition set_log_id (v : Z) (h : t) : t := mk (magic_ h) (version_ h) (group_size_ h) (proposal_id_ h)
  (committed_end_lsn_ h) (max_scn_ h) (accumulated_checksum_ h) v (flag_ h).
Definition set_flag (v : Z) (h : t) : t := mk (magic_ h) (version_ h) (group_size_ h) (proposal_id_ h)
  (committed_end_lsn_ h) (max_scn_ h) (accumulated_checksum_ h) (log_id_ h) v.

Definition get_header_parity_check_res_ (h : t) : bool :=
  let bool_ret := parity_check16 (u16 (magic_ h)) in
  let bool_ret := xorb bool_ret (parity_check16 (u16 (version_ h))) in
  let bool_ret := xorb bool_ret (parity_check32 (u32 (group_size_ h))) in
  let bool_ret := xorb bool_ret (parity_check64 (u64 (proposal_id_ h))) in
  let bool_ret := xorb bool_ret (parity_check64 (committed_end_lsn_ h)) in
  let bool_ret := xorb bool_ret (parity_check64 (max_scn_ h)) in
  let bool_ret := xorb bool_ret (parity_check64 (u64 (accumulated_checksum_ h))) in
  let bool_ret := xorb bool_ret (parity_check64 (u64 (log_id_ h))) in
  let tmp_flag := Z.land (flag_ h) (Z.lnot 0x1) in
  xorb bool_ret (parity_check64 (u64 tmp_flag)).

(** The header of a group may be used again with other members, so the bit is set or
    cleared. *)
Definition update_header_checksum_ (h : t) : t :=
  if get_header_parity_check_res_ h then set_flag (Z.lor (flag_ h) 0x1) h
  else set_flag (Z.land (flag_ h) (Z.lnot 0x1)) h.
Definition update_header_checksum (h : t) : t := update_header_checksum_ h.

Definition check_header_checksum_ (h : t) : bool :=
  let header_checksum := if get_header_parity_check_res_ h then 1 else 0 in
  let saved_header_checksum := Z.land (flag_ h) 0x1 in
  header_checksum =? saved_header_checksum.

Definition check_header_integrity (h : t) : bool := is_valid h && check_header_checksum_ h.

Definition update_log_proposal_id (log_proposal_id : Z) (h : t) : Z * t :=
  if INVALID_PROPOSAL_ID =? log_proposal_id then (OB_INVALID_ARGUMENT, h)
  else (OB_SUCCESS, update_header_checksum_ (set_proposal_id log_proposal_id h)).

Definition update_committed_end_lsn (lsn : LSN) (h : t) : Z * t :=
  if negb (lsn_is_valid lsn) then (OB_INVALID_ARGUMENT, h)
  else (OB_SUCCESS, update_header_checksum_ (set_committed_end_lsn lsn h)).

(** These two leave the parity bit to the caller. *)
Definition update_write_mode (is_raw_write : bool) (h : t) : t :=
  if is_raw_write then set_flag (Z.lor (flag_ h) RAW_WRITE_MASK) h else h.
Definition update_accumulated_checksum (accumulated_checksum : Z) (h : t) : t :=
  set_accumulated_checksum accumulated_checksum h.

Definition serialize (buf : buffer) (buf_len pos : Z) (h : t) : outcome (Z * buffer * Z) :=
  if bool_decide (buf = None) || (buf_len <=? 0) then Some (OB_INVALID_ARGUMENT, buf, pos)
  else
    '(ret, buf, new_pos) ←
      enc_seq [fun buf buf_len pos => encode_i16 buf buf_len pos (magic_ h);
               fun buf buf_len pos => encode_i16 buf buf_len pos (version_ h);
               fun buf buf_len pos => encode_i32 buf buf_len pos (group_size_ h);
               fun buf buf_len pos => encode_i64 buf buf_len pos (proposal_id_ h);
               fun buf buf_len pos => lsn_serialize buf buf_len pos (committed_end_lsn_ h);
               fun buf buf_len pos => fixed_serialize buf buf_len pos (max_scn_ h);
               fun buf buf_len pos => encode_i64 buf buf_len pos (accumulated_checksum_ h);
               fun buf buf_len pos => encode_i64 buf buf_len pos (log_id_ h);
               fun buf buf_len pos => encode_i64 buf buf_len pos (flag_ h)] buf buf_len pos;
    if ob_fail ret then Some (OB_BUF_NOT_ENOUGH, buf, pos) else Some (OB_SUCCESS, buf, new_pos).

Definition deserialize (buf : buffer) (data_len pos : Z) (h : t) : outcome (Z * Z * t) :=
  if bool_decide (buf = None) || (data_len <=? 0) then Some (OB_INVALID_ARGUMENT, pos, h)
  else
    '(ret, new_pos, h) ←
      dec_seq [field decode_i16 magic_ set_magic; field decode_i16 version_ set_version;
               field decode_i32 group_size_ set_group_size; field decode_i64 proposal_id_ set_proposal_id;
               field lsn_deserialize committed_end_lsn_ set_committed_end_lsn;
               field fixed_deserialize max_scn_ set_max_scn;
               field decode_i64 accumulated_checksum_ set_accumulated_checksum;
               field decode_i64 log_id_ set_log_id; field decode_i64 flag_ set_flag] buf data_len pos h;
    if ob_fail ret then Some (OB_BUF_NOT_ENOUGH, pos, h)
    else if negb (check_header_integrity h) then Some (OB_INVALID_DATA, pos, h)
    else Some (OB_SUCCESS, new_pos, h).

Definition get_serialize_size (h : t) : Z :=
  encoded_length_i16 (magic_ h) + encoded_length_i16 (version_ h) + encoded_length_i32 (group_size_ h) +
  encoded_length_i64 (proposal_id_ h) + lsn_get_serialize_size (committed_end_lsn_ h) +
  get_fixed_serialize_size (max_scn_ h) + encoded_length_i64 (accumulated_checksum_ h) +
  encoded_length_i64 (log_id_ h) + encoded_length_i64 (flag_ h).

(** ** The writer's checksum *)

(** The loop of [calculate_log_checksum_]: the pieces, the one that is read and the
    position in it, the header read into, and the checksum so far. *)
Record loop_state := mk_loop { buf_idx : nat; curr : list Z; pos : Z; log_entry_header : LogEntryHeader.t; tmp : Z }.

(** How a turn ends: the loop is left, or goes on.  An assertion that fails or an
    access outside of a piece is [None]. *)
Inductive turn_result := Break (sum : Z) | Fail (ret : Z) | Next (s : loop_state).

Section ops.
Context `{Crc64}.

(** The end of a turn: the header is read from [from] at [from_pos]; the body follows in
    the piece [cur], at the place [body_pos] gives for the position behind the header. *)
Definition take_entry (s : loop_state) (from : list Z) (from_len from_pos : Z) (cur : list Z) (idx : nat)
    (body_pos : Z -> Z) : outcome turn_result :=
  '(ret, new_pos, header) ← LogEntryHeader.deserialize (Some from) from_len from_pos (log_entry_header s);
  if ob_fail ret then Some (Fail ret)
  else if negb (LogEntryHeader.check_header_integrity header) then Some (Fail OB_ERR_UNEXPECTED)
  else
    let log_entry_data_checksum := LogEntryHeader.get_data_checksum header in
    Some (Next (mk_loop idx cur (body_pos new_pos + LogEntryHeader.get_data_len header) header
                  (crc_int64 (tmp s) log_entry_data_checksum))).

Definition checksum_turn (bufs : list (list Z)) (s : loop_state) : outcome turn_result :=
  let curr_buf_len := Z.of_nat (length (curr s)) in
  let log_header_size := LogEntryHeader.HEADER_SER_SIZE in
  if curr_buf_len - pos s <=? 0 then
    if (length bufs <=? buf_idx s + 1)%nat then Some (Break (tmp s))
    else
      let pos := pos s - curr_buf_len in
      next ← bufs !! (buf_idx s + 1)%nat;
      let next_len := Z.of_nat (length next) in
      if pos =? next_len then Some (Break (tmp s))
      else if negb (pos <? next_len) then None
      else take_entry s next next_len pos next (buf_idx s + 1) (fun new_pos => new_pos)
  else if curr_buf_len - pos s <? log_header_size then
    let curr_copy_size := curr_buf_len - pos s in
    let first := slice (curr s) (pos s) (Z.to_nat curr_copy_size) in
    if negb (buf_idx s + 1 <? length bufs)%nat then None
    else
      next ← bufs !! (buf_idx s + 1)%nat;
      let second_size := log_header_size - curr_copy_size in
      if Z.of_nat (length next) <? second_size then None
      else
        let tmp_buf := first ++ take (Z.to_nat second_size) next in
        take_entry s tmp_buf log_header_size 0 next (buf_idx s + 1) (fun _ => second_size)
  else take_entry s (curr s) curr_buf_len (pos s) (curr s) (buf_idx s) (fun new_pos => new_pos).

(** A turn that does not leave the loop takes a header or goes to the next piece. *)
Fixpoint checksum_loop (turns : nat) (bufs : list (list Z)) (s : loop_state) : outcome (Z * Z) :=
  match turns with
  | O => None
  | S turns =>
      r ← checksum_turn bufs s;
      match r with
      | Break sum => Some (OB_SUCCESS, sum)
      | Fail ret => Some (ret, 0)
      | Next s => checksum_loop turns bufs s
      end
  end.

(** The pieces are those of [log_write_buf]; the result is the code and the data
    checksum. *)
Definition calculate_log_checksum_ (is_padding_log : bool) (bufs : list (list Z)) (data_len data_checksum : Z) :
    outcome (Z * Z) :=
  if (length bufs =? 0)%nat then Some (OB_INVALID_ARGUMENT, data_checksum)
  else if is_padding_log then Some (OB_SUCCESS, PADDING_LOG_DATA_CHECKSUM)
  else
    let total_buf_len := data_len + HEADER_SER_SIZE in
    if negb (total_buf_len =? Z.of_nat (length (concat bufs))) then None
    else
      log_buf ← head bufs;
      '(ret, sum) ← checksum_loop (S (length (concat bufs))) bufs
                      (mk_loop 0 log_buf HEADER_SER_SIZE LogEntryHeader.make 0);
      Some (ret, if ob_succ ret then sum else data_checksum).

Definition generate (is_raw_write is_padding_log : bool) (bufs : list (list Z)) (data_len : Z) (max_scn : SCN)
    (log_id : Z) (committed_end_lsn : LSN) (log_proposal_id data_checksum : Z) (h : t) : outcome (Z * Z * t) :=
  if negb (Scn.is_valid max_scn) || negb (is_valid_log_id log_id) || negb (lsn_is_valid committed_end_lsn)
     || (INVALID_PROPOSAL_ID =? log_proposal_id) then Some (OB_INVALID_ARGUMENT, data_checksum, h)
  else
    let flag := flag_ h in
    let flag := if is_padding_log then Z.lor flag PADDING_TYPE_MASK else flag in
    let flag := if is_raw_write then Z.lor flag RAW_WRITE_MASK else flag in
    let h := mk MAGIC LOG_GROUP_ENTRY_HEADER_VERSION (s32 data_len) log_proposal_id committed_end_lsn max_scn
                (accumulated_checksum_ h) log_id flag in
    '(ret, data_checksum) ← calculate_log_checksum_ is_padding_log bufs data_len data_checksum;
    Some (ret, data_checksum, h).

(** ** The reader's check *)

(** [while (OB_SUCC(ret) && bool_ret && pos < data_len)]: an entry has a header, so as
    many turns as bytes are enough. *)
Fixpoint check_loop (turns : nat) (bytes : list Z) (data_len pos : Z) (log_entry : LogEntry.t) (sum : Z) :
    outcome (option Z) :=
  if pos <? data_len then
    match turns with
    | O => None
    | S turns =>
        '(ret, pos, log_entry) ← LogEntry.deserialize (Some bytes) data_len pos log_entry;
        if ob_fail ret then Some None
        else
          bool_ret ← LogEntry.check_integrity log_entry;
          let sum := crc_int64 sum (LogEntryHeader.get_data_checksum (LogEntry.header_ log_entry)) in
          if bool_ret : bool then check_loop turns bytes data_len pos log_entry sum else Some None
    end
  else Some (Some sum).

(** The answer and the checksum of the group. *)
Definition check_log_checksum_ (buf : buffer) (data_len group_data_checksum : Z) (h : t) : outcome (bool * Z) :=
  match buf with
  | None => Some (false, group_data_checksum)
  | Some bytes =>
      if data_len <? 0 then Some (false, group_data_checksum)
      else if is_padding_log h then Some (true, PADDING_LOG_DATA_CHECKSUM)
      else
        r ← check_loop (Z.to_nat data_len) bytes data_len 0 LogEntry.make 0;
        Some (match r with Some sum => (true, sum) | None => (false, group_data_checksum) end)
  end.

Definition check_integrity (buf : buffer) (buf_len group_log_checksum : Z) (h : t) : outcome (bool * Z) :=
  if negb (MAGIC =? magic_ h) then Some (false, group_log_checksum)
  else if negb (check_header_checksum_ h) then Some (false, group_log_checksum)
  else check_log_checksum_ buf buf_len group_log_checksum h.

(** ** Cutting a group at a time *)

(** [while (OB_SUCC(ret) && pos < data_len)]: the entries up to the first later than
    [cut_scn]; the code, the position behind them, the largest time and the checksum. *)
Fixpoint truncate_loop (turns : nat) (bytes : list Z) (data_len : Z) (cut_scn : SCN) (pos : Z)
    (header : LogEntryHeader.t) (cut_pos : Z) (tmp_max_scn : SCN) (sum : Z) : outcome (Z * Z * SCN * Z) :=
  if pos <? data_len then
    match turns with
    | O => None
    | S turns =>
        '(ret, pos, header) ← LogEntryHeader.deserialize (Some bytes) data_len pos header;
        if ob_fail ret then Some (ret, cut_pos, tmp_max_scn, sum)
        else if scn_gt (LogEntryHeader.get_scn header) cut_scn then Some (OB_SUCCESS, cut_pos, tmp_max_scn, sum)
        else
          let sum := crc_int64 sum (LogEntryHeader.get_data_checksum header) in
          let pos := pos + LogEntryHeader.get_data_len header in
          let cut_pos := pos in
          let tmp_max_scn :=
            if negb (Scn.is_valid tmp_max_scn) || scn_gt (LogEntryHeader.get_scn header) tmp_max_scn
            then LogEntryHeader.get_scn header else tmp_max_scn in
          truncate_loop turns bytes data_len cut_scn pos header cut_pos tmp_max_scn sum
    end
  else Some (OB_SUCCESS, cut_pos, tmp_max_scn, sum).

Definition truncate (buf : buffer) (data_len : Z) (cut_scn : SCN) (pre_accum_checksum : Z) (h : t) : outcome (Z * t) :=
  match buf with
  | None => Some (OB_INVALID_ARGUMENT, h)
  | Some bytes =>
      if (data_len <=? 0) || negb (Scn.is_valid cut_scn) then Some (OB_INVALID_ARGUMENT, h)
      else if is_padding_log h then
        Some (OB_SUCCESS,
              if scn_gt (max_scn_ h) cut_scn then update_header_checksum (set_group_size 0 h) else h)
      else
        '(ret, cut_pos, tmp_max_scn, sum) ←
          truncate_loop (Z.to_nat data_len) bytes data_len cut_scn 0 LogEntryHeader.make 0 invalid_scn 0;
        Some (ret,
          if ob_succ ret then
            let h := set_group_size (s32 cut_pos) h in
            let h := set_max_scn tmp_max_scn h in
            let h := update_accumulated_checksum (crc_int64 pre_accum_checksum sum) h in
            update_header_checksum h
          else h)
  end.
End ops.
End LogGroupEntryHeader.

(** ** The checksum of a list of entries *)

Section group.
Context `{Crc64}.
Import LogGroupEntryHeader.

Abbreviation entry := (LogEntryHeader.t * list Z)%type.
Implicit Types es : list entry.

Definition entries_ok (es : list entry) : Prop := Forall (fun e => entry_ok e.1 e.2) es.
Definition group_bytes (es : list entry) : list Z := concat ((fun e => entry_bytes e.1 e.2) <$> es).
Definition group_sum (sum : Z) (es : list entry) : Z :=
  foldl (fun sum e => crc_int64 sum (LogEntryHeader.get_data_checksum e.1)) sum es.

Lemma group_bytes_cons h data es : group_bytes ((h, data) :: es) = header_bytes h ++ data ++ group_bytes es.
Proof. unfold group_bytes. cbn [fmap list_fmap concat fst snd]. unfold entry_bytes. by rewrite <- app_assoc. Qed.

Lemma length_group_bytes_cons h data es :
  length (group_bytes ((h, data) :: es)) = (32 + length data + length (group_bytes es))%nat.
Proof. rewrite group_bytes_cons, !length_app, length_header_bytes. lia. Qed.

(** More bytes than entries. *)
Lemma length_group_bytes es : (length es <= length (group_bytes es))%nat.
Proof. induction es as [|[h data] es IH]; [done|]. rewrite length_group_bytes_cons. cbn [length]. lia. Qed.

Lemma header_deserialize_ok h data from from_len from_pos old :
  entry_ok h data -> 0 <= from_pos -> from_len <= Z.of_nat (length from) -> from_pos + 32 <= from_len ->
  slice from from_pos 32 = header_bytes h ->
  LogEntryHeader.deserialize (Some from) from_len from_pos old = Some (OB_SUCCESS, from_pos + 32, h).
Proof.
  intros E Hp Hl Hs Hb. pose proof (header_deserialize_spec from from_len from_pos old Hp ltac:(lia)) as D.
  destruct (Z.leb_spec 32 (from_len - from_pos)); [|lia]. cbv zeta in D.
  by rewrite Hb, header_of_header_bytes, (eo_integrity _ _ E) in D by (apply E || by eapply entry_ok_valid).
Qed.

Lemma take_entry_ok h data s from from_len from_pos cur idx body_pos :
  entry_ok h data -> 0 <= from_pos -> from_len <= Z.of_nat (length from) -> from_pos + 32 <= from_len ->
  slice from from_pos 32 = header_bytes h ->
  take_entry s from from_len from_pos cur idx body_pos =
  Some (Next (mk_loop idx cur (body_pos (from_pos + 32) + Z.of_nat (length data)) h
                (crc_int64 (tmp s) (LogEntryHeader.get_data_checksum h)))).
Proof.
  intros E Hp Hl Hs Hb. unfold take_entry. rewrite (header_deserialize_ok h data) by done.
  cbn [mbind option_bind]. change (ob_fail OB_SUCCESS) with false. cbv iota.
  by rewrite (eo_integrity _ _ E), (eo_len _ _ E).
Qed.

(** In the last piece the entries follow each other. *)
Lemma checksum_loop_last bufs es turns s :
  entries_ok es -> (length bufs <= buf_idx s + 1)%nat -> 0 <= pos s <= Z.of_nat (length (curr s)) ->
  drop (Z.to_nat (pos s)) (curr s) = group_bytes es -> (length es < turns)%nat ->
  checksum_loop turns bufs s = Some (OB_SUCCESS, group_sum (tmp s) es).
Proof.
  intros He. revert turns s. induction He as [|[h data] es E He IH]; intros turns s Hi Hp Hd Ht;
    (destruct turns as [|turns]; [lia|]); cbn [checksum_loop]; unfold checksum_turn.
  - apply (f_equal length) in Hd. rewrite length_drop in Hd. cbn in Hd.
    destruct (Z.leb_spec (Z.of_nat (length (curr s)) - pos s) 0); [|lia].
    by apply Nat.leb_le in Hi as ->.
  - cbn [fst snd] in E. rewrite group_bytes_cons in Hd. pose proof (f_equal length Hd) as Hl.
    rewrite length_drop, !length_app, length_header_bytes in Hl. change LogEntryHeader.HEADER_SER_SIZE with 32.
    destruct (entry_ok_valid _ _ E) as [_ Hne]. assert (0 < length data)%nat by (destruct data; simpl; [done | lia]).
    destruct (Z.leb_spec (Z.of_nat (length (curr s)) - pos s) 0); [lia|].
    destruct (Z.ltb_spec (Z.of_nat (length (curr s)) - pos s) 32); [lia|].
    rewrite (take_entry_ok h data); try done; try lia.
    2: { unfold slice. rewrite Hd. apply take_app_length'. by rewrite length_header_bytes. }
    cbn [mbind option_bind]. rewrite IH; cbn [buf_idx curr pos tmp]; try done; try lia; [|cbn [length] in Ht; lia].
    replace (Z.to_nat (pos s + 32 + Z.of_nat (length data))) with (Z.to_nat (pos s) + (32 + length data))%nat by lia.
    rewrite <- drop_drop, Hd, app_assoc. apply drop_app_length'. rewrite length_app, length_header_bytes. lia.
Qed.

(** A header that lies across the end of the piece is put together from both. *)
Lemma slice_across (p1 p2 : list Z) (p : Z) :
  0 <= p <= Z.of_nat (length p1) -> Z.of_nat (length p1) - p < 32 ->
  slice (p1 ++ p2) p 32 =
  slice p1 p (Z.to_nat (Z.of_nat (length p1) - p)) ++ take (Z.to_nat (32 - (Z.of_nat (length p1) - p))) p2.
Proof.
  intros Hp Hs. unfold slice. rewrite drop_app_le by lia. rewrite take_app, length_drop. f_equal.
  - rewrite !take_ge; rewrite ?length_drop; lia || done.
  - f_equal. lia.
Qed.

(** The entries in two pieces: each entry lies in the first, in the second, or across
    the end of the first. *)
Lemma checksum_loop_two p1 p2 es turns s :
  entries_ok es -> buf_idx s = 0%nat -> curr s = p1 -> 0 <= pos s ->
  drop (Z.to_nat (pos s)) (p1 ++ p2) = group_bytes es ->
  pos s + Z.of_nat (length (group_bytes es)) = Z.of_nat (length (p1 ++ p2)) -> (length es < turns)%nat ->
  checksum_loop turns [p1; p2] s = Some (OB_SUCCESS, group_sum (tmp s) es).
Proof.
  intros He. revert turns s. induction He as [|[h data] es E He IH]; intros turns s Hi Hc Hp Hd Hl Ht;
    (destruct turns as [|turns]; [lia|]); cbn [checksum_loop]; unfold checksum_turn; rewrite Hi, Hc;
    cbn [length Nat.add Nat.leb lookup list_lookup mbind option_bind Nat.ltb negb]; rewrite length_app in Hl.
  - cbn in Hl. destruct (Z.leb_spec (Z.of_nat (length p1) - pos s) 0).
    + destruct (Z.eqb_spec (pos s - Z.of_nat (length p1)) (Z.of_nat (length p2))); [done | lia].
    + exfalso. apply (f_equal length) in Hd. rewrite length_drop, length_app in Hd. cbn in Hd. lia.
  - cbn [fst snd] in E. rewrite length_group_bytes_cons in Hl. rewrite group_bytes_cons in Hd.
    change LogEntryHeader.HEADER_SER_SIZE with 32. cbn [length] in Ht.
    destruct (entry_ok_valid _ _ E) as [_ Hne]. assert (0 < length data)%nat by (destruct data; simpl; [done | lia]).
    assert (drop (Z.to_nat (pos s) + (32 + length data)) (p1 ++ p2) = group_bytes es) as Hrest.
    { rewrite <- drop_drop, Hd, app_assoc. apply drop_app_length'. rewrite length_app, length_header_bytes. lia. }
    destruct (Z.leb_spec (Z.of_nat (length p1) - pos s) 0).
    + destruct (Z.eqb_spec (pos s - Z.of_nat (length p1)) (Z.of_nat (length p2))); [lia|].
      destruct (Z.ltb_spec (pos s - Z.of_nat (length p1)) (Z.of_nat (length p2))); [|lia]. cbn [negb].
      rewrite drop_app_ge in Hd, Hrest by lia.
      rewrite (take_entry_ok h data); try done; try lia.
      2: { unfold slice. replace (Z.to_nat (pos s - _)) with (Z.to_nat (pos s) - length p1)%nat by lia.
           rewrite Hd. apply take_app_length'. by rewrite length_header_bytes. }
      cbn [mbind option_bind]. rewrite (checksum_loop_last _ es); cbn [buf_idx curr pos tmp length]; try done; try lia.
      rewrite <- Hrest. f_equal. lia.
    + assert (slice (p1 ++ p2) (pos s) 32 = header_bytes h) as Hh.
      { unfold slice. rewrite Hd. apply take_app_length'. by rewrite length_header_bytes. }
      destruct (Z.ltb_spec (Z.of_nat (length p1) - pos s) 32).
      * destruct (Z.ltb_spec (Z.of_nat (length p2)) (32 - (Z.of_nat (length p1) - pos s))); [lia|].
        rewrite slice_across in Hh by lia. rewrite Hh.
        rewrite (take_entry_ok h data); rewrite ?length_header_bytes; try done; try lia.
        cbn [mbind option_bind]. rewrite (checksum_loop_last _ es); cbn [buf_idx curr pos tmp length]; try done; try lia.
        rewrite drop_app_ge in Hrest by lia. rewrite <- Hrest. f_equal. lia.
      * rewrite (take_entry_ok h data); try done; try lia.
        2: { rewrite <- Hh. unfold slice. rewrite drop_app_le, take_app_le by (rewrite ?length_drop; lia). done. }
        cbn [mbind option_bind]. rewrite IH; cbn [buf_idx curr pos tmp]; try done; try (rewrite ?length_app; lia).
        rewrite <- Hrest. f_equal. lia.
Qed.

(** The writer's checksum of a group whose bytes, header first, lie in one piece or in
    two. *)
Lemma calculate_log_checksum_ok ghdr es bufs sum0 :
  entries_ok es -> Z.of_nat (length ghdr) = HEADER_SER_SIZE -> (0 < length bufs <= 2)%nat ->
  concat bufs = ghdr ++ group_bytes es ->
  calculate_log_checksum_ false bufs (Z.of_nat (length (group_bytes es))) sum0 = Some (OB_SUCCESS, group_sum 0 es).
Proof.
  intros He Hg Hn Hc. unfold calculate_log_checksum_. pose proof (length_group_bytes es) as Hle.
  destruct (Nat.eqb_spec (length bufs) 0); [lia|]. rewrite Hc, length_app.
  destruct (Z.eqb_spec (Z.of_nat (length (group_bytes es)) + HEADER_SER_SIZE)
              (Z.of_nat (length ghdr + length (group_bytes es)))); [|lia]. cbn [negb].
  assert (drop (Z.to_nat HEADER_SER_SIZE) (concat bufs) = group_bytes es) as Hd.
  { rewrite Hc. apply drop_app_length'. lia. }
  apply (f_equal length) in Hc. rewrite length_app in Hc.
  destruct bufs as [|p1 [|p2 [|]]]; cbn [length] in Hn; try lia; cbn [head mbind option_bind concat] in *.
  - rewrite app_nil_r in *. rewrite (checksum_loop_last _ es); cbn [buf_idx curr pos tmp length]; try done; try lia.
  - rewrite app_nil_r in *. rewrite (checksum_loop_two p1 p2 es); cbn [buf_idx curr pos tmp length]; try done; try lia.
Qed.

(** The reader's checksum. *)
Lemma check_loop_ok es turns bytes data_len p e0 sum :
  entries_ok es -> 0 <= p -> data_len <= Z.of_nat (length bytes) ->
  slice bytes p (Z.to_nat (data_len - p)) = group_bytes es -> p + Z.of_nat (length (group_bytes es)) = data_len ->
  (length es <= turns)%nat ->
  check_loop turns bytes data_len p e0 sum = Some (Some (group_sum sum es)).
Proof.
  intros He. revert turns p e0 sum. induction He as [|[h data] es E He IH]; intros turns p e0 sum Hp Hl Hs Hd Ht.
  { cbn in Hd. destruct turns; cbn [check_loop]; destruct (Z.ltb_spec p data_len); lia || done. }
  cbn [fst snd] in E. rewrite length_group_bytes_cons in Hd. rewrite group_bytes_cons in Hs. cbn [length] in Ht.
  destruct turns as [|turns]; [lia|]. cbn [check_loop].
  destruct (Z.ltb_spec p data_len); [|lia].
  replace (Z.to_nat (data_len - p)) with (32 + length data + length (group_bytes es))%nat in Hs by lia.
  assert (slice bytes p (32 + length data) = entry_bytes h data) as Hb.
  { rewrite <- (slice_take _ _ _ (32 + length data + length (group_bytes es))), Hs, app_assoc by lia.
    apply take_app_length'. pose proof (length_entry_bytes h data). lia. }
  destruct (entry_deserialize_ok h data bytes data_len p e0) as (_ & D & C & _); try done; try lia.
  rewrite D. cbn [mbind option_bind]. change (ob_fail OB_SUCCESS) with false. cbv iota. rewrite C.
  cbn [mbind option_bind]. rewrite IH; try done; try lia.
  replace (Z.to_nat (data_len - _)) with (length (group_bytes es)) by lia.
  replace (p + 32 + Z.of_nat (length data)) with (p + Z.of_nat (32 + length data)) by lia.
  rewrite <- slice_drop, Hs, app_assoc by lia. apply drop_app_length'. rewrite length_app, length_header_bytes. lia.
Qed.
End group.

(** ** The header of a group in bytes *)

Section group_header.
Import LogGroupEntryHeader.

Definition group_wf (h : t) : Prop :=
  is_s 16 (magic_ h) /\ is_s 16 (version_ h) /\ is_s 32 (group_size_ h) /\ is_s 64 (proposal_id_ h) /\
  is_u 64 (committed_end_lsn_ h) /\ is_u 64 (max_scn_ h) /\ is_s 64 (accumulated_checksum_ h) /\
  is_s 64 (log_id_ h) /\ is_s 64 (flag_ h).

Definition group_pre (h : t) : list Z :=
  be_bytes 2 (magic_ h) ++ be_bytes 2 (version_ h) ++ be_bytes 4 (group_size_ h) ++
  be_bytes 8 (proposal_id_ h) ++ be_bytes 8 (s64 (committed_end_lsn_ h)).
Definition group_post (h : t) : list Z :=
  be_bytes 8 (accumulated_checksum_ h) ++ be_bytes 8 (log_id_ h) ++ be_bytes 8 (flag_ h).
Definition group_header_bytes (h : t) : list Z := group_pre h ++ be_bytes 8 (s64 (max_scn_ h)) ++ group_post h.

Lemma length_group_header_bytes h : length (group_header_bytes h) = 56%nat.
Proof. unfold group_header_bytes, group_pre, group_post. by rewrite !length_app, !length_be_bytes. Qed.

Lemma group_pre_byte h : Forall is_byte (group_pre h).
Proof. unfold group_pre. rewrite !Forall_app. auto 20 using be_bytes_byte. Qed.
Lemma group_post_byte h : Forall is_byte (group_post h).
Proof. unfold group_post. rewrite !Forall_app. auto 20 using be_bytes_byte. Qed.
Lemma group_header_bytes_byte h : Forall is_byte (group_header_bytes h).
Proof. unfold group_header_bytes. rewrite !Forall_app. auto using group_pre_byte, group_post_byte, be_bytes_byte. Qed.

Lemma group_serialize_spec h bytes buf_len pos :
  0 <= pos -> 0 < buf_len <= Z.of_nat (length bytes) ->
  if 56 <=? buf_len - pos then
    serialize (Some bytes) buf_len pos h = Some (OB_SUCCESS, Some (written bytes pos (group_header_bytes h)), pos + 56)
  else exists bytes', serialize (Some bytes) buf_len pos h = Some (OB_BUF_NOT_ENOUGH, Some bytes', pos).
Proof.
  intros Hp [Hb Hl]. unfold serialize. rewrite bool_decide_eq_false_2 by done. cbn [orb].
  destruct (Z.leb_spec buf_len 0); [lia|].
  match goal with |- context [enc_seq ?es _ _ _] =>
    pose proof (enc_seq_ok es [be_bytes 2 (magic_ h); be_bytes 2 (version_ h); be_bytes 4 (group_size_ h);
      be_bytes 8 (proposal_id_ h); be_bytes 8 (s64 (committed_end_lsn_ h)); be_bytes 8 (s64 (max_scn_ h));
      be_bytes 8 (accumulated_checksum_ h); be_bytes 8 (log_id_ h); be_bytes 8 (flag_ h)] bytes buf_len pos
      ltac:(fields_written) Hp Hl) as E end.
  replace (concat _) with (group_header_bytes h) in E
    by (unfold group_header_bytes, group_pre, group_post; cbn [concat]; by rewrite <- !app_assoc, app_nil_r).
  rewrite length_group_header_bytes in E. change (Z.of_nat 56) with 56 in E.
  destruct (Z.leb_spec 56 (buf_len - pos)).
  - by rewrite E.
  - destruct E as (ret & bytes' & pos' & Hf & ->); [lia|]. cbn [mbind option_bind]. rewrite Hf. by exists bytes'.
Qed.

Definition group_fields : list (nat * (list Z -> t -> t)) :=
  [(2%nat, fun bs => set_magic (s16 (be_value bs))); (2%nat, fun bs => set_version (s16 (be_value bs)));
   (4%nat, fun bs => set_group_size (s32 (be_value bs))); (8%nat, fun bs => set_proposal_id (s64 (be_value bs)));
   (8%nat, fun bs => set_committed_end_lsn (u64 (be_value bs)));
   (8%nat, fun bs => set_max_scn (transform_max_ (u64 (be_value bs))));
   (8%nat, fun bs => set_accumulated_checksum (s64 (be_value bs))); (8%nat, fun bs => set_log_id (s64 (be_value bs)));
   (8%nat, fun bs => set_flag (s64 (be_value bs)))].

Definition group_of_bytes (bs : list Z) : t := parse group_fields bs reset.

Definition group_decoders : list (decoder t) :=
  [field decode_i16 magic_ set_magic; field decode_i16 version_ set_version;
   field decode_i32 group_size_ set_group_size; field decode_i64 proposal_id_ set_proposal_id;
   field lsn_deserialize committed_end_lsn_ set_committed_end_lsn; field fixed_deserialize max_scn_ set_max_scn;
   field decode_i64 accumulated_checksum_ set_accumulated_checksum; field decode_i64 log_id_ set_log_id;
   field decode_i64 flag_ set_flag].

Lemma group_fields_read : Forall2 (fun d nf => reads d nf.1 nf.2) group_decoders group_fields.
Proof. unfold group_decoders, group_fields. fields_read. Qed.

Lemma group_width : width group_fields = 56%nat.
Proof. done. Qed.

Lemma group_deserialize_spec bytes data_len pos old :
  0 <= pos -> 0 < data_len <= Z.of_nat (length bytes) ->
  if 56 <=? data_len - pos then
    let h := parse group_fields (slice bytes pos 56) old in
    deserialize (Some bytes) data_len pos old =
    if check_header_integrity h then Some (OB_SUCCESS, pos + 56, h) else Some (OB_INVALID_DATA, pos, h)
  else exists h, deserialize (Some bytes) data_len pos old = Some (OB_BUF_NOT_ENOUGH, pos, h).
Proof.
  intros Hp [Hb Hl]. unfold deserialize. rewrite bool_decide_eq_false_2 by done. cbn [orb].
  destruct (Z.leb_spec data_len 0); [lia|].
  fold group_decoders. pose proof (dec_seq_ok _ _ bytes data_len pos old group_fields_read Hp Hl) as E.
  rewrite group_width in E. change (Z.of_nat 56) with 56 in E.
  destruct (Z.leb_spec 56 (data_len - pos)).
  - revert E. generalize (parse group_fields (slice bytes pos 56) old) as h. intros h E. rewrite E.
    cbn [mbind option_bind]. change (ob_fail OB_SUCCESS) with false. by destruct (check_header_integrity h).
  - destruct E as (ret & pos' & h & Hf & ->); [lia|]. cbn [mbind option_bind]. rewrite Hf. by exists h.
Qed.

Lemma group_of_parts pre raw post old :
  length pre = 24%nat -> length raw = 8%nat -> length post = 24%nat ->
  parse group_fields (pre ++ raw ++ post) old =
  mk (s16 (be_value (take 2 pre))) (s16 (be_value (take 2 (drop 2 pre)))) (s32 (be_value (take 4 (drop 4 pre))))
     (s64 (be_value (take 8 (drop 8 pre)))) (u64 (be_value (drop 16 pre)))
     (transform_max_ (u64 (be_value raw))) (s64 (be_value (take 8 post))) (s64 (be_value (take 8 (drop 8 post))))
     (s64 (be_value (drop 16 post))).
Proof.
  intros Hp Hr Hq. rewrite <- (take_drop 2 pre) at 1. rewrite <- (take_drop 2 (drop 2 pre)) at 1.
  rewrite <- (take_drop 4 (drop 2 (drop 2 pre))) at 1. rewrite <- (take_drop 8 (drop 4 (drop 2 (drop 2 pre)))) at 1.
  rewrite <- (take_drop 8 post) at 1. rewrite <- (take_drop 8 (drop 8 post)) at 1.
  rewrite !drop_drop, <- !app_assoc. unfold group_fields.
  rewrite !parse_app, parse_last by (rewrite ?length_take, ?length_drop, ?Hp, ?Hr, ?Hq; done). done.
Qed.

Lemma group_bytes_of_parts pre raw post :
  parts 24 24 pre raw post -> u64 (be_value raw) <> INT64_MAX ->
  group_header_bytes (group_of_bytes (pre ++ raw ++ post)) = pre ++ raw ++ post.
Proof.
  intros (Hp & Hr & Hq & Fp & Fr & Fq) Hne. unfold group_of_bytes. rewrite group_of_parts by done.
  unfold group_header_bytes, group_pre, group_post. cbn [magic_ version_ group_size_ proposal_id_ committed_end_lsn_
    max_scn_ accumulated_checksum_ log_id_ flag_].
  rewrite transform_max_id, !be_bytes_s16, be_bytes_s32, !be_bytes_s64, !be_bytes_u64;
    try (by (rewrite ?length_take, ?length_drop, ?Hp, ?Hr, ?Hq)); auto using Forall_take, Forall_drop.
  rewrite (take_then_drop 8 8 16 post), (take_drop 8 post) by done. f_equal.
  rewrite (take_then_drop 8 8 16 pre), (take_then_drop 4 4 8 pre), (take_then_drop 2 2 4 pre) by done. apply take_drop.
Qed.

Lemma group_of_group_bytes h old : group_wf h -> Scn.is_valid (max_scn_ h) = true ->
  parse group_fields (group_header_bytes h) old = h.
Proof.
  intros (H1 & H2 & H3 & H4 & H5 & H6 & H7 & H8 & H9) Hv. destruct h as [m v g p c s a l f].
  cbn [magic_ version_ group_size_ proposal_id_ committed_end_lsn_ max_scn_ accumulated_checksum_ log_id_ flag_] in *.
  unfold group_header_bytes, group_pre, group_post.
  cbn [magic_ version_ group_size_ proposal_id_ committed_end_lsn_ max_scn_ accumulated_checksum_ log_id_ flag_].
  rewrite <- !app_assoc. unfold group_fields. rewrite !parse_app, parse_last by apply length_be_bytes.
  rewrite !s16_be_bytes, s32_be_bytes, !s64_be_bytes, !u64_be_bytes, transform_max_id by (done || by intros ->). done.
Qed.

(** The check accepts exactly the headers whose bytes have an even number of ones. *)
Lemma group_check_parity h : is_u 64 (committed_end_lsn_ h) -> is_u 64 (max_scn_ h) ->
  check_header_checksum_ h = negb (bytes_parity (group_header_bytes h)).
Proof.
  intros Hc Hs. unfold check_header_checksum_. rewrite parity_bit_check. f_equal.
  unfold group_header_bytes, group_pre, group_post. rewrite !bytes_parity_app, (check_flag (flag_ h)).
  unfold get_header_parity_check_res_. rewrite !check_field16, check_field32, !check_field64.
  rewrite (check_scn (committed_end_lsn_ h)), (check_scn (max_scn_ h)) by done. by rewrite !xorb_assoc.
Qed.

Lemma group_parse_old bs old : length bs = 56%nat -> parse group_fields bs old = group_of_bytes bs.
Proof.
  intros Hl. unfold group_of_bytes. rewrite <- (take_drop 24 bs), <- (take_drop 8 (drop 24 bs)).
  by rewrite !group_of_parts by (rewrite ?length_take, ?length_drop, ?Hl; done).
Qed.

Lemma group_of_bytes_range bs : length bs = 56%nat ->
  is_u 64 (committed_end_lsn_ (group_of_bytes bs)) /\ is_u 64 (max_scn_ (group_of_bytes bs)).
Proof.
  intros Hl. unfold group_of_bytes. rewrite <- (take_drop 24 bs), <- (take_drop 8 (drop 24 bs)).
  rewrite !group_of_parts by (rewrite ?length_take, ?length_drop, ?Hl; done). cbn [committed_end_lsn_ max_scn_].
  split; [by apply to_u_range|]. apply transform_max_range. by apply to_u_range.
Qed.

(** A group header with one bit of its bytes inverted is rejected, or read as it was. *)
Lemma group_flip h i j :
  group_wf h -> check_header_integrity h = true -> (i < 56)%nat -> (j < 8)%nat ->
  let h' := group_of_bytes (flip_bit i j (group_header_bytes h)) in
  check_header_integrity h' = false \/ h' = h.
Proof.
  intros Hwf Hc Hi Hj h'. pose proof Hwf as (_ & _ & _ & _ & Hlsn & Hu & _).
  unfold check_header_integrity, is_valid in Hc. rewrite !andb_true_iff in Hc. destruct Hc as [[[_ Hv] _] Hc].
  destruct (layout_flip 24 24 group_pre group_post max_scn_ group_of_bytes
    (fun h => negb (bytes_parity (group_header_bytes h)))) with (h := h) (i := i) (j := j) as [E | E]; try done.
  - intros p r q (? & ? & ? & _). unfold group_of_bytes. by rewrite group_of_parts.
  - intros p r q ??. by apply group_bytes_of_parts.
  - intros p r r' q (? & ? & ? & _) (_ & ? & _) E. unfold group_of_bytes. rewrite !group_of_parts by done. by rewrite E.
  - apply group_pre_byte.
  - apply group_post_byte.
  - by rewrite <- group_check_parity.
  - change (layout _ _ _ h) with (group_header_bytes h). unfold group_of_bytes. by rewrite group_of_group_bytes.
  - left. unfold check_header_integrity. apply andb_false_iff. right.
    destruct (group_of_bytes_range (flip_bit i j (group_header_bytes h))) as [??].
    { by rewrite length_flip_bit, length_group_header_bytes. }
    by rewrite group_check_parity.
  - by right.
Qed.

(** Whatever the parity bit was, after the update the check succeeds. *)
Lemma group_update_check h : check_header_checksum_ (update_header_checksum_ h) = true.
Proof.
  assert (forall f, Z.land f (Z.lnot 1) = Z.land (flag_ h) (Z.lnot 1) ->
    get_header_parity_check_res_ (set_flag f h) = get_header_parity_check_res_ h) as R.
  { intros f Hf. unfold get_header_parity_check_res_, set_flag. cbn [magic_ version_ group_size_ proposal_id_
      committed_end_lsn_ max_scn_ accumulated_checksum_ log_id_ flag_]. by rewrite Hf. }
  unfold update_header_checksum_, check_header_checksum_. rewrite !parity_bit_check.
  destruct (get_header_parity_check_res_ h) eqn:E.
  - rewrite R by by rewrite Z.land_lor_distr_l, Z.lor_0_r. cbn [set_flag flag_]. by rewrite Z.lor_spec, orb_true_r.
  - rewrite R by by rewrite <- Z.land_assoc, Z.land_diag. cbn [set_flag flag_]. by rewrite Z.land_spec, andb_false_r.
Qed.
End group_header.

(** ** Cutting *)

Section cut.
Context `{Crc64}.
Import LogGroupEntryHeader.

Abbreviation scn_of := (fun e : LogEntryHeader.t * list Z => LogEntryHeader.get_scn e.1).

Definition later (m : SCN) (e : LogEntryHeader.t * list Z) : SCN :=
  if negb (Scn.is_valid m) || scn_gt (scn_of e) m then scn_of e else m.

(** The largest time of some entries, not valid if there are none. *)
Definition group_max (es : list (LogEntryHeader.t * list Z)) : SCN := foldl later invalid_scn es.

Lemma truncate_loop_ok es1 es2 turns bytes data_len cut_scn p h0 m sum :
  entries_ok es1 -> entries_ok es2 -> 0 <= p -> data_len <= Z.of_nat (length bytes) ->
  slice bytes p (Z.to_nat (data_len - p)) = group_bytes (es1 ++ es2) ->
  p + Z.of_nat (length (group_bytes (es1 ++ es2))) = data_len ->
  Forall (fun e => scn_gt (scn_of e) cut_scn = false) es1 ->
  from_option (fun e => scn_gt (scn_of e) cut_scn = true) True (head es2) ->
  (length (es1 ++ es2) <= turns)%nat ->
  truncate_loop turns bytes data_len cut_scn p h0 p m sum =
  Some (OB_SUCCESS, p + Z.of_nat (length (group_bytes es1)), foldl later m es1, group_sum sum es1).
Proof.
  intros He1 He2. revert turns p h0 m sum. induction He1 as [|[h data] es1 E He1 IH];
    intros turns p h0 m sum Hp Hl Hs Hd Hle Hgt Ht.
  - cbn [app foldl] in *. change (group_bytes []) with (@nil Z). cbn [length]. rewrite Z.add_0_r.
    destruct es2 as [|[h data] es2].
    { cbn in Hd. destruct turns; cbn [truncate_loop]; destruct (Z.ltb_spec p data_len); lia || done. }
    cbn [head from_option fst] in Hgt. apply Forall_cons in He2 as [E He2]. cbn [fst snd] in E.
    rewrite length_group_bytes_cons in Hd. rewrite group_bytes_cons in Hs. cbn [length] in Ht.
    destruct turns as [|turns]; [lia|]. cbn [truncate_loop]. destruct (Z.ltb_spec p data_len); [|lia].
    rewrite (header_deserialize_ok h data); try done; try lia.
    2: { replace (Z.to_nat (data_len - p)) with (32 + length data + length (group_bytes es2))%nat in Hs by lia.
         rewrite <- (slice_take _ _ _ (32 + length data + length (group_bytes es2))), Hs by lia.
         apply take_app_length'. by rewrite length_header_bytes. }
    cbn [mbind option_bind]. change (ob_fail OB_SUCCESS) with false. cbv iota. by rewrite Hgt.
  - cbn [fst snd] in E. cbn [app] in *. rewrite length_group_bytes_cons in Hd. rewrite group_bytes_cons in Hs.
    cbn [length] in Ht. apply Forall_cons in Hle as [Hle1 Hle]. cbn [fst] in Hle1.
    destruct turns as [|turns]; [lia|]. cbn [truncate_loop]. destruct (Z.ltb_spec p data_len); [|lia].
    replace (Z.to_nat (data_len - p)) with (32 + length data + length (group_bytes (es1 ++ es2)))%nat in Hs by lia.
    rewrite (header_deserialize_ok h data); try done; try lia.
    2: { rewrite <- (slice_take _ _ _ (32 + length data + length (group_bytes (es1 ++ es2)))), Hs by lia.
         apply take_app_length'. by rewrite length_header_bytes. }
    cbn [mbind option_bind]. change (ob_fail OB_SUCCESS) with false. cbv iota. rewrite Hle1, (eo_len _ _ E).
    rewrite IH; try done; try lia.
    + rewrite length_group_bytes_cons. do 4 f_equal. lia.
    + replace (Z.to_nat (data_len - _)) with (length (group_bytes (es1 ++ es2))) by lia.
      replace (p + 32 + Z.of_nat (length data)) with (p + Z.of_nat (32 + length data)) by lia.
      rewrite <- slice_drop, Hs, app_assoc by lia. apply drop_app_length'. rewrite length_app, length_header_bytes. lia.
Qed.

(** The largest time is that of an entry, and none is later. *)
Lemma foldl_later m es :
  entries_ok es ->
  (foldl later m es = m \/ foldl later m es ∈ (scn_of <$> es)) /\ rank m <= rank (foldl later m es) /\
  Forall (fun e => rank (scn_of e) <= rank (foldl later m es)) es.
Proof.
  intros He. revert m. induction He as [|[h data] es E He IH]; intros m; cbn [foldl]; [by split; [left|]|].
  destruct (IH (later m (h, data))) as (Hin & Hr & Hall). cbn [fst snd] in *.
  assert (rank m <= rank (later m (h, data)) /\ rank (LogEntryHeader.get_scn h) <= rank (later m (h, data)) /\
    (later m (h, data) = m \/ later m (h, data) = LogEntryHeader.get_scn h)) as (Hm & Hh & Hcase).
  { unfold later. cbn [fst]. rewrite scn_gt_rank. destruct (Scn.is_valid m) eqn:Ev; cbn [negb orb].
    - destruct (Z.ltb_spec (rank m) (rank (LogEntryHeader.get_scn h))); split_and!; try lia; auto.
    - apply rank_invalid in Ev. pose proof (rank_lower (LogEntryHeader.get_scn h)). split_and!; lia. }
  split_and!.
  - rewrite fmap_cons. destruct Hin as [-> | Hin]; [|right; by right]. destruct Hcase as [-> | ->]; [by left | right; left].
  - lia.
  - constructor; [cbn [fst]; lia | done].
Qed.
End cut.

(** Setting the parity bit touches nothing else. *)
Lemma group_update_frame h : exists f,
  LogGroupEntryHeader.update_header_checksum_ h = LogGroupEntryHeader.set_flag f h /\
  LogGroupEntryHeader.is_padding_log (LogGroupEntryHeader.set_flag f h) = LogGroupEntryHeader.is_padding_log h.
Proof.
  unfold LogGroupEntryHeader.update_header_checksum_, LogGroupEntryHeader.is_padding_log.
  case_match; eexists; (split; [done|]); cbn [LogGroupEntryHeader.set_flag LogGroupEntryHeader.flag_].
  - by rewrite Z.land_lor_distr_l, Z.lor_0_r.
  - by rewrite <- Z.land_assoc.
Qed.

(** The reader accepts a group whose header is intact. *)
Lemma group_check_integrity_ok `{Crc64} es sum0 h :
  entries_ok es -> LogGroupEntryHeader.magic_ h = LogGroupEntryHeader.MAGIC ->
  LogGroupEntryHeader.check_header_checksum_ h = true -> LogGroupEntryHeader.is_padding_log h = false ->
  LogGroupEntryHeader.check_integrity (Some (group_bytes es)) (Z.of_nat (length (group_bytes es))) sum0 h =
  Some (true, group_sum 0 es).
Proof.
  intros He Hm Hu Hp. unfold LogGroupEntryHeader.check_integrity. rewrite Hm, Hu, Z.eqb_refl. cbn [negb].
  unfold LogGroupEntryHeader.check_log_checksum_. destruct (Z.ltb_spec (Z.of_nat (length (group_bytes es))) 0); [lia|].
  rewrite Hp, (check_loop_ok es); try done; try lia.
  - unfold slice. rewrite drop_0, take_ge; [done | lia].
  - pose proof (length_group_bytes es). lia.
Qed.

(** C30: the writer and the reader of a group compute the same checksum.  A group is made
    of sealed entries; the writer finds them behind the place of the group header, in one
    piece of memory or in two, cut anywhere -- inside of the group header, of an entry's
    header or of a body.  The checksum it generates is that of the entries in order, and
    the reader of the contiguous body accepts the group with the same checksum, whatever
    accumulated checksum was put into the header before its parity bit was set. *)
Theorem group_checksum_agrees `{Crc64} ghdr (es : list (LogEntryHeader.t * list Z)) bufs
    max_scn log_id committed_end_lsn proposal_id accum sum0 :
  entries_ok es -> Z.of_nat (length ghdr) = LogGroupEntryHeader.HEADER_SER_SIZE ->
  (0 < length bufs <= 2)%nat -> concat bufs = ghdr ++ group_bytes es ->
  Scn.is_valid max_scn = true -> is_valid_log_id log_id = true -> lsn_is_valid committed_end_lsn = true ->
  proposal_id <> INVALID_PROPOSAL_ID ->
  let len := Z.of_nat (length (group_bytes es)) in
  exists h,
    LogGroupEntryHeader.generate false false bufs len max_scn log_id committed_end_lsn proposal_id sum0
      LogGroupEntryHeader.reset = Some (OB_SUCCESS, group_sum 0 es, h) /\
    let h' := LogGroupEntryHeader.update_header_checksum
                (LogGroupEntryHeader.update_accumulated_checksum accum h) in
    LogGroupEntryHeader.check_header_integrity h' = true /\
    LogGroupEntryHeader.check_integrity (Some (group_bytes es)) len sum0 h' = Some (true, group_sum 0 es).
Proof.
  intros He Hg Hn Hc Hms Hid Hcl Hpid len. unfold LogGroupEntryHeader.generate.
  rewrite Hms, Hid, Hcl. destruct (Z.eqb_spec INVALID_PROPOSAL_ID proposal_id) as [<-|]; [done|]. cbn [negb orb].
  rewrite (calculate_log_checksum_ok ghdr es) by done. cbn [mbind option_bind]. eexists. split; [done|]. cbv zeta.
  set (h := LogGroupEntryHeader.update_accumulated_checksum _ _).
  pose proof (group_update_check h) as Hu. unfold LogGroupEntryHeader.update_header_checksum.
  destruct (group_update_frame h) as (f & E & Hpad). rewrite E in *. split.
  - unfold LogGroupEntryHeader.check_header_integrity. rewrite Hu, andb_true_r.
    change (negb (INVALID_PROPOSAL_ID =? proposal_id) && lsn_is_valid committed_end_lsn && Scn.is_valid max_scn
            && is_valid_log_id log_id = true). rewrite Hms, Hid, Hcl.
    by destruct (Z.eqb_spec INVALID_PROPOSAL_ID proposal_id) as [<-|].
  - by apply group_check_integrity_ok.
Qed.

(** C32: cutting a group at a time keeps the entries up to the first later one and
    describes exactly those: the size is theirs, the largest time is that of one of them
    and none is later, the accumulated checksum continues the previous one with theirs,
    and the cut group passes the reader's check over the bytes that are left. *)
Theorem group_truncate_correct `{Crc64} (es1 es2 : list (LogEntryHeader.t * list Z)) cut_scn pre_accum sum0 h :
  entries_ok es1 -> entries_ok es2 -> es1 ++ es2 <> [] -> Scn.is_valid cut_scn = true ->
  Z.of_nat (length (group_bytes (es1 ++ es2))) < 2 ^ 31 ->
  Forall (fun e => scn_gt (LogEntryHeader.get_scn e.1) cut_scn = false) es1 ->
  from_option (fun e => scn_gt (LogEntryHeader.get_scn e.1) cut_scn = true) True (head es2) ->
  LogGroupEntryHeader.is_padding_log h = false -> LogGroupEntryHeader.magic_ h = LogGroupEntryHeader.MAGIC ->
  let body := group_bytes (es1 ++ es2) in
  exists h',
    LogGroupEntryHeader.truncate (Some body) (Z.of_nat (length body)) cut_scn pre_accum h = Some (OB_SUCCESS, h') /\
    LogGroupEntryHeader.get_data_len h' = Z.of_nat (length (group_bytes es1)) /\
    LogGroupEntryHeader.get_accum_checksum h' = crc_int64 pre_accum (group_sum 0 es1) /\
    (es1 <> [] -> LogGroupEntryHeader.get_max_scn h' ∈ ((fun e => LogEntryHeader.get_scn e.1) <$> es1)) /\
    Forall (fun e => scn_gt (LogEntryHeader.get_scn e.1) (LogGroupEntryHeader.get_max_scn h') = false) es1 /\
    LogGroupEntryHeader.check_integrity (Some (take (Z.to_nat (LogGroupEntryHeader.get_data_len h')) body))
      (LogGroupEntryHeader.get_data_len h') sum0 h' = Some (true, group_sum 0 es1).
Proof.
  intros He1 He2 Hne Hv Hlen Hle Hgt Hpad Hmg body. unfold LogGroupEntryHeader.truncate.
  assert (0 < Z.of_nat (length body)) as Hpos.
  { unfold body. pose proof (length_group_bytes (es1 ++ es2)). destruct (es1 ++ es2); [done | cbn [length] in *; lia]. }
  destruct (Z.leb_spec (Z.of_nat (length body)) 0); [lia|]. rewrite Hv, Hpad. cbn [negb orb].
  rewrite (truncate_loop_ok es1 es2); try done; try lia.
  2: { unfold slice. rewrite drop_0, take_ge; [done | unfold body; lia]. }
  2: { pose proof (length_group_bytes (es1 ++ es2)). unfold body. lia. }
  cbn [mbind option_bind]. change (ob_succ OB_SUCCESS) with true. cbv iota zeta. rewrite Z.add_0_l.
  assert (length (group_bytes (es1 ++ es2)) = length (group_bytes es1) + length (group_bytes es2))%nat as Happ.
  { unfold group_bytes. by rewrite fmap_app, concat_app, length_app. }
  assert (s32 (Z.of_nat (length (group_bytes es1))) = Z.of_nat (length (group_bytes es1))) as ->.
  { apply to_s_id; unfold is_s; lia. }
  set (h1 := LogGroupEntryHeader.update_accumulated_checksum _ _).
  unfold LogGroupEntryHeader.update_header_checksum. pose proof (group_update_check h1) as Hu.
  destruct (group_update_frame h1) as (f & E & Hp). rewrite E in *.
  eexists. split; [done|]. split; [done|]. split; [done|].
  change (LogGroupEntryHeader.get_max_scn (LogGroupEntryHeader.set_flag f h1)) with (group_max es1).
  destruct (foldl_later invalid_scn es1 He1) as (Hin & _ & Hall). split_and!.
  - intros Hn. destruct Hin as [Hi | Hin]; [|done]. exfalso. destruct es1 as [|e es1]; [done|].
    apply Forall_cons in Hall as [Hr _]. rewrite Hi in Hr. apply Forall_cons in He1 as [E1 _].
    destruct (entry_ok_valid _ _ E1) as [Hval _]. unfold rank in Hr at 1. unfold LogEntryHeader.get_scn in Hr.
    rewrite Hval in Hr. pose proof (ts_ns_nonneg (LogEntryHeader.scn_ e.1)). change (rank invalid_scn) with (-1) in Hr. lia.
  - eapply Forall_impl; [exact Hall|]. intros e Hr. cbv beta in Hr. rewrite scn_gt_rank. unfold group_max. lia.
  - change (LogGroupEntryHeader.get_data_len (LogGroupEntryHeader.set_flag f h1)) with (Z.of_nat (length (group_bytes es1))).
    rewrite Nat2Z.id. assert (take (length (group_bytes es1)) body = group_bytes es1) as ->.
    { unfold body, group_bytes. rewrite fmap_app, concat_app. apply take_app_length. }
    apply group_check_integrity_ok; try done. by rewrite Hp.
Qed.

Lemma group_checksum_agrees_witness :
  exists (es : list (LogEntryHeader.t * list Z)) bufs h,
    length es = 2%nat /\ length bufs = 2%nat /\
    @LogGroupEntryHeader.generate crc64_fast false false bufs (Z.of_nat (length (group_bytes es))) 200 7 0 1 0
      LogGroupEntryHeader.reset = Some (OB_SUCCESS, @group_sum crc64_fast 0 es, h).
Proof.
  destruct (@generate_header_ok crc64_fast [1; 2; 3] 100) as (h1 & _ & E1 & _);
    [done | done | by repeat constructor | done | done |].
  destruct (@generate_header_ok crc64_fast [4; 5] 200) as (h2 & _ & E2 & _);
    [done | done | by repeat constructor | done | done |].
  set (es := [(h1, [1; 2; 3]); (h2, [4; 5])]). set (total := replicate 56 0 ++ group_bytes es).
  destruct (@group_checksum_agrees crc64_fast (replicate 56 0) es [take 70 total; drop 70 total] 200 7 0 1 99 0)
    as (h & G & _); try done.
  - unfold entries_ok, es. rewrite !Forall_cons. auto using Forall_nil_2.
  - simpl length. lia.
  - by exists es, [take 70 total; drop 70 total], h.
Defined.

Lemma group_truncate_correct_witness :
  exists (es1 es2 : list (LogEntryHeader.t * list Z)) h',
    length es1 = 1%nat /\ length es2 = 1%nat /\
    @LogGroupEntryHeader.truncate crc64_fast (Some (group_bytes (es1 ++ es2)))
      (Z.of_nat (length (group_bytes (es1 ++ es2)))) 150 5
      (LogGroupEntryHeader.set_magic LogGroupEntryHeader.MAGIC LogGroupEntryHeader.reset) = Some (OB_SUCCESS, h') /\
    LogGroupEntryHeader.get_data_len h' = Z.of_nat (length (group_bytes es1)).
Proof.
  destruct (@generate_header_ok crc64_fast [1; 2; 3] 100) as (h1 & _ & E1 & S1);
    [done | done | by repeat constructor | done | done |].
  destruct (@generate_header_ok crc64_fast [4; 5] 200) as (h2 & _ & E2 & S2);
    [done | done | by repeat constructor | done | done |].
  destruct (@group_truncate_correct crc64_fast [(h1, [1; 2; 3])] [(h2, [4; 5])] 150 5 0
    (LogGroupEntryHeader.set_magic LogGroupEntryHeader.MAGIC LogGroupEntryHeader.reset)) as (h' & T & L & _); try done.
  - by apply Forall_singleton.
  - by apply Forall_singleton.
  - apply Forall_singleton. cbn [fst]. by rewrite S1.
  - cbn [head from_option fst]. by rewrite S2.
  - exists [(h1, [1; 2; 3])], [(h2, [4; 5])], h'. exact (conj eq_refl (conj eq_refl (conj T L))).
Defined.

(** A group header damaged in one bit is not taken for another header: inverting any
    bit of its 56 serialized bytes makes the deserialization fail with [OB_INVALID_DATA],
    or (only for the bit that turns the largest time into [INT64_MAX]) gives the same
    header. *)
Theorem group_header_bit_flip h bytes buf_len pos i j old :
  group_wf h -> LogGroupEntryHeader.check_header_integrity h = true ->
  0 <= pos -> buf_len <= Z.of_nat (length bytes) -> LogGroupEntryHeader.HEADER_SER_SIZE <= buf_len - pos ->
  0 <= i < LogGroupEntryHeader.HEADER_SER_SIZE -> (j < 8)%nat ->
  exists bytes',
    LogGroupEntryHeader.serialize (Some bytes) buf_len pos h =
      Some (OB_SUCCESS, Some bytes', pos + LogGroupEntryHeader.HEADER_SER_SIZE) /\
    LogGroupEntryHeader.deserialize (Some bytes') buf_len pos old =
      Some (OB_SUCCESS, pos + LogGroupEntryHeader.HEADER_SER_SIZE, h) /\
    let damaged := flip_bit (Z.to_nat (pos + i)) j bytes' in
    (exists h', LogGroupEntryHeader.deserialize (Some damaged) buf_len pos old = Some (OB_INVALID_DATA, pos, h')) \/
    LogGroupEntryHeader.deserialize (Some damaged) buf_len pos old =
      Some (OB_SUCCESS, pos + LogGroupEntryHeader.HEADER_SER_SIZE, h).
Proof.
  intros Hwf Hc Hp Hl Hs Hi Hj. change LogGroupEntryHeader.HEADER_SER_SIZE with 56 in *.
  pose proof (group_serialize_spec h bytes buf_len pos Hp ltac:(lia)) as S.
  destruct (Z.leb_spec 56 (buf_len - pos)) as [_|]; [|lia]. eexists. split; [done|].
  pose proof (length_group_header_bytes h) as Lh. set (bytes' := written bytes pos (group_header_bytes h)).
  assert (length bytes' = length bytes) as Lb by (apply length_written; lia).
  assert (slice bytes' pos 56 = group_header_bytes h) as Hsl.
  { unfold bytes'. rewrite slice_written by lia. by apply fmap_u8_bytes, group_header_bytes_byte. }
  assert (forall bs, length bs = length bytes -> LogGroupEntryHeader.deserialize (Some bs) buf_len pos old =
    let h' := group_of_bytes (slice bs pos 56) in
    if LogGroupEntryHeader.check_header_integrity h' then Some (OB_SUCCESS, pos + 56, h')
    else Some (OB_INVALID_DATA, pos, h')) as D.
  { intros bs Lbs. pose proof (group_deserialize_spec bs buf_len pos old Hp ltac:(lia)) as D.
    destruct (Z.leb_spec 56 (buf_len - pos)) as [_|]; [|lia]. rewrite D, group_parse_old; [done|].
    rewrite length_slice; lia. }
  pose proof Hc as Hv. unfold LogGroupEntryHeader.check_header_integrity, LogGroupEntryHeader.is_valid in Hv.
  rewrite !andb_true_iff in Hv. destruct Hv as [[[_ Hv] _] Hcc].
  assert (group_of_bytes (group_header_bytes h) = h) as Hback.
  { unfold group_of_bytes. by rewrite group_of_group_bytes. }
  split; [rewrite D by done; cbv zeta; by rewrite Hsl, Hback, Hc|]. cbv zeta. replace (Z.to_nat (pos + i)) with (Z.to_nat pos + Z.to_nat i)%nat by lia.
  rewrite D, slice_flip, Hsl by (rewrite ?length_flip_bit; lia). cbv zeta.
  destruct (group_flip h (Z.to_nat i) j) as [-> | ->]; try done; [lia | left; by eexists | right; by rewrite Hc].
Qed.

Lemma group_header_bit_flip_witness :
  let h := LogGroupEntryHeader.update_header_checksum
             (LogGroupEntryHeader.mk LogGroupEntryHeader.MAGIC 1 96 3 4096 1700 55 12 4) in
  exists bytes',
    LogGroupEntryHeader.serialize (Some (replicate 60 0)) 60 2 h = Some (OB_SUCCESS, Some bytes', 58) /\
    LogGroupEntryHeader.deserialize (Some bytes') 60 2 LogGroupEntryHeader.reset = Some (OB_SUCCESS, 58, h).
Proof.
  destruct (group_header_bit_flip
    (LogGroupEntryHeader.update_header_checksum
       (LogGroupEntryHeader.mk LogGroupEntryHeader.MAGIC 1 96 3 4096 1700 55 12 4))
    (replicate 60 0) 60 2 17 3 LogGroupEntryHeader.reset) as (bytes' & S & D & _);
    [vm_compute; repeat split; discriminate | by vm_compute | lia | done | done | done | lia |].
  exists bytes'. exact (conj S D).
Defined.
