(* ===== verification/LogChecksum.v ===== *)
(** * The accumulated checksum: [src/logservice/palf/log_checksum.{h,cpp}]

    The leader chains the data checksums of the groups it generates, the followers
    check the chain as they receive the groups. *)

From Stdlib Require Import ZArith Lia Bool.
From stdpp Require Import base option numbers list sets.
From S2P Require Import Prelude Serialization Crc64 LogGroupEntryHeader.

Local Open Scope Z_scope.

Definition INVALID_PALF_ID : Z := -1.

Module LogChecksum.
Record t := mk {
  is_inited_ : bool; palf_id_ : Z; prev_accum_checksum_ : Z; accum_checksum_ : Z; verify_checksum_ : Z }.

(** The constructor leaves [palf_id_] as it is. *)
Definition make (palf_id : Z) : t := mk false palf_id 0 0 0.

Definition init (palf_id accum_checksum : Z) (s : t) : Z * t :=
  if is_inited_ s then (OB_INIT_TWICE, s)
  else (OB_SUCCESS, mk true palf_id (prev_accum_checksum_ s) accum_checksum accum_checksum).

Definition destroy (s : t) : t := mk false INVALID_PALF_ID (prev_accum_checksum_ s) 0 0.

Definition rollback_accum_checksum (curr_accum_checksum : Z) (s : t) : Z * t :=
  if negb (curr_accum_checksum =? accum_checksum_ s) then (OB_STATE_NOT_MATCH, s)
  else (OB_SUCCESS, mk (is_inited_ s) (palf_id_ s) 0 (prev_accum_checksum_ s) (verify_checksum_ s)).

Definition set_accum_checksum (accum_checksum : Z) (s : t) : t :=
  mk (is_inited_ s) (palf_id_ s) (prev_accum_checksum_ s) accum_checksum (verify_checksum_ s).
Definition set_verify_checksum (verify_checksum : Z) (s : t) : t :=
  mk (is_inited_ s) (palf_id_ s) (prev_accum_checksum_ s) (accum_checksum_ s) verify_checksum.

Section ops.
Context `{Crc64}.

(** The result code and the accumulated checksum handed out. *)
Definition acquire_accum_checksum (data_checksum accum_checksum : Z) (s : t) : Z * Z * t :=
  if negb (is_inited_ s) then (OB_NOT_INIT, accum_checksum, s)
  else
    let accum := crc_int64 (accum_checksum_ s) data_checksum in
    (OB_SUCCESS, accum, mk (is_inited_ s) (palf_id_ s) (accum_checksum_ s) accum (verify_checksum_ s)).

(** The static function: the code and the checksum it computed. *)
Definition verify_accum_checksum_static (old_accum_checksum data_checksum expected_accum_checksum : Z) : Z * Z :=
  let new_accum_checksum := crc_int64 old_accum_checksum data_checksum in
  (if negb (new_accum_checksum =? expected_accum_checksum) then OB_CHECKSUM_ERROR else OB_SUCCESS, new_accum_checksum).

Definition verify_accum_checksum (data_checksum accum_checksum : Z) (s : t) : Z * t :=
  if negb (is_inited_ s) then (OB_NOT_INIT, s)
  else
    let '(ret, new_verify_checksum) := verify_accum_checksum_static (verify_checksum_ s) data_checksum accum_checksum in
    if ob_fail ret then (ret, s) else (OB_SUCCESS, set_verify_checksum new_verify_checksum s).

(** A leader handing out a chain, and a follower checking one. *)
Fixpoint acquire_all (ds : list Z) (s : t) : list (Z * Z) * t :=
  match ds with
  | [] => ([], s)
  | d :: ds =>
      let '(_, c, s) := acquire_accum_checksum d 0 s in
      let '(cs, s) := acquire_all ds s in ((d, c) :: cs, s)
  end.

Fixpoint verify_all (cs : list (Z * Z)) (s : t) : Z * t :=
  match cs with
  | [] => (OB_SUCCESS, s)
  | (d, c) :: cs =>
      let '(ret, s) := verify_accum_checksum d c s in
      if ob_fail ret then (ret, s) else verify_all cs s
  end.

Lemma acquire_verify ds l f :
  is_inited_ l = true -> is_inited_ f = true -> verify_checksum_ f = accum_checksum_ l ->
  let '(cs, l') := acquire_all ds l in
  exists f', verify_all cs f = (OB_SUCCESS, f') /\ is_inited_ l' = true /\
    is_inited_ f' = true /\ verify_checksum_ f' = accum_checksum_ l'.
Proof.
  revert l f. induction ds as [|d ds IH]; intros l f Hl Hf He; cbn [acquire_all]; [by exists f|].
  unfold acquire_accum_checksum. rewrite Hl. cbn [negb].
  set (c := crc_int64 (accum_checksum_ l) d).
  specialize (IH (mk true (palf_id_ l) (accum_checksum_ l) c (verify_checksum_ l)) (set_verify_checksum c f) eq_refl Hf eq_refl).
  destruct (acquire_all ds _) as [cs l']. destruct IH as (f' & V & Hl' & Hf' & E). exists f'. split; [|done].
  cbn [verify_all]. unfold verify_accum_checksum. rewrite Hf. cbn [negb]. unfold verify_accum_checksum_static.
  rewrite He. fold c. rewrite Z.eqb_refl. cbn [negb]. exact V.
Qed.
End ops.
End LogChecksum.

(** C31: the chain of checksums holds leader and followers together.  A follower that
    starts from the leader's accumulated checksum accepts every group of the leader in
    order and ends with the leader's checksum; from there a group that does not continue
    the chain is refused with [OB_CHECKSUM_ERROR] and leaves the follower as it was, so
    that the right group is accepted afterwards; and a leader that gives up the last group
    it took a checksum for is back at the checksum before it. *)
Theorem accum_checksum_chain `{Crc64} ds l f d wrong :
  LogChecksum.is_inited_ l = true -> LogChecksum.is_inited_ f = true ->
  LogChecksum.verify_checksum_ f = LogChecksum.accum_checksum_ l ->
  let '(cs, l') := LogChecksum.acquire_all ds l in
  let '(ret, c, l'') := LogChecksum.acquire_accum_checksum d 0 l' in
  exists f',
    LogChecksum.verify_all cs f = (OB_SUCCESS, f') /\
    LogChecksum.verify_checksum_ f' = LogChecksum.accum_checksum_ l' /\ ret = OB_SUCCESS /\
    (wrong <> c -> LogChecksum.verify_accum_checksum d wrong f' = (OB_CHECKSUM_ERROR, f')) /\
    (exists f'', LogChecksum.verify_accum_checksum d c f' = (OB_SUCCESS, f'') /\
       LogChecksum.verify_checksum_ f'' = LogChecksum.accum_checksum_ l'') /\
    exists l3, LogChecksum.rollback_accum_checksum c l'' = (OB_SUCCESS, l3) /\
      LogChecksum.accum_checksum_ l3 = LogChecksum.accum_checksum_ l'.
Proof.
  intros Hl Hf He. pose proof (LogChecksum.acquire_verify ds l f Hl Hf He) as V.
  destruct (LogChecksum.acquire_all ds l) as [cs l']. destruct V as (f' & V & Hl' & Hf' & E).
  unfold LogChecksum.acquire_accum_checksum. rewrite Hl'. cbn [negb]. exists f'. split_and!; try done.
  - intros Hw. unfold LogChecksum.verify_accum_checksum, LogChecksum.verify_accum_checksum_static. rewrite Hf', E.
    cbn [negb]. destruct (Z.eqb_spec (crc_int64 (LogChecksum.accum_checksum_ l') d) wrong); [congruence | done].
  - unfold LogChecksum.verify_accum_checksum, LogChecksum.verify_accum_checksum_static. rewrite Hf', E, Z.eqb_refl.
    cbn [negb]. by eexists.
  - unfold LogChecksum.rollback_accum_checksum. cbn [LogChecksum.accum_checksum_]. rewrite Z.eqb_refl. by eexists.
Qed.

Lemma accum_checksum_chain_witness :
  let l := (LogChecksum.init 1 17 (LogChecksum.make 0)).2 in
  let cs := (@LogChecksum.acquire_all crc64_fast [5; 6; 7] l).1 in
  exists f', @LogChecksum.verify_all crc64_fast cs l = (OB_SUCCESS, f').
Proof.
  cbv zeta. pose proof (@accum_checksum_chain crc64_fast [5; 6; 7] (LogChecksum.init 1 17 (LogChecksum.make 0)).2
    (LogChecksum.init 1 17 (LogChecksum.make 0)).2 8 0 eq_refl eq_refl eq_refl) as C.
  destruct (@LogChecksum.acquire_all crc64_fast [5; 6; 7] _) as [cs l'].
  destruct (LogChecksum.acquire_accum_checksum 8 0 l') as [[ret c] l'']. destruct C as (f' & V & _). by exists f'.
Defined.
