(* ===== verification/LogGroupBuffer.v ===== *)
(** * The group buffer: [src/logservice/palf/log_group_buffer.{h,cpp}]

    The ring of memory a replica fills its logs into before they are flushed, and
    from which it still reads them afterwards.  A log position is mapped to its
    distance from the first position of the buffer modulo the size.  The buffer is
    compared with an unbounded log: what is read at a position is what was last
    filled there, also while other threads are filling. *)

From Stdlib Require Import ZArith Lia Bool.
From stdpp Require Import base option numbers list sets.
From S2P Require Import Prelude Serialization Scn Lsn Parity HeaderFormat LogWriteBuf.

Local Open Scope Z_scope.

Definition LEADER_DEFAULT_GROUP_BUFFER_SIZE : Z := Z.shiftl 1 25.
Definition FOLLOWER_DEFAULT_GROUP_BUFFER_SIZE : Z := LEADER_DEFAULT_GROUP_BUFFER_SIZE + 8 * 1024 * 1024.
Definition PADDING_LOG_CONTENT_CHAR : Z := 0.
Definition LOG_MAX_LSN_VAL : Z := LOG_INVALID_LSN_VAL - 1.

(** [inc_update] without other updates in between: the variable becomes the larger
    value. *)
Definition inc_update (v x : Z) : Z := if v <? x then x else v.

Module LogGroupBuffer.
Record t := mk {
  start_lsn_ : LSN; reuse_lsn_ : LSN; readable_begin_lsn_ : LSN; reserved_buffer_size_ : Z;
  available_buffer_size_ : Z; data_buf_ : buffer; is_inited_ : bool }.

Definition reset : t := mk lsn_reset lsn_reset lsn_reset 0 0 None false.

(** [allocated]: the allocator had memory. *)
Definition init (allocated : bool) (start_lsn : LSN) (s : t) : Z * t :=
  if is_inited_ s then (OB_INIT_TWICE, s)
  else if negb (lsn_is_valid start_lsn) then (OB_INVALID_ARGUMENT, s)
  else
    let group_buffer_size := FOLLOWER_DEFAULT_GROUP_BUFFER_SIZE in
    if negb allocated then
      (OB_ALLOCATE_MEMORY_FAILED, mk (start_lsn_ s) (reuse_lsn_ s) (readable_begin_lsn_ s) (reserved_buffer_size_ s)
                                     (available_buffer_size_ s) None (is_inited_ s))
    else (OB_SUCCESS, mk start_lsn start_lsn start_lsn group_buffer_size group_buffer_size
                         (Some (replicate (Z.to_nat group_buffer_size) 0)) true).

Definition destroy (s : t) : t := reset.

Definition set_data_buf (data_buf : buffer) (s : t) : t :=
  mk (start_lsn_ s) (reuse_lsn_ s) (readable_begin_lsn_ s) (reserved_buffer_size_ s) (available_buffer_size_ s)
     data_buf (is_inited_ s).
Definition set_readable_begin_lsn (lsn : LSN) (s : t) : t :=
  mk (start_lsn_ s) (reuse_lsn_ s) lsn (reserved_buffer_size_ s) (available_buffer_size_ s) (data_buf_ s) (is_inited_ s).
Definition set_reuse_lsn (lsn : LSN) (s : t) : t :=
  mk (start_lsn_ s) lsn (readable_begin_lsn_ s) (reserved_buffer_size_ s) (available_buffer_size_ s) (data_buf_ s)
     (is_inited_ s).
Definition set_available_buffer_size (size : Z) (s : t) : t :=
  mk (start_lsn_ s) (reuse_lsn_ s) (readable_begin_lsn_ s) (reserved_buffer_size_ s) size (data_buf_ s) (is_inited_ s).

(** A remainder by zero is a fault. *)
Definition get_buffer_pos_ (lsn : LSN) (start_pos : Z) (s : t) : outcome (Z * Z) :=
  if negb (is_inited_ s) then Some (OB_NOT_INIT, start_pos)
  else if negb (lsn_is_valid lsn) then Some (OB_INVALID_ARGUMENT, start_pos)
  else if lsn_lt lsn (start_lsn_ s) then Some (OB_ERR_OUT_OF_LOWER_BOUND, start_pos)
  else
    let diff_len := s64 (lsn_diff lsn (start_lsn_ s)) in
    if negb (0 <=? diff_len) then None
    else if reserved_buffer_size_ s =? 0 then None
    else Some (OB_SUCCESS, Z.rem diff_len (reserved_buffer_size_ s)).

Definition can_handle_new_log_ref (lsn : LSN) (total_len : Z) (ref_reuse_lsn : LSN) (s : t) : bool :=
  let end_lsn := lsn_add lsn total_len in
  let reuse_lsn := if lsn_lt (reuse_lsn_ s) ref_reuse_lsn then reuse_lsn_ s else ref_reuse_lsn in
  if negb (is_inited_ s) then false
  else if negb (lsn_is_valid lsn) || (total_len <=? 0) || negb (lsn_is_valid ref_reuse_lsn) then false
  else if lsn_lt lsn (start_lsn_ s) then false
  else if lsn_gt end_lsn (lsn_add reuse_lsn (available_buffer_size_ s)) then false
  else true.

Definition can_handle_new_log (lsn : LSN) (total_len : Z) (s : t) : bool :=
  if negb (is_inited_ s) then false
  else if negb (lsn_is_valid lsn) || (total_len <=? 0) then false
  else can_handle_new_log_ref lsn total_len LOG_MAX_LSN_VAL s.

(** [buf_addr] is the address of [data_buf_], [array_push] the array of the result. *)
Definition get_log_buf (array_push : nat -> Z) (buf_addr : Z) (lsn : LSN) (total_len : Z) (log_buf : LogWriteBuf.t)
    (s : t) : outcome (Z * LogWriteBuf.t) :=
  if negb (is_inited_ s) then Some (OB_NOT_INIT, log_buf)
  else if negb (lsn_is_valid lsn) || (total_len <=? 0) then Some (OB_INVALID_ARGUMENT, log_buf)
  else if lsn_lt lsn (start_lsn_ s) then Some (OB_INVALID_ARGUMENT, log_buf)
  else
    '(ret, start_pos) ← get_buffer_pos_ lsn 0 s;
    if ob_fail ret then Some (ret, log_buf)
    else
      let group_buf_tail_len := reserved_buffer_size_ s - start_pos in
      let first_part_len := Z.min group_buf_tail_len total_len in
      let '(ret, log_buf) := LogWriteBuf.push_back array_push (buf_addr + start_pos) first_part_len log_buf in
      if ob_fail ret then Some (ret, log_buf)
      else if first_part_len <? total_len then
        Some (LogWriteBuf.push_back array_push buf_addr (total_len - first_part_len) log_buf)
      else Some (OB_SUCCESS, log_buf).

(** [memcpy(data_buf_ + pos, src, len)]. *)
Definition store_at (pos : Z) (src : list Z) (len : Z) (s : t) : outcome t :=
  bytes ← data_buf_ s; bytes ← memcpy bytes pos src len; Some (set_data_buf (Some bytes) s).

Definition fill_ (start_pos : Z) (data : list Z) (data_len : Z) (s : t) : outcome (Z * t) :=
  let group_buf_tail_len := reserved_buffer_size_ s - start_pos in
  let first_part_len := Z.min group_buf_tail_len data_len in
  s ← store_at start_pos data first_part_len s;
  if first_part_len <? data_len then
    s ← store_at 0 (ptr_add data first_part_len) (data_len - first_part_len) s; Some (OB_SUCCESS, s)
  else Some (OB_SUCCESS, s).

Definition gen_readable_begin_lsn_for_filling_ (lsn : LSN) (s : t) : LSN :=
  if u64 (reserved_buffer_size_ s) <=? lsn then lsn_sub lsn (reserved_buffer_size_ s) else 0.

Definition inc_update_readable_begin_lsn_ (new_readable_begin_lsn : LSN) (s : t) : t :=
  set_readable_begin_lsn (inc_update (readable_begin_lsn_ s) new_readable_begin_lsn) s.

(** The tests [fill] and [fill_padding_body] share, and the position to fill at. *)
Definition fill_checks (lsn end_lsn : LSN) (s : t) : outcome (Z * Z) :=
  if lsn_lt lsn (start_lsn_ s) then Some (OB_ERR_UNEXPECTED, 0)
  else if lsn_le end_lsn (reuse_lsn_ s) then Some (OB_ERR_UNEXPECTED, 0)
  else if lsn_gt end_lsn (lsn_add (reuse_lsn_ s) (available_buffer_size_ s)) then Some (OB_EAGAIN, 0)
  else get_buffer_pos_ lsn 0 s.

(** The first readable position is raised before the bytes are stored. *)
Definition fill (lsn : LSN) (data : buffer) (data_len : Z) (s : t) : outcome (Z * t) :=
  let end_lsn := lsn_add lsn data_len in
  if negb (is_inited_ s) then Some (OB_NOT_INIT, s)
  else
    match data with
    | None => Some (OB_INVALID_ARGUMENT, s)
    | Some data =>
        if negb (lsn_is_valid lsn) || (data_len <=? 0) then Some (OB_INVALID_ARGUMENT, s)
        else
          '(ret, start_pos) ← fill_checks lsn end_lsn s;
          if ob_fail ret then Some (ret, s)
          else
            let s := inc_update_readable_begin_lsn_ (gen_readable_begin_lsn_for_filling_ end_lsn s) s in
            fill_ start_pos data data_len s
    end.

(** The body is cleared, then the valid part of the padding stored. *)
Definition fill_padding_body (lsn : LSN) (data : list Z) (data_len log_body_size : Z) (s : t) : outcome (Z * t) :=
  let end_lsn := lsn_add lsn log_body_size in
  if negb (is_inited_ s) then Some (OB_NOT_INIT, s)
  else if negb (lsn_is_valid lsn) || (log_body_size <=? 0) then Some (OB_INVALID_ARGUMENT, s)
  else
    '(ret, start_pos) ← fill_checks lsn end_lsn s;
    if ob_fail ret then Some (ret, s)
    else
      let s := inc_update_readable_begin_lsn_ (gen_readable_begin_lsn_for_filling_ end_lsn s) s in
      '(_, s) ← fill_ start_pos (replicate (Z.to_nat log_body_size) PADDING_LOG_CONTENT_CHAR) log_body_size s;
      fill_ start_pos data data_len s.

Definition check_log_buf_wrapped (lsn : LSN) (log_len : Z) (s : t) : outcome (Z * bool) :=
  if negb (is_inited_ s) then Some (OB_NOT_INIT, false)
  else if negb (lsn_is_valid lsn) || (log_len <=? 0) then Some (OB_INVALID_ARGUMENT, false)
  else if lsn_lt lsn (start_lsn_ s) then Some (OB_SUCCESS, false)
  else
    '(ret, start_pos) ← get_buffer_pos_ lsn 0 s;
    if ob_fail ret then Some (ret, false)
    else Some (OB_SUCCESS, reserved_buffer_size_ s <? start_pos + log_len).

Definition to_leader (s : t) : Z * t :=
  if negb (is_inited_ s) then (OB_NOT_INIT, s)
  else if LEADER_DEFAULT_GROUP_BUFFER_SIZE =? available_buffer_size_ s then (OB_STATE_NOT_MATCH, s)
  else (OB_SUCCESS, set_available_buffer_size LEADER_DEFAULT_GROUP_BUFFER_SIZE s).

Definition to_follower (s : t) : Z * t :=
  if negb (is_inited_ s) then (OB_NOT_INIT, s)
  else if FOLLOWER_DEFAULT_GROUP_BUFFER_SIZE =? available_buffer_size_ s then (OB_SUCCESS, s)
  else (OB_SUCCESS, set_available_buffer_size FOLLOWER_DEFAULT_GROUP_BUFFER_SIZE s).

Definition inc_update_readable_begin_lsn (new_lsn : LSN) (s : t) : Z * t :=
  if negb (lsn_is_valid new_lsn) then (OB_INVALID_ARGUMENT, s)
  else (OB_SUCCESS, inc_update_readable_begin_lsn_ new_lsn s).

(** The exchange succeeds the first time when nothing comes between. *)
Definition inc_update_reuse_lsn (new_reuse_lsn : LSN) (s : t) : Z * t :=
  if negb (lsn_is_valid new_reuse_lsn) then (OB_INVALID_ARGUMENT, s)
  else (OB_SUCCESS, if lsn_gt new_reuse_lsn (reuse_lsn_ s) then set_reuse_lsn new_reuse_lsn s else s).

Definition truncate (new_lsn : LSN) (s : t) : Z * t :=
  if negb (lsn_is_valid new_lsn) then (OB_INVALID_ARGUMENT, s)
  else if lsn_lt new_lsn (start_lsn_ s) then (OB_INVALID_ARGUMENT, s)
  else (OB_SUCCESS, set_reuse_lsn new_lsn (inc_update_readable_begin_lsn_ new_lsn s)).

(** Two pieces of the ring, from [start_pos] on. *)
Definition copy_out (bytes : list Z) (start_pos real_read_size size : Z) : outcome (list Z) :=
  let group_buf_tail_len := size - start_pos in
  let first_part_len := Z.min group_buf_tail_len real_read_size in
  '(first, _) ← get_bytes (Z.to_nat first_part_len) bytes start_pos;
  if first_part_len <? real_read_size then
    '(second, _) ← get_bytes (Z.to_nat (real_read_size - first_part_len)) bytes 0; Some (first ++ second)
  else Some first.

(** The bytes stored at the destination and the size that was read; [last_readable] is
    what the second look at [readable_begin_lsn_] finds. *)
Definition read_data (read_begin_lsn : LSN) (in_read_size : Z) (dest_null : bool) (out_read_size : Z)
    (last_readable : LSN) (s : t) : outcome (Z * list Z * Z) :=
  if negb (lsn_is_valid read_begin_lsn) || (in_read_size <=? 0) || dest_null
  then Some (OB_INVALID_ARGUMENT, [], out_read_size)
  else
    '(ret, start_pos) ← get_buffer_pos_ read_begin_lsn (-1) s;
    if ob_fail ret then Some (ret, [], out_read_size)
    else if lsn_lt read_begin_lsn (readable_begin_lsn_ s) then Some (OB_ERR_OUT_OF_LOWER_BOUND, [], out_read_size)
    else if lsn_gt (reuse_lsn_ s) read_begin_lsn then
      let readable_size := s64 (lsn_diff (reuse_lsn_ s) read_begin_lsn) in
      let real_read_size := Z.min readable_size in_read_size in
      bytes ← data_buf_ s;
      data ← copy_out bytes start_pos real_read_size (reserved_buffer_size_ s);
      if lsn_gt last_readable read_begin_lsn then Some (OB_ERR_OUT_OF_LOWER_BOUND, data, 0)
      else Some (OB_SUCCESS, data, real_read_size)
    else Some (OB_SUCCESS, [], out_read_size).
End LogGroupBuffer.

(** ** The ring *)

(** The index of position [v] in a ring of [size] bytes that begins at [start]. *)
Definition ring_pos (start size v : Z) : Z := (v - start) mod size.

Section ring.
Context (start size : Z) (Hsize : 0 < size).
Local Abbreviation pos := (ring_pos start size).

Lemma ring_pos_range v : 0 <= pos v < size.
Proof. by apply Z.mod_pos_bound. Qed.

(** Until the end of the ring positions follow each other. *)
Lemma ring_pos_add v n : 0 <= n -> pos v + n < size -> pos (v + n) = pos v + n.
Proof.
  intros Hn Hlt. pose proof (ring_pos_range v). unfold ring_pos in *.
  replace (v + n - start) with (v - start + n) by lia. rewrite <- Z.add_mod_idemp_l by lia. apply Z.mod_small. lia.
Qed.

(** Past the end they start again. *)
Lemma ring_pos_wrap v n : size <= pos v + n < 2 * size -> pos (v + n) = pos v + n - size.
Proof.
  intros Hn. unfold ring_pos in *. replace (v + n - start) with (v - start + n) by lia.
  rewrite <- Z.add_mod_idemp_l by lia.
  rewrite <- (Z.mod_add ((v - start) mod size + n) (-1) size) by lia. rewrite Z.mod_small by lia. lia.
Qed.

(** Positions at the same index are a multiple of the size apart. *)
Lemma ring_pos_eq v w : pos v = pos w -> v < w -> v + size <= w.
Proof.
  unfold ring_pos. intros E Hlt.
  assert ((w - v) mod size = 0) as Hm.
  { replace (w - v) with ((w - start) - (v - start)) by lia.
    by rewrite Zminus_mod, E, Z.sub_diag, Z.mod_0_l by lia. }
  apply Z.mod_divide in Hm as [k Hk]; [|lia]. assert (0 < k) by nia. nia.
Qed.

(** Storing the bytes one by one, each at the index of its position. *)
Fixpoint ring_stores (buf : list Z) (l : Z) (bs : list Z) : list Z :=
  match bs with
  | [] => buf
  | b :: bs => ring_stores (<[Z.to_nat (pos l) := u8 b]> buf) (l + 1) bs
  end.

Lemma ring_stores_app buf l a b :
  ring_stores buf l (a ++ b) = ring_stores (ring_stores buf l a) (l + Z.of_nat (length a)) b.
Proof.
  revert buf l. induction a as [|x a IH]; intros buf l; cbn [ring_stores app length]; [f_equal; lia|].
  rewrite IH. f_equal. lia.
Qed.

Lemma length_ring_stores buf l bs : length (ring_stores buf l bs) = length buf.
Proof.
  revert buf l. induction bs as [|x bs IH]; intros buf l; cbn [ring_stores]; [done|]. by rewrite IH, length_insert.
Qed.

(** A copy that does not pass the end of the ring. *)
Lemma put_bytes_ring bs buf l :
  Z.of_nat (length buf) = size -> pos l + Z.of_nat (length bs) <= size ->
  exists p, put_bytes bs buf (pos l) = Some (ring_stores buf l bs, p).
Proof.
  revert buf l. induction bs as [|b bs IH]; intros buf l Hl Hs; cbn [put_bytes ring_stores length] in *; [by eexists|].
  pose proof (ring_pos_range l). unfold store.
  destruct (Z.leb_spec 0 (pos l)); [|lia]. destruct (Z.ltb_spec (pos l) (Z.of_nat (length buf))); [|lia].
  cbn [andb mbind option_bind]. destruct bs as [|b' bs]; [cbn; by eexists|].
  rewrite <- (ring_pos_add l 1) by (cbn [length] in Hs; lia). apply IH; [by rewrite length_insert|].
  rewrite ring_pos_add by (cbn [length] in Hs; lia). lia.
Qed.

(** Reading the bytes one by one. *)
Definition ring_loads (buf : list Z) (l n : Z) : option (list Z) :=
  mapM (fun v => buf !! Z.to_nat (pos v)) (seqZ l n).

Lemma ring_loads_split buf l n m bs : 0 <= n <= m -> ring_loads buf l m = Some bs ->
  exists b1 b2, ring_loads buf l n = Some b1 /\ ring_loads buf (l + n) (m - n) = Some b2 /\ bs = b1 ++ b2.
Proof.
  unfold ring_loads. intros Hn E. replace m with (n + (m - n)) in E by lia. rewrite seqZ_app in E by lia.
  apply mapM_Some, Forall2_app_inv_l in E as (b1 & b2 & E1%mapM_Some & E2%mapM_Some & ->). by exists b1, b2.
Qed.

Lemma get_bytes_ring n buf l bs :
  pos l + Z.of_nat n <= size -> ring_loads buf l (Z.of_nat n) = Some bs ->
  exists p, get_bytes n buf (pos l) = Some (bs, p).
Proof.
  unfold ring_loads. revert l bs. induction n as [|n IH]; intros l bs Hs; cbn [get_bytes].
  { cbn. intros [= <-]. by eexists. }
  pose proof (ring_pos_range l). rewrite seqZ_cons by lia. cbn [mapM]. intros E.
  apply bind_Some in E as (b & Hb & (bs' & Hbs & [= <-])%bind_Some).
  unfold load. destruct (Z.ltb_spec (pos l) 0); [lia|]. rewrite Hb. cbn [mbind option_bind].
  replace (Z.pred (Z.of_nat (S n))) with (Z.of_nat n) in Hbs by lia.
  destruct n as [|n]; [cbn in *; injection Hbs as <-; by eexists|].
  destruct (IH (Z.succ l) bs') as [p Hp]; [|done|].
  { replace (Z.succ l) with (l + 1) by lia. rewrite ring_pos_add by lia. lia. }
  replace (pos l + 1) with (pos (Z.succ l)); [|rewrite <- ring_pos_add by lia; f_equal; lia].
  rewrite Hp. cbn. by eexists.
Qed.

(** ** The bytes of the log and the bytes of the ring *)

(** Byte [b] was filled at position [l]. *)
Definition upd (l b : Z) (byte : Z -> option Z) : Z -> option Z := fun v => if v =? l then Some b else byte v.

Fixpoint log_fill (l : Z) (bs : list Z) (byte : Z -> option Z) : Z -> option Z :=
  match bs with
  | [] => byte
  | b :: bs => log_fill (l + 1) bs (upd l (u8 b) byte)
  end.

(** Every filled position from [begin] on still has its byte in the ring, and filling
    has not gone further than one ring past [begin] and past [reuse]. *)
Record ring_ok (begin reuse : Z) (buf : list Z) (byte : Z -> option Z) : Prop := {
  ring_length : Z.of_nat (length buf) = size;
  ring_begin : start <= begin;
  ring_byte v b : byte v = Some b -> begin <= v -> buf !! Z.to_nat (pos v) = Some b;
  ring_bound v b : byte v = Some b -> v < begin + size /\ v < reuse + size }.

(** The first readable position may be raised, and the reusable one. *)
Lemma ring_ok_mono begin reuse buf byte begin' reuse' :
  ring_ok begin reuse buf byte -> begin <= begin' -> reuse <= reuse' -> ring_ok begin' reuse' buf byte.
Proof.
  intros [Hl Hb Hat Hbd] H1 H2. split; [done | lia | |]; intros v b Hv.
  - intros ?. apply Hat; [done | lia].
  - destruct (Hbd v b Hv). lia.
Qed.

(** One store: the byte that is lost is no longer readable. *)
Lemma ring_ok_store begin reuse buf byte y b :
  ring_ok begin reuse buf byte -> reuse <= y -> y < begin + size -> y < reuse + size ->
  ring_ok begin reuse (<[Z.to_nat (pos y) := u8 b]> buf) (upd y (u8 b) byte).
Proof.
  intros [Hl Hb Hat Hbd] H1 H2 H3. pose proof (ring_pos_range y).
  split; [by rewrite length_insert | done | |]; intros v c; unfold upd; destruct (Z.eqb_spec v y) as [->|Hne].
  - intros [= <-] _. apply list_lookup_insert_eq. lia.
  - intros Hv Hr. pose proof (ring_pos_range v). destruct (Hbd v c Hv).
    rewrite list_lookup_insert_ne; [by apply Hat|]. intros E.
    assert (pos v = pos y) as E' by lia.
    destruct (Z.lt_total v y) as [Hlt | [-> | Hlt]]; [| done |];
      [pose proof (ring_pos_eq _ _ E' Hlt) | pose proof (ring_pos_eq _ _ (eq_sym E') Hlt)]; lia.
  - intros _. lia.
  - apply Hbd.
Qed.

Lemma ring_ok_stores bs begin reuse buf byte l :
  ring_ok begin reuse buf byte -> reuse <= l ->
  l + Z.of_nat (length bs) <= begin + size -> l + Z.of_nat (length bs) <= reuse + size ->
  ring_ok begin reuse (ring_stores buf l bs) (log_fill l bs byte).
Proof.
  revert buf byte l. induction bs as [|b bs IH]; intros buf byte l R H1 H2 H3; cbn [ring_stores log_fill length] in *;
    [done|].
  apply IH; [apply ring_ok_store; [done | lia ..] | lia ..].
Qed.

(** After a truncation at [r] nothing is filled from there on. *)
Lemma ring_ok_truncate begin reuse buf byte r :
  ring_ok begin reuse buf byte -> ring_ok (Z.max begin r) r buf (fun v => if v <? r then byte v else None).
Proof.
  intros [Hl Hb Hat Hbd]. split; [done | lia | |]; intros v b; cbn; destruct (Z.ltb_spec v r); try done.
  - intros. apply Hat; [done | lia].
  - intros Hv. destruct (Hbd v b Hv). lia.
Qed.

(** Filled positions are read back. *)
Lemma ring_ok_loads begin reuse buf byte l n bs :
  ring_ok begin reuse buf byte -> begin <= l -> mapM byte (seqZ l n) = Some bs ->
  ring_loads buf l n = Some bs.
Proof.
  intros [_ _ Hat _] Hl. unfold ring_loads. rewrite !mapM_Some. intros F.
  apply Forall2_same_length_lookup_2; [by eapply Forall2_length|]. intros i v b Hi Hb.
  apply Hat; [by eapply (Forall2_lookup_lr _ _ _ _ _ _ F)|]. apply lookup_seqZ in Hi. lia.
Qed.

Lemma ring_ok_loads_bound begin reuse buf byte l n bs :
  ring_ok begin reuse buf byte -> begin <= l -> 0 < n -> mapM byte (seqZ l n) = Some bs -> n <= size.
Proof.
  intros R Hl Hn E. apply mapM_Some in E.
  destruct (Forall2_lookup_l _ _ _ (Z.to_nat (n - 1)) (l + (n - 1)) E) as (b & _ & Hb).
  { rewrite lookup_seqZ. lia. }
  apply (ring_bound _ _ _ _ R) in Hb. lia.
Qed.
End ring.

#[local] Opaque FOLLOWER_DEFAULT_GROUP_BUFFER_SIZE LEADER_DEFAULT_GROUP_BUFFER_SIZE.

Lemma group_buffer_sizes :
  0 < LEADER_DEFAULT_GROUP_BUFFER_SIZE < FOLLOWER_DEFAULT_GROUP_BUFFER_SIZE /\ FOLLOWER_DEFAULT_GROUP_BUFFER_SIZE < 2 ^ 62.
Proof. by vm_compute. Qed.

(** *** Positions in range *)

Definition lsn_range (l : Z) : bool := (0 <=? l) && (l <? 2 ^ 62).
Definition len_range (n : Z) : bool := (- 2 ^ 62 <? n) && (n <? 2 ^ 62).

Lemma lsn_rangeP l : lsn_range l = true <-> 0 <= l < 2 ^ 62.
Proof. unfold lsn_range. rewrite andb_true_iff, Z.leb_le, Z.ltb_lt. done. Qed.
Lemma len_rangeP n : len_range n = true <-> - 2 ^ 62 < n < 2 ^ 62.
Proof. unfold len_range. rewrite andb_true_iff, !Z.ltb_lt. done. Qed.

Lemma lsn_add_id l n : 0 <= l + n < 2 ^ 63 -> lsn_add l n = l + n.
Proof. intros. apply to_u_id. unfold is_u. lia. Qed.
Lemma lsn_sub_id l n : 0 <= l - n < 2 ^ 63 -> lsn_sub l n = l - n.
Proof. intros. apply to_u_id. unfold is_u. lia. Qed.
Lemma lsn_diff_id a b : 0 <= a - b < 2 ^ 63 -> s64 (lsn_diff a b) = a - b.
Proof.
  intros. unfold lsn_diff. rewrite to_u_id by (unfold is_u; lia). apply to_s_id; [lia|]. unfold is_s. lia.
Qed.
Lemma lsn_is_valid_id l : 0 <= l < 2 ^ 62 -> lsn_is_valid l = true.
Proof.
  intros. unfold lsn_is_valid. apply negb_true_iff, Z.eqb_neq. change LOG_INVALID_LSN_VAL with (2 ^ 64 - 1). lia.
Qed.
Lemma inc_update_max v x : inc_update v x = Z.max v x.
Proof. unfold inc_update. destruct (Z.ltb_spec v x); lia. Qed.

Section memory.
Import LogGroupBuffer.
Context (s : t) (bytes : list Z).
Context (Hi : is_inited_ s = true) (Hb : data_buf_ s = Some bytes).
Context (Hs : 0 < reserved_buffer_size_ s) (Hl : Z.of_nat (length bytes) = reserved_buffer_size_ s).
Context (H0 : 0 <= start_lsn_ s).
Local Abbreviation start := (start_lsn_ s).
Local Abbreviation size := (reserved_buffer_size_ s).

Lemma get_buffer_pos_ok l old : start <= l -> l < 2 ^ 62 ->
  get_buffer_pos_ l old s = Some (OB_SUCCESS, ring_pos start size l).
Proof.
  clear Hb Hl. intros Hle Hlt. unfold get_buffer_pos_. rewrite Hi, lsn_is_valid_id by lia. cbn [negb]. unfold lsn_lt.
  destruct (Z.ltb_spec l start); [lia|]. rewrite lsn_diff_id by lia.
  destruct (Z.leb_spec 0 (l - start)); [|lia]. destruct (Z.eqb_spec size 0); [lia|]. cbn [negb].
  by rewrite Z.rem_mod_nonneg by lia.
Qed.

(** [fill_] stores every byte at the index of its position. *)
Lemma fill_ok l data n : 0 <= n <= size -> n <= Z.of_nat (length data) ->
  fill_ (ring_pos start size l) data n s =
  Some (OB_SUCCESS, set_data_buf (Some (ring_stores start size bytes l (take (Z.to_nat n) data))) s).
Proof.
  clear Hi H0.
  intros Hn Hd. unfold fill_. pose proof (ring_pos_range start size Hs l) as Hp.
  set (first := Z.min (size - ring_pos start size l) n).
  unfold store_at, memcpy. rewrite Hb. cbn [mbind option_bind].
  destruct (Z.ltb_spec (Z.of_nat (length data)) first); [lia|].
  destruct (put_bytes_ring start size Hs (take (Z.to_nat first) data) bytes l Hl) as [p ->].
  { rewrite length_take. lia. }
  cbn [mbind option_bind]. destruct (Z.ltb_spec first n) as [Hw|Hw]; cbn [data_buf_ set_data_buf mbind option_bind].
  - unfold ptr_add. rewrite length_drop. destruct (Z.ltb_spec (Z.of_nat (length data - Z.to_nat first)) (n - first)); [lia|].
    assert (ring_pos start size (l + first) = 0) as E by (rewrite ring_pos_wrap; lia). rewrite <- E at 1.
    destruct (put_bytes_ring start size Hs (take (Z.to_nat (n - first)) (drop (Z.to_nat first) data))
                (ring_stores start size bytes l (take (Z.to_nat first) data)) (l + first)) as [q ->].
    { by rewrite length_ring_stores. }
    { rewrite E, length_take, length_drop. lia. }
    cbn [mbind option_bind].
    replace (Z.to_nat n) with (Z.to_nat first + Z.to_nat (n - first))%nat by lia.
    rewrite <- take_take_drop, ring_stores_app, length_take.
    by replace (Z.of_nat (Z.to_nat first `min` length data)) with first by lia.
  - replace first with n by lia. done.
Qed.

(** The two copies of [read_data] are a load from the index of each position. *)
Lemma copy_out_ok l n bs : 0 <= n <= size -> ring_loads start size bytes l n = Some bs ->
  copy_out bytes (ring_pos start size l) n size = Some bs.
Proof.
  clear Hi H0 Hb.
  intros Hn E. unfold copy_out. pose proof (ring_pos_range start size Hs l) as Hp.
  set (first := Z.min (size - ring_pos start size l) n).
  apply (ring_loads_split _ _ _ _ first) in E as (b1 & b2 & E1 & E2 & ->); [|lia].
  destruct (get_bytes_ring start size Hs (Z.to_nat first) bytes l b1) as [p ->]; [lia | by rewrite Z2Nat.id by lia |].
  cbn [mbind option_bind]. destruct (Z.ltb_spec first n) as [Hw|Hw].
  - assert (ring_pos start size (l + first) = 0) as Ez by (rewrite ring_pos_wrap; lia). rewrite <- Ez.
    destruct (get_bytes_ring start size Hs (Z.to_nat (n - first)) bytes (l + first) b2) as [q ->];
      [lia | by rewrite Z2Nat.id by lia | done].
  - replace (n - first) with 0 in E2 by lia. injection E2 as <-. by rewrite app_nil_r.
Qed.
End memory.

(** ** The unbounded log *)

(** What a group buffer stands for: the bytes filled so far, those that can still be
    read, [l_begin] on, and those that are flushed, up to [l_end]. *)
Record log := mk_log {
  l_start : Z; l_begin : Z; l_end : Z; l_size : Z; l_avail : Z; l_byte : Z -> option Z }.

Definition empty_log (start : Z) : log :=
  mk_log start start start FOLLOWER_DEFAULT_GROUP_BUFFER_SIZE FOLLOWER_DEFAULT_GROUP_BUFFER_SIZE (fun _ => None).

Inductive op :=
| Fill (lsn : Z) (data : buffer) (data_len : Z)
| FillPaddingBody (lsn : Z) (data : list Z) (data_len log_body_size : Z)
| IncUpdateReuse (lsn : Z)
| IncUpdateReadable (lsn : Z)
| Truncate (lsn : Z)
| ToLeader
| ToFollower
| CanHandle (lsn total_len ref_reuse_lsn : Z)
| ReadData (lsn in_read_size : Z)
| GetLogBuf (buf_addr lsn total_len : Z).

Inductive result :=
| RCode (ret : Z)
| RBool (b : bool)
| RData (ret : Z) (data : list Z) (out_read_size : Z).

(** The memory of a buffer at address [buf_addr]. *)
Definition mem_of (buf_addr : Z) (buf : buffer) : Z -> Z :=
  fun a => default 0 (bytes ← buf; bytes !! Z.to_nat (a - buf_addr)).

(** The operations of the code. *)
Definition run_op (o : op) (s : LogGroupBuffer.t) : outcome (result * LogGroupBuffer.t) :=
  let coded '(ret, s) := (RCode ret, s) in
  match o with
  | Fill lsn data data_len => coded <$> LogGroupBuffer.fill lsn data data_len s
  | FillPaddingBody lsn data data_len log_body_size =>
      coded <$> LogGroupBuffer.fill_padding_body lsn data data_len log_body_size s
  | IncUpdateReuse lsn => Some (coded (LogGroupBuffer.inc_update_reuse_lsn lsn s))
  | IncUpdateReadable lsn => Some (coded (LogGroupBuffer.inc_update_readable_begin_lsn lsn s))
  | Truncate lsn => Some (coded (LogGroupBuffer.truncate lsn s))
  | ToLeader => Some (coded (LogGroupBuffer.to_leader s))
  | ToFollower => Some (coded (LogGroupBuffer.to_follower s))
  | CanHandle lsn total_len ref => Some (RBool (LogGroupBuffer.can_handle_new_log_ref lsn total_len ref s), s)
  | ReadData lsn n =>
      '(ret, data, out) ← LogGroupBuffer.read_data lsn n false 0 (LogGroupBuffer.readable_begin_lsn_ s) s;
      Some (RData ret data out, s)
  | GetLogBuf buf_addr lsn n =>
      '(ret, wb) ← LogGroupBuffer.get_log_buf (fun _ => OB_SUCCESS) buf_addr lsn n LogWriteBuf.reset s;
      Some (RData ret (LogWriteBuf.content (mem_of buf_addr (LogGroupBuffer.data_buf_ s)) wb)
                  (LogWriteBuf.get_total_size wb), s)
  end.

Definition l_can_fill (l e : Z) (L : log) : Z :=
  if l <? l_start L then OB_ERR_UNEXPECTED
  else if e <=? l_end L then OB_ERR_UNEXPECTED
  else if l_end L + l_avail L <? e then OB_EAGAIN
  else OB_SUCCESS.

Definition l_fill (l e : Z) (bs : list Z) (L : log) : log :=
  mk_log (l_start L) (Z.max (l_begin L) (e - l_size L)) (l_end L) (l_size L) (l_avail L) (log_fill l bs (l_byte L)).

(** The same operations on the log; [None] where the caller breaks a rule: positions are
    below 2^62, what is filled is not flushed yet and the data is there, and only
    filled bytes are read. *)
Definition spec_op (o : op) (L : log) : option (result * log) :=
  match o with
  | Fill l data n =>
      guard (lsn_range l = true /\ len_range n = true);;
      match data with
      | None => Some (RCode OB_INVALID_ARGUMENT, L)
      | Some data =>
          if n <=? 0 then Some (RCode OB_INVALID_ARGUMENT, L)
          else if ob_fail (l_can_fill l (l + n) L) then Some (RCode (l_can_fill l (l + n) L), L)
          else
            guard (l_end L <= l /\ n <= Z.of_nat (length data));;
            Some (RCode OB_SUCCESS, l_fill l (l + n) (take (Z.to_nat n) data) L)
      end
  | FillPaddingBody l data n body =>
      guard (lsn_range l = true /\ len_range body = true);;
      if body <=? 0 then Some (RCode OB_INVALID_ARGUMENT, L)
      else if ob_fail (l_can_fill l (l + body) L) then Some (RCode (l_can_fill l (l + body) L), L)
      else
        guard (l_end L <= l /\ n <= Z.of_nat (length data) /\ 0 <= n <= body);;
        Some (RCode OB_SUCCESS,
              l_fill l (l + body) (take (Z.to_nat n) data)
                (l_fill l (l + body) (replicate (Z.to_nat body) PADDING_LOG_CONTENT_CHAR) L))
  | IncUpdateReuse r =>
      guard (lsn_range r = true);;
      Some (RCode OB_SUCCESS, mk_log (l_start L) (l_begin L) (Z.max (l_end L) r) (l_size L) (l_avail L) (l_byte L))
  | IncUpdateReadable r =>
      guard (lsn_range r = true);;
      Some (RCode OB_SUCCESS, mk_log (l_start L) (Z.max (l_begin L) r) (l_end L) (l_size L) (l_avail L) (l_byte L))
  | Truncate r =>
      guard (lsn_range r = true);;
      if r <? l_start L then Some (RCode OB_INVALID_ARGUMENT, L)
      else Some (RCode OB_SUCCESS, mk_log (l_start L) (Z.max (l_begin L) r) r (l_size L) (l_avail L)
                                     (fun v => if v <? r then l_byte L v else None))
  | ToLeader =>
      if LEADER_DEFAULT_GROUP_BUFFER_SIZE =? l_avail L then Some (RCode OB_STATE_NOT_MATCH, L)
      else Some (RCode OB_SUCCESS, mk_log (l_start L) (l_begin L) (l_end L) (l_size L)
                                     LEADER_DEFAULT_GROUP_BUFFER_SIZE (l_byte L))
  | ToFollower =>
      Some (RCode OB_SUCCESS, mk_log (l_start L) (l_begin L) (l_end L) (l_size L)
                                FOLLOWER_DEFAULT_GROUP_BUFFER_SIZE (l_byte L))
  | CanHandle l n ref =>
      guard (lsn_range l = true /\ lsn_range ref = true /\ len_range n = true);;
      Some (RBool ((0 <? n) && (l_start L <=? l) && (l + n <=? Z.min (l_end L) ref + l_avail L)), L)
  | ReadData l n =>
      guard (lsn_range l = true);;
      if n <=? 0 then Some (RData OB_INVALID_ARGUMENT [] 0, L)
      else if l <? l_begin L then Some (RData OB_ERR_OUT_OF_LOWER_BOUND [] 0, L)
      else if l_end L <=? l then Some (RData OB_SUCCESS [] 0, L)
      else
        data ← mapM (l_byte L) (seqZ l (Z.min (l_end L - l) n));
        Some (RData OB_SUCCESS data (Z.of_nat (length data)), L)
  | GetLogBuf buf_addr l n =>
      guard (lsn_range l = true /\ 0 < buf_addr);;
      if n <=? 0 then Some (RData OB_INVALID_ARGUMENT [] 0, L)
      else if l <? l_start L then Some (RData OB_INVALID_ARGUMENT [] 0, L)
      else
        guard (l_begin L <= l);;
        data ← mapM (l_byte L) (seqZ l n);
        Some (RData OB_SUCCESS data (Z.of_nat (length data)), L)
  end.

(** A sequence of operations, with their results. *)
Definition run_ops {S} (f : op -> S -> option (result * S)) : list op -> S -> option (list result * S) :=
  fix go os s :=
    match os with
    | [] => Some ([], s)
    | o :: os => '(r, s) ← f o s; '(rs, s) ← go os s; Some (r :: rs, s)
    end.

Record refines (s : LogGroupBuffer.t) (L : log) : Prop := {
  ref_inited : LogGroupBuffer.is_inited_ s = true;
  ref_start : LogGroupBuffer.start_lsn_ s = l_start L;
  ref_begin : LogGroupBuffer.readable_begin_lsn_ s = l_begin L;
  ref_end : LogGroupBuffer.reuse_lsn_ s = l_end L;
  ref_size : LogGroupBuffer.reserved_buffer_size_ s = l_size L;
  ref_avail : LogGroupBuffer.available_buffer_size_ s = l_avail L;
  ref_bounds : 0 <= l_start L <= l_end L /\ l_end L < 2 ^ 62 /\ l_begin L < 2 ^ 62 /\
               l_size L = FOLLOWER_DEFAULT_GROUP_BUFFER_SIZE /\ 0 <= l_avail L <= l_size L;
  ref_ring : exists bytes, LogGroupBuffer.data_buf_ s = Some bytes /\
             ring_ok (l_start L) (l_size L) (l_begin L) (l_end L) bytes (l_byte L) }.

Ltac guarded H Hg := apply bind_Some in H as (Hg & _ & H).

Section simulation.
Import LogGroupBuffer.
Context (s : t) (L : log) (R : refines s L).

(** The tests of [fill] are those on the log, with the index to fill at. *)
Lemma fill_checks_ok l n :
  0 <= l < 2 ^ 62 -> 0 < n < 2 ^ 62 -> exists p,
    fill_checks l (lsn_add l n) s = Some (l_can_fill l (l + n) L, p) /\
    (ob_fail (l_can_fill l (l + n) L) = false -> p = ring_pos (l_start L) (l_size L) l).
Proof using R.
  intros Hl Hn. unfold fill_checks, l_can_fill. rewrite (ref_start _ _ R), (ref_end _ _ R), (ref_avail _ _ R).
  destruct (ref_bounds _ _ R) as (? & ? & ? & Hsz & ?). pose proof group_buffer_sizes.
  destruct (ref_ring _ _ R) as (bytes & Hb & Hring).
  rewrite !lsn_add_id by lia. unfold lsn_lt, lsn_le, lsn_gt, lsn_lt, lsn_eq.
  destruct (Z.ltb_spec l (l_start L)); [eexists; split; [done | discriminate]|].
  replace ((l + n <? l_end L) || (l_end L =? l + n)) with (l + n <=? l_end L)
    by (destruct (Z.leb_spec (l + n) (l_end L)), (Z.ltb_spec (l + n) (l_end L)), (Z.eqb_spec (l_end L) (l + n)); lia || done).
  destruct (Z.leb_spec (l + n) (l_end L)); [eexists; split; [done | discriminate]|].
  destruct (Z.ltb_spec (l_end L + l_avail L) (l + n)); [eexists; split; [done | discriminate]|].
  eexists. rewrite get_buffer_pos_ok; [split; [done|] | ..]; rewrite ?(ref_start _ _ R), ?(ref_size _ _ R);
    [done | apply (ref_inited _ _ R) | lia ..].
Qed.

Definition l_raise (x : Z) (L : log) : log :=
  mk_log (l_start L) (Z.max (l_begin L) x) (l_end L) (l_size L) (l_avail L) (l_byte L).

Lemma raise_refines x : x < 2 ^ 62 -> refines (inc_update_readable_begin_lsn_ x s) (l_raise x L).
Proof using R.
  intros Hx. destruct R as [? ? Hb ? ? ? Hbd (bytes & ? & Hr)]. unfold inc_update_readable_begin_lsn_.
  split; cbn; try done.
  - by rewrite inc_update_max, Hb.
  - split_and!; lia || apply Hbd.
  - exists bytes. split; [done|]. apply (ring_ok_mono _ _ _ _ _ _ _ _ Hr); lia.
Qed.

(** What [fill] raises the first readable position to. *)
Lemma gen_readable_ok e : 0 <= e < 2 ^ 63 ->
  Z.max (l_begin L) (gen_readable_begin_lsn_for_filling_ e s) = Z.max (l_begin L) (e - l_size L).
Proof using R.
  intros He. destruct (ref_bounds _ _ R) as (Hst & ? & ? & Hsz & ?). pose proof group_buffer_sizes.
  destruct (ref_ring _ _ R) as (bytes & _ & [_ Hb _ _]).
  unfold gen_readable_begin_lsn_for_filling_. rewrite (ref_size _ _ R), to_u_id by (unfold is_u; lia).
  destruct (Z.leb_spec (l_size L) e); [rewrite lsn_sub_id by lia|]; lia.
Qed.

(** Storing bytes that fit: the log has them. *)
Lemma fill_refines l data n :
  l_end L <= l -> 0 <= n <= Z.of_nat (length data) -> l + n <= l_begin L + l_size L -> l + n <= l_end L + l_size L ->
  exists s', fill_ (ring_pos (l_start L) (l_size L) l) data n s = Some (OB_SUCCESS, s') /\
    refines s' (mk_log (l_start L) (l_begin L) (l_end L) (l_size L) (l_avail L)
                  (log_fill l (take (Z.to_nat n) data) (l_byte L))).
Proof using R.
  intros Hl Hn H1 H2. destruct R as [? Hst Hb ? Hsz ? Hbd (bytes & Hbuf & Hr)]. destruct Hbd as (? & ? & ? & Hf & ?).
  pose proof group_buffer_sizes. eexists. rewrite <- Hst, <- Hsz. split.
  - apply fill_ok; [done | rewrite Hsz; lia | rewrite Hsz; apply Hr | lia | lia].
  - rewrite Hst, Hsz. split; cbn; try done. eexists. split; [done|].
    apply ring_ok_stores; [lia | done | done | rewrite length_take; lia ..].
Qed.
End simulation.

Section operations.
Import LogGroupBuffer.
Context (s : t) (L : log) (R : refines s L).

Lemma raise_fill_refines l e data n :
  0 <= e < 2 ^ 62 + 2 ^ 62 -> l_end L <= l -> 0 <= n <= Z.of_nat (length data) -> l + n <= e -> e <= l_end L + l_size L ->
  exists s', fill_ (ring_pos (l_start L) (l_size L) l) data n
      (inc_update_readable_begin_lsn_ (gen_readable_begin_lsn_for_filling_ e s) s) = Some (OB_SUCCESS, s') /\
    refines s' (l_fill l e (take (Z.to_nat n) data) L).
Proof using R.
  intros He Hl Hn Hle Hb. pose proof (gen_readable_ok s L R e) as Hg.
  destruct (ref_bounds _ _ R) as (? & ? & ? & Hsz & ?). pose proof group_buffer_sizes.
  destruct (fill_refines _ _ (raise_refines s L R (gen_readable_begin_lsn_for_filling_ e s)
    ltac:(lia)) l data n) as (s' & E & R'); cbn in *; [lia ..|].
  exists s'. split; [done|]. rewrite Hg in R' by lia. apply R'.
Qed.

Lemma l_can_fill_ok l e : ob_fail (l_can_fill l e L) = false ->
  l_can_fill l e L = OB_SUCCESS /\ l_start L <= l /\ l_end L < e <= l_end L + l_avail L.
Proof.
  unfold l_can_fill. destruct (Z.ltb_spec l (l_start L)); [done|]. destruct (Z.leb_spec e (l_end L)); [done|].
  destruct (Z.ltb_spec (l_end L + l_avail L) e); [done|]. intros _. split; [done | lia].
Qed.

Lemma fill_sim l data n r L' :
  spec_op (Fill l data n) L = Some (r, L') -> exists s', run_op (Fill l data n) s = Some (r, s') /\ refines s' L'.
Proof using R.
  cbn [spec_op run_op]. intros E. guarded E Hg. destruct Hg as [Hl%lsn_rangeP Hn%len_rangeP].
  unfold fill. rewrite (ref_inited _ _ R), lsn_is_valid_id by done. cbn [negb orb].
  destruct data as [data|]; [|injection E as <- <-; by eexists].
  destruct (Z.leb_spec n 0); [injection E as <- <-; by eexists|].
  destruct (fill_checks_ok s L R l n) as (p & -> & Hp); [lia .. |]. cbn [mbind option_bind].
  destruct (ob_fail (l_can_fill l (l + n) L)) eqn:Hf; [injection E as <- <-; by eexists|].
  guarded E Hg. destruct Hg as [He Hd]. injection E as <- <-. rewrite (Hp eq_refl).
  apply l_can_fill_ok in Hf as (_ & ? & ?). destruct (ref_bounds _ _ R) as (? & ? & ? & Hsz & ?).
  rewrite lsn_add_id by lia.
  destruct (raise_fill_refines l (l + n) data n) as (s' & -> & R'); [lia ..|]. by exists s'.
Qed.

Lemma l_fill_again l e bs cs L0 :
  l_fill l e cs (l_fill l e bs L0) =
  mk_log (l_start L0) (Z.max (l_begin L0) (e - l_size L0)) (l_end L0) (l_size L0) (l_avail L0)
    (log_fill l cs (log_fill l bs (l_byte L0))).
Proof. unfold l_fill. cbn. f_equal. lia. Qed.

Lemma fill_padding_sim l data n body r L' :
  spec_op (FillPaddingBody l data n body) L = Some (r, L') ->
  exists s', run_op (FillPaddingBody l data n body) s = Some (r, s') /\ refines s' L'.
Proof using R.
  cbn [spec_op run_op]. intros E. guarded E Hg. destruct Hg as [Hl%lsn_rangeP Hn%len_rangeP].
  unfold fill_padding_body. rewrite (ref_inited _ _ R), lsn_is_valid_id by done. cbn [negb orb].
  destruct (Z.leb_spec body 0); [injection E as <- <-; by eexists|].
  destruct (fill_checks_ok s L R l body) as (p & -> & Hp); [lia .. |]. cbn [mbind option_bind].
  destruct (ob_fail (l_can_fill l (l + body) L)) eqn:Hf; [injection E as <- <-; by eexists|].
  guarded E Hg. destruct Hg as (He & Hd & Hnb). injection E as <- <-. rewrite (Hp eq_refl).
  apply l_can_fill_ok in Hf as (_ & ? & ?). destruct (ref_bounds _ _ R) as (? & ? & ? & Hsz & ?).
  rewrite lsn_add_id, l_fill_again by lia.
  destruct (raise_fill_refines l (l + body) (replicate (Z.to_nat body) PADDING_LOG_CONTENT_CHAR) body)
    as (s1 & -> & R1); [lia | lia | rewrite length_replicate; lia | lia | lia |].
  cbn [mbind option_bind]. destruct (fill_refines s1 _ R1 l data n) as (s' & E' & R'); cbn in *; [lia ..|].
  rewrite E'. exists s'. split; [done|]. by rewrite (take_ge (replicate _ _)) in R' by (rewrite length_replicate; lia).
Qed.

Lemma reuse_sim r res L' :
  spec_op (IncUpdateReuse r) L = Some (res, L') ->
  exists s', run_op (IncUpdateReuse r) s = Some (res, s') /\ refines s' L'.
Proof using R.
  cbn [spec_op run_op]. intros E. guarded E Hr. apply lsn_rangeP in Hr. injection E as <- <-.
  unfold inc_update_reuse_lsn. rewrite lsn_is_valid_id by done. cbn [negb]. eexists. split; [done|].
  destruct R as [? ? ? He ? ? Hbd (bytes & ? & Hring)]. unfold lsn_gt, lsn_lt. rewrite He.
  assert (ring_ok (l_start L) (l_size L) (l_begin L) (Z.max (l_end L) r) bytes (l_byte L))
    by (apply (ring_ok_mono _ _ _ _ _ _ _ _ Hring); lia).
  destruct (Z.ltb_spec (l_end L) r); split; cbn; try done; try (split_and!; lia || apply Hbd); try lia; by exists bytes.
Qed.

Lemma readable_sim r res L' :
  spec_op (IncUpdateReadable r) L = Some (res, L') ->
  exists s', run_op (IncUpdateReadable r) s = Some (res, s') /\ refines s' L'.
Proof using R.
  cbn [spec_op run_op]. intros E. guarded E Hr. apply lsn_rangeP in Hr. injection E as <- <-.
  unfold inc_update_readable_begin_lsn. rewrite lsn_is_valid_id by done. cbn [negb]. eexists. split; [done|].
  apply (raise_refines s L R). lia.
Qed.

Lemma truncate_sim r res L' :
  spec_op (Truncate r) L = Some (res, L') ->
  exists s', run_op (Truncate r) s = Some (res, s') /\ refines s' L'.
Proof using R.
  cbn [spec_op run_op]. intros E. guarded E Hr. apply lsn_rangeP in Hr.
  unfold truncate. rewrite lsn_is_valid_id, (ref_start _ _ R) by done. cbn [negb]. unfold lsn_lt.
  destruct (Z.ltb_spec r (l_start L)); injection E as <- <-; [by eexists|]. eexists. split; [done|].
  destruct R as [? ? Hb ? ? ? Hbd (bytes & ? & Hring)].
  split; cbn; try done; [by rewrite inc_update_max, Hb | split_and!; lia || apply Hbd|]. exists bytes. split; [done|].
  pose proof group_buffer_sizes. eapply ring_ok_truncate; [lia | done].
Qed.

Lemma role_sim o res L' : o = ToLeader \/ o = ToFollower ->
  spec_op o L = Some (res, L') -> exists s', run_op o s = Some (res, s') /\ refines s' L'.
Proof using R.
  pose proof group_buffer_sizes. intros [-> | ->]; cbn [spec_op run_op]; [unfold to_leader | unfold to_follower];
    rewrite (ref_inited _ _ R), (ref_avail _ _ R); cbn [negb]; intros E.
  - destruct (Z.eqb_spec LEADER_DEFAULT_GROUP_BUFFER_SIZE (l_avail L)); injection E as <- <-; [by eexists|].
    eexists. split; [done|]. destruct R as [? ? ? ? ? ? Hbd ?]. split; cbn; try done. split_and!; lia || apply Hbd.
  - injection E as <- <-. destruct (Z.eqb_spec FOLLOWER_DEFAULT_GROUP_BUFFER_SIZE (l_avail L));
      (eexists; split; [done|]); destruct R as [? ? ? ? ? ? Hbd ?]; split; cbn; try done; try lia; split_and!; lia || apply Hbd.
Qed.

Lemma can_handle_sim l n ref res L' :
  spec_op (CanHandle l n ref) L = Some (res, L') ->
  exists s', run_op (CanHandle l n ref) s = Some (res, s') /\ refines s' L'.
Proof using R.
  cbn [spec_op run_op]. intros E. guarded E Hg. destruct Hg as (Hl%lsn_rangeP & Hr%lsn_rangeP & Hn%len_rangeP).
  injection E as <- <-. eexists. split; [|apply R]. do 3 f_equal.
  destruct (ref_bounds _ _ R) as (? & ? & ? & Hsz & ?). pose proof group_buffer_sizes.
  unfold can_handle_new_log_ref, lsn_gt, lsn_lt. rewrite !lsn_is_valid_id by done.
  rewrite (ref_inited _ _ R), (ref_start _ _ R), (ref_end _ _ R), (ref_avail _ _ R). cbn [negb orb].
  rewrite orb_false_r. replace (if l_end L <? ref then l_end L else ref) with (Z.min (l_end L) ref)
    by (destruct (Z.ltb_spec (l_end L) ref); lia).
  rewrite (lsn_add_id (Z.min (l_end L) ref)) by lia.
  destruct (Z.leb_spec n 0), (Z.ltb_spec 0 n); try (lia || done).
  destruct (Z.ltb_spec l (l_start L)), (Z.leb_spec (l_start L) l); try (lia || done). cbn [andb].
  rewrite lsn_add_id by lia. rewrite Z.leb_antisym.
  destruct (Z.min (l_end L) ref + l_avail L <? l + n); done.
Qed.

Lemma read_sim l n res L' :
  spec_op (ReadData l n) L = Some (res, L') ->
  exists s', run_op (ReadData l n) s = Some (res, s') /\ refines s' L'.
Proof using R.
  cbn [spec_op run_op]. intros E. guarded E Hl. apply lsn_rangeP in Hl.
  destruct (ref_bounds _ _ R) as (? & ? & ? & Hsz & ?). pose proof group_buffer_sizes.
  destruct (ref_ring _ _ R) as (bytes & Hb & Hring). pose proof (ring_begin _ _ _ _ _ _ Hring).
  unfold read_data. rewrite lsn_is_valid_id, orb_false_r by done. cbn [negb orb].
  destruct (Z.leb_spec n 0); [injection E as <- <-; by eexists|].
  destruct (Z.lt_ge_cases l (l_start L)) as [Hs|Hs].
  { unfold get_buffer_pos_, lsn_lt. rewrite (ref_inited _ _ R), (ref_start _ _ R), lsn_is_valid_id by done. cbn [negb].
    rewrite (proj2 (Z.ltb_lt _ _) Hs). rewrite (proj2 (Z.ltb_lt l (l_begin L))) in E by lia. injection E as <- <-. by eexists. }
  rewrite get_buffer_pos_ok; [| apply (ref_inited _ _ R) | rewrite (ref_size _ _ R); lia
    | rewrite ?(ref_start _ _ R); lia .. ].
  cbn [mbind option_bind]. change (ob_fail OB_SUCCESS) with false. cbv iota.
  rewrite (ref_start _ _ R), (ref_size _ _ R), (ref_begin _ _ R), (ref_end _ _ R). unfold lsn_lt, lsn_gt, lsn_lt.
  destruct (Z.ltb_spec l (l_begin L)); [injection E as <- <-; by eexists|].
  rewrite Z.leb_antisym in E. destruct (Z.ltb_spec l (l_end L)); [|injection E as <- <-; by eexists].
  cbn [negb] in E. apply bind_Some in E as (data & Hd & [= <- <-]).
  rewrite lsn_diff_id, Hb by lia. cbn [mbind option_bind].
  assert (Z.min (l_end L - l) n <= l_size L) by (eapply ring_ok_loads_bound; [done | done | lia | done]).
  assert (ring_loads (l_start L) (l_size L) bytes l (Z.min (l_end L - l) n) = Some data) as Hld
    by by eapply ring_ok_loads.
  pose proof (ring_length _ _ _ _ _ _ Hring) as Hlen. rewrite <- (ref_size _ _ R), <- (ref_start _ _ R) in Hld |- *.
  rewrite (copy_out_ok s bytes) with (bs := data); [| rewrite (ref_size _ _ R); lia .. | done].
  cbn [mbind option_bind]. destruct (Z.ltb_spec l (l_begin L)); [lia|]. eexists. split; [|done]. do 3 f_equal.
  apply mapM_Some, Forall2_length in Hd. rewrite length_seqZ in Hd. lia.
Qed.

(** The two pieces are a load from the index of each position. *)
Lemma ring_mem_block bytes addr l n bs :
  0 < l_size L -> 0 <= n -> ring_pos (l_start L) (l_size L) l + n <= l_size L ->
  ring_loads (l_start L) (l_size L) bytes l n = Some bs ->
  mem_block (mem_of addr (Some bytes)) (addr + ring_pos (l_start L) (l_size L) l) n = bs.
Proof.
  intros Hs Hn Hle E. pose proof (ring_pos_range (l_start L) _ Hs l). apply mapM_Some in E.
  pose proof (Forall2_length _ _ _ E) as Hlen. rewrite length_seqZ in Hlen. apply list_eq. intros i.
  unfold mem_block. rewrite list_lookup_fmap. destruct (decide (i < length bs)%nat) as [Hi|Hi].
  - destruct (lookup_lt_is_Some_2 bs i Hi) as [b Hbi]. rewrite Hbi.
    destruct (Forall2_lookup_r _ _ _ _ _ E Hbi) as (v & [-> ?]%lookup_seqZ & Hv).
    rewrite (proj2 (lookup_seqZ _ _ i (addr + ring_pos (l_start L) (l_size L) l + Z.of_nat i))) by lia.
    cbn. f_equal. unfold mem_of. rewrite ring_pos_add in Hv by lia. cbn.
    replace (addr + ring_pos (l_start L) (l_size L) l + Z.of_nat i - addr)
      with (ring_pos (l_start L) (l_size L) l + Z.of_nat i) by lia. by rewrite Hv.
  - rewrite (lookup_ge_None_2 bs), (lookup_ge_None_2 (seqZ _ _)); [done | rewrite length_seqZ; lia | lia].
Qed.

Lemma push_piece mem addr n wb : addr <> 0 -> 0 < n -> exists wb',
  LogWriteBuf.push_back (fun _ => OB_SUCCESS) addr n wb = (OB_SUCCESS, wb ++ wb') /\
  LogWriteBuf.content mem wb' = mem_block mem addr n /\ Forall (fun i => 0 <= LogWriteBuf.buf_len_ i) wb' /\
  (n <= MAX_LOG_BUFFER_SIZE -> length wb' = 1%nat).
Proof.
  intros Ha Hn. destruct (Z.le_gt_cases n MAX_LOG_BUFFER_SIZE).
  - rewrite push_back_small by (done || lia). eexists. split; [done|]. rewrite content_one. split; [done|].
    rewrite Forall_singleton. cbn. split; [lia | done].
  - destruct (push_back_content mem (fun _ => OB_SUCCESS) addr n wb) as (wb' & -> & Hc & Hf); [done .. |].
    exists wb'. split_and!; [done | done | | lia]. eapply Forall_impl; [apply Hf|]. cbn. lia.
Qed.

(** [get_log_buf] finds the bytes of the log; a log of ordinary size is in two pieces at
    most. *)
Lemma get_log_buf_content addr bytes l n data :
  data_buf_ s = Some bytes -> 0 < addr -> l_start L <= l < 2 ^ 62 -> 0 < n <= l_size L ->
  ring_loads (l_start L) (l_size L) bytes l n = Some data ->
  exists wb, get_log_buf (fun _ => OB_SUCCESS) addr l n LogWriteBuf.reset s = Some (OB_SUCCESS, wb) /\
    LogWriteBuf.content (mem_of addr (Some bytes)) wb = data /\ Forall (fun i => 0 <= LogWriteBuf.buf_len_ i) wb /\
    (n <= MAX_LOG_BUFFER_SIZE -> (length wb <= 2)%nat).
Proof using R.
  intros Hb Ha Hl Hn Hld. destruct (ref_bounds _ _ R) as (? & ? & ? & Hsz & ?). pose proof group_buffer_sizes.
  unfold get_log_buf, lsn_lt. rewrite (ref_inited _ _ R), lsn_is_valid_id by lia. cbn [negb orb].
  destruct (Z.leb_spec n 0); [lia|]. rewrite (ref_start _ _ R). destruct (Z.ltb_spec l (l_start L)); [lia|].
  rewrite get_buffer_pos_ok; [| apply (ref_inited _ _ R) | rewrite (ref_size _ _ R); lia
    | rewrite ?(ref_start _ _ R); lia .. ].
  cbn [mbind option_bind]. change (ob_fail OB_SUCCESS) with false. cbv iota. rewrite (ref_start _ _ R), (ref_size _ _ R).
  pose proof (ring_pos_range (l_start L) (l_size L) ltac:(lia) l) as Hp. set (p := ring_pos _ _ l) in *.
  set (first := Z.min (l_size L - p) n). set (mem := mem_of addr (Some bytes)).
  apply (ring_loads_split _ _ _ _ first) in Hld as (b1 & b2 & E1 & E2 & ->); [|lia].
  apply (ring_mem_block bytes addr) in E1; [|lia ..].
  destruct (push_piece mem (addr + p) first LogWriteBuf.reset) as (w1 & -> & C1 & F1 & N1); [lia ..|].
  change (ob_fail OB_SUCCESS) with false. cbv iota. destruct (Z.ltb_spec first n).
  - destruct (push_piece mem addr (n - first) (LogWriteBuf.reset ++ w1)) as (w2 & -> & C2 & F2 & N2); [lia ..|].
    assert (ring_pos (l_start L) (l_size L) (l + first) = 0) as Ez by (unfold p in *; rewrite ring_pos_wrap; lia).
    apply (ring_mem_block bytes addr) in E2; [| lia ..]. rewrite Ez, Z.add_0_r in E2.
    eexists. split; [done|]. cbn [LogWriteBuf.reset app]. rewrite content_app, C1, C2, length_app, Forall_app.
    fold p in E1. fold mem in E1, E2. rewrite E1, E2. split_and!; [done .. | lia].
  - exists w1. split; [done|]. replace (n - first) with 0 in E2 by lia. injection E2 as <-. rewrite app_nil_r, C1.
    split_and!; [done .. | lia].
Qed.

Lemma log_buf_sim addr l n res L' :
  spec_op (GetLogBuf addr l n) L = Some (res, L') ->
  exists s', run_op (GetLogBuf addr l n) s = Some (res, s') /\ refines s' L'.
Proof using R.
  cbn [spec_op run_op]. intros E. guarded E Hg. destruct Hg as [Hl%lsn_rangeP Ha].
  destruct (ref_bounds _ _ R) as (? & ? & ? & Hsz & ?). pose proof group_buffer_sizes.
  destruct (ref_ring _ _ R) as (bytes & Hb & Hring).
  destruct (Z.leb_spec n 0) as [Hn|Hn].
  { unfold get_log_buf. rewrite (ref_inited _ _ R), lsn_is_valid_id by done. cbn [negb orb].
    destruct (Z.leb_spec n 0); [|lia]. injection E as <- <-. by eexists. }
  destruct (Z.ltb_spec l (l_start L)).
  { unfold get_log_buf, lsn_lt. rewrite (ref_inited _ _ R), (ref_start _ _ R), lsn_is_valid_id by done. cbn [negb orb].
    destruct (Z.leb_spec n 0); [lia|]. destruct (Z.ltb_spec l (l_start L)); [|lia].
    injection E as <- <-. by eexists. }
  guarded E Hbg. apply bind_Some in E as (data & Hd & [= <- <-]).
  assert (n <= l_size L) by (eapply ring_ok_loads_bound; [done | done | lia | done]).
  assert (ring_loads (l_start L) (l_size L) bytes l n = Some data) as Hld by by eapply ring_ok_loads.
  destruct (get_log_buf_content addr bytes l n data) as (wb & -> & Hc & Hf & _); [done | done | lia | lia | done |].
  cbn [mbind option_bind]. rewrite Hb. exists s. split; [|done].
  by rewrite Hc, (get_total_size_content (mem_of addr (Some bytes))), Hc.
Qed.

Lemma op_sim o res L' :
  spec_op o L = Some (res, L') -> exists s', run_op o s = Some (res, s') /\ refines s' L'.
Proof using R.
  destruct o; [apply fill_sim | apply fill_padding_sim | apply reuse_sim | apply readable_sim | apply truncate_sim
    | apply role_sim; by left | apply role_sim; by right | apply can_handle_sim | apply read_sim | apply log_buf_sim].
Qed.
End operations.

Lemma ops_sim os s L rs L' :
  refines s L -> run_ops spec_op os L = Some (rs, L') -> exists s', run_ops run_op os s = Some (rs, s') /\ refines s' L'.
Proof.
  revert s L rs. induction os as [|o os IH]; intros s L rs R E; cbn [run_ops] in *.
  { injection E as <- <-. by exists s. }
  apply bind_Some in E as ([r L1] & E1 & ([rs' L2] & E2 & [= <- <-])%bind_Some).
  destruct (op_sim s L R o r L1 E1) as (s1 & -> & R1). cbn [mbind option_bind].
  destruct (IH s1 L1 rs' R1 E2) as (s' & -> & R'). by exists s'.
Qed.

Lemma init_refines start : 0 <= start < 2 ^ 62 -> exists s,
  LogGroupBuffer.init true start LogGroupBuffer.reset = (OB_SUCCESS, s) /\ refines s (empty_log start).
Proof.
  intros Hs. eexists. unfold LogGroupBuffer.init. cbn [LogGroupBuffer.is_inited_ LogGroupBuffer.reset].
  rewrite lsn_is_valid_id by done. cbn [negb]. split; [done|]. pose proof group_buffer_sizes.
  split; unfold empty_log; cbn [l_start l_begin l_end l_size l_avail l_byte]; try reflexivity; [lia|].
  eexists. split; [reflexivity|]. split; [rewrite length_replicate; lia | lia | done | done].
Qed.

(** C28: a group buffer behaves like an unbounded log.  Started empty, every sequence of
    fills, padding fills, flushes, truncations, role switches and reads gives the same
    return codes and the same bytes as on the log, whatever the number of times the
    ring has been passed, as long as callers fill only what is not flushed and read
    only what was filled; the operations never touch memory outside of the buffer. *)
Theorem ring_buffer_refines_log start os rs :
  0 <= start < 2 ^ 62 -> fst <$> run_ops spec_op os (empty_log start) = Some rs ->
  exists s0, LogGroupBuffer.init true start LogGroupBuffer.reset = (OB_SUCCESS, s0) /\
    fst <$> run_ops run_op os s0 = Some rs.
Proof.
  intros Hs ([rs' L'] & E & ->)%fmap_Some. destruct (init_refines start Hs) as (s0 & Hi & R).
  destruct (ops_sim os s0 _ rs' L' R E) as (s' & Er & _). exists s0. by rewrite Er.
Qed.

(** A log that wraps around the end of the ring, and overwrites the first one. *)
Definition ring_example : list op :=
  let size := 41943040 in
  [Fill 100 (Some [1; 2; 3]) 3; IncUpdateReuse 103; ReadData 101 10; IncUpdateReuse (98 + size);
   Fill (98 + size) (Some [4; 5; 6]) 3; IncUpdateReuse (101 + size); ReadData (98 + size) 5; ReadData 100 3;
   GetLogBuf 4096 (98 + size) 3; Truncate (99 + size); ReadData (99 + size) 1; ToLeader; Fill (100 + size) (Some [7]) size].

Lemma ring_buffer_refines_log_witness : exists s0,
  LogGroupBuffer.init true 100 LogGroupBuffer.reset = (OB_SUCCESS, s0) /\
  fst <$> run_ops run_op ring_example s0 =
  Some [RCode OB_SUCCESS; RCode OB_SUCCESS; RData OB_SUCCESS [2; 3] 2; RCode OB_SUCCESS;
        RCode OB_SUCCESS; RCode OB_SUCCESS; RData OB_SUCCESS [4; 5; 6] 3; RData OB_ERR_OUT_OF_LOWER_BOUND [] 0;
        RData OB_SUCCESS [4; 5; 6] 3; RCode OB_SUCCESS; RData OB_SUCCESS [] 0; RCode OB_SUCCESS; RCode OB_EAGAIN].
Proof. apply (ring_buffer_refines_log 100 ring_example); [lia | by vm_compute]. Defined.
