(* ===== verification/GroupBufferThreads.v ===== *)
(** * The group buffer under concurrency

    The threads of [src/logservice/palf/log_group_buffer.cpp]: any number of threads
    are inside [fill], one is inside [read_data], while logs are flushed and the role
    changes.  [fill] checks, raises the first readable position, then stores its bytes;
    [read_data] loads the two limits, copies, and looks at the first readable position
    again.  Every load and store of one byte or of one limit is a step of its own, and
    the bytes of a copy are moved in any order. *)

From Stdlib Require Import ZArith Lia Bool.
From stdpp Require Import base option numbers list sets relations.
From S2P Require Import Prelude Serialization Scn Lsn Parity HeaderFormat LogWriteBuf LogGroupBuffer.

Local Open Scope Z_scope.

Import LogGroupBuffer.

(** ** The copies, byte by byte *)

(** The stores of [fill_]: position, index in the buffer, byte. *)
Definition fill_stores (lsn start_pos : Z) (data : list Z) (data_len size : Z) : list (Z * Z * Z) :=
  let first_part_len := Z.min (size - start_pos) data_len in
  imap (fun i b => let i := Z.of_nat i in
          (lsn + i, if i <? first_part_len then start_pos + i else i - first_part_len, b))
    (take (Z.to_nat data_len) data).

(** The index [read_data] takes byte [i] of [real_read_size] from. *)
Definition read_index (start_pos real_read_size size : Z) (i : nat) : Z :=
  let first_part_len := Z.min (size - start_pos) real_read_size in
  if Z.of_nat i <? first_part_len then start_pos + Z.of_nat i else Z.of_nat i - first_part_len.

(** ** Threads *)

(** A thread in [fill]: [f_stores] is [None] until the first readable position is
    raised, then the stores that are left. *)
Record filler := mk_filler {
  f_lsn : Z; f_pos : Z; f_data : list Z; f_len : Z; f_stores : option (list (Z * Z * Z)) }.

Inductive reader :=
| RIdle
| RSized (lsn in_read_size start_pos curr_reuse_lsn : Z)
| RCopying (lsn start_pos : Z) (got : list (option Z))
| RDone (lsn : Z) (data : list Z).

(** The buffer, the bytes filled so far by position, and the threads. *)
Record state := mk_state { c_buf : t; c_log : Z -> option Z; c_fills : list filler; c_reader : reader }.

Definition fresh (start size : Z) : state :=
  mk_state (mk start start start size size (Some (replicate (Z.to_nat size) 0)) true) (fun _ => None) [] RIdle.

Inductive step : state -> state -> Prop :=
(** [fill]: the caller fills a range that is not flushed. *)
| step_check g L fs r lsn data data_len start_pos :
    0 <= lsn -> lsn + data_len < 2 ^ 62 -> 0 < data_len <= Z.of_nat (length data) -> reuse_lsn_ g <= lsn ->
    fill_checks lsn (lsn_add lsn data_len) g = Some (OB_SUCCESS, start_pos) ->
    step (mk_state g L fs r) (mk_state g L (mk_filler lsn start_pos data data_len None :: fs) r)
| step_raise g L fs1 fs2 r lsn start_pos data data_len :
    step (mk_state g L (fs1 ++ mk_filler lsn start_pos data data_len None :: fs2) r)
      (mk_state (inc_update_readable_begin_lsn_ (gen_readable_begin_lsn_for_filling_ (lsn_add lsn data_len) g) g) L
         (fs1 ++ mk_filler lsn start_pos data data_len
                   (Some (fill_stores lsn start_pos data data_len (reserved_buffer_size_ g))) :: fs2) r)
| step_store g g' L fs1 fs2 r lsn start_pos data data_len p1 p2 y p b :
    store_at p [b] 1 g = Some g' ->
    step (mk_state g L (fs1 ++ mk_filler lsn start_pos data data_len (Some (p1 ++ (y, p, b) :: p2)) :: fs2) r)
      (mk_state g' (upd y (u8 b) L) (fs1 ++ mk_filler lsn start_pos data data_len (Some (p1 ++ p2)) :: fs2) r)
| step_filled g L fs1 fs2 r lsn start_pos data data_len :
    step (mk_state g L (fs1 ++ mk_filler lsn start_pos data data_len (Some []) :: fs2) r)
      (mk_state g L (fs1 ++ fs2) r)
(** The flush of a log ends: all of it is filled, and the threads still filling are
    behind it. *)
| step_flush g L fs r lsn :
    0 <= lsn < 2 ^ 62 -> Forall (fun f => lsn <= f_lsn f) fs ->
    (forall v, readable_begin_lsn_ g <= v -> reuse_lsn_ g <= v < lsn -> is_Some (L v)) ->
    step (mk_state g L fs r) (mk_state (inc_update_reuse_lsn lsn g).2 L fs r)
(** A log read from the disk is skipped. *)
| step_skip g L fs r lsn :
    0 <= lsn < 2 ^ 62 -> step (mk_state g L fs r) (mk_state (inc_update_readable_begin_lsn lsn g).2 L fs r)
| step_role g g' L fs r :
    FOLLOWER_DEFAULT_GROUP_BUFFER_SIZE <= reserved_buffer_size_ g ->
    g' = (to_leader g).2 \/ g' = (to_follower g).2 ->
    step (mk_state g L fs r) (mk_state g' L fs r)
(** [truncate] has the lock of [read_data], and its caller that of the fills. *)
| step_truncate g L lsn :
    0 <= lsn < 2 ^ 62 ->
    step (mk_state g L [] RIdle)
      (mk_state (truncate lsn g).2
         (if lsn <? start_lsn_ g then L else fun v => if v <? lsn then L v else None) [] RIdle)
(** [read_data]. *)
| step_size g L fs lsn in_read_size start_pos :
    0 <= lsn < 2 ^ 62 -> 0 < in_read_size -> get_buffer_pos_ lsn (-1) g = Some (OB_SUCCESS, start_pos) ->
    step (mk_state g L fs RIdle) (mk_state g L fs (RSized lsn in_read_size start_pos (reuse_lsn_ g)))
| step_look g L fs lsn in_read_size start_pos curr_reuse_lsn :
    step (mk_state g L fs (RSized lsn in_read_size start_pos curr_reuse_lsn))
      (mk_state g L fs
         (if lsn_lt lsn (readable_begin_lsn_ g) then RIdle
          else if lsn_gt curr_reuse_lsn lsn then
            RCopying lsn start_pos (replicate (Z.to_nat (Z.min (s64 (lsn_diff curr_reuse_lsn lsn)) in_read_size)) None)
          else RIdle))
| step_load g L fs lsn start_pos got i bytes b :
    got !! i = Some None -> data_buf_ g = Some bytes ->
    load bytes (read_index start_pos (Z.of_nat (length got)) (reserved_buffer_size_ g) i) = Some b ->
    step (mk_state g L fs (RCopying lsn start_pos got)) (mk_state g L fs (RCopying lsn start_pos (<[i := Some b]> got)))
| step_look_again g L fs lsn start_pos data :
    step (mk_state g L fs (RCopying lsn start_pos (Some <$> data)))
      (mk_state g L fs (if lsn_gt (readable_begin_lsn_ g) lsn then RIdle else RDone lsn data))
| step_return g L fs lsn data :
    step (mk_state g L fs (RDone lsn data)) (mk_state g L fs RIdle).

Lemma store_at_one g bytes p b : data_buf_ g = Some bytes -> 0 <= p < Z.of_nat (length bytes) ->
  store_at p [b] 1 g = Some (set_data_buf (Some (<[Z.to_nat p := u8 b]> bytes)) g).
Proof.
  intros Hb Hp. unfold store_at, memcpy. rewrite Hb. cbn [mbind option_bind].
  change (Z.of_nat (length [b]) <? 1) with false. change (take (Z.to_nat 1) [b]) with [b]. cbv iota. cbn [put_bytes].
  unfold store. destruct (Z.leb_spec 0 p); [|lia]. destruct (Z.ltb_spec p (Z.of_nat (length bytes))); [done | lia].
Qed.

(** ** The invariant *)

Section invariant.
Context (start size : Z) (Hsize : 0 < size < 2 ^ 62).
Local Abbreviation pos := (ring_pos start size).

(** The stores left are within the range of the thread, at the index of their
    position. *)
Definition filler_ok (begin reuse : Z) (f : filler) : Prop :=
  0 < f_len f <= Z.of_nat (length (f_data f)) /\ reuse <= f_lsn f /\ 0 <= f_lsn f /\ f_lsn f + f_len f < 2 ^ 62 /\
  f_lsn f + f_len f <= reuse + size /\ f_pos f = pos (f_lsn f) /\
  match f_stores f with
  | None => True
  | Some ps => f_lsn f + f_len f <= begin + size /\
      Forall (fun '(y, p, _) => f_lsn f <= y < f_lsn f + f_len f /\ p = pos y) ps
  end.

(** As long as the first readable position has not passed the reader, what was copied is
    what the log has. *)
Definition reader_ok (begin reuse : Z) (L : Z -> option Z) (r : reader) : Prop :=
  match r with
  | RIdle => True
  | RSized l n p curr_reuse => 0 < n /\ 0 <= l < 2 ^ 62 /\ p = pos l /\ curr_reuse <= reuse
  | RCopying l p got =>
      0 <= l < 2 ^ 62 /\ p = pos l /\ Z.of_nat (length got) <= size /\ l + Z.of_nat (length got) <= reuse /\
      (begin <= l -> forall i : nat, (i < length got)%nat -> is_Some (L (l + Z.of_nat i))) /\
      (begin <= l -> forall (i : nat) b, got !! i = Some (Some b) -> L (l + Z.of_nat i) = Some b)
  | RDone l data =>
      l + Z.of_nat (length data) <= reuse /\
      forall (i : nat) b, data !! i = Some b -> L (l + Z.of_nat i) = Some b
  end.

Record inv (c : state) : Prop := {
  inv_inited : is_inited_ (c_buf c) = true;
  inv_start : start_lsn_ (c_buf c) = start;
  inv_size : reserved_buffer_size_ (c_buf c) = size;
  inv_avail : 0 <= available_buffer_size_ (c_buf c) <= size;
  inv_bounds : 0 <= start <= reuse_lsn_ (c_buf c) /\ reuse_lsn_ (c_buf c) < 2 ^ 62;
  inv_ring : exists bytes, data_buf_ (c_buf c) = Some bytes /\
    ring_ok start size (readable_begin_lsn_ (c_buf c)) (reuse_lsn_ (c_buf c)) bytes (c_log c);
  inv_filled v : readable_begin_lsn_ (c_buf c) <= v < reuse_lsn_ (c_buf c) -> is_Some (c_log c v);
  inv_fills : Forall (filler_ok (readable_begin_lsn_ (c_buf c)) (reuse_lsn_ (c_buf c))) (c_fills c);
  inv_reader : reader_ok (readable_begin_lsn_ (c_buf c)) (reuse_lsn_ (c_buf c)) (c_log c) (c_reader c) }.

(** Raising the first readable position keeps what the threads know. *)
Lemma filler_ok_begin begin begin' reuse f : begin <= begin' -> filler_ok begin reuse f -> filler_ok begin' reuse f.
Proof.
  unfold filler_ok. intros Hb (? & ? & ? & ? & ? & ? & Hs). split_and!; try (done || lia).
  destruct (f_stores f); [|done]. destruct Hs. split; [lia | done].
Qed.

Lemma filler_ok_reuse begin reuse reuse' f :
  reuse <= reuse' -> reuse' <= f_lsn f -> filler_ok begin reuse f -> filler_ok begin reuse' f.
Proof. unfold filler_ok. intros Hb Hf (? & ? & ? & ? & ? & ? & Hs). split_and!; done || lia. Qed.

Lemma reader_ok_mono begin begin' reuse reuse' L r :
  begin <= begin' -> reuse <= reuse' -> reader_ok begin reuse L r -> reader_ok begin' reuse' L r.
Proof.
  intros Hb Hr. destruct r as [|l n p cr|l p got|l data]; cbn; [done | | |].
  - intros (? & ? & ? & ?). split_and!; try done; lia.
  - intros (? & ? & ? & ? & Hf & Hg). split_and!; try done; try lia; intros ?; [apply Hf | apply Hg]; lia.
  - intros (? & ?). split; [lia | done].
Qed.

(** A byte stored past the flushed part is none of those read. *)
Lemma reader_ok_store begin reuse L r y b :
  reuse <= y -> reader_ok begin reuse L r -> reader_ok begin reuse (upd y b L) r.
Proof.
  intros Hy.
  assert (forall v, v < reuse -> upd y b L v = L v) as Hu
    by (intros v Hv; unfold upd; destruct (Z.eqb_spec v y); [lia | done]).
  destruct r as [|l n p cr|l p got|l data]; cbn; [done | done | |].
  - intros (? & ? & ? & ? & Hf & Hg). split_and!; try (done || lia); intros Hb i; [intros Hi | intros c Hi];
      pose proof Hi; try apply lookup_lt_Some in Hi; rewrite Hu by lia; [by apply Hf | by apply Hg].
  - intros (? & Hd). split; [done|]. intros i c Hi. pose proof (lookup_lt_Some _ _ _ Hi). rewrite Hu by lia. by apply Hd.
Qed.

(** The indices of the two parts of a copy are those of the positions. *)
Lemma part_index l n i : 0 <= n <= size -> 0 <= i < n ->
  (if i <? Z.min (size - pos l) n then pos l + i else i - Z.min (size - pos l) n) = pos (l + i).
Proof using Hsize.
  intros Hn Hi. pose proof (ring_pos_range start size ltac:(lia) l).
  destruct (Z.ltb_spec i (Z.min (size - pos l) n)).
  - rewrite ring_pos_add; lia.
  - rewrite ring_pos_wrap; lia.
Qed.

Lemma fill_stores_ok l data n : 0 <= n <= size -> n <= Z.of_nat (length data) ->
  Forall (fun '(y, p, _) => l <= y < l + n /\ p = pos y) (fill_stores l (pos l) data n size).
Proof using Hsize.
  intros Hn Hd. apply Forall_lookup. intros i [[y p] b] Hi. unfold fill_stores in Hi.
  rewrite list_lookup_imap in Hi. apply fmap_Some in Hi as (c & Hc & [= -> -> ->]).
  apply lookup_take_Some in Hc as [_ Hc]. split; [lia|]. apply part_index; lia.
Qed.

(** ** Preservation *)

(** Only limits that grow, and the room, change. *)
Lemma inv_limits g g' L fs r :
  inv (mk_state g L fs r) -> is_inited_ g' = true -> start_lsn_ g' = start_lsn_ g ->
  reserved_buffer_size_ g' = reserved_buffer_size_ g -> data_buf_ g' = data_buf_ g ->
  0 <= available_buffer_size_ g' <= size -> readable_begin_lsn_ g <= readable_begin_lsn_ g' ->
  reuse_lsn_ g <= reuse_lsn_ g' < 2 ^ 62 -> Forall (fun f => reuse_lsn_ g' = reuse_lsn_ g \/ reuse_lsn_ g' <= f_lsn f) fs ->
  (forall v, readable_begin_lsn_ g' <= v -> reuse_lsn_ g <= v < reuse_lsn_ g' -> is_Some (L v)) ->
  inv (mk_state g' L fs r).
Proof.
  intros [? ? ? ? ? (bytes & Hb & Hr) Hf Hfs Hrd]; cbn in *. intros ? ? ? Hb' ? ? ? Hle Hfl.
  split; cbn; try congruence; try lia.
  - exists bytes. split; [congruence|]. apply (ring_ok_mono _ _ _ _ _ _ _ _ Hr); lia.
  - intros v Hv. destruct (Z.lt_ge_cases v (reuse_lsn_ g)); [apply Hf | apply Hfl]; lia.
  - apply Forall_forall. intros f Hin. rewrite Forall_forall in Hfs, Hle.
    apply (filler_ok_begin (readable_begin_lsn_ g)); [done|].
    destruct (Hle f Hin) as [->|]; [by apply Hfs|]. apply (filler_ok_reuse _ (reuse_lsn_ g)); [lia | done | by apply Hfs].
  - eapply reader_ok_mono; [..| done]; lia.
Qed.

(** Limits and buffer as before: only the threads change. *)
Lemma inv_threads g L fs r fs' r' :
  inv (mk_state g L fs r) -> Forall (filler_ok (readable_begin_lsn_ g) (reuse_lsn_ g)) fs' ->
  reader_ok (readable_begin_lsn_ g) (reuse_lsn_ g) L r' -> inv (mk_state g L fs' r').
Proof. by intros [] ? ?; split. Qed.

Lemma inv_check g L fs r l data n p :
  inv (mk_state g L fs r) -> 0 <= l -> l + n < 2 ^ 62 -> 0 < n <= Z.of_nat (length data) -> reuse_lsn_ g <= l ->
  fill_checks l (lsn_add l n) g = Some (OB_SUCCESS, p) ->
  inv (mk_state g L (mk_filler l p data n None :: fs) r).
Proof using Hsize.
  intros Hinv ? ? ? Hre Hc. apply (inv_threads _ _ _ _ _ _ Hinv); [|apply Hinv].
  destruct Hinv as [Hi Hst Hsz Hav Hbd _ _ Hfs _]; cbn in *. apply Forall_cons; split; [|done].
  unfold fill_checks, lsn_le, lsn_gt, lsn_lt, lsn_eq in Hc. rewrite Hst, !lsn_add_id in Hc by lia.
  destruct (Z.ltb_spec l start); [discriminate|].
  destruct ((l + n <? reuse_lsn_ g) || _); [discriminate|].
  destruct (Z.ltb_spec (reuse_lsn_ g + available_buffer_size_ g) (l + n)); [discriminate|].
  rewrite get_buffer_pos_ok, Hst, Hsz in Hc by (rewrite ?Hst, ?Hsz; done || lia). injection Hc as <-.
  unfold filler_ok. cbn. split_and!; done || lia.
Qed.

Lemma inv_raise g L fs1 fs2 r l p data n :
  inv (mk_state g L (fs1 ++ mk_filler l p data n None :: fs2) r) ->
  let begin := gen_readable_begin_lsn_for_filling_ (lsn_add l n) g in
  inv (mk_state (inc_update_readable_begin_lsn_ begin g) L
    (fs1 ++ mk_filler l p data n (Some (fill_stores l p data n (reserved_buffer_size_ g))) :: fs2) r).
Proof using Hsize.
  intros Hinv begin.
  assert (inv (mk_state (inc_update_readable_begin_lsn_ begin g) L (fs1 ++ mk_filler l p data n None :: fs2) r)) as H'.
  { apply (inv_limits _ _ _ _ _ Hinv); cbn; try done; try apply Hinv; rewrite ?inc_update_max; try lia.
    - destruct (inv_bounds _ Hinv). cbn in *. lia.
    - apply Forall_forall. by left. }
  apply (inv_threads _ _ _ _ _ _ H'); [|apply H']. pose proof (inv_fills _ H') as Hf. cbn in *.
  rewrite Forall_app, Forall_cons in *. destruct Hf as (? & Hf & ?). split_and!; [done | | done].
  unfold filler_ok in *. cbn in *. destruct Hf as (? & ? & ? & ? & ? & -> & _). split_and!; try done; try lia.
  - rewrite inc_update_max. unfold begin, gen_readable_begin_lsn_for_filling_.
    pose proof (inv_size _ Hinv) as Hsz. cbn in Hsz. rewrite Hsz, to_u_id, lsn_add_id by (unfold is_u; lia).
    destruct (Z.leb_spec size (l + n)); [rewrite lsn_sub_id by lia|]; lia.
  - pose proof (inv_size _ Hinv) as Hsz. cbn in Hsz. rewrite Hsz. apply fill_stores_ok; lia.
Qed.

Lemma inv_store g g' L fs1 fs2 r l q data n p1 p2 y p b :
  inv (mk_state g L (fs1 ++ mk_filler l q data n (Some (p1 ++ (y, p, b) :: p2)) :: fs2) r) ->
  store_at p [b] 1 g = Some g' ->
  inv (mk_state g' (upd y (u8 b) L) (fs1 ++ mk_filler l q data n (Some (p1 ++ p2)) :: fs2) r).
Proof using Hsize.
  intros [Hi Hst Hsz Hav Hbd (bytes & Hb & Hr) Hfi Hfs Hrd] Hs; cbn in *.
  rewrite Forall_app, Forall_cons in Hfs. destruct Hfs as (F1 & Hf & F2).
  unfold filler_ok in Hf; cbn in Hf. destruct Hf as (? & ? & ? & ? & ? & ? & ? & Hps).
  rewrite Forall_app, Forall_cons in Hps. destruct Hps as (P1 & [Hy ->] & P2).
  pose proof (ring_pos_range start size ltac:(lia) y).
  rewrite (store_at_one _ bytes) in Hs by (rewrite ?(ring_length _ _ _ _ _ _ Hr); done). injection Hs as <-.
  split; cbn; try done.
  - eexists. split; [done|]. eapply ring_ok_store; done || lia.
  - intros v Hv. unfold upd. destruct (v =? y); [done|]. by apply Hfi.
  - rewrite Forall_app, Forall_cons. split_and!; [done | | done]. unfold filler_ok. cbn.
    split_and!; try (done || lia). by rewrite Forall_app.
  - apply reader_ok_store; [lia | done].
Qed.

Lemma inv_truncate g L l : 0 <= l < 2 ^ 62 -> inv (mk_state g L [] RIdle) ->
  inv (mk_state (truncate l g).2 (if l <? start_lsn_ g then L else fun v => if v <? l then L v else None) [] RIdle).
Proof using Hsize.
  intros Hl Hinv. unfold truncate, lsn_lt. rewrite lsn_is_valid_id by done. cbn [negb].
  destruct (Z.ltb_spec l (start_lsn_ g)); [done|].
  destruct Hinv as [? Hst ? ? ? (bytes & Hb & Hr) ? ? ?]; cbn in *. split; cbn; try done; try lia.
  - exists bytes. split; [done|]. rewrite inc_update_max. eapply ring_ok_truncate; [lia | done].
  - intros v. rewrite inc_update_max. lia.
Qed.

(** ** Reading *)

Lemma inv_sized g L fs l n p :
  0 <= l < 2 ^ 62 -> 0 < n -> get_buffer_pos_ l (-1) g = Some (OB_SUCCESS, p) ->
  inv (mk_state g L fs RIdle) -> inv (mk_state g L fs (RSized l n p (reuse_lsn_ g))).
Proof using Hsize.
  intros Hl Hn Hp Hinv. apply (inv_threads _ _ _ _ _ _ Hinv); [apply Hinv|]. cbn. split_and!; try (done || lia).
  destruct Hinv as [Hi Hst Hsz ? ? _ _ _ _]; cbn in *. destruct (Z.lt_ge_cases l start) as [Hlt|Hge].
  - unfold get_buffer_pos_, lsn_lt in Hp.
    rewrite Hi, Hst, lsn_is_valid_id, (proj2 (Z.ltb_lt _ _) Hlt) in Hp by done. discriminate.
  - rewrite get_buffer_pos_ok, Hst, Hsz in Hp by (rewrite ?Hst, ?Hsz; done || lia). by injection Hp.
Qed.

Lemma inv_look g L fs l n p curr_reuse :
  inv (mk_state g L fs (RSized l n p curr_reuse)) ->
  inv (mk_state g L fs
    (if lsn_lt l (readable_begin_lsn_ g) then RIdle
     else if lsn_gt curr_reuse l then
       RCopying l p (replicate (Z.to_nat (Z.min (s64 (lsn_diff curr_reuse l)) n)) None)
     else RIdle)).
Proof using Hsize.
  intros Hinv. apply (inv_threads _ _ _ _ _ _ Hinv); [apply Hinv|].
  destruct Hinv as [? Hst ? ? Hbd (bytes & Hb & Hr) Hfi _ Hrd]; cbn in *. destruct Hrd as (? & ? & -> & ?).
  unfold lsn_lt, lsn_gt, lsn_lt. destruct (Z.ltb_spec l (readable_begin_lsn_ g)); [done|].
  destruct (Z.ltb_spec l curr_reuse); [|done]. cbn. rewrite lsn_diff_id, length_replicate by lia.
  assert (curr_reuse <= l + size).
  { destruct (Hfi (curr_reuse - 1)) as [b Hb']; [lia|]. apply (ring_bound _ _ _ _ _ _ Hr) in Hb'. lia. }
  split_and!; try (done || lia).
  - intros _ i Hi. apply Hfi. lia.
  - intros _ i b Hi. by apply lookup_replicate in Hi as [? _].
Qed.

Lemma inv_load g L fs l p got i bytes b :
  inv (mk_state g L fs (RCopying l p got)) -> got !! i = Some None -> data_buf_ g = Some bytes ->
  load bytes (read_index p (Z.of_nat (length got)) (reserved_buffer_size_ g) i) = Some b ->
  inv (mk_state g L fs (RCopying l p (<[i := Some b]> got))).
Proof using Hsize.
  intros Hinv Hi Hb Hld. apply (inv_threads _ _ _ _ _ _ Hinv); [apply Hinv|].
  destruct Hinv as [? Hst Hsz ? Hbd (bytes' & Hb' & Hr) Hfi _ Hrd]; cbn in *. destruct Hrd as (? & -> & ? & ? & Hf & Hg).
  rewrite Hb in Hb'. injection Hb' as <-. rewrite length_insert. pose proof (lookup_lt_Some _ _ _ Hi).
  split_and!; try (done || lia). intros Hbg j c.
  destruct (decide (i = j)) as [<-|Hne]; [|rewrite list_lookup_insert_ne by done; by apply Hg].
  rewrite list_lookup_insert_eq by done. intros [= <-].
  destruct (Hf Hbg i) as [c Hc]; [done|]. rewrite Hc. f_equal.
  pose proof (ring_byte _ _ _ _ _ _ Hr _ _ Hc ltac:(lia)) as Hat.
  unfold load, read_index in Hld. rewrite Hsz, part_index in Hld by lia.
  destruct (Z.ltb_spec (pos (l + Z.of_nat i)) 0); [discriminate | congruence].
Qed.

Lemma inv_look_again g L fs l p data :
  inv (mk_state g L fs (RCopying l p (Some <$> data))) ->
  inv (mk_state g L fs (if lsn_gt (readable_begin_lsn_ g) l then RIdle else RDone l data)).
Proof using Hsize.
  intros Hinv. apply (inv_threads _ _ _ _ _ _ Hinv); [apply Hinv|].
  destruct (inv_reader _ Hinv) as (? & _ & _ & Hle & _ & Hg); cbn in *. rewrite length_fmap in Hle.
  unfold lsn_gt, lsn_lt. destruct (Z.ltb_spec l (readable_begin_lsn_ g)); [done|]. cbn. split; [done|].
  intros i b Hi. apply Hg; [done|]. by rewrite list_lookup_fmap, Hi.
Qed.

Lemma inv_role g g' L fs r :
  FOLLOWER_DEFAULT_GROUP_BUFFER_SIZE <= reserved_buffer_size_ g -> g' = (to_leader g).2 \/ g' = (to_follower g).2 ->
  inv (mk_state g L fs r) -> inv (mk_state g' L fs r).
Proof using Hsize.
  intros Hf Hg Hinv. pose proof group_buffer_sizes. pose proof (inv_size _ Hinv) as Hsz. cbn in Hsz.
  assert (exists a, 0 <= a <= size /\ (g' = set_available_buffer_size a g \/ g' = g)) as (a & Ha & [-> | ->]); [| |done].
  { destruct Hg as [-> | ->]; [exists LEADER_DEFAULT_GROUP_BUFFER_SIZE | exists FOLLOWER_DEFAULT_GROUP_BUFFER_SIZE];
      (split; [lia|]); [unfold to_leader | unfold to_follower]; repeat case_match; auto. }
  apply (inv_limits _ _ _ _ _ Hinv); cbn; try done; try apply Hinv; try lia.
  - destruct (inv_bounds _ Hinv). cbn in *. lia.
  - apply Forall_forall. by left.
Qed.

Lemma inv_flush g L fs r l :
  0 <= l < 2 ^ 62 -> Forall (fun f => l <= f_lsn f) fs ->
  (forall v, readable_begin_lsn_ g <= v -> reuse_lsn_ g <= v < l -> is_Some (L v)) ->
  inv (mk_state g L fs r) -> inv (mk_state (inc_update_reuse_lsn l g).2 L fs r).
Proof using Hsize.
  intros Hl Hfs Hv Hinv. unfold inc_update_reuse_lsn, lsn_gt, lsn_lt. rewrite lsn_is_valid_id by done. cbn [negb].
  destruct (Z.ltb_spec (reuse_lsn_ g) l); [|done].
  apply (inv_limits _ _ _ _ _ Hinv); cbn; try done; try apply Hinv; try lia.
  eapply Forall_impl; [apply Hfs|]. auto.
Qed.

Lemma inv_skip g L fs r l :
  0 <= l < 2 ^ 62 -> inv (mk_state g L fs r) -> inv (mk_state (inc_update_readable_begin_lsn l g).2 L fs r).
Proof using Hsize.
  intros Hl Hinv. unfold inc_update_readable_begin_lsn. rewrite lsn_is_valid_id by done. cbn [negb].
  apply (inv_limits _ _ _ _ _ Hinv); cbn; try done; try apply Hinv; rewrite ?inc_update_max; try lia.
  - destruct (inv_bounds _ Hinv). cbn in *. lia.
  - apply Forall_forall. by left.
Qed.

Lemma inv_step c c' : step c c' -> inv c -> inv c'.
Proof using Hsize.
  intros Hs Hinv. destruct Hs.
  - by apply inv_check.
  - by apply inv_raise.
  - by eapply inv_store.
  - apply (inv_threads _ _ _ _ _ _ Hinv); [|apply Hinv]. pose proof (inv_fills _ Hinv) as Hf. cbn in Hf.
    rewrite Forall_app, Forall_cons in Hf. rewrite Forall_app. by destruct Hf as (? & _ & ?).
  - by apply inv_flush.
  - by apply inv_skip.
  - by eapply inv_role.
  - by apply inv_truncate.
  - by apply inv_sized.
  - by apply inv_look.
  - by eapply inv_load.
  - by eapply inv_look_again.
  - by apply (inv_threads _ _ _ _ _ _ Hinv); [apply Hinv|].
Qed.

Lemma inv_fresh : 0 <= start < 2 ^ 62 -> inv (fresh start size).
Proof using Hsize.
  intros Hs. split; cbn; try done; try lia. eexists. split; [done|].
  split; [rewrite length_replicate; lia | lia | done | done].
Qed.

Lemma inv_steps c c' : rtc step c c' -> inv c -> inv c'.
Proof using Hsize. induction 1 as [|c d e Hs _ IH]; [done|]. intros. apply IH. by eapply inv_step. Qed.

Lemma inv_stores_safe g L fs r f ps y p b :
  inv (mk_state g L fs r) -> f ∈ fs -> f_stores f = Some ps -> (y, p, b) ∈ ps -> is_Some (store_at p [b] 1 g).
Proof using Hsize.
  intros [_ _ _ _ _ (bytes & Hb & Hr) _ Hfs _] Hf Hps Hin; cbn in *. rewrite Forall_forall in Hfs.
  pose proof (Hfs f Hf) as (_ & _ & _ & _ & _ & _ & Hs). rewrite Hps in Hs. destruct Hs as [_ Hs].
  rewrite Forall_forall in Hs. destruct (Hs _ Hin) as [_ ->]. eexists. apply (store_at_one _ bytes); [done|].
  rewrite (ring_length _ _ _ _ _ _ Hr). apply ring_pos_range. lia.
Qed.

Lemma inv_loads_safe g L fs l p got i :
  inv (mk_state g L fs (RCopying l p got)) -> (i < length got)%nat -> exists bytes b,
    data_buf_ g = Some bytes /\ load bytes (read_index p (Z.of_nat (length got)) (reserved_buffer_size_ g) i) = Some b.
Proof using Hsize.
  intros [_ _ Hsz _ _ (bytes & Hb & Hr) _ _ Hrd] Hi; cbn in *. destruct Hrd as (? & -> & ? & _).
  exists bytes. unfold load, read_index. rewrite Hsz, part_index by lia.
  pose proof (ring_pos_range start size ltac:(lia) (l + Z.of_nat i)). pose proof (ring_length _ _ _ _ _ _ Hr).
  destruct (Z.ltb_spec (pos (l + Z.of_nat i)) 0); [lia|].
  destruct (lookup_lt_is_Some_2 bytes (Z.to_nat (pos (l + Z.of_nat i)))) as [b Hbt]; [lia|]. by exists b.
Qed.
End invariant.

(** ** The copies of the code *)

Section copies.
Context (start size : Z) (Hsize : 0 < size < 2 ^ 62).
Local Abbreviation pos := (ring_pos start size).

Definition stores_from (l : Z) (bs : list Z) : list (Z * Z * Z) :=
  imap (fun i b => (l + Z.of_nat i, pos (l + Z.of_nat i), b)) bs.

Lemma stores_from_cons l b bs : stores_from l (b :: bs) = (l, pos l, b) :: stores_from (l + 1) bs.
Proof.
  unfold stores_from. rewrite imap_cons, Z.add_0_r. f_equal. apply imap_ext. intros i c _. cbn.
  by replace (l + Z.of_nat (S i)) with (l + 1 + Z.of_nat i) by lia.
Qed.

Lemma fill_stores_from l data n : 0 <= n <= size -> n <= Z.of_nat (length data) ->
  fill_stores l (pos l) data n size = stores_from l (take (Z.to_nat n) data).
Proof using Hsize.
  intros Hn Hd. apply imap_ext. intros i b Hi. apply lookup_lt_Some in Hi. rewrite length_take in Hi.
  cbv beta zeta. by rewrite part_index by lia.
Qed.

Lemma run_stores_from bs l s bytes :
  data_buf_ s = Some bytes -> Z.of_nat (length bytes) = size ->
  foldl (fun s '(_, p, b) => s ≫= store_at p [b] 1) (Some s) (stores_from l bs) =
  Some (set_data_buf (Some (ring_stores start size bytes l bs)) s).
Proof using Hsize.
  revert l s bytes. induction bs as [|b bs IH]; intros l s bytes Hb Hl.
  { cbn. f_equal. destruct s; cbn in *. by rewrite Hb. }
  pose proof (ring_pos_range start size ltac:(lia) l).
  rewrite stores_from_cons. cbn [foldl mbind option_bind ring_stores].
  rewrite (store_at_one _ bytes) by (done || lia). 
  by rewrite (IH _ _ (<[Z.to_nat (pos l) := u8 b]> bytes)) by (done || by rewrite length_insert).
Qed.
End copies.

(** Storing the bytes one by one, in the order of the code, is what [fill_] does. *)
Lemma run_fill_stores l data n s bytes :
  data_buf_ s = Some bytes -> 0 < reserved_buffer_size_ s < 2 ^ 62 ->
  Z.of_nat (length bytes) = reserved_buffer_size_ s -> 0 <= n <= reserved_buffer_size_ s -> n <= Z.of_nat (length data) ->
  let p := ring_pos (start_lsn_ s) (reserved_buffer_size_ s) l in
  fill_ p data n s =
  pair OB_SUCCESS <$> foldl (fun s '(_, p, b) => s ≫= store_at p [b] 1) (Some s)
                        (fill_stores l p data n (reserved_buffer_size_ s)).
Proof.
  intros Hb Hs Hl Hn Hd p. unfold p.
  rewrite fill_stores_from, (run_stores_from _ _ Hs _ _ _ bytes) by done.
  apply fill_ok; done || lia.
Qed.

(** C10: a read that succeeds returns the bytes of the log.  However the loads and stores
    of threads inside [fill], of flushes, truncations and role switches fall between
    those of a [read_data], if its second look at the first readable position lets it
    succeed, the bytes are those filled at the positions read, never overwritten
    or half-written ones.  No load or store on the way is outside of the buffer. *)
Theorem ring_read_not_torn start size c :
  0 <= start < 2 ^ 62 -> 0 < size < 2 ^ 62 -> rtc step (fresh start size) c ->
  (forall l data, c_reader c = RDone l data -> mapM (c_log c) (seqZ l (Z.of_nat (length data))) = Some data) /\
  (forall f ps y p b, f ∈ c_fills c -> f_stores f = Some ps -> (y, p, b) ∈ ps -> is_Some (store_at p [b] 1 (c_buf c))) /\
  (forall l p got i, c_reader c = RCopying l p got -> (i < length got)%nat -> exists bytes b,
     data_buf_ (c_buf c) = Some bytes /\
     load bytes (read_index p (Z.of_nat (length got)) (reserved_buffer_size_ (c_buf c)) i) = Some b).
Proof.
  intros Hst Hsz Hr. pose proof (inv_steps start size Hsz _ _ Hr (inv_fresh start size Hsz Hst)) as Hinv.
  destruct c as [g L fs r]; cbn. split_and!.
  - intros l data ->. destruct (inv_reader _ _ _ Hinv) as [_ Hd]. cbn in Hd. apply mapM_Some.
    apply Forall2_same_length_lookup_2; [rewrite length_seqZ; lia|]. intros i v b [-> _]%lookup_seqZ Hb. by apply Hd.
  - intros f ps y p b. by apply (inv_stores_safe _ _ Hsz _ _ _ _ _ _ _ _ _ Hinv).
  - intros l p got i ->. by apply (inv_loads_safe _ _ Hsz _ _ _ _ _ _ _ Hinv).
Qed.

(** A second thread fills while the reader copies; the bytes are copied last one first. *)
Definition read_example : state :=
  mk_state (mk 0 3 0 4 4 (Some [10; 11; 12; 13]) true)
    (upd 3 13 (upd 1 11 (upd 0 10 (upd 2 12 (fun _ => None))))) [mk_filler 3 3 [13] 1 (Some [])] (RDone 1 [11; 12]).

Lemma read_example_reachable : rtc step (fresh 0 4) read_example.
Proof.
  eapply rtc_l; [eapply (step_check _ _ _ _ 0 [10; 11; 12] 3 0); done|].
  eapply rtc_l; [apply (step_raise _ _ [] [])|]. cbn.
  eapply rtc_l; [by eapply (step_store _ _ _ [] [] _ _ _ _ _ [_; _] [])|]. cbn.
  eapply rtc_l; [by eapply (step_store _ _ _ [] [] _ _ _ _ _ [] [_])|]. cbn.
  eapply rtc_l; [by eapply (step_store _ _ _ [] [] _ _ _ _ _ [] [])|]. cbn.
  eapply rtc_l; [by eapply (step_filled _ _ [] [])|]. cbn.
  eapply rtc_l; [apply (step_flush _ _ _ _ 3); [done | done |]|].
  { cbn. intros v _ Hv. assert (v = 0 \/ v = 1 \/ v = 2) as [-> | [-> | ->]] by lia; by eexists. }
  cbn. eapply rtc_l; [by eapply (step_size _ _ _ 1 2 1)|]. cbn.
  eapply rtc_l; [apply step_look|]. cbn.
  eapply rtc_l; [by eapply (step_load _ _ _ _ _ _ 1%nat [10; 11; 12; 0] 12)|]. cbn.
  eapply rtc_l; [by eapply (step_check _ _ _ _ 3 [13] 1 3)|].
  eapply rtc_l; [apply (step_raise _ _ [] [])|]. cbn.
  eapply rtc_l; [by eapply (step_load _ _ _ _ _ _ 0%nat [10; 11; 12; 0] 11)|]. cbn.
  eapply rtc_l; [by eapply (step_store _ _ _ [] [] _ _ _ _ _ [] [])|]. cbn.
  eapply rtc_l; [by eapply (step_look_again _ _ _ _ _ [11; 12])|]. cbn. apply rtc_refl.
Qed.

Lemma ring_read_not_torn_witness :
  rtc step (fresh 0 4) read_example /\ mapM (c_log read_example) (seqZ 1 2) = Some [11; 12].
Proof.
  split; [apply read_example_reachable|].
  apply (proj1 (ring_read_not_torn 0 4 read_example ltac:(lia) ltac:(lia) read_example_reachable) 1 [11; 12] eq_refl).
Defined.
