(* ===== verification/LsnAllocator.v ===== *)
(** * Allocation of log positions: [src/logservice/palf/lsn_allocator.{h,cpp}]

    The leader gives every log its position, number and timestamp with one 128-bit
    compare and swap: the word holds the end position, two deltas to a pair of base
    values, and whether the next log opens a new group.  The bases change under the
    write lock, the word under the read lock.  The use of the result is that of
    [LogSlidingWindow::submit_log]. *)

From Stdlib Require Import ZArith Lia Bool.
From stdpp Require Import base option numbers list sets relations.
From S2P Require Import Prelude Serialization Scn Lsn Parity Crc64 HeaderFormat LogBaseHeader LogEntryHeader.
From S2P Require Import LogWriteBuf LogGroupEntryHeader.

Local Open Scope Z_scope.

Module LSNAllocator.
Definition LOG_ID_DELTA_BIT_CNT : Z := 28.
Definition LOG_TS_DELTA_BIT_CNT : Z := 35.
Definition LOG_ID_DELTA_UPPER_BOUND : Z := Z.shiftl 1 LOG_ID_DELTA_BIT_CNT - 1000.
Definition LOG_TS_DELTA_UPPER_BOUND : Z := Z.shiftl 1 LOG_TS_DELTA_BIT_CNT - 1000.
Definition LOG_CUT_TRIGGER : Z := Z.shiftl 1 21.
Definition LOG_CUT_TRIGGER_MASK : Z := Z.shiftl 1 21 - 1.

(** The four fields fill the 128 bits. *)
Record LSNTsMeta := mk_meta { is_need_cut_ : Z; log_id_delta_ : Z; scn_delta_ : Z; lsn_val_ : Z }.

#[global] Instance meta_eq_dec : EqDecision LSNTsMeta.
Proof. solve_decision. Defined.

(** Storing into the fields keeps the bits they have. *)
Definition meta (cut log_id_delta scn_delta lsn_val : Z) : LSNTsMeta :=
  mk_meta (to_u 1 cut) (to_u LOG_ID_DELTA_BIT_CNT log_id_delta) (to_u LOG_TS_DELTA_BIT_CNT scn_delta) (u64 lsn_val).

Record t := mk { lsn_ts_meta_ : LSNTsMeta; log_id_base_ : Z; scn_base_ : Z; is_inited_ : bool }.

Definition set_meta (m : LSNTsMeta) (s : t) : t := mk m (log_id_base_ s) (scn_base_ s) (is_inited_ s).

Definition reset : t := mk (meta 1 0 0 0) OB_INVALID_LOG_ID 0 false.

Definition init (log_id : Z) (scn : SCN) (start_lsn : LSN) (s : t) : Z * t :=
  if is_inited_ s then (OB_INIT_TWICE, s)
  else if (OB_INVALID_LOG_ID =? log_id) || negb (is_valid scn) || negb (lsn_is_valid start_lsn)
  then (OB_INVALID_ARGUMENT, s)
  else (OB_SUCCESS, mk (meta 1 0 0 start_lsn) log_id (get_val_for_logservice scn) true).

(** Under the write lock the exchange succeeds. *)
Definition truncate (lsn : LSN) (log_id : Z) (scn : SCN) (s : t) : Z * t :=
  if negb (is_inited_ s) then (OB_NOT_INIT, s)
  else if negb (lsn_is_valid lsn) || (OB_INVALID_LOG_ID =? log_id) || negb (is_valid scn)
  then (OB_INVALID_ARGUMENT, s)
  else (OB_SUCCESS, mk (meta 1 0 0 lsn) log_id (get_val_for_logservice scn) (is_inited_ s)).

Definition last_log_id (last : LSNTsMeta) (log_id_base : Z) : Z := s64 (log_id_base + log_id_delta_ last).
Definition last_scn (last : LSNTsMeta) (scn_base : Z) : Z := u64 (scn_base + scn_delta_ last).

(** The word is exchanged when the deltas fit, else the bases are replaced. *)
Definition inc_update_last_log_info (lsn : LSN) (log_id : Z) (scn : SCN) (s : t) : Z * t :=
  if negb (is_inited_ s) then (OB_NOT_INIT, s)
  else if negb (lsn_is_valid lsn) || negb (is_valid scn) || (OB_INVALID_LOG_ID =? log_id)
  then (OB_INVALID_ARGUMENT, s)
  else
    let last := lsn_ts_meta_ s in
    let cur_log_id := last_log_id last (log_id_base_ s) in
    let scn_val := get_val_for_logservice scn in
    if (log_id <? cur_log_id) || (lsn <? lsn_val_ last) then (OB_SUCCESS, s)
    else if (LOG_ID_DELTA_UPPER_BOUND <=? s64 (log_id - log_id_base_ s))
            || (LOG_TS_DELTA_UPPER_BOUND <=? u64 (scn_val - scn_base_ s))
    then (OB_SUCCESS, mk (meta 1 0 0 lsn) log_id scn_val (is_inited_ s))
    else (OB_SUCCESS, set_meta (meta 1 (s64 (log_id - log_id_base_ s)) (u64 (scn_val - scn_base_ s)) lsn) s).

Definition inc_update_scn_base (ref_scn : SCN) (s : t) : Z * t :=
  if negb (is_inited_ s) then (OB_NOT_INIT, s)
  else if negb (is_valid ref_scn) then (OB_INVALID_ARGUMENT, s)
  else
    let scn := get_val_for_logservice ref_scn in
    let last := lsn_ts_meta_ s in
    if scn <? last_scn last (scn_base_ s) then (OB_SUCCESS, s)
    else (OB_SUCCESS, mk (meta 1 (log_id_delta_ last) 0 (lsn_val_ last)) (log_id_base_ s) scn (is_inited_ s)).

Definition get_max_log_id (s : t) : Z :=
  if negb (is_inited_ s) then OB_INVALID_LOG_ID else last_log_id (lsn_ts_meta_ s) (log_id_base_ s).

Definition get_max_scn (s : t) : SCN :=
  if negb (is_inited_ s) then OB_INVALID_SCN_VAL
  else snd (convert_for_logservice (last_scn (lsn_ts_meta_ s) (scn_base_ s)) OB_INVALID_SCN_VAL).

Definition get_curr_end_lsn (curr_end_lsn : LSN) (s : t) : Z * LSN :=
  if negb (is_inited_ s) then (OB_NOT_INIT, curr_end_lsn) else (OB_SUCCESS, lsn_val_ (lsn_ts_meta_ s)).

(** The word both freezes store: the next log is cut. *)
Definition frozen (last : LSNTsMeta) : LSNTsMeta := meta 1 (log_id_delta_ last) (scn_delta_ last) (lsn_val_ last).

Definition try_freeze_by_time (last_lsn : LSN) (log_id : Z) (s : t) : Z * LSN * Z * t :=
  if negb (is_inited_ s) then (OB_NOT_INIT, last_lsn, log_id, s)
  else
    let last := lsn_ts_meta_ s in
    if is_need_cut_ last =? 1 then (OB_STATE_NOT_MATCH, lsn_val_ last, last_log_id last (log_id_base_ s), s)
    else (OB_SUCCESS, lsn_val_ (frozen last), last_log_id last (log_id_base_ s), set_meta (frozen last) s).

Definition try_freeze (last_lsn : LSN) (log_id : Z) (s : t) : Z * LSN * Z * t :=
  if negb (is_inited_ s) then (OB_NOT_INIT, last_lsn, log_id, s)
  else
    let last := lsn_ts_meta_ s in
    if is_need_cut_ last =? 1 then (OB_SUCCESS, lsn_val_ last, last_log_id last (log_id_base_ s), s)
    else (OB_SUCCESS, lsn_val_ (frozen last), last_log_id last (log_id_base_ s), set_meta (frozen last) s).

(** ** [alloc_lsn_scn] *)

Record alloc_args := mk_args { base_scn : SCN; size : Z; log_id_upper_bound : Z; lsn_upper_bound : LSN }.

Record alloc_out := mk_out {
  lsn : LSN; log_id : Z; scn : SCN; is_new_group_log : bool; need_gen_padding_entry : bool; padding_len : Z }.

Definition set_flags (is_new need_padding : bool) (len : Z) (o : alloc_out) : alloc_out :=
  mk_out (lsn o) (log_id o) (scn o) is_new need_padding len.

Definition group_size (size : Z) : Z := size + LogGroupEntryHeader.HEADER_SER_SIZE.

(** Replacing the bases, under the write lock. *)
Definition update_base (a : alloc_args) (s : t) : t :=
  let last := lsn_ts_meta_ s in
  mk (meta (is_need_cut_ last) 0 0 (lsn_val_ last)) (last_log_id last (log_id_base_ s))
     (Z.max (get_val_for_logservice (base_scn a)) (last_scn last (scn_base_ s))) (is_inited_ s).

(** Where the log ends in its block, whether it opens a group, whether the next one has
    to.  The branch that is not expected to be taken goes on with an offset of zero. *)
Definition next_place (last : LSNTsMeta) (size : Z) : Z * bool * bool * Z :=
  let last_block_offset := lsn_2_offset (lsn_val_ last) PALF_BLOCK_SIZE in
  let masked := Z.land last_block_offset LOG_CUT_TRIGGER_MASK in
  let new_group_log_size := group_size size in
  let new_group := (OB_SUCCESS, true, LOG_CUT_TRIGGER <=? u64 (masked + new_group_log_size),
                    u64 (last_block_offset + new_group_log_size)) in
  if negb (is_need_cut_ last =? 0) then new_group
  else if (0 <? last_block_offset) && (masked =? 0) then (OB_ERR_UNEXPECTED, false, false, 0)
  else if (0 <? last_block_offset) && (LOG_CUT_TRIGGER <? u64 (masked + size)) then new_group
  else (OB_SUCCESS, false, LOG_CUT_TRIGGER <=? u64 (masked + size), u64 (last_block_offset + size)).

(** A log that does not fit, or leaves too little, goes to the next block after a
    padding.  The block, the offset in it, and the three flags. *)
Definition fit_block (last : LSNTsMeta) (size : Z) (is_new is_next_need_cut : bool) (tmp_next_block_offset : Z) :
    Z * Z * bool * bool * bool * Z :=
  let last_block_offset := lsn_2_offset (lsn_val_ last) PALF_BLOCK_SIZE in
  let block_id := lsn_2_block (lsn_val_ last) PALF_BLOCK_SIZE in
  let new_group_log_size := group_size size in
  let padded := (block_id + 1, new_group_log_size, true, true, LOG_CUT_TRIGGER <=? new_group_log_size,
                 PALF_BLOCK_SIZE - last_block_offset) in
  if tmp_next_block_offset <? PALF_BLOCK_SIZE then
    if PALF_BLOCK_SIZE - tmp_next_block_offset <? CLOG_FILE_TAIL_PADDING_TRIGGER then padded
    else (block_id, tmp_next_block_offset, is_new, false, is_next_need_cut, 0)
  else if tmp_next_block_offset =? PALF_BLOCK_SIZE then (block_id + 1, 0, is_new, false, true, 0)
  else padded.

(** One turn of the loop after loading [last] and reading the bases. *)
Inductive attempt :=
| NeedUpdateBase (o : alloc_out)
| Refused (ret : Z) (o : alloc_out)
| Exchange (ret : Z) (next : LSNTsMeta) (scn_val : Z) (o : alloc_out).

Definition alloc_turn (a : alloc_args) (last : LSNTsMeta) (log_id_base scn_base : Z) (o : alloc_out) : attempt :=
  let last_log_id := last_log_id last log_id_base in
  let tmp_next_scn := Z.max (get_val_for_logservice (base_scn a)) (u64 (last_scn last scn_base + 1)) in
  if (LOG_TS_DELTA_UPPER_BOUND <=? u64 (u64 (tmp_next_scn + 1) - scn_base))
     || (LOG_ID_DELTA_UPPER_BOUND <=? log_id_delta_ last + 2)
  then NeedUpdateBase (set_flags false false 0 o)
  else
    let tmp_next_scn_delta := u64 (tmp_next_scn - scn_base) in
    let '(ret, is_new, cut, offset) := next_place last (size a) in
    let '(block_id, offset, is_new, need_padding, cut, padding_len) := fit_block last (size a) is_new cut offset in
    let next_log_id_delta := log_id_delta_ last + (if is_new then 1 else 0) + (if need_padding then 1 else 0) in
    let next_scn_delta := tmp_next_scn_delta + (if need_padding then 1 else 0) in
    let next := meta (if cut then 1 else 0) next_log_id_delta next_scn_delta (block_id * PALF_BLOCK_SIZE + offset) in
    let new_log_id := (if is_new then last_log_id + 1 else last_log_id) + (if need_padding then 1 else 0) in
    let o := set_flags is_new need_padding padding_len o in
    if (log_id_upper_bound a <? new_log_id) || lsn_gt (lsn_val_ next) (lsn_upper_bound a)
    then Refused OB_EAGAIN o
    else
      Exchange ret next (u64 (scn_base + tmp_next_scn_delta))
        (mk_out (lsn_val_ last) (if is_new then last_log_id + 1 else last_log_id) (scn o) is_new need_padding padding_len).

(** After the exchange the timestamp is converted; its result replaces the code. *)
Definition exchanged (scn_val : Z) (o : alloc_out) : Z * alloc_out :=
  let '(ret, scn) := convert_for_logservice scn_val (scn o) in
  (ret, mk_out (lsn o) (log_id o) scn (is_new_group_log o) (need_gen_padding_entry o) (padding_len o)).

(** The loop over the bases, when no other thread comes between. *)
Fixpoint alloc_rounds (rounds : nat) (a : alloc_args) (o : alloc_out) (s : t) : option (Z * alloc_out * t) :=
  match rounds with
  | O => None
  | S rounds =>
      match alloc_turn a (lsn_ts_meta_ s) (log_id_base_ s) (scn_base_ s) o with
      | NeedUpdateBase o => alloc_rounds rounds a o (update_base a s)
      | Refused ret o => Some (ret, o, s)
      | Exchange _ next scn_val o => let '(ret, o) := exchanged scn_val o in Some (ret, o, set_meta next s)
      end
  end.

Definition args_invalid (a : alloc_args) : bool :=
  (size a <=? 0) || negb (is_valid (base_scn a)) || (log_id_upper_bound a <=? 0) || negb (lsn_is_valid (lsn_upper_bound a)).

Definition alloc_lsn_scn (rounds : nat) (a : alloc_args) (o : alloc_out) (s : t) : option (Z * alloc_out * t) :=
  if negb (is_inited_ s) then Some (OB_NOT_INIT, o, s)
  else if args_invalid a then Some (OB_INVALID_ARGUMENT, o, s)
  else alloc_rounds rounds a o s.
End LSNAllocator.

Import LSNAllocator.

(** ** Entries of the log *)

(** A padding to the end of a block, a log that opens a group, header included, and a log
    appended to the group before it. *)
Inductive entry_kind := PaddingLog | GroupLog | AppendedLog.
Record entry := mk_entry { e_kind : entry_kind; e_lsn : LSN; e_len : Z; e_log_id : Z; e_scn : SCN }.

(** What [submit_log] writes for an allocation. *)
Definition submitted (size : Z) (o : alloc_out) : list entry :=
  let padding := if need_gen_padding_entry o
    then [mk_entry PaddingLog (lsn o) (padding_len o) (log_id o) (scn o)] else [] in
  let '(tmp_lsn, log_id, scn) := if need_gen_padding_entry o
    then (u64 (lsn o + padding_len o), log_id o + 1, plus (scn o) 1) else (lsn o, log_id o, scn o) in
  padding ++
  [if is_new_group_log o then mk_entry GroupLog tmp_lsn (group_size size) log_id scn
   else mk_entry AppendedLog tmp_lsn size log_id scn].

(** The next entry of a log that ends at [lsn], with its last number and timestamp: it
    begins there, its timestamp is larger, it is within one block; a padding has
    room for its headers and fills the block; only an appended log keeps the number,
    and it stays within 2M. *)
Definition next_entry (e : entry) (p : LSN * Z * SCN) : option (LSN * Z * SCN) :=
  let '(lsn, log_id, scn) := p in
  let offset := lsn_2_offset lsn PALF_BLOCK_SIZE in
  if (e_lsn e =? lsn) && (scn <? e_scn e) && (offset + e_len e <=? PALF_BLOCK_SIZE) &&
     match e_kind e with
     | PaddingLog => (e_log_id e =? log_id + 1) && (CLOG_FILE_TAIL_PADDING_TRIGGER <=? e_len e)
                     && (offset + e_len e =? PALF_BLOCK_SIZE)
     | GroupLog => (e_log_id e =? log_id + 1) && (LogGroupEntryHeader.HEADER_SER_SIZE <? e_len e)
     | AppendedLog => (e_log_id e =? log_id) && (0 <? e_len e) && (0 <? offset)
                      && (Z.land offset LOG_CUT_TRIGGER_MASK + e_len e <=? LOG_CUT_TRIGGER)
     end
  then Some (lsn + e_len e, e_log_id e, e_scn e) else None.

Fixpoint well_formed (es : list entry) (p : LSN * Z * SCN) : option (LSN * Z * SCN) :=
  match es with
  | [] => Some p
  | e :: es => next_entry e p ≫= well_formed es
  end.

Lemma well_formed_app es es' p : well_formed (es ++ es') p = well_formed es p ≫= well_formed es'.
Proof.
  revert p. induction es as [|e es IH]; intros p; cbn [well_formed app]; [done|].
  destruct (next_entry e p); [apply IH | done].
Qed.

(** ** The invariant *)

(** A log has at most the largest body and its header; timestamps up to 2043 and
    positions up to 2^59 leave room below the largest timestamp. *)
Definition args_ok (a : alloc_args) : Prop :=
  0 <= base_scn a <= 2 ^ 61 /\ 0 < size a <= MAX_LOG_BODY_SIZE + LogEntryHeader.HEADER_SER_SIZE /\
  0 < log_id_upper_bound a < 2 ^ 62 /\ 0 <= lsn_upper_bound a <= 2 ^ 59.

Record alloc_ok (s : t) : Prop := {
  ok_inited : is_inited_ s = true;
  ok_cut : is_need_cut_ (lsn_ts_meta_ s) = 0 \/ is_need_cut_ (lsn_ts_meta_ s) = 1;
  ok_lsn : 0 <= lsn_val_ (lsn_ts_meta_ s) <= 2 ^ 59;
  ok_log_id : 0 <= log_id_base_ s /\ 0 <= log_id_delta_ (lsn_ts_meta_ s) < 2 ^ 28 /\
              log_id_base_ s + log_id_delta_ (lsn_ts_meta_ s) < 2 ^ 62;
  ok_scn : 0 <= scn_base_ s /\ 0 <= scn_delta_ (lsn_ts_meta_ s) < 2 ^ 35 /\
           scn_base_ s + scn_delta_ (lsn_ts_meta_ s) <= 2 ^ 61 + 2 * lsn_val_ (lsn_ts_meta_ s);
  (** A block never has a tail shorter than a padding. *)
  ok_tail : lsn_2_offset (lsn_val_ (lsn_ts_meta_ s)) PALF_BLOCK_SIZE <= PALF_BLOCK_SIZE - CLOG_FILE_TAIL_PADDING_TRIGGER;
  (** A group left open ends inside of a 2M range. *)
  ok_open : is_need_cut_ (lsn_ts_meta_ s) = 0 ->
            0 < Z.land (lsn_2_offset (lsn_val_ (lsn_ts_meta_ s)) PALF_BLOCK_SIZE) LOG_CUT_TRIGGER_MASK }.

(** The end of the log, its last number and timestamp. *)
Definition end_lsn (s : t) : Z := lsn_val_ (lsn_ts_meta_ s).
Definition end_log_id (s : t) : Z := log_id_base_ s + log_id_delta_ (lsn_ts_meta_ s).
Definition end_scn (s : t) : Z := scn_base_ s + scn_delta_ (lsn_ts_meta_ s).

Lemma last_log_id_ok s : alloc_ok s -> last_log_id (lsn_ts_meta_ s) (log_id_base_ s) = end_log_id s.
Proof.
  intros H. destruct (ok_log_id _ H) as (? & ? & ?). apply to_s_id; [lia|]. unfold is_s, end_log_id. lia.
Qed.

Lemma last_scn_ok s : alloc_ok s -> last_scn (lsn_ts_meta_ s) (scn_base_ s) = end_scn s.
Proof.
  intros H. destruct (ok_scn _ H) as (? & ? & ?), (ok_lsn _ H). apply to_u_id. unfold is_u, end_scn. lia.
Qed.

Lemma get_max_log_id_ok s : alloc_ok s -> get_max_log_id s = end_log_id s.
Proof. intros H. unfold get_max_log_id. rewrite (ok_inited _ H). by apply last_log_id_ok. Qed.

(** ** One allocation *)

Lemma LOG_CUT_TRIGGER_val : LOG_CUT_TRIGGER = 2097152.
Proof. done. Qed.
Lemma PADDING_TRIGGER_val : CLOG_FILE_TAIL_PADDING_TRIGGER = 4096.
Proof. done. Qed.
Lemma GROUP_HEADER_val : LogGroupEntryHeader.HEADER_SER_SIZE = 56.
Proof. done. Qed.
Lemma MAX_LOG_val : MAX_LOG_BODY_SIZE + LogEntryHeader.HEADER_SER_SIZE = 3670048.
Proof. done. Qed.

Ltac alloc_consts :=
  rewrite ?PALF_BLOCK_SIZE_val, ?LOG_CUT_TRIGGER_val, ?PADDING_TRIGGER_val, ?GROUP_HEADER_val, ?MAX_LOG_val in *.

Lemma masked_mod x : Z.land x LOG_CUT_TRIGGER_MASK = x mod LOG_CUT_TRIGGER.
Proof. change LOG_CUT_TRIGGER_MASK with (Z.ones 21). by rewrite Z.land_ones. Qed.

Lemma mod_add_small x n k : 0 < k -> 0 <= n -> x mod k + n < k -> (x + n) mod k = x mod k + n.
Proof.
  intros Hk Hn Hlt. rewrite <- Z.add_mod_idemp_l by lia. apply Z.mod_small. pose proof (Z.mod_pos_bound x k Hk). lia.
Qed.

Definition log_size (new : bool) (size : Z) : Z := if new then group_size size else size.

Section place.
Context (m : LSNTsMeta) (size : Z).
Local Abbreviation off0 := (lsn_2_offset (lsn_val_ m) PALF_BLOCK_SIZE).
Context (Hcut : is_need_cut_ m = 0 \/ is_need_cut_ m = 1) (Hlsn : 0 <= lsn_val_ m <= 2 ^ 59).
Context (Htail : off0 <= PALF_BLOCK_SIZE - CLOG_FILE_TAIL_PADDING_TRIGGER).
Context (Hopen : is_need_cut_ m = 0 -> 0 < Z.land off0 LOG_CUT_TRIGGER_MASK).
Context (Hsize : 0 < size <= MAX_LOG_BODY_SIZE + LogEntryHeader.HEADER_SER_SIZE).

(** The log follows the last one; only one that stays within 2M is appended. *)
Lemma next_place_ok ret new cut off : next_place m size = (ret, new, cut, off) ->
  ret = OB_SUCCESS /\ off = off0 + log_size new size /\ cut = (LOG_CUT_TRIGGER <=? off0 mod LOG_CUT_TRIGGER + log_size new size) /\
  (new = false -> 0 < off0 /\ off0 mod LOG_CUT_TRIGGER + size <= LOG_CUT_TRIGGER).
Proof using Hcut Hlsn Htail Hopen Hsize.
  unfold next_place. rewrite !masked_mod in *. pose proof (lsn_2_offset_range (lsn_val_ m) PALF_BLOCK_SIZE ltac:(done)) as Hr.
  set (o := off0) in *. unfold log_size, group_size in *. alloc_consts. pose proof (Z.mod_pos_bound o 2097152 ltac:(lia)).
  rewrite !(to_u_id 64) by (unfold is_u; lia). destruct (Z.eqb_spec (is_need_cut_ m) 0) as [E|E]; cbn [negb].
  - specialize (Hopen E). assert (o <> 0) by (intros Ho; by rewrite Ho in Hopen).
    destruct (Z.ltb_spec 0 o); [|lia]. destruct (Z.eqb_spec (o mod 2097152) 0); [lia|]. cbn [andb].
    destruct (Z.ltb_spec 2097152 (o mod 2097152 + size)); intros [= <- <- <- <-]; split_and!; try done; lia.
  - intros [= <- <- <- <-]. by split_and!.
Qed.

(** The log is behind the last one, or behind a padding in the next block; the tail has
    room for a padding, and a group left open ends inside of a 2M range. *)
Lemma fit_block_ok new cut off block off' new' pad cut' plen :
  off = off0 + log_size new size -> cut = (LOG_CUT_TRIGGER <=? off0 mod LOG_CUT_TRIGGER + log_size new size) ->
  fit_block m size new cut off = (block, off', new', pad, cut', plen) ->
  let lsn' := block * PALF_BLOCK_SIZE + off' in
  0 <= off' <= PALF_BLOCK_SIZE - CLOG_FILE_TAIL_PADDING_TRIGGER /\ lsn_2_offset lsn' PALF_BLOCK_SIZE = off' /\
  (cut' = false -> 0 < off' mod LOG_CUT_TRIGGER) /\
  if pad then new' = true /\ plen = PALF_BLOCK_SIZE - off0 /\ lsn' = lsn_val_ m + plen + log_size true size
  else new' = new /\ off0 + log_size new size <= PALF_BLOCK_SIZE /\ lsn' = lsn_val_ m + log_size new size.
Proof using Hcut Hlsn Htail Hopen Hsize.
  intros -> -> Hf. cbv zeta. unfold fit_block in Hf.
  pose proof (lsn_block_offset (lsn_val_ m) PALF_BLOCK_SIZE ltac:(done)) as Hb.
  pose proof (lsn_2_offset_range (lsn_val_ m) PALF_BLOCK_SIZE ltac:(done)) as Hr.
  set (o := off0) in *.
  assert (0 < log_size new size <= 3670048 + 56) as Hls by (unfold log_size, group_size; alloc_consts; destruct new; lia).
  assert (log_size true size = size + 56) as Ht by done. unfold group_size in *. alloc_consts.
  pose proof (Z.mod_pos_bound o 2097152 ltac:(lia)).
  assert (0 <= off' < 67104768 -> lsn_2_offset (block * 67104768 + off') 67104768 = off') as Hoff by apply lsn_of_block.
  destruct (Z.ltb_spec (o + log_size new size) 67104768);
    [destruct (Z.ltb_spec (67104768 - (o + log_size new size)) 4096)
    |destruct (Z.eqb_spec (o + log_size new size) 67104768)];
    injection Hf as <- <- <- <- <- <-; (split; [lia|]); (split; [apply Hoff; lia|]).
  - split; [|split_and!; lia || reflexivity]. intros ?%Z.leb_gt. rewrite Z.mod_small; lia.
  - split; [|split_and!; lia || reflexivity]. intros ?%Z.leb_gt. rewrite mod_add_small; lia.
  - split; [done|]. split_and!; lia || reflexivity.
  - split; [|split_and!; lia || reflexivity]. intros ?%Z.leb_gt. rewrite Z.mod_small; lia.
Qed.
End place.

Lemma meta_id c i d l : 0 <= c <= 1 -> 0 <= i < 2 ^ 28 -> 0 <= d < 2 ^ 35 -> 0 <= l < 2 ^ 64 -> meta c i d l = mk_meta c i d l.
Proof.
  intros. unfold meta. rewrite !to_u_id; try done; unfold is_u, LOG_ID_DELTA_BIT_CNT, LOG_TS_DELTA_BIT_CNT; lia.
Qed.

Definition cut_bit (cut : bool) : Z := if cut then 1 else 0.
Definition new_ids (new pad : bool) : Z := (if new then 1 else 0) + (if pad then 1 else 0).

(** The position an allocation takes, and what it leaves. *)
Record placed (s : t) (a : alloc_args) (new pad : bool) (plen lsn' : Z) (cut : bool) : Prop := {
  pl_end : lsn' = end_lsn s + (if pad then plen else 0) + log_size new (size a);
  pl_tail : lsn_2_offset lsn' PALF_BLOCK_SIZE <= PALF_BLOCK_SIZE - CLOG_FILE_TAIL_PADDING_TRIGGER;
  pl_open : cut = false -> 0 < lsn_2_offset lsn' PALF_BLOCK_SIZE mod LOG_CUT_TRIGGER;
  pl_pad : pad = true -> new = true /\ plen = PALF_BLOCK_SIZE - lsn_2_offset (end_lsn s) PALF_BLOCK_SIZE;
  pl_fits : pad = false -> lsn_2_offset (end_lsn s) PALF_BLOCK_SIZE + log_size new (size a) <= PALF_BLOCK_SIZE;
  pl_append : new = false -> 0 < lsn_2_offset (end_lsn s) PALF_BLOCK_SIZE /\
              lsn_2_offset (end_lsn s) PALF_BLOCK_SIZE mod LOG_CUT_TRIGGER + size a <= LOG_CUT_TRIGGER }.

Lemma place_ok s a : alloc_ok s -> args_ok a -> exists new pad plen cut block off cut0 new0 off0,
  next_place (lsn_ts_meta_ s) (size a) = (OB_SUCCESS, new0, cut0, off0) /\
  fit_block (lsn_ts_meta_ s) (size a) new0 cut0 off0 = (block, off, new, pad, cut, plen) /\
  placed s a new pad plen (block * PALF_BLOCK_SIZE + off) cut.
Proof.
  intros [_ Hc Hl _ _ Ht Ho] (_ & Hs & _ & _).
  destruct (next_place (lsn_ts_meta_ s) (size a)) as [[[ret new0] cut0] off0] eqn:En.
  destruct (fit_block (lsn_ts_meta_ s) (size a) new0 cut0 off0) as [[[[[block off] new] pad] cut] plen] eqn:Ef.
  pose proof (next_place_ok _ _ Hc Hl Ht Ho Hs _ _ _ _ En) as (-> & Eo & Ec & Ha).
  pose proof (fit_block_ok _ _ Hc Hl Ht Ho Hs _ _ _ _ _ _ _ _ _ Eo Ec Ef) as (Hr & Hoff & Hop & Hp).
  exists new, pad, plen, cut, block, off, cut0, new0, off0. split_and!; [done | done |].
  destruct pad; [destruct Hp as (-> & -> & E) | destruct Hp as (-> & Hf & E)];
    (split; unfold end_lsn; [lia | rewrite Hoff; lia | by rewrite Hoff | done .. ]).
Qed.

Lemma next_entry_ok e l id sc :
  e_lsn e = l -> sc < e_scn e -> lsn_2_offset l PALF_BLOCK_SIZE + e_len e <= PALF_BLOCK_SIZE ->
  match e_kind e with
  | PaddingLog => e_log_id e = id + 1 /\ CLOG_FILE_TAIL_PADDING_TRIGGER <= e_len e /\
                  lsn_2_offset l PALF_BLOCK_SIZE + e_len e = PALF_BLOCK_SIZE
  | GroupLog => e_log_id e = id + 1 /\ LogGroupEntryHeader.HEADER_SER_SIZE < e_len e
  | AppendedLog => e_log_id e = id /\ 0 < e_len e /\ 0 < lsn_2_offset l PALF_BLOCK_SIZE /\
                   lsn_2_offset l PALF_BLOCK_SIZE mod LOG_CUT_TRIGGER + e_len e <= LOG_CUT_TRIGGER
  end -> next_entry e (l, id, sc) = Some (l + e_len e, e_log_id e, e_scn e).
Proof.
  intros Hl Hs Hf Hk. unfold next_entry. rewrite masked_mod, (proj2 (Z.eqb_eq _ _) Hl), (proj2 (Z.ltb_lt _ _) Hs), (proj2 (Z.leb_le _ _) Hf).
  cbn [andb].
  assert (forall b : bool, b = true -> (if b then Some (l + e_len e, e_log_id e, e_scn e) else None) =
    Some (l + e_len e, e_log_id e, e_scn e)) as Hb by by intros ? ->.
  apply Hb. destruct (e_kind e); rewrite ?andb_true_iff, ?Z.eqb_eq, ?Z.leb_le, ?Z.ltb_lt; tauto.
Qed.

Lemma plus_one sc : 0 <= sc < 2 ^ 62 - 1 -> plus sc 1 = sc + 1.
Proof.
  intros H. unfold plus. rewrite (proj2 (is_valid_true sc ltac:(unfold is_u; lia))) by lia. rewrite OB_MAX_SCN_TS_NS_val.
  rewrite to_u_id by (unfold is_u; lia). cbn. destruct (Z.ltb_spec (2 ^ 62 - 1) (sc + 1)); [lia | done].
Qed.

(** A block ends where the next one begins. *)
Lemma next_block l : 0 <= l -> let off := lsn_2_offset l PALF_BLOCK_SIZE in
  lsn_2_offset (l + (PALF_BLOCK_SIZE - off)) PALF_BLOCK_SIZE = 0.
Proof.
  intros Hl off. pose proof (lsn_block_offset l PALF_BLOCK_SIZE ltac:(done)) as Hb. fold off in Hb.
  replace (l + (PALF_BLOCK_SIZE - off)) with ((lsn_2_block l PALF_BLOCK_SIZE + 1) * PALF_BLOCK_SIZE + 0) by lia.
  apply lsn_of_block. alloc_consts. lia.
Qed.

Ltac triple := apply (f_equal Some), pair_equal_spec; split; [apply pair_equal_spec; split|]; lia.

(** The entries of an allocation continue the log. *)
Lemma submitted_ok s a new pad plen lsn' cut id sc sc0 :
  alloc_ok s -> args_ok a -> placed s a new pad plen lsn' cut -> lsn' <= 2 ^ 59 ->
  id = (if new then end_log_id s + 1 else end_log_id s) -> sc0 < sc -> 0 <= sc < 2 ^ 62 - 1 ->
  well_formed (submitted (size a) (mk_out (end_lsn s) id sc new pad plen)) (end_lsn s, end_log_id s, sc0) =
  Some (lsn', end_log_id s + new_ids new pad, sc + (if pad then 1 else 0)).
Proof.
  intros Hok (_ & Hs & _ & _) [He Ht Ho Hp Hf Ha] Hl -> Hscn Hr. pose proof (ok_lsn _ Hok) as Hlsn.
  pose proof (ok_tail _ Hok) as Htail. fold (end_lsn s) in Hlsn, Htail.
  pose proof (lsn_2_offset_range (end_lsn s) PALF_BLOCK_SIZE ltac:(done)) as Hor.
  unfold submitted, new_ids. cbn [need_gen_padding_entry is_new_group_log lsn log_id scn padding_len]. destruct pad.
  - destruct (Hp eq_refl) as [-> ->]. pose proof (next_block (end_lsn s) ltac:(lia)) as Hnb. cbn [app well_formed].
    unfold log_size, group_size in *.
    rewrite next_entry_ok; cbn [e_kind e_lsn e_len e_log_id e_scn]; [| done | done | lia | lia].
    cbn [mbind option_bind]. rewrite to_u_id by (unfold is_u; alloc_consts; lia).
    rewrite next_entry_ok; cbn [e_kind e_lsn e_len e_log_id e_scn]; rewrite ?plus_one by lia; [| done | lia | |].
    + cbn [mbind option_bind]. rewrite He. triple.
    + rewrite Hnb. alloc_consts. lia.
    + alloc_consts. lia.
  - cbn [app well_formed]. specialize (Hf eq_refl).
    destruct new; unfold log_size, group_size in *;
      (rewrite next_entry_ok; cbn [e_kind e_lsn e_len e_log_id e_scn]; [| done | done | lia | ]).
    + cbn [mbind option_bind]. rewrite He. triple.
    + alloc_consts. lia.
    + cbn [mbind option_bind]. rewrite He. triple.
    + destruct (Ha eq_refl). split_and!; done || lia.
Qed.

Definition pad_bit (pad : bool) : Z := if pad then 1 else 0.

(** The word after an allocation with timestamp [sc]. *)
Definition next_meta (s : t) (new pad cut : bool) (sc lsn' : Z) : LSNTsMeta :=
  mk_meta (cut_bit cut) (log_id_delta_ (lsn_ts_meta_ s) + new_ids new pad) (sc - scn_base_ s + pad_bit pad) lsn'.

Lemma placed_lt s a new pad plen lsn' cut : alloc_ok s -> args_ok a -> placed s a new pad plen lsn' cut ->
  end_lsn s < lsn' < end_lsn s + 2 ^ 30.
Proof.
  intros Hok (_ & Hsz & _) [He _ _ Hp Hf _]. pose proof (ok_lsn _ Hok) as Hl. fold (end_lsn s) in Hl.
  pose proof (lsn_2_offset_range (end_lsn s) PALF_BLOCK_SIZE ltac:(done)) as Hor.
  rewrite He. unfold log_size, group_size in *. alloc_consts.
  destruct pad; [destruct (Hp eq_refl) as [-> ->] | destruct new]; lia.
Qed.

Lemma next_meta_ok s a new pad plen lsn' cut sc :
  alloc_ok s -> args_ok a -> placed s a new pad plen lsn' cut -> lsn' <= 2 ^ 59 ->
  end_scn s < sc <= 2 ^ 61 + 2 * end_lsn s + 1 -> sc + 1 - scn_base_ s < 2 ^ 35 ->
  log_id_delta_ (lsn_ts_meta_ s) + 2 < 2 ^ 28 -> end_log_id s + new_ids new pad < 2 ^ 62 ->
  alloc_ok (set_meta (next_meta s new pad cut sc lsn') s).
Proof.
  intros Hok Ha Hp Hle Hs Hsd Hi Hid. pose proof (placed_lt _ _ _ _ _ _ _ Hok Ha Hp) as Hlt.
  destruct Hp as [He Ht Ho _ _ _]. destruct Hok as [Hin Hc Hl (Hi0 & Hi1 & Hi2) (Hs0 & Hs1 & Hs2) _ _].
  unfold end_lsn, end_scn, end_log_id in *.
  assert (0 <= new_ids new pad <= 2) by (unfold new_ids; destruct new, pad; lia).
  assert (0 <= pad_bit pad <= 1) by (unfold pad_bit; destruct pad; lia).
  split; cbn; try done.
  - destruct cut; auto.
  - lia.
  - lia.
  - lia.
  - rewrite masked_mod. destruct cut; [done|]. by intros _; apply Ho.
Qed.

Lemma delta_bounds : LOG_TS_DELTA_UPPER_BOUND = 2 ^ 35 - 1000 /\ LOG_ID_DELTA_UPPER_BOUND = 2 ^ 28 - 1000.
Proof. done. Qed.

Lemma exchanged_ok sc o : 0 <= sc < 2 ^ 62 ->
  exchanged sc o = (OB_SUCCESS, mk_out (lsn o) (log_id o) sc (is_new_group_log o) (need_gen_padding_entry o) (padding_len o)).
Proof.
  intros H. unfold exchanged, convert_for_logservice. rewrite OB_MAX_SCN_TS_NS_val.
  by destruct (Z.ltb_spec (2 ^ 62 - 1) sc); [lia|].
Qed.

(** A turn asks for other bases, is refused because of the bounds, or exchanges the word. *)
Lemma alloc_turn_cases s a o0 : alloc_ok s -> args_ok a ->
  let sc := Z.max (base_scn a) (end_scn s + 1) in
  let r := alloc_turn a (lsn_ts_meta_ s) (log_id_base_ s) (scn_base_ s) o0 in
  (exists o, r = NeedUpdateBase o /\
     (LOG_TS_DELTA_UPPER_BOUND <= sc + 1 - scn_base_ s \/ LOG_ID_DELTA_UPPER_BOUND <= log_id_delta_ (lsn_ts_meta_ s) + 2)) \/
  (exists new pad plen lsn' cut,
     placed s a new pad plen lsn' cut /\ sc + 1 - scn_base_ s < LOG_TS_DELTA_UPPER_BOUND /\
     log_id_delta_ (lsn_ts_meta_ s) + 2 < LOG_ID_DELTA_UPPER_BOUND /\
     let id := if new then end_log_id s + 1 else end_log_id s in
     if (log_id_upper_bound a <? end_log_id s + new_ids new pad) || (lsn_upper_bound a <? lsn')
     then r = Refused OB_EAGAIN (set_flags new pad plen o0)
     else r = Exchange OB_SUCCESS (next_meta s new pad cut sc lsn') sc (mk_out (end_lsn s) id (scn o0) new pad plen)).
Proof.
  intros Hok Ha sc r. pose proof Ha as (Hbs & _ & _ & _).
  destruct (ok_scn _ Hok) as (Hs0 & Hs1 & Hs2), (ok_log_id _ Hok) as (Hi0 & Hi1 & Hi2). pose proof (ok_lsn _ Hok) as Hl.
  assert (scn_base_ s <= end_scn s <= 2 ^ 61 + 2 ^ 60) by (unfold end_scn; lia).
  unfold r, alloc_turn. rewrite (last_log_id_ok _ Hok), (last_scn_ok _ Hok). unfold get_val_for_logservice.
  rewrite (to_u_id 64 (end_scn s + 1)) by (unfold is_u; lia). fold sc.
  rewrite (to_u_id 64 (sc + 1)), !(to_u_id 64 (_ - _)) by (unfold is_u; lia).
  destruct ((_ <=? _) || _) eqn:Hg.
  { left. eexists. split; [done|]. apply orb_true_iff in Hg. by rewrite !Z.leb_le in Hg. }
  apply orb_false_iff in Hg as [Hg1%Z.leb_gt Hg2%Z.leb_gt]. right. pose proof delta_bounds as [Hts Hids].
  destruct (place_ok s a Hok Ha) as (new & pad & plen & cut & block & off & cut0 & new0 & off0 & -> & -> & Hp).
  exists new, pad, plen, (block * PALF_BLOCK_SIZE + off), cut. split_and!; [done | lia | lia |].
  pose proof (placed_lt _ _ _ _ _ _ _ Hok Ha Hp) as Hlt. unfold end_lsn in Hlt.
  rewrite meta_id; [| destruct cut; lia | destruct new, pad; lia | destruct pad; lia | lia].
  unfold lsn_gt, lsn_lt. cbn [lsn_val_]. rewrite to_u_id by (unfold is_u; lia).
  replace (scn_base_ s + (sc - scn_base_ s)) with sc by lia. unfold next_meta, cut_bit, pad_bit, new_ids.
  replace ((if new then end_log_id s + 1 else end_log_id s) + (if pad then 1 else 0))
    with (end_log_id s + ((if new then 1 else 0) + (if pad then 1 else 0))) by (destruct new; lia).
  rewrite (Z.add_assoc (log_id_delta_ _)). destruct ((_ <? _) || _); done.
Qed.

Lemma end_next s new pad cut sc lsn' :
  let s' := set_meta (next_meta s new pad cut sc lsn') s in
  end_lsn s' = lsn' /\ end_log_id s' = end_log_id s + new_ids new pad /\ end_scn s' = sc + pad_bit pad.
Proof. unfold end_lsn, end_log_id, end_scn. cbn. split_and!; lia. Qed.

Lemma alloc_turn_refused a last idb scnb o0 ret o : alloc_turn a last idb scnb o0 = Refused ret o -> ret = OB_EAGAIN.
Proof.
  unfold alloc_turn. destruct (_ || _); [discriminate|]. destruct (next_place _ _) as [[[? ?] ?] ?].
  destruct (fit_block _ _ _ _ _) as [[[[[? ?] ?] ?] ?] ?]. destruct (_ || _); [by intros [= <- _] | discriminate].
Qed.

(** An exchange continues the log. *)
Lemma exchange_ok s a o0 ret next sc o : alloc_ok s -> args_ok a ->
  alloc_turn a (lsn_ts_meta_ s) (log_id_base_ s) (scn_base_ s) o0 = Exchange ret next sc o ->
  let s' := set_meta next s in
  ret = OB_SUCCESS /\ alloc_ok s' /\ base_scn a <= sc /\ end_scn s < sc /\ exists o',
  exchanged sc o = (OB_SUCCESS, o') /\ scn o' = sc /\
  forall sc0, sc0 <= end_scn s ->
    well_formed (submitted (size a) o') (end_lsn s, end_log_id s, sc0) = Some (end_lsn s', end_log_id s', end_scn s').
Proof.
  intros Hok Ha E. pose proof Ha as (Hbs & _ & Hib & Hlb). pose proof delta_bounds as [Hts Hids].
  destruct (alloc_turn_cases s a o0 Hok Ha) as [(? & E' & _) | (new & pad & plen & lsn' & cut & Hp & Hd1 & Hd2 & E')];
    [by rewrite E in E'|].
  cbv zeta in E'. destruct ((_ <? _) || _) eqn:Hb; rewrite E in E'; [discriminate|].
  apply orb_false_iff in Hb as [Hb1%Z.ltb_ge Hb2%Z.ltb_ge]. set (sc1 := Z.max _ _) in *. injection E' as -> -> -> ->.
  destruct (end_next s new pad cut sc1 lsn') as (El & Ei & Es). cbv zeta in El, Ei, Es.
  destruct (ok_scn _ Hok) as (Hs0 & Hs1 & Hs2). pose proof (ok_lsn _ Hok) as Hl. fold (end_lsn s) in Hl, Hs2. fold (end_scn s) in Hs2.
  assert (0 <= end_scn s) by (unfold end_scn; lia). cbv zeta.
  split_and!; [done | | lia | lia |].
  { apply (next_meta_ok s a new pad plen); try done; try lia. }
  eexists. rewrite exchanged_ok by lia. split; [done|]. split; [done|]. intros sc0 Hsc0. rewrite El, Ei, Es.
  cbn [lsn log_id is_new_group_log need_gen_padding_entry padding_len].
  apply (submitted_ok s a new pad plen lsn' cut); try done; lia.
Qed.

(** ** The other operations *)

Lemma update_base_ok s a : alloc_ok s -> args_ok a ->
  let s' := update_base a s in
  alloc_ok s' /\ end_lsn s' = end_lsn s /\ end_log_id s' = end_log_id s /\ end_scn s' = Z.max (base_scn a) (end_scn s) /\
  log_id_delta_ (lsn_ts_meta_ s') = 0 /\ scn_base_ s' = Z.max (base_scn a) (end_scn s).
Proof.
  intros Hok (Hb & _). pose proof (last_log_id_ok _ Hok) as Ei. pose proof (last_scn_ok _ Hok) as Es.
  destruct Hok as [Hin Hc Hl (Hi0 & Hi1 & Hi2) (Hs0 & Hs1 & Hs2) Ht Ho]. cbv zeta. unfold update_base.
  rewrite Ei, Es, meta_id by (destruct Hc; lia). unfold end_lsn, end_log_id, end_scn, get_val_for_logservice in *.
  cbn. split_and!; try lia. split; cbn; try done; lia.
Qed.

(** Closing the group changes neither the end nor the numbers. *)
Lemma closed_ok s m : alloc_ok s -> m = frozen (lsn_ts_meta_ s) ->
  let s' := set_meta m s in
  alloc_ok s' /\ end_lsn s' = end_lsn s /\ end_log_id s' = end_log_id s /\ end_scn s' = end_scn s.
Proof.
  intros [Hin Hc Hl Hi Hs Ht Ho] ->. cbv zeta. unfold frozen. rewrite meta_id by lia.
  unfold end_lsn, end_log_id, end_scn. cbn. split_and!; try done. split; cbn; try done; [by right | lia ..].
Qed.

Lemma inc_update_scn_base_ok s ref : alloc_ok s -> 0 <= ref <= 2 ^ 61 ->
  exists s', inc_update_scn_base ref s = (OB_SUCCESS, s') /\
  alloc_ok s' /\ end_lsn s' = end_lsn s /\ end_log_id s' = end_log_id s /\ end_scn s' = Z.max ref (end_scn s).
Proof.
  intros Hok Hr. unfold inc_update_scn_base. rewrite (ok_inited _ Hok), (proj2 (is_valid_true ref ltac:(unfold is_u; lia))) by lia.
  cbn [negb]. unfold get_val_for_logservice. rewrite (last_scn_ok _ Hok).
  destruct (Z.ltb_spec ref (end_scn s)); eexists; (split; [done|]); [split_and!; done || lia|].
  destruct Hok as [Hin Hc Hl (Hi0 & Hi1 & Hi2) Hs Ht Ho]. rewrite meta_id by lia.
  unfold end_lsn, end_log_id, end_scn in *. cbn. split_and!; try lia. split; cbn; try done; [by right | lia ..].
Qed.

Lemma init_ok id sc start : 0 <= id < 2 ^ 62 -> 0 <= sc <= 2 ^ 61 -> 0 <= start <= 2 ^ 59 ->
  lsn_2_offset start PALF_BLOCK_SIZE <= PALF_BLOCK_SIZE - CLOG_FILE_TAIL_PADDING_TRIGGER ->
  exists s, init id sc start reset = (OB_SUCCESS, s) /\ alloc_ok s /\
    end_lsn s = start /\ end_log_id s = id /\ end_scn s = sc.
Proof.
  intros Hi Hs Hl Ht. unfold init. cbn [is_inited_ reset].
  destruct (Z.eqb_spec OB_INVALID_LOG_ID id) as [E|_]; [change OB_INVALID_LOG_ID with (-1) in E; lia|].
  rewrite (proj2 (is_valid_true sc ltac:(unfold is_u; lia))) by lia. unfold lsn_is_valid.
  destruct (Z.eqb_spec LOG_INVALID_LSN_VAL start) as [E|_]; [change LOG_INVALID_LSN_VAL with (2 ^ 64 - 1) in E; lia|].
  cbn [orb negb]. eexists. split; [done|]. rewrite meta_id by lia. unfold end_lsn, end_log_id, end_scn, get_val_for_logservice.
  cbn. split_and!; try lia. split; cbn; try done; [by right | lia ..].
Qed.

(** ** Without other threads *)

(** An allocation from [s] to [s'] with its result. *)
Definition allocated (a : alloc_args) (s s' : t) (ret : Z) (o : alloc_out) : Prop :=
  alloc_ok s' /\
  (end_log_id s + 2 <= log_id_upper_bound a -> end_lsn s + 2 ^ 30 <= lsn_upper_bound a -> ret = OB_SUCCESS) /\
  if ret =? OB_SUCCESS then
    base_scn a <= scn o /\ end_scn s < scn o /\
    forall sc, sc <= end_scn s ->
      well_formed (submitted (size a) o) (end_lsn s, end_log_id s, sc) = Some (end_lsn s', end_log_id s', end_scn s')
  else ret = OB_EAGAIN /\ end_lsn s' = end_lsn s /\ end_log_id s' = end_log_id s.

(** A turn that does not ask for other bases is the last one. *)
Lemma last_round_ok rounds a o s : alloc_ok s -> args_ok a ->
  Z.max (base_scn a) (end_scn s + 1) + 1 - scn_base_ s < LOG_TS_DELTA_UPPER_BOUND ->
  log_id_delta_ (lsn_ts_meta_ s) + 2 < LOG_ID_DELTA_UPPER_BOUND ->
  exists ret o' s', alloc_rounds (S rounds) a o s = Some (ret, o', s') /\ allocated a s s' ret o'.
Proof.
  intros Hok Ha H1 H2. cbn [alloc_rounds].
  destruct (alloc_turn_cases s a o Hok Ha) as [(? & _ & Hn) | (new & pad & plen & lsn' & cut & Hp & _ & _ & E)]; [lia|].
  cbv zeta in E. destruct ((_ <? _) || _) eqn:Hb.
  - rewrite E. do 3 eexists. split; [done|]. split_and!; [done | | done]. intros Hi Hl. exfalso.
    pose proof (placed_lt _ _ _ _ _ _ _ Hok Ha Hp). apply orb_true_iff in Hb. rewrite !Z.ltb_lt in Hb.
    assert (new_ids new pad <= 2) by (unfold new_ids; destruct new, pad; lia). lia.
  - pose proof (exchange_ok _ _ _ _ _ _ _ Hok Ha E) as (_ & Hok' & Hb' & Hs & o' & Eo & Es & Hw). rewrite E, Eo.
    do 3 eexists. split; [done|]. split_and!; [done | done |]. cbn. rewrite Es. split_and!; [done | done |]. by apply Hw.
Qed.

Lemma alloc_rounds_ok rounds a o s : alloc_ok s -> args_ok a ->
  exists ret o' s', alloc_rounds (S (S rounds)) a o s = Some (ret, o', s') /\ allocated a s s' ret o'.
Proof.
  intros Hok Ha. destruct (alloc_turn_cases s a o Hok Ha) as [(o1 & E & _) | (new & pad & plen & lsn' & cut & Hp & Hd1 & Hd2 & E)].
  - cbn [alloc_rounds]. rewrite E. destruct (update_base_ok s a Hok Ha) as (Hok' & El & Ei & Es & Hd & Hb).
    destruct (last_round_ok rounds a o1 (update_base a s) Hok' Ha) as (ret & o' & s' & Er & H1 & H2 & H3).
    { pose proof delta_bounds. rewrite Es, Hb. lia. }
    { pose proof delta_bounds. rewrite Hd. lia. }
    do 3 eexists. split; [apply Er|]. unfold allocated. rewrite El, Ei in *. split_and!; [done | done |].
    destruct (ret =? OB_SUCCESS); [|done]. destruct H3 as (? & ? & Hw). split_and!; [done | lia |].
    intros sc Hsc. apply Hw. lia.
  - apply last_round_ok; done.
Qed.

(** C29: an allocation ends, after replacing the bases at most once.  It fails only when
    the bounds of the caller are reached, and then the end of the log is where it was;
    else the log continues where it ended, with the next number, a timestamp above
    the last one and not below the one asked for, in one block, after a padding
    to the end of the block if there is no room. *)
Theorem alloc_lsn_scn_total rounds a o s : (2 <= rounds)%nat -> alloc_ok s -> args_ok a ->
  exists ret o' s', alloc_lsn_scn rounds a o s = Some (ret, o', s') /\ allocated a s s' ret o'.
Proof.
  intros Hr Hok Ha. destruct rounds as [|[|rounds]]; [lia | lia |]. unfold alloc_lsn_scn.
  rewrite (ok_inited _ Hok). pose proof Ha as (Hb & Hs & Hi & Hl). unfold args_invalid.
  rewrite (proj2 (is_valid_true (base_scn a) ltac:(unfold is_u; lia))), (proj2 (Z.leb_gt (size a) 0)),
    (proj2 (Z.leb_gt (log_id_upper_bound a) 0)) by lia.
  unfold lsn_is_valid. destruct (Z.eqb_spec LOG_INVALID_LSN_VAL (lsn_upper_bound a)) as [E|_];
    [change LOG_INVALID_LSN_VAL with (2 ^ 64 - 1) in E; lia|]. by apply alloc_rounds_ok.
Qed.

(** Near the end of a block, with a timestamp too far from the base. *)
Definition alloc_example : t := mk (meta 0 5 7 (PALF_BLOCK_SIZE - 5000)) 10 1000 true.
Definition alloc_example_args : alloc_args := mk_args (2 ^ 40) 2000 100 (2 ^ 31).

Lemma alloc_example_ok : alloc_ok alloc_example /\ args_ok alloc_example_args.
Proof. split; [split; vm_compute; try done; by left | by vm_compute]. Qed.

Lemma alloc_lsn_scn_total_witness : let o := mk_out 0 0 0 false false 0 in
  exists o' s', alloc_lsn_scn 2 alloc_example_args o alloc_example = Some (OB_SUCCESS, o', s') /\
    allocated alloc_example_args alloc_example s' OB_SUCCESS o' /\
    submitted 2000 o' = [mk_entry PaddingLog 67099768 5000 16 (2 ^ 40 + 1); mk_entry GroupLog 67104768 2056 17 (2 ^ 40 + 2)].
Proof.
  cbv zeta. destruct alloc_example_ok as [Hs Ha].
  destruct (alloc_lsn_scn_total 2 alloc_example_args (mk_out 0 0 0 false false 0) alloc_example ltac:(lia) Hs Ha) as (ret & o' & s' & E & H).
  assert (Some (ret, o', s') = alloc_lsn_scn 2 alloc_example_args (mk_out 0 0 0 false false 0) alloc_example) as E' by done.
  vm_compute in E'. injection E' as -> -> ->. do 2 eexists. split; [exact E|]. split; [exact H | reflexivity].
Defined.
