(* ===== verification/LsnAllocatorThreads.v ===== *)
(** * Concurrent allocation of log positions

    Any number of threads inside [LSNAllocator::alloc_lsn_scn] and [try_freeze] of
    [src/logservice/palf/lsn_allocator.cpp].  Loading the word with the bases, the
    exchange, and the replacement of the bases are steps of their own; the bases
    only change when no thread has the read lock.  The history collects what
    [LogSlidingWindow::submit_log] writes for each successful allocation, in the order
    of the exchanges. *)

From Stdlib Require Import ZArith Lia Bool.
From stdpp Require Import base option numbers list sets relations.
From S2P Require Import Prelude Serialization Scn Lsn LsnAllocator.

Local Open Scope Z_scope.

Import LSNAllocator.

(** Where a thread is: [Loaded] and [FreezeLoaded] have the read lock. *)
Inductive thread :=
| Ready (a : alloc_args) (o : alloc_out)
| Loaded (a : alloc_args) (last : LSNTsMeta) (log_id_base scn_base : Z) (o : alloc_out)
| Updating (a : alloc_args) (o : alloc_out)
| Finished (a : alloc_args) (ret : Z) (o : alloc_out)
| FreezeReady
| FreezeLoaded (last : LSNTsMeta)
| Frozen.

Definition reading (p : thread) : bool :=
  match p with Loaded _ _ _ _ _ | FreezeLoaded _ => true | _ => false end.

Record state := mk_state { c_alloc : t; c_log : list entry; c_threads : list thread }.

(** The entries of a finished thread. *)
Definition written_by (p : thread) : list entry :=
  match p with
  | Finished a ret o => if ret =? OB_SUCCESS then submitted (size a) o else []
  | _ => []
  end.

(** A turn of the loop, from the exchange on. *)
Definition alloc_step (a : alloc_args) (last : LSNTsMeta) (log_id_base scn_base : Z) (o : alloc_out) (s : t) : t * thread :=
  match alloc_turn a last log_id_base scn_base o with
  | NeedUpdateBase o => (s, Updating a o)
  | Refused ret o => (s, Finished a ret o)
  | Exchange ret next scn_val o' =>
      if decide (lsn_ts_meta_ s = last) then
        let '(ret, o') := exchanged scn_val o' in (set_meta next s, Finished a ret o')
      else
        let o := set_flags (is_new_group_log o') (need_gen_padding_entry o') (padding_len o') o in
        (s, if ob_fail ret then Finished a ret o else Ready a o)
  end.

Definition freeze_step (last : LSNTsMeta) (s : t) : t * thread :=
  if is_need_cut_ last =? 1 then (s, Frozen)
  else if decide (lsn_ts_meta_ s = last) then (set_meta (frozen last) s, Frozen)
  else (s, FreezeReady).

Inductive step : state -> state -> Prop :=
| step_call s h ps p :
    match p with Ready a _ => args_ok a | FreezeReady => True | _ => False end ->
    step (mk_state s h ps) (mk_state s h (p :: ps))
| step_load s h ps1 ps2 a o :
    step (mk_state s h (ps1 ++ Ready a o :: ps2))
      (mk_state s h (ps1 ++ Loaded a (lsn_ts_meta_ s) (log_id_base_ s) (scn_base_ s) o :: ps2))
| step_turn s s' h ps1 ps2 a last log_id_base scn_base o p :
    alloc_step a last log_id_base scn_base o s = (s', p) ->
    step (mk_state s h (ps1 ++ Loaded a last log_id_base scn_base o :: ps2))
      (mk_state s' (h ++ written_by p) (ps1 ++ p :: ps2))
| step_update s h ps1 ps2 a o :
    Forall (fun p => reading p = false) (ps1 ++ Updating a o :: ps2) ->
    step (mk_state s h (ps1 ++ Updating a o :: ps2)) (mk_state (update_base a s) h (ps1 ++ Ready a o :: ps2))
| step_freeze_load s h ps1 ps2 :
    step (mk_state s h (ps1 ++ FreezeReady :: ps2)) (mk_state s h (ps1 ++ FreezeLoaded (lsn_ts_meta_ s) :: ps2))
| step_freeze s s' h ps1 ps2 last p :
    freeze_step last s = (s', p) ->
    step (mk_state s h (ps1 ++ FreezeLoaded last :: ps2)) (mk_state s' h (ps1 ++ p :: ps2))
| step_scn_base s h ps ref :
    0 <= ref <= 2 ^ 61 -> Forall (fun p => reading p = false) ps ->
    step (mk_state s h ps) (mk_state (inc_update_scn_base ref s).2 h ps).

(** ** The invariant *)

(** A thread with the read lock knows the bases, and the word it loaded was one of theirs. *)
Definition thread_ok (s : t) (p : thread) : Prop :=
  match p with
  | Ready a _ | Updating a _ => args_ok a
  | Loaded a last log_id_base scn_base _ =>
      args_ok a /\ log_id_base = log_id_base_ s /\ scn_base = scn_base_ s /\ alloc_ok (set_meta last s)
  | Finished _ ret _ => ret = OB_SUCCESS \/ ret = OB_EAGAIN
  | _ => True
  end.

Record inv (start : LSN * Z * SCN) (c : state) : Prop := {
  inv_alloc : alloc_ok (c_alloc c);
  inv_log : exists sc, sc <= end_scn (c_alloc c) /\
    well_formed (c_log c) start = Some (end_lsn (c_alloc c), end_log_id (c_alloc c), sc);
  inv_threads : Forall (thread_ok (c_alloc c)) (c_threads c);
  inv_written : c_log c ≡ₚ concat (written_by <$> c_threads c) }.

(** Threads without the lock do not mind other bases. *)
Lemma thread_ok_unlocked s s' p : reading p = false -> thread_ok s p -> thread_ok s' p.
Proof. by destruct p. Qed.

(** As long as the bases stay the threads do not mind another word. *)
Lemma thread_ok_meta s m p : thread_ok s p -> thread_ok (set_meta m s) p.
Proof. by destruct p. Qed.

Lemma written_middle ps1 p ps2 :
  concat (written_by <$> (ps1 ++ p :: ps2)) ≡ₚ written_by p ++ concat (written_by <$> (ps1 ++ ps2)).
Proof. rewrite !fmap_app, fmap_cons, !concat_app. cbn [concat]. solve_Permutation. Qed.

Section preservation.
Context (start : LSN * Z * SCN).

(** One thread moves on, the word stays or is replaced, and nothing is written. *)
Lemma inv_move s s' h ps1 ps2 p p' :
  inv start (mk_state s h (ps1 ++ p :: ps2)) -> alloc_ok s' -> end_lsn s' = end_lsn s -> end_log_id s' = end_log_id s ->
  end_scn s <= end_scn s' -> (forall q, q ∈ ps1 ++ ps2 -> thread_ok s q -> thread_ok s' q) -> thread_ok s' p' ->
  written_by p = [] -> written_by p' = [] -> inv start (mk_state s' h (ps1 ++ p' :: ps2)).
Proof.
  intros [_ (sc & Hsc & Hw) Ht Hp] Hok El Ei Es Hq Hp' W W'; cbn in *. split; cbn; [done | | |].
  - exists sc. rewrite El, Ei. split; [lia | done].
  - rewrite Forall_app, Forall_cons in *. destruct Ht as (H1 & _ & H2). rewrite Forall_forall in H1, H2.
    split_and!; [apply Forall_forall | done | apply Forall_forall]; intros q Hin; apply Hq; try (apply elem_of_app; auto); auto.
  - rewrite Hp, !written_middle, W, W'. done.
Qed.

Lemma inv_call s h ps p :
  match p with Ready a _ => args_ok a | FreezeReady => True | _ => False end ->
  inv start (mk_state s h ps) -> inv start (mk_state s h (p :: ps)).
Proof.
  intros Hp [Hok Hw Ht Hpm]; cbn in *. split; cbn; [done | done | | by destruct p].
  apply Forall_cons; split; [by destruct p | done].
Qed.

Lemma inv_turn s s' h ps1 ps2 a last idb scnb o p :
  alloc_step a last idb scnb o s = (s', p) -> inv start (mk_state s h (ps1 ++ Loaded a last idb scnb o :: ps2)) ->
  inv start (mk_state s' (h ++ written_by p) (ps1 ++ p :: ps2)).
Proof.
  intros E Hinv. pose proof (inv_alloc _ _ Hinv) as Hok. cbn in Hok.
  assert (thread_ok s (Loaded a last idb scnb o)) as (Ha & -> & -> & Hl).
  { pose proof (inv_threads _ _ Hinv) as Ht. cbn in Ht. rewrite Forall_app, Forall_cons in Ht. apply Ht. }
  assert (forall p', written_by p' = [] -> thread_ok s p' -> inv start (mk_state s (h ++ written_by p') (ps1 ++ p' :: ps2))) as Hmove.
  { intros p' W Hp'. rewrite W, app_nil_r. by eapply inv_move. }
  unfold alloc_step in E. destruct (alloc_turn _ _ _ _ _) as [o1|ret o1|ret next sc o1] eqn:Et.
  - injection E as <- <-. by apply Hmove.
  - pose proof (alloc_turn_refused _ _ _ _ _ _ _ Et) as ->. injection E as <- <-. apply Hmove; [done | by right].
  - pose proof (exchange_ok (set_meta last s) a o ret next sc o1 Hl Ha Et) as (-> & Hok' & _ & _ & o' & Eo & _ & Hw).
    destruct (decide (lsn_ts_meta_ s = last)) as [<-|]; [|injection E as <- <-; by apply Hmove].
    rewrite Eo in E. injection E as <- <-. destruct Hinv as [_ (sc0 & Hsc & Hwf) Ht Hp]; cbn in *. split; cbn.
    + done.
    + eexists. split; [|rewrite well_formed_app, Hwf; cbn; by apply Hw]. done.
    + rewrite Forall_app, Forall_cons in *. destruct Ht as (H1 & _ & H2). split_and!; [| by left |];
        (eapply Forall_impl; [done|]); intros ?; apply thread_ok_meta.
    + rewrite Hp, !written_middle. cbn. solve_Permutation.
Qed.

Lemma inv_freeze s s' h ps1 ps2 last p :
  freeze_step last s = (s', p) -> inv start (mk_state s h (ps1 ++ FreezeLoaded last :: ps2)) ->
  inv start (mk_state s' h (ps1 ++ p :: ps2)).
Proof.
  intros E Hinv. pose proof (inv_alloc _ _ Hinv) as Hok. cbn in Hok. unfold freeze_step in E.
  destruct (_ =? _); [injection E as <- <-; by eapply inv_move|].
  destruct (decide _) as [<-|]; injection E as <- <-; [|by eapply inv_move].
  destruct (closed_ok s _ Hok eq_refl) as (Hok' & El & Ei & Es).
  eapply inv_move; done || lia.
Qed.

Lemma threads_inv_step c c' : step c c' -> inv start c -> inv start c'.
Proof.
  intros Hs Hinv. pose proof (inv_alloc _ _ Hinv) as Hok. pose proof (inv_threads _ _ Hinv) as Ht. destruct Hs; cbn in Hok, Ht.
  - by apply inv_call.
  - rewrite Forall_app, Forall_cons in Ht. eapply inv_move; try done. cbn. split_and!; [apply Ht | done | done | by destruct s].
  - by eapply inv_turn.
  - rewrite !Forall_app, !Forall_cons in *. destruct Ht as (_ & Ha & _).
    destruct (update_base_ok s a Hok Ha) as (Hok' & El & Ei & Es & _). eapply inv_move; try done; try lia.
    intros q Hq. apply thread_ok_unlocked. destruct H as (H1 & _ & H2). rewrite Forall_forall in H1, H2.
    apply elem_of_app in Hq as [?|?]; auto.
  - by eapply inv_move.
  - by eapply inv_freeze.
  - destruct (inc_update_scn_base_ok s ref Hok H) as (s' & -> & Hok' & El & Ei & Es).
    destruct Hinv as [_ (sc & Hsc & Hw) _ Hp]; cbn in *. split; cbn; [done | | | done].
    + exists sc. rewrite El, Ei. split; [lia | done].
    + apply Forall_forall. intros q Hq. rewrite Forall_forall in Ht, H0. apply (thread_ok_unlocked s); auto.
Qed.

Lemma threads_inv_steps c c' : rtc step c c' -> inv start c -> inv start c'.
Proof. induction 1 as [|c d e Hs _ IH]; [done|]. intros. apply IH. by eapply threads_inv_step. Qed.
End preservation.

(** C9: however the threads that allocate, freeze and replace the bases interleave,
    the entries they write make one log without a gap or an overlap: each begins where
    the one before ends, numbers follow each other and timestamps grow, no entry
    leaves its block, blocks are filled up by paddings, a group stays within 2M.
    The log is the entries of the successful threads, each once; the others were
    told to try again; and the allocator's end and last number are those of the log. *)
Theorem alloc_history id sc start c :
  0 <= id < 2 ^ 62 -> 0 <= sc <= 2 ^ 61 -> 0 <= start <= 2 ^ 59 ->
  lsn_2_offset start PALF_BLOCK_SIZE <= PALF_BLOCK_SIZE - CLOG_FILE_TAIL_PADDING_TRIGGER ->
  rtc step (mk_state (init id sc start reset).2 [] []) c ->
  (exists sc', well_formed (c_log c) (start, id, sc) =
     Some (lsn_val_ (lsn_ts_meta_ (c_alloc c)), get_max_log_id (c_alloc c), sc') /\
     sc' <= last_scn (lsn_ts_meta_ (c_alloc c)) (scn_base_ (c_alloc c))) /\
  c_log c ≡ₚ concat (written_by <$> c_threads c) /\
  (forall a ret o, Finished a ret o ∈ c_threads c -> ret = OB_SUCCESS \/ ret = OB_EAGAIN).
Proof.
  intros Hi Hs Hl Ht Hr. destruct (init_ok id sc start Hi Hs Hl Ht) as (s & E & Hok & El & Ei & Es). rewrite E in Hr.
  destruct (threads_inv_steps (start, id, sc) _ _ Hr) as [Hok' (sc' & Hsc & Hw) Hth Hp].
  { split; cbn; [done | | done | done]. exists sc. rewrite El, Ei. split; [lia | done]. }
  split_and!; [| done |].
  - exists sc'. rewrite get_max_log_id_ok, last_scn_ok by done. done.
  - intros a ret o Hin. rewrite Forall_forall in Hth. apply (Hth _ Hin).
Qed.

(** Two threads load the same word; the exchange of the second fails, and it appends its
    log in the next turn. *)
Definition race_args (size : Z) : alloc_args := mk_args 1000 size 100 (2 ^ 31).
Definition race_out : alloc_out := mk_out 0 0 0 false false 0.
Definition race_end : state :=
  mk_state (mk (mk_meta 0 1 501 556) 7 500 true)
    [mk_entry GroupLog 0 356 8 1000; mk_entry AppendedLog 356 200 8 1001]
    [Finished (race_args 200) OB_SUCCESS (mk_out 356 8 1001 false false 0);
     Finished (race_args 300) OB_SUCCESS (mk_out 0 8 1000 true false 0)].

Lemma race_reachable : rtc step (mk_state (init 7 500 0 reset).2 [] []) race_end.
Proof.
  eapply rtc_l; [by apply (step_call _ _ _ (Ready (race_args 300) race_out))|].
  eapply rtc_l; [by apply (step_call _ _ _ (Ready (race_args 200) race_out))|].
  eapply rtc_l; [apply (step_load _ _ [] _)|].
  eapply rtc_l; [apply (step_load _ _ [_] [])|]. cbn [app].
  eapply rtc_l; [eapply (step_turn _ _ _ [_] []); vm_compute; reflexivity|]. cbn [app].
  eapply rtc_l; [eapply (step_turn _ _ _ [] [_]); vm_compute; reflexivity|]. cbn [app].
  eapply rtc_l; [apply (step_load _ _ [] _)|]. cbn [app].
  eapply rtc_l; [eapply (step_turn _ _ _ [] [_]); vm_compute; reflexivity|]. cbn [app].
  vm_compute. apply rtc_refl.
Qed.

Lemma alloc_history_witness :
  rtc step (mk_state (init 7 500 0 reset).2 [] []) race_end /\
  exists sc, well_formed (c_log race_end) (0, 7, 500) = Some (556, 8, sc) /\ sc <= 1001.
Proof.
  split; [apply race_reachable|].
  exact (proj1 (alloc_history 7 500 0 race_end ltac:(lia) ltac:(lia) ltac:(lia) ltac:(vm_compute; discriminate) race_reachable)).
Defined.
