(* ===== verification/TwoPhaseCommitter.v ===== *)
(** * The cycle two-phase committer: [ObTxCycleTwoPhaseCommitter]

    The atomic-commit state machine of [src/storage/tx/ob_two_phase_committer.h]:
    the coordinator side ([ob_two_phase_upstream_committer.cpp]), the
    participant side ([ob_two_phase_downstream_committer.cpp]), the XA part
    ([ob_two_phase_committer_xa.cpp]) and the methods of [ObPartTransCtx] that
    implement its virtual interface and feed it messages
    ([ob_tx_2pc_ctx_impl.cpp], [ob_tx_2pc_msg_handler.cpp]).  One object plays
    both sides: [upstream_state_] is the in-memory phase it drives its
    downstreams to, [state_] the phase its log has made durable.

    The object is the record [committer]; a method is a computation over it
    that gives the return code.  What the methods of [ObPartTransCtx] obtain
    from other components (the log service, the timestamp service, the RPC
    layer, the memory of arrays) is the record [virtuals], which every theorem
    quantifies over. *)

From Stdlib Require Import ZArith Lia Bool.
From stdpp Require Import base list option numbers.
From S2P Require Import Prelude BitSet Serialization Scn.

Local Open Scope Z_scope.

(** ** Data: [ob_committer_define.h] *)

Inductive ObTwoPhaseCommitLogType :=
| OB_LOG_TX_INIT
| OB_LOG_TX_COMMIT_INFO
| OB_LOG_TX_PREPARE
| OB_LOG_TX_PRE_COMMIT
| OB_LOG_TX_COMMIT
| OB_LOG_TX_ABORT
| OB_LOG_TX_CLEAR
| OB_LOG_TX_MAX.

Inductive ObTwoPhaseCommitMsgType :=
| OB_MSG_TX_UNKNOWN
| OB_MSG_TX_PREPARE_REQ
| OB_MSG_TX_PREPARE_RESP
| OB_MSG_TX_PRE_COMMIT_REQ
| OB_MSG_TX_PRE_COMMIT_RESP
| OB_MSG_TX_COMMIT_REQ
| OB_MSG_TX_COMMIT_RESP
| OB_MSG_TX_ABORT_REQ
| OB_MSG_TX_ABORT_RESP
| OB_MSG_TX_CLEAR_REQ
| OB_MSG_TX_CLEAR_RESP
| OB_MSG_TX_PREPARE_REDO_REQ
| OB_MSG_TX_PREPARE_REDO_RESP
| OB_MSG_TX_MAX.

Inductive Ob2PCRole := UNKNOWN_ROLE | ROOT | INTERNAL | LEAF.

Inductive ObTxState :=
| UNKNOWN | INIT | REDO_COMPLETE | PREPARE | PRE_COMMIT | COMMIT | ABORT | CLEAR | MAX.

#[export] Instance ObTwoPhaseCommitLogType_eq_dec : EqDecision ObTwoPhaseCommitLogType.
Proof. solve_decision. Defined.
#[export] Instance ObTwoPhaseCommitMsgType_eq_dec : EqDecision ObTwoPhaseCommitMsgType.
Proof. solve_decision. Defined.
#[export] Instance Ob2PCRole_eq_dec : EqDecision Ob2PCRole.
Proof. solve_decision. Defined.
#[export] Instance ObTxState_eq_dec : EqDecision ObTxState.
Proof. solve_decision. Defined.

(** The values of the enumerators, which order the phases. *)
Definition ObTxState_val (st : ObTxState) : Z :=
  match st with
  | UNKNOWN => 0 | INIT => 10 | REDO_COMPLETE => 20 | PREPARE => 30 | PRE_COMMIT => 40
  | COMMIT => 50 | ABORT => 60 | CLEAR => 70 | MAX => 100
  end.

Definition state_eqb (a b : ObTxState) : bool := bool_decide (a = b).
Definition state_ltb (a b : ObTxState) : bool := ObTxState_val a <? ObTxState_val b.
Definition state_leb (a b : ObTxState) : bool := ObTxState_val a <=? ObTxState_val b.

Definition OB_C2PC_UPSTREAM_ID : Z := INT64_MAX - 1.
Definition OB_C2PC_SENDER_ID : Z := INT64_MAX - 2.

(** [ObLSID]: the log stream a participant lives on. *)
Definition INVALID_LS_ID : Z := -1.
Definition ls_is_valid (ls : Z) : bool := negb (ls =? INVALID_LS_ID).

(** [ObTxExecPart] *)
Record ObTxExecPart := ExecPart { part_ls_id_ : Z; exec_epoch_ : Z; transfer_epoch_ : Z }.

(** The messages on the wire. *)
Inductive TX_MSG_TYPE :=
| TX_2PC_PREPARE_REQ | TX_2PC_PREPARE_RESP
| TX_2PC_PRE_COMMIT_REQ | TX_2PC_PRE_COMMIT_RESP
| TX_2PC_COMMIT_REQ | TX_2PC_COMMIT_RESP
| TX_2PC_ABORT_REQ | TX_2PC_ABORT_RESP
| TX_2PC_CLEAR_REQ | TX_2PC_CLEAR_RESP
| TX_2PC_PREPARE_REDO_REQ | TX_2PC_PREPARE_REDO_RESP
| TX_2PC_PREPARE_VERSION_REQ | TX_2PC_PREPARE_VERSION_RESP.

#[export] Instance TX_MSG_TYPE_eq_dec : EqDecision TX_MSG_TYPE.
Proof. solve_decision. Defined.

(** The fields of the message classes that the committer reads: [upstream_] of
    the prepare and abort requests, the versions and log positions of the
    others. *)
Record ObTxMsg := TxMsg {
  type_ : TX_MSG_TYPE;
  sender_ : Z;
  receiver_ : Z;
  msg_upstream_ : Z;
  msg_prepare_version_ : SCN;
  msg_commit_version_ : SCN;
  commit_log_scn_ : SCN;
  max_commit_log_scn_ : SCN
}.

#[export] Instance ObTxMsg_eq_dec : EqDecision ObTxMsg.
Proof. solve_decision. Defined.

Definition switch_msg_type_ (msg_type : TX_MSG_TYPE) : ObTwoPhaseCommitMsgType :=
  match msg_type with
  | TX_2PC_PREPARE_REDO_REQ => OB_MSG_TX_PREPARE_REDO_REQ
  | TX_2PC_PREPARE_REDO_RESP => OB_MSG_TX_PREPARE_REDO_RESP
  | TX_2PC_PREPARE_VERSION_REQ | TX_2PC_PREPARE_REQ => OB_MSG_TX_PREPARE_REQ
  | TX_2PC_PREPARE_VERSION_RESP | TX_2PC_PREPARE_RESP => OB_MSG_TX_PREPARE_RESP
  | TX_2PC_PRE_COMMIT_REQ => OB_MSG_TX_PRE_COMMIT_REQ
  | TX_2PC_PRE_COMMIT_RESP => OB_MSG_TX_PRE_COMMIT_RESP
  | TX_2PC_COMMIT_REQ => OB_MSG_TX_COMMIT_REQ
  | TX_2PC_COMMIT_RESP => OB_MSG_TX_COMMIT_RESP
  | TX_2PC_ABORT_REQ => OB_MSG_TX_ABORT_REQ
  | TX_2PC_ABORT_RESP => OB_MSG_TX_ABORT_RESP
  | TX_2PC_CLEAR_REQ => OB_MSG_TX_CLEAR_REQ
  | TX_2PC_CLEAR_RESP => OB_MSG_TX_CLEAR_RESP
  end.

(** What the root reports to the scheduler of the transaction. *)
Inductive scheduler_resp :=
| TX_COMMIT_RESP (status : Z)
| SUBPREPARE_RESP
| SUBCOMMIT_RESP
| SUBROLLBACK_RESP.

#[export] Instance scheduler_resp_eq_dec : EqDecision scheduler_resp.
Proof. solve_decision. Defined.

(** [ObPartTransAction]: what the scheduler asked of the context. *)
Inductive ObPartTransAction :=
| ACTION_UNKNOWN | ACTION_INIT | ACTION_START | ACTION_COMMIT | ACTION_ABORT | ACTION_DIED.

#[export] Instance ObPartTransAction_eq_dec : EqDecision ObPartTransAction.
Proof. solve_decision. Defined.

(** The requests to the timestamp service a context can wait for. *)
Inductive gts_task := GET_GTS | WAIT_GTS_ELAPSING.

#[export] Instance gts_task_eq_dec : EqDecision gts_task.
Proof. solve_decision. Defined.

(** ** The object

    [collected_] and [self_id_] are the fields of the class; the others are
    those of [ObPartTransCtx] its virtual methods use.  [state_log_submitting_]
    is the flag of [sub_state_] with the log that was submitted, [gts_waiting_] the
    flag with the request that is waited for, [outbox_] the
    messages handed to the RPC layer, [scheduler_resp_] the responses posted to
    the scheduler. *)
Record committer := Committer {
  collected_ : bitset;
  self_id_ : Z;
  ls_id_ : Z;
  upstream_ : Z;
  participants_ : list Z;
  commit_parts_ : list ObTxExecPart;
  intermediate_participants_ : list ObTxExecPart;
  state_ : ObTxState;
  upstream_state_ : ObTxState;
  is_sub2pc_ : bool;
  prepare_version_ : SCN;
  commit_version_ : SCN;
  end_log_ts_ : SCN;
  max_2pc_commit_scn_ : SCN;
  state_log_submitting_ : option ObTwoPhaseCommitLogType;
  gts_waiting_ : option gts_task;
  transfer_blocking_ : bool;
  force_abort_ : bool;
  msg_2pc_cache_ : option ObTxMsg;
  outbox_ : list ObTxMsg;
  scheduler_resp_ : list scheduler_resp;
  is_exiting_ : bool;
  part_trans_action_ : ObPartTransAction
}.

Definition set_collected (x : bitset) (s : committer) : committer :=
  Committer x s.(self_id_) s.(ls_id_) s.(upstream_) s.(participants_) s.(commit_parts_)
    s.(intermediate_participants_) s.(state_) s.(upstream_state_) s.(is_sub2pc_)
    s.(prepare_version_) s.(commit_version_) s.(end_log_ts_) s.(max_2pc_commit_scn_)
    s.(state_log_submitting_) s.(gts_waiting_) s.(transfer_blocking_) s.(force_abort_)
    s.(msg_2pc_cache_) s.(outbox_) s.(scheduler_resp_) s.(is_exiting_) s.(part_trans_action_).
Definition set_self_id (x : Z) (s : committer) : committer :=
  Committer s.(collected_) x s.(ls_id_) s.(upstream_) s.(participants_) s.(commit_parts_)
    s.(intermediate_participants_) s.(state_) s.(upstream_state_) s.(is_sub2pc_)
    s.(prepare_version_) s.(commit_version_) s.(end_log_ts_) s.(max_2pc_commit_scn_)
    s.(state_log_submitting_) s.(gts_waiting_) s.(transfer_blocking_) s.(force_abort_)
    s.(msg_2pc_cache_) s.(outbox_) s.(scheduler_resp_) s.(is_exiting_) s.(part_trans_action_).
Definition set_upstream (x : Z) (s : committer) : committer :=
  Committer s.(collected_) s.(self_id_) s.(ls_id_) x s.(participants_) s.(commit_parts_)
    s.(intermediate_participants_) s.(state_) s.(upstream_state_) s.(is_sub2pc_)
    s.(prepare_version_) s.(commit_version_) s.(end_log_ts_) s.(max_2pc_commit_scn_)
    s.(state_log_submitting_) s.(gts_waiting_) s.(transfer_blocking_) s.(force_abort_)
    s.(msg_2pc_cache_) s.(outbox_) s.(scheduler_resp_) s.(is_exiting_) s.(part_trans_action_).
Definition set_participants (x : list Z) (s : committer) : committer :=
  Committer s.(collected_) s.(self_id_) s.(ls_id_) s.(upstream_) x s.(commit_parts_)
    s.(intermediate_participants_) s.(state_) s.(upstream_state_) s.(is_sub2pc_)
    s.(prepare_version_) s.(commit_version_) s.(end_log_ts_) s.(max_2pc_commit_scn_)
    s.(state_log_submitting_) s.(gts_waiting_) s.(transfer_blocking_) s.(force_abort_)
    s.(msg_2pc_cache_) s.(outbox_) s.(scheduler_resp_) s.(is_exiting_) s.(part_trans_action_).
Definition set_commit_parts (x : list ObTxExecPart) (s : committer) : committer :=
  Committer s.(collected_) s.(self_id_) s.(ls_id_) s.(upstream_) s.(participants_) x
    s.(intermediate_participants_) s.(state_) s.(upstream_state_) s.(is_sub2pc_)
    s.(prepare_version_) s.(commit_version_) s.(end_log_ts_) s.(max_2pc_commit_scn_)
    s.(state_log_submitting_) s.(gts_waiting_) s.(transfer_blocking_) s.(force_abort_)
    s.(msg_2pc_cache_) s.(outbox_) s.(scheduler_resp_) s.(is_exiting_) s.(part_trans_action_).
Definition set_intermediate_participants (x : list ObTxExecPart) (s : committer) : committer :=
  Committer s.(collected_) s.(self_id_) s.(ls_id_) s.(upstream_) s.(participants_)
    s.(commit_parts_) x s.(state_) s.(upstream_state_) s.(is_sub2pc_) s.(prepare_version_)
    s.(commit_version_) s.(end_log_ts_) s.(max_2pc_commit_scn_) s.(state_log_submitting_)
    s.(gts_waiting_) s.(transfer_blocking_) s.(force_abort_) s.(msg_2pc_cache_) s.(outbox_)
    s.(scheduler_resp_) s.(is_exiting_) s.(part_trans_action_).
Definition set_state (x : ObTxState) (s : committer) : committer :=
  Committer s.(collected_) s.(self_id_) s.(ls_id_) s.(upstream_) s.(participants_)
    s.(commit_parts_) s.(intermediate_participants_) x s.(upstream_state_) s.(is_sub2pc_)
    s.(prepare_version_) s.(commit_version_) s.(end_log_ts_) s.(max_2pc_commit_scn_)
    s.(state_log_submitting_) s.(gts_waiting_) s.(transfer_blocking_) s.(force_abort_)
    s.(msg_2pc_cache_) s.(outbox_) s.(scheduler_resp_) s.(is_exiting_) s.(part_trans_action_).
Definition set_upstream_state (x : ObTxState) (s : committer) : committer :=
  Committer s.(collected_) s.(self_id_) s.(ls_id_) s.(upstream_) s.(participants_)
    s.(commit_parts_) s.(intermediate_participants_) s.(state_) x s.(is_sub2pc_)
    s.(prepare_version_) s.(commit_version_) s.(end_log_ts_) s.(max_2pc_commit_scn_)
    s.(state_log_submitting_) s.(gts_waiting_) s.(transfer_blocking_) s.(force_abort_)
    s.(msg_2pc_cache_) s.(outbox_) s.(scheduler_resp_) s.(is_exiting_) s.(part_trans_action_).
Definition set_is_sub2pc (x : bool) (s : committer) : committer :=
  Committer s.(collected_) s.(self_id_) s.(ls_id_) s.(upstream_) s.(participants_)
    s.(commit_parts_) s.(intermediate_participants_) s.(state_) s.(upstream_state_) x
    s.(prepare_version_) s.(commit_version_) s.(end_log_ts_) s.(max_2pc_commit_scn_)
    s.(state_log_submitting_) s.(gts_waiting_) s.(transfer_blocking_) s.(force_abort_)
    s.(msg_2pc_cache_) s.(outbox_) s.(scheduler_resp_) s.(is_exiting_) s.(part_trans_action_).
Definition set_prepare_version (x : SCN) (s : committer) : committer :=
  Committer s.(collected_) s.(self_id_) s.(ls_id_) s.(upstream_) s.(participants_)
    s.(commit_parts_) s.(intermediate_participants_) s.(state_) s.(upstream_state_)
    s.(is_sub2pc_) x s.(commit_version_) s.(end_log_ts_) s.(max_2pc_commit_scn_)
    s.(state_log_submitting_) s.(gts_waiting_) s.(transfer_blocking_) s.(force_abort_)
    s.(msg_2pc_cache_) s.(outbox_) s.(scheduler_resp_) s.(is_exiting_) s.(part_trans_action_).
Definition set_commit_version (x : SCN) (s : committer) : committer :=
  Committer s.(collected_) s.(self_id_) s.(ls_id_) s.(upstream_) s.(participants_)
    s.(commit_parts_) s.(intermediate_participants_) s.(state_) s.(upstream_state_)
    s.(is_sub2pc_) s.(prepare_version_) x s.(end_log_ts_) s.(max_2pc_commit_scn_)
    s.(state_log_submitting_) s.(gts_waiting_) s.(transfer_blocking_) s.(force_abort_)
    s.(msg_2pc_cache_) s.(outbox_) s.(scheduler_resp_) s.(is_exiting_) s.(part_trans_action_).
Definition set_end_log_ts (x : SCN) (s : committer) : committer :=
  Committer s.(collected_) s.(self_id_) s.(ls_id_) s.(upstream_) s.(participants_)
    s.(commit_parts_) s.(intermediate_participants_) s.(state_) s.(upstream_state_)
    s.(is_sub2pc_) s.(prepare_version_) s.(commit_version_) x s.(max_2pc_commit_scn_)
    s.(state_log_submitting_) s.(gts_waiting_) s.(transfer_blocking_) s.(force_abort_)
    s.(msg_2pc_cache_) s.(outbox_) s.(scheduler_resp_) s.(is_exiting_) s.(part_trans_action_).
Definition set_max_2pc_commit_scn (x : SCN) (s : committer) : committer :=
  Committer s.(collected_) s.(self_id_) s.(ls_id_) s.(upstream_) s.(participants_)
    s.(commit_parts_) s.(intermediate_participants_) s.(state_) s.(upstream_state_)
    s.(is_sub2pc_) s.(prepare_version_) s.(commit_version_) s.(end_log_ts_) x
    s.(state_log_submitting_) s.(gts_waiting_) s.(transfer_blocking_) s.(force_abort_)
    s.(msg_2pc_cache_) s.(outbox_) s.(scheduler_resp_) s.(is_exiting_) s.(part_trans_action_).
Definition set_state_log_submitting (x : option ObTwoPhaseCommitLogType) (s : committer) : committer :=
  Committer s.(collected_) s.(self_id_) s.(ls_id_) s.(upstream_) s.(participants_)
    s.(commit_parts_) s.(intermediate_participants_) s.(state_) s.(upstream_state_)
    s.(is_sub2pc_) s.(prepare_version_) s.(commit_version_) s.(end_log_ts_)
    s.(max_2pc_commit_scn_) x s.(gts_waiting_) s.(transfer_blocking_) s.(force_abort_)
    s.(msg_2pc_cache_) s.(outbox_) s.(scheduler_resp_) s.(is_exiting_) s.(part_trans_action_).
Definition set_gts_waiting (x : option gts_task) (s : committer) : committer :=
  Committer s.(collected_) s.(self_id_) s.(ls_id_) s.(upstream_) s.(participants_)
    s.(commit_parts_) s.(intermediate_participants_) s.(state_) s.(upstream_state_)
    s.(is_sub2pc_) s.(prepare_version_) s.(commit_version_) s.(end_log_ts_)
    s.(max_2pc_commit_scn_) s.(state_log_submitting_) x s.(transfer_blocking_) s.(force_abort_)
    s.(msg_2pc_cache_) s.(outbox_) s.(scheduler_resp_) s.(is_exiting_) s.(part_trans_action_).
Definition set_transfer_blocking (x : bool) (s : committer) : committer :=
  Committer s.(collected_) s.(self_id_) s.(ls_id_) s.(upstream_) s.(participants_)
    s.(commit_parts_) s.(intermediate_participants_) s.(state_) s.(upstream_state_)
    s.(is_sub2pc_) s.(prepare_version_) s.(commit_version_) s.(end_log_ts_)
    s.(max_2pc_commit_scn_) s.(state_log_submitting_) s.(gts_waiting_) x s.(force_abort_)
    s.(msg_2pc_cache_) s.(outbox_) s.(scheduler_resp_) s.(is_exiting_) s.(part_trans_action_).
Definition set_force_abort (x : bool) (s : committer) : committer :=
  Committer s.(collected_) s.(self_id_) s.(ls_id_) s.(upstream_) s.(participants_)
    s.(commit_parts_) s.(intermediate_participants_) s.(state_) s.(upstream_state_)
    s.(is_sub2pc_) s.(prepare_version_) s.(commit_version_) s.(end_log_ts_)
    s.(max_2pc_commit_scn_) s.(state_log_submitting_) s.(gts_waiting_) s.(transfer_blocking_) x
    s.(msg_2pc_cache_) s.(outbox_) s.(scheduler_resp_) s.(is_exiting_) s.(part_trans_action_).
Definition set_msg_2pc_cache (x : option ObTxMsg) (s : committer) : committer :=
  Committer s.(collected_) s.(self_id_) s.(ls_id_) s.(upstream_) s.(participants_)
    s.(commit_parts_) s.(intermediate_participants_) s.(state_) s.(upstream_state_)
    s.(is_sub2pc_) s.(prepare_version_) s.(commit_version_) s.(end_log_ts_)
    s.(max_2pc_commit_scn_) s.(state_log_submitting_) s.(gts_waiting_) s.(transfer_blocking_)
    s.(force_abort_) x s.(outbox_) s.(scheduler_resp_) s.(is_exiting_) s.(part_trans_action_).
Definition set_outbox (x : list ObTxMsg) (s : committer) : committer :=
  Committer s.(collected_) s.(self_id_) s.(ls_id_) s.(upstream_) s.(participants_)
    s.(commit_parts_) s.(intermediate_participants_) s.(state_) s.(upstream_state_)
    s.(is_sub2pc_) s.(prepare_version_) s.(commit_version_) s.(end_log_ts_)
    s.(max_2pc_commit_scn_) s.(state_log_submitting_) s.(gts_waiting_) s.(transfer_blocking_)
    s.(force_abort_) s.(msg_2pc_cache_) x s.(scheduler_resp_) s.(is_exiting_)
    s.(part_trans_action_).
Definition set_scheduler_resp (x : list scheduler_resp) (s : committer) : committer :=
  Committer s.(collected_) s.(self_id_) s.(ls_id_) s.(upstream_) s.(participants_)
    s.(commit_parts_) s.(intermediate_participants_) s.(state_) s.(upstream_state_)
    s.(is_sub2pc_) s.(prepare_version_) s.(commit_version_) s.(end_log_ts_)
    s.(max_2pc_commit_scn_) s.(state_log_submitting_) s.(gts_waiting_) s.(transfer_blocking_)
    s.(force_abort_) s.(msg_2pc_cache_) s.(outbox_) x s.(is_exiting_) s.(part_trans_action_).
Definition set_is_exiting (x : bool) (s : committer) : committer :=
  Committer s.(collected_) s.(self_id_) s.(ls_id_) s.(upstream_) s.(participants_)
    s.(commit_parts_) s.(intermediate_participants_) s.(state_) s.(upstream_state_)
    s.(is_sub2pc_) s.(prepare_version_) s.(commit_version_) s.(end_log_ts_)
    s.(max_2pc_commit_scn_) s.(state_log_submitting_) s.(gts_waiting_) s.(transfer_blocking_)
    s.(force_abort_) s.(msg_2pc_cache_) s.(outbox_) s.(scheduler_resp_) x s.(part_trans_action_).
Definition set_part_trans_action (x : ObPartTransAction) (s : committer) : committer :=
  Committer s.(collected_) s.(self_id_) s.(ls_id_) s.(upstream_) s.(participants_)
    s.(commit_parts_) s.(intermediate_participants_) s.(state_) s.(upstream_state_)
    s.(is_sub2pc_) s.(prepare_version_) s.(commit_version_) s.(end_log_ts_)
    s.(max_2pc_commit_scn_) s.(state_log_submitting_) s.(gts_waiting_) s.(transfer_blocking_)
    s.(force_abort_) s.(msg_2pc_cache_) s.(outbox_) s.(scheduler_resp_) s.(is_exiting_) x.

(** What the implementation of the virtual interface obtains from the components
    it calls, for one call of the committer: return codes and values. *)
Record virtuals := Virtuals {
  v_bitset_push : Z -> Z;                    (* [push_back] of [collected_] *)
  v_reserve : Z;                             (* [reserve] of the participant arrays *)
  v_push_participant : Z -> Z;
  v_push_commit_part : Z -> Z;
  v_mds_tx_end : Z;                          (* [prepare_mul_data_source_tx_end_] *)
  v_search_dup_redo : Z;                     (* [search_unsubmitted_dup_table_redo_] *)
  v_is_dup_tx : bool;
  v_dup_redo_sync_completed : bool;
  v_dup_redo_sync : Z;
  v_dup_pre_commit : Z;
  v_mt_prepared : bool;                      (* [mt_ctx_.is_prepared ()] *)
  v_get_gts : Z * SCN;
  v_max_read_version : Z * SCN;              (* [get_local_max_read_version_] *)
  v_dup_max_read_version : SCN;              (* [dup_table_follower_max_read_version_] *)
  v_restart_timer : Z;
  v_tx_data_writable : Z;
  v_wait_gts_elapse : Z * bool;
  v_acquire_ctx_ref : Z;
  v_assign_log_info : Z;                     (* [assign] of the prepare log arrays *)
  v_notify_array : Z;                        (* [generate_final_notify_array] *)
  v_notify_data_source : Z;
  v_retain_ctx : Z;                          (* [insert_into_retain_ctx_mgr_], where it is called *)
  v_remove_dup : Z;                          (* [remove_commiting_dup_trx] *)
  v_is_follower : bool;
  v_has_log : bool;                          (* [has_persisted_log_ ()] or [is_logging_ ()] *)
  v_stc_expired : bool;                      (* the timestamp was requested before [get_stc_] *)
  v_srr_valid : bool;
  v_revert_ctx : Z;                          (* [revert_tx_ctx_without_lock] *)
  v_tx_end : Z;
  v_trans_clear : Z;
  v_big_segment_active : bool;               (* a large log is still being submitted *)
  v_submit_log : ObTwoPhaseCommitLogType -> Z * bool; (* return code, log submitted *)
  v_log_ts : SCN;                            (* timestamp of the submitted log *)
  v_rpc_post : ObTwoPhaseCommitMsgType -> Z -> Z;
  v_set_app_trace_info : Z;
  v_min_version_4_1 : bool
}.

(** Every call succeeds. *)
Definition virtuals_ok : virtuals := {|
  v_bitset_push _ := OB_SUCCESS; v_reserve := OB_SUCCESS;
  v_push_participant _ := OB_SUCCESS; v_push_commit_part _ := OB_SUCCESS;
  v_mds_tx_end := OB_SUCCESS; v_search_dup_redo := OB_SUCCESS; v_is_dup_tx := false;
  v_dup_redo_sync_completed := true; v_dup_redo_sync := OB_SUCCESS; v_dup_pre_commit := OB_SUCCESS;
  v_mt_prepared := false; v_get_gts := (OB_SUCCESS, 100); v_max_read_version := (OB_SUCCESS, 90);
  v_dup_max_read_version := invalid_scn; v_restart_timer := OB_SUCCESS;
  v_tx_data_writable := OB_SUCCESS; v_wait_gts_elapse := (OB_SUCCESS, false);
  v_acquire_ctx_ref := OB_SUCCESS; v_assign_log_info := OB_SUCCESS;
  v_notify_array := OB_SUCCESS; v_notify_data_source := OB_SUCCESS; v_retain_ctx := OB_SUCCESS;
  v_remove_dup := OB_SUCCESS; v_is_follower := false; v_has_log := true; v_stc_expired := false; v_srr_valid := true;
  v_revert_ctx := OB_SUCCESS; v_tx_end := OB_SUCCESS; v_trans_clear := OB_SUCCESS;
  v_big_segment_active := false; v_submit_log _ := (OB_SUCCESS, true); v_log_ts := 101; v_rpc_post _ _ := OB_SUCCESS;
  v_set_app_trace_info := OB_SUCCESS; v_min_version_4_1 := true |}.

Section committer.

(** The outcomes of one call of the committer. *)
Variable v : virtuals.

Abbreviation C := (M committer).

(** ** The virtual interface *)

Definition get_upstream_state : C ObTxState := gets upstream_state_.
Definition get_downstream_state : C ObTxState := gets state_.
Definition set_upstream_state_ (st : ObTxState) : C () := modify (set_upstream_state st).
Definition set_downstream_state (st : ObTxState) : C Z :=
  modify (set_state st) ;; mret OB_SUCCESS.
Definition reset_collected : C () := modify (fun s => set_collected (BitSet.reset s.(collected_)) s).

Definition is_2pc_logging (s : committer) : bool :=
  bool_decide (s.(state_log_submitting_) <> None) || bool_decide (s.(gts_waiting_) <> None).
Definition is_2pc_blocking (s : committer) : bool := s.(transfer_blocking_).
Definition is_sub2pc (s : committer) : bool := s.(is_sub2pc_).

Definition get_2pc_role (s : committer) : Ob2PCRole :=
  if ls_is_valid s.(upstream_) then
    if s.(upstream_) =? s.(ls_id_) then ROOT
    else if bool_decide (s.(participants_) = []) then LEAF
    else INTERNAL
  else UNKNOWN_ROLE.

Definition is_root (s : committer) : bool := bool_decide (get_2pc_role s = ROOT).
Definition is_leaf (s : committer) : bool := bool_decide (get_2pc_role s = LEAF).
Definition is_internal (s : committer) : bool := bool_decide (get_2pc_role s = INTERNAL).

Definition get_downstream_size (s : committer) : Z := Z.of_nat (length s.(participants_)).

(** The loop [for (i = 0; !found && i < count; i++)]. *)
Fixpoint find_participant (ls i : Z) (parts : list Z) : Z * Z :=
  match parts with
  | [] => (OB_ENTRY_NOT_EXIST, -1)
  | p :: parts => if ls =? p then (OB_SUCCESS, i) else find_participant ls (i + 1) parts
  end.

Definition find_participant_id_ (participant : Z) (s : committer) : Z * Z :=
  find_participant participant 0 s.(participants_).

Definition get_self_id : C Z := fun s =>
  if s.(self_id_) =? -1 then
    let '(_, id) := find_participant_id_ s.(ls_id_) s in (id, set_self_id id s)
  else (s.(self_id_), s).

Definition is_real_upstream (s : committer) : bool :=
  match s.(msg_2pc_cache_) with
  | None => true
  | Some msg => sender_ msg =? s.(upstream_)
  end.

Definition add_intermediate_participants (push_ret : Z) (ls_id transfer_epoch : Z) : C Z := fun s =>
  if existsb (fun p => ls_id =? part_ls_id_ p) s.(intermediate_participants_) then (OB_SUCCESS, s)
  else if ob_fail push_ret then (push_ret, s)
  else (OB_SUCCESS, set_intermediate_participants
                      (s.(intermediate_participants_) ++ [ExecPart ls_id (-1) transfer_epoch]) s).

(** The inner loop of [merge_intermediate_participants]: the first participant
    of the list as it was on entry that is the incremented one, with the commit
    part at its index. *)
Fixpoint merge_find (p : ObTxExecPart) (j : nat) (parts : list Z) (commit_parts : list ObTxExecPart) :
    option (Z + list ObTxExecPart) :=
  match parts with
  | [] => None
  | q :: parts =>
    if q =? part_ls_id_ p then
      match commit_parts !! j with
      | Some cp =>
        if negb (part_ls_id_ cp =? q) then Some (inl OB_ERR_UNEXPECTED)
        else if 0 <? transfer_epoch_ cp then Some (inr commit_parts)
        else Some (inr (<[j := ExecPart (part_ls_id_ cp) (exec_epoch_ cp) (transfer_epoch_ p)]> commit_parts))
      | None => Some (inl OB_ERR_UNEXPECTED)
      end
    else merge_find p (S j) parts commit_parts
  end.

Fixpoint merge_loop (parts0 : list Z) (incr : list ObTxExecPart)
    (parts : list Z) (commit_parts : list ObTxExecPart) : Z * list Z * list ObTxExecPart :=
  match incr with
  | [] => (OB_SUCCESS, parts, commit_parts)
  | p :: incr =>
    match merge_find p 0 parts0 commit_parts with
    | Some (inl ret) => (ret, parts, commit_parts)
    | Some (inr commit_parts) => merge_loop parts0 incr parts commit_parts
    | None =>
      let ret := v_push_participant v (part_ls_id_ p) in
      if ob_fail ret then (ret, parts, commit_parts)
      else
        let parts := parts ++ [part_ls_id_ p] in
        let ret := v_push_commit_part v (part_ls_id_ p) in
        if ob_fail ret then (ret, parts, commit_parts)
        else merge_loop parts0 incr parts (commit_parts ++ [p])
    end
  end.

Definition merge_intermediate_participants : C Z := fun s =>
  let parts := s.(participants_) in
  let commit_parts := s.(commit_parts_) in
  if bool_decide (s.(intermediate_participants_) = []) then (OB_SUCCESS, s)
  else if negb (bool_decide (length parts = length commit_parts)) then (OB_ERR_UNEXPECTED, s)
  else if ob_fail (v_reserve v) then (v_reserve v, s)
  else
    let '(ret, parts, commit_parts) := merge_loop parts s.(intermediate_participants_) parts commit_parts in
    let s := set_commit_parts commit_parts (set_participants parts s) in
    (ret, if ob_fail ret then s else set_intermediate_participants [] s).

(** ** Messages *)

(** A message of the class of [msg_type]; the fields it does not have are
    invalid. *)
Definition build_msg (msg_type : TX_MSG_TYPE) (receiver : Z) (s : committer) : ObTxMsg :=
  TxMsg msg_type s.(ls_id_) receiver INVALID_LS_ID invalid_scn invalid_scn invalid_scn invalid_scn.

Definition rpc_post_msg (msg_type : ObTwoPhaseCommitMsgType) (receiver : Z) (msg : ObTxMsg) : C Z :=
  let ret := v_rpc_post v msg_type receiver in
  (if ob_fail ret then mret () else modify (fun s => set_outbox (s.(outbox_) ++ [msg]) s)) ;;
  mret ret.

Definition post_msg_ (msg_type : ObTwoPhaseCommitMsgType) (receiver : Z) : C Z := fun s =>
  let ls := s.(ls_id_) in
  let post m := rpc_post_msg msg_type receiver m s in
  let inv := invalid_scn in
  match msg_type with
  | OB_MSG_TX_PREPARE_REDO_REQ =>
    post (TxMsg TX_2PC_PREPARE_REDO_REQ ls receiver ls inv inv inv inv)
  | OB_MSG_TX_PREPARE_REDO_RESP => post (build_msg TX_2PC_PREPARE_REDO_RESP receiver s)
  | OB_MSG_TX_PREPARE_REQ =>
    let t := if is_sub2pc s then TX_2PC_PREPARE_VERSION_REQ else TX_2PC_PREPARE_REQ in
    post (TxMsg t ls receiver ls inv inv inv inv)
  | OB_MSG_TX_PREPARE_RESP =>
    let t := if is_sub2pc s then TX_2PC_PREPARE_VERSION_RESP else TX_2PC_PREPARE_RESP in
    if ob_fail (v_assign_log_info v) then (v_assign_log_info v, s)
    else post (TxMsg t ls receiver INVALID_LS_ID s.(prepare_version_) inv inv inv)
  | OB_MSG_TX_PRE_COMMIT_REQ =>
    post (TxMsg TX_2PC_PRE_COMMIT_REQ ls receiver INVALID_LS_ID inv s.(commit_version_) inv inv)
  | OB_MSG_TX_PRE_COMMIT_RESP =>
    if v_is_dup_tx v && ob_fail (v_dup_pre_commit v) then
      (if v_dup_pre_commit v =? OB_EAGAIN then OB_SUCCESS else v_dup_pre_commit v, s)
    else post (TxMsg TX_2PC_PRE_COMMIT_RESP ls receiver INVALID_LS_ID inv s.(commit_version_) inv inv)
  | OB_MSG_TX_COMMIT_REQ =>
    if ob_fail (v_assign_log_info v) then (v_assign_log_info v, s)
    else post (TxMsg TX_2PC_COMMIT_REQ ls receiver INVALID_LS_ID inv s.(commit_version_) inv inv)
  | OB_MSG_TX_COMMIT_RESP =>
    let scn :=
      if Scn.is_valid s.(max_2pc_commit_scn_)
      then Scn.max s.(max_2pc_commit_scn_) s.(end_log_ts_) else s.(end_log_ts_) in
    post (TxMsg TX_2PC_COMMIT_RESP ls receiver INVALID_LS_ID inv s.(commit_version_) scn inv)
  | OB_MSG_TX_ABORT_REQ => post (TxMsg TX_2PC_ABORT_REQ ls receiver ls inv inv inv inv)
  | OB_MSG_TX_ABORT_RESP => post (build_msg TX_2PC_ABORT_RESP receiver s)
  | OB_MSG_TX_CLEAR_REQ =>
    post (TxMsg TX_2PC_CLEAR_REQ ls receiver INVALID_LS_ID inv inv inv
            (Scn.max s.(max_2pc_commit_scn_) s.(end_log_ts_)))
  | OB_MSG_TX_CLEAR_RESP => post (build_msg TX_2PC_CLEAR_RESP receiver s)
  | OB_MSG_TX_UNKNOWN | OB_MSG_TX_MAX => (OB_INVALID_ARGUMENT, s)
  end.

Definition post_msg (msg_type : ObTwoPhaseCommitMsgType) (participant_id : Z) : C Z := fun s =>
  if (get_downstream_size s <=? participant_id)
     && negb (OB_C2PC_UPSTREAM_ID =? participant_id)
     && negb (OB_C2PC_SENDER_ID =? participant_id) then (OB_INVALID_ARGUMENT, s)
  else if OB_C2PC_UPSTREAM_ID =? participant_id then post_msg_ msg_type s.(upstream_) s
  else if OB_C2PC_SENDER_ID =? participant_id then
    match s.(msg_2pc_cache_) with
    | Some msg => post_msg_ msg_type (sender_ msg) s
    | None => if ls_is_valid s.(upstream_) then post_msg_ msg_type s.(upstream_) s else (OB_SUCCESS, s)
    end
  else post_msg_ msg_type (default INVALID_LS_ID (s.(participants_) !! Z.to_nat participant_id)) s.

Definition set_2pc_upstream_ (upstream : Z) : C () :=
  modify (fun s => if ls_is_valid s.(upstream_) then s else set_upstream upstream s).

Definition update_2pc_prepare_version_ (prepare_version : SCN) : C () :=
  modify (fun s => set_prepare_version (Scn.max prepare_version s.(prepare_version_)) s).

Definition set_2pc_commit_version_ (commit_version : SCN) : C Z := fun s =>
  if scn_ge s.(commit_version_) commit_version then (OB_SUCCESS, s)
  else if ob_fail (v_tx_data_writable v) then (v_tx_data_writable v, s)
  else (OB_SUCCESS, set_commit_version commit_version s).

(** The content of the cached message, applied to the context.  The arrays of
    prepare-log positions are only carried for readers of the log; merging and
    assigning them is [v_assign_log_info]. *)
Definition apply_2pc_msg_body (msg : ObTxMsg) : C Z := fun s =>
  match switch_msg_type_ (type_ msg) with
  | OB_MSG_TX_PREPARE_REDO_REQ =>
    (set_2pc_upstream_ (msg_upstream_ msg) ;;
     if ob_fail (v_set_app_trace_info v) then mret (v_set_app_trace_info v)
     else modify (set_is_sub2pc true) ;; mret OB_SUCCESS) s
  | OB_MSG_TX_PREPARE_REQ =>
    if negb (is_sub2pc s) && bool_decide (type_ msg = TX_2PC_PREPARE_VERSION_REQ) then (OB_ERR_UNEXPECTED, s)
    else if is_sub2pc s then (set_2pc_upstream_ (msg_upstream_ msg) ;; mret OB_SUCCESS) s
    else (set_2pc_upstream_ (msg_upstream_ msg) ;; mret (v_set_app_trace_info v)) s
  | OB_MSG_TX_PREPARE_RESP =>
    if negb (is_sub2pc s) && bool_decide (type_ msg = TX_2PC_PREPARE_VERSION_RESP) then (OB_ERR_UNEXPECTED, s)
    else if is_sub2pc s then (OB_SUCCESS, s)
    else (update_2pc_prepare_version_ (msg_prepare_version_ msg) ;; mret (v_assign_log_info v)) s
  | OB_MSG_TX_PRE_COMMIT_REQ =>
    (set_2pc_upstream_ (sender_ msg) ;; set_2pc_commit_version_ (msg_commit_version_ msg)) s
  | OB_MSG_TX_PRE_COMMIT_RESP =>
    (update_2pc_prepare_version_ (msg_commit_version_ msg) ;;
     set_2pc_commit_version_ (msg_commit_version_ msg)) s
  | OB_MSG_TX_COMMIT_REQ =>
    (set_2pc_upstream_ (sender_ msg) ;;
     ret ← set_2pc_commit_version_ (msg_commit_version_ msg);
     if ob_fail ret then mret ret else mret (v_assign_log_info v)) s
  | OB_MSG_TX_COMMIT_RESP =>
    (modify (fun s => set_max_2pc_commit_scn (Scn.max (commit_log_scn_ msg) s.(max_2pc_commit_scn_)) s) ;;
     set_2pc_commit_version_ (msg_commit_version_ msg)) s
  | OB_MSG_TX_ABORT_REQ =>
    ((if ls_is_valid (msg_upstream_ msg) then set_2pc_upstream_ (msg_upstream_ msg) else mret ()) ;;
     mret OB_SUCCESS) s
  | OB_MSG_TX_ABORT_RESP => (OB_SUCCESS, s)
  | OB_MSG_TX_CLEAR_REQ =>
    if v_min_version_4_1 v
       && (scn_lt (max_commit_log_scn_ msg) s.(max_2pc_commit_scn_)
           || scn_lt (max_commit_log_scn_ msg) s.(end_log_ts_)) then (OB_ERR_UNEXPECTED, s)
    else
      (set_2pc_upstream_ (sender_ msg) ;;
       modify (fun s =>
         set_max_2pc_commit_scn (Scn.max (max_commit_log_scn_ msg) s.(max_2pc_commit_scn_)) s) ;;
       mret OB_SUCCESS) s
  | OB_MSG_TX_CLEAR_RESP => (OB_SUCCESS, s)
  | _ => (OB_ERR_UNEXPECTED, s)
  end.

Definition apply_2pc_msg_ (msg_type : ObTwoPhaseCommitMsgType) : C Z := fun s =>
  match s.(msg_2pc_cache_) with
  | None => (OB_INVALID_ARGUMENT, s)
  | Some msg =>
    let cache_msg_type := switch_msg_type_ (type_ msg) in
    if negb (bool_decide (cache_msg_type = msg_type))
       && (negb (bool_decide (OB_MSG_TX_COMMIT_RESP = msg_type))
           || negb (bool_decide (OB_MSG_TX_ABORT_RESP = cache_msg_type))) then (OB_INVALID_ARGUMENT, s)
    else apply_2pc_msg_body msg s
  end.

(** ** Logs *)

(** [get_gts_]: the timestamp, or the registration of the context to be called
    back with one. *)
Definition get_gts_ : C (Z * SCN) :=
  s ← gets id;
  if bool_decide (s.(gts_waiting_) <> None) then mret (OB_EAGAIN, min_scn)
  else
    let '(ret, gts) := v_get_gts v in
    (if ret =? OB_EAGAIN then modify (set_gts_waiting (Some GET_GTS)) else mret ()) ;;
    mret (ret, gts).

(** A valid version is only generated once; only the root and a transaction on
    duplicate tables need a timestamp of the service for it. *)
Definition generate_prepare_version_ : C Z :=
  s ← gets id;
  if v_mt_prepared v && Scn.is_valid s.(prepare_version_) then mret OB_SUCCESS
  else
    let need_gts := is_root s || v_is_dup_tx v in
    '(ret, is_gts_ok, gts) ←
      (if need_gts then
         '(ret, gts) ← get_gts_;
         if ob_fail ret
         then mret (if ret =? OB_EAGAIN then OB_SUCCESS else ret, false, min_scn)
         else mret (OB_SUCCESS, true, gts)
       else mret (OB_SUCCESS, false, min_scn));
    if ob_succ ret && (need_gts && is_gts_ok || negb need_gts) then
      let '(ret, local_max_read_version) := v_max_read_version v in
      if ob_fail ret then mret ret
      else if v_is_dup_tx v then
        if negb (Scn.is_valid (v_dup_max_read_version v)) then mret OB_ERR_UNEXPECTED
        else
          modify (fun s => set_prepare_version
            (Scn.max (Scn.max gts local_max_read_version) s.(prepare_version_)) s) ;;
          modify (fun s => set_prepare_version
            (Scn.max s.(prepare_version_) (v_dup_max_read_version v)) s) ;;
          mret OB_SUCCESS
      else
        modify (fun s => set_prepare_version
          (Scn.max (Scn.max gts local_max_read_version) s.(prepare_version_)) s) ;;
        mret OB_SUCCESS
    else mret ret.

(** [after_submit_log_]: what a submitted log changes in the context. *)
Definition after_submit_log_ (log_type : ObTwoPhaseCommitLogType) : C () :=
  match log_type with
  | OB_LOG_TX_PREPARE =>
    modify (set_state_log_submitting (Some log_type)) ;;
    modify (fun s => set_prepare_version (Scn.max (v_log_ts v) s.(prepare_version_)) s)
  | OB_LOG_TX_COMMIT | OB_LOG_TX_ABORT | OB_LOG_TX_CLEAR =>
    modify (set_state_log_submitting (Some log_type))
  | _ => mret ()
  end.

Definition submit_log_out (log_type : ObTwoPhaseCommitLogType) : C Z :=
  let '(ret, submitted) := v_submit_log v log_type in
  (if submitted then after_submit_log_ log_type else mret ()) ;; mret ret.

(** [submit_log_impl_].  The branch of the prepare log that first drives the
    committer to PREPARE is for a commit info log whose callback goes on to the
    prepare log; the committer submits a prepare log only in PREPARE. *)
Definition submit_log_impl_ (log_type : ObTwoPhaseCommitLogType) : C Z :=
  if v_big_segment_active v then mret OB_LOG_TOO_LARGE
  else
    match log_type with
    | OB_LOG_TX_PREPARE =>
      ret ← generate_prepare_version_;
      s ← gets id;
      if ob_succ ret && state_eqb s.(upstream_state_) PREPARE && state_ltb s.(state_) PREPARE
         && negb (is_2pc_logging s)
      then submit_log_out log_type else mret ret
    | OB_LOG_TX_ABORT => set_upstream_state_ ABORT ;; submit_log_out log_type
    | OB_LOG_TX_COMMIT_INFO | OB_LOG_TX_COMMIT | OB_LOG_TX_CLEAR => submit_log_out log_type
    | _ => mret OB_SUCCESS
    end.

Definition submit_log (log_type : ObTwoPhaseCommitLogType) : C Z :=
  s ← gets id;
  if bool_decide (s.(gts_waiting_) <> None) then mret OB_SUCCESS else submit_log_impl_ log_type.

(** ** The scheduler *)

Definition respond (r : scheduler_resp) : C () :=
  modify (fun s => set_scheduler_resp (s.(scheduler_resp_) ++ [r]) s).

Definition reply_to_scheduler_for_sub2pc (r : scheduler_resp) : C Z :=
  s ← gets id;
  if negb (is_root s) then mret OB_ERR_UNEXPECTED
  else
    (match r with
     | SUBPREPARE_RESP | SUBCOMMIT_RESP | SUBROLLBACK_RESP => respond r
     | TX_COMMIT_RESP _ => mret ()
     end) ;;
    mret OB_SUCCESS.

(** [check_and_response_scheduler_], without the injection of errors. *)
Definition check_and_response_scheduler_ (next_phase : ObTxState) (result : Z) : C Z :=
  s ← gets id;
  if is_sub2pc s then
    if state_eqb COMMIT next_phase then reply_to_scheduler_for_sub2pc SUBCOMMIT_RESP
    else if state_eqb ABORT next_phase || state_eqb ABORT s.(state_)
    then reply_to_scheduler_for_sub2pc SUBROLLBACK_RESP
    else mret OB_SUCCESS
  else respond (TX_COMMIT_RESP result) ;; mret OB_SUCCESS.

(** ** Actions of the phases: [ob_tx_2pc_ctx_impl.cpp], for a distributed transaction *)

Definition compensate_abort_log_ : C Z :=
  s ← gets id;
  if s.(force_abort_) && bool_decide (s.(state_log_submitting_) <> None) then mret OB_SUCCESS
  else modify (set_force_abort true) ;; submit_log_impl_ OB_LOG_TX_ABORT.

(** The return code and [no_need_submit_log]. *)
Definition do_prepare : C (Z * bool) :=
  s ← gets id;
  ret ←
    (if s.(force_abort_) then
       if ob_fail (v_mds_tx_end v) then mret (v_mds_tx_end v)
       else
         ret ← compensate_abort_log_;
         mret (if ob_fail ret then ret else OB_TRANS_KILLED)
     else mret OB_SUCCESS);
  let ret := if ob_succ ret then v_search_dup_redo v else ret in
  let '(ret, no_need_submit_log) :=
    if ob_succ ret && v_is_dup_tx v && negb (v_dup_redo_sync_completed v)
    then (v_dup_redo_sync v, true) else (ret, false) in
  let ret := if ob_succ ret then v_mds_tx_end v else ret in
  ret ← (if ob_succ ret then generate_prepare_version_ else mret ret);
  let ret := if ob_succ ret then v_restart_timer v else ret in
  mret (ret, no_need_submit_log).

(** The return code and [need_wait].  The update of the local maximum, which
    always succeeds, overwrites the code of what came before it. *)
Definition do_pre_commit : C (Z * bool) :=
  s ← gets id;
  '(ret, need_wait) ←
    (if is_root s then
       if ob_fail (v_tx_data_writable v) then mret (v_tx_data_writable v, false)
       else
         modify (fun s => set_commit_version s.(prepare_version_) s) ;;
         let '(ret, need_wait) := v_wait_gts_elapse v in
         if ob_fail ret then mret (ret, need_wait)
         else if need_wait then modify (set_gts_waiting (Some WAIT_GTS_ELAPSING)) ;; mret (v_acquire_ctx_ref v, true)
         else mret (OB_SUCCESS, false)
     else mret (OB_SUCCESS, false));
  let ret := if negb need_wait then OB_SUCCESS else ret in
  let ret := if ob_succ ret then v_restart_timer v else ret in
  mret (ret, need_wait).

Definition do_commit : C Z :=
  s ← gets id;
  ret ←
    (if is_root s then
       if ob_fail (v_assign_log_info v) then mret (v_assign_log_info v)
       else check_and_response_scheduler_ COMMIT OB_SUCCESS ;; mret OB_SUCCESS
     else mret OB_SUCCESS);
  mret (if ob_succ ret then v_restart_timer v else ret).

Definition do_abort : C Z :=
  s ← gets id;
  (if negb (is_sub2pc s) && is_root s
   then check_and_response_scheduler_ ABORT OB_TRANS_KILLED ;; mret () else mret ()) ;;
  mret OB_SUCCESS.

(** The state of the transaction data is COMMIT once the commit log is applied. *)
Definition do_clear : C Z :=
  s ← gets id;
  (if is_root s
   then check_and_response_scheduler_ CLEAR
          (if state_eqb s.(state_) COMMIT then OB_SUCCESS else OB_TRANS_ROLLBACKED) ;; mret ()
   else mret ()) ;;
  mret OB_SUCCESS.

Definition on_prepare : C Z := mret OB_SUCCESS.
Definition on_commit : C Z := mret (v_tx_end v).
Definition on_abort : C Z :=
  s ← gets id;
  (if is_sub2pc s && is_root s
   then check_and_response_scheduler_ ABORT OB_TRANS_KILLED ;; mret () else mret ()) ;;
  mret (if ob_fail (v_tx_end v) then v_tx_end v else v_trans_clear v).
Definition on_clear : C Z := modify (set_is_exiting true) ;; mret OB_SUCCESS.

(** ** Collecting responses *)

Definition all_downstream_collected_ (s : committer) : bool :=
  match get_2pc_role s with
  | ROOT => num_members s.(collected_) =? get_downstream_size s - 1
  | INTERNAL => num_members s.(collected_) =? get_downstream_size s
  | LEAF => true
  | UNKNOWN_ROLE => false
  end.

Definition add_collected (participant : Z) : C Z := fun s =>
  let '(ret, collected) := BitSet.add_member (v_bitset_push v) participant s.(collected_) in
  (ret, set_collected collected s).

Definition collect_downstream_ (participant : Z) : C Z :=
  s ← gets id;
  match get_2pc_role s with
  | ROOT | INTERNAL =>
    self ← get_self_id;
    if participant =? self then mret OB_SUCCESS
    else add_collected participant
  | LEAF => mret OB_SUCCESS
  | UNKNOWN_ROLE => mret OB_ERR_UNEXPECTED
  end.

(** ** Driving the state machine *)

(** The log the difference between the two states asks for: the return code,
    [need_submit] and the log type. *)
Definition decide_2pc_log_type_ (s : committer) : Z * bool * ObTwoPhaseCommitLogType :=
  let upstream_state := s.(upstream_state_) in
  let downstream_state := s.(state_) in
  if is_2pc_logging s then (OB_SUCCESS, false, OB_LOG_TX_INIT)
  else if state_ltb downstream_state upstream_state then
    match upstream_state with
    | INIT => (OB_SUCCESS, false, OB_LOG_TX_INIT)
    | REDO_COMPLETE => (OB_SUCCESS, true, OB_LOG_TX_COMMIT_INFO)
    | PREPARE => (OB_SUCCESS, true, OB_LOG_TX_PREPARE)
    | PRE_COMMIT => (OB_SUCCESS, false, OB_LOG_TX_INIT)
    | COMMIT =>
      if state_eqb PREPARE downstream_state || state_eqb PRE_COMMIT downstream_state
      then (OB_SUCCESS, true, OB_LOG_TX_COMMIT)
      else (OB_TRANS_INVALID_STATE, false, OB_LOG_TX_INIT)
    | ABORT =>
      if negb (state_eqb COMMIT downstream_state)
      then (OB_SUCCESS, true, OB_LOG_TX_ABORT)
      else (OB_TRANS_INVALID_STATE, false, OB_LOG_TX_INIT)
    | CLEAR =>
      if state_eqb COMMIT downstream_state || state_eqb ABORT downstream_state
      then (OB_SUCCESS, true, OB_LOG_TX_CLEAR)
      else (OB_TRANS_INVALID_STATE, false, OB_LOG_TX_INIT)
    | _ => (OB_TRANS_INVALID_STATE, false, OB_LOG_TX_INIT)
    end
  else (OB_SUCCESS, false, OB_LOG_TX_INIT).

Definition submit_2pc_log_ : C Z :=
  '(ret, need_submit, log_type) ← gets decide_2pc_log_type_;
  if ob_fail ret then mret ret
  else if (need_submit : bool) then submit_log log_type ;; mret ret
  else mret ret.

(** The in-memory action of a phase, with [no_need_submit_log]. *)
Definition do_phase (next_phase : ObTxState) : C (Z * bool) :=
  match next_phase with
  | REDO_COMPLETE => mret (OB_SUCCESS, false)
  | PREPARE => do_prepare
  | PRE_COMMIT =>
    '(ret, need_wait) ← do_pre_commit;
    s ← gets id;
    if ob_fail ret then mret (ret, false)
    else if need_wait && is_root s then mret (OB_EAGAIN, false)
    else if need_wait && negb (is_root s) then mret (OB_ERR_UNEXPECTED, false)
    else mret (ret, false)
  | COMMIT => ret ← do_commit; mret (ret, false)
  | CLEAR => ret ← do_clear; mret (ret, false)
  | ABORT => ret ← do_abort; mret (ret, false)
  | _ => mret (OB_ERR_UNEXPECTED, false)
  end.

Definition drive_self_2pc_phase (next_phase : ObTxState) : C Z :=
  s ← gets id;
  '(ret, no_need_submit_log) ←
    (if is_2pc_logging s then mret (OB_EAGAIN, false)
     else if is_2pc_blocking s then mret (OB_EAGAIN, false)
     else if state_eqb next_phase s.(upstream_state_) then mret (OB_SUCCESS, false)
     else
       '(ret, no_need_submit_log) ← do_phase next_phase;
       if ob_fail ret then mret (ret, no_need_submit_log)
       else
         ret ← merge_intermediate_participants;
         if ob_fail ret then mret (ret, no_need_submit_log)
         else reset_collected ;; set_upstream_state_ next_phase ;; mret (ret, no_need_submit_log));
  if ob_fail ret then mret ret
  else
    s ← gets id;
    if negb no_need_submit_log && negb (is_2pc_logging s) then submit_2pc_log_ ;; mret ret
    else mret ret.

Definition decide_next_state_ (cur_state : ObTxState) : ObTxState :=
  match cur_state with
  | INIT => REDO_COMPLETE
  | REDO_COMPLETE => PREPARE
  | PREPARE => PRE_COMMIT
  | PRE_COMMIT => COMMIT
  | COMMIT => CLEAR
  | ABORT => CLEAR
  | _ => UNKNOWN
  end.

(** ** Sending to the downstreams *)

(** The body of the loop of [post_downstream_msg] over the remaining indices;
    [tmp_ret] is the code of the last call. *)
Fixpoint post_downstream_loop (msg_type : ObTwoPhaseCommitMsgType) (ids : list Z) (tmp_ret : Z) : C Z :=
  match ids with
  | [] => mret tmp_ret
  | downstream_id :: ids =>
    self ← get_self_id;
    if negb (downstream_id =? self) then
      tmp_ret ← post_msg msg_type downstream_id;
      post_downstream_loop msg_type ids tmp_ret
    else post_downstream_loop msg_type ids tmp_ret
  end.

Definition post_downstream_msg (msg_type : ObTwoPhaseCommitMsgType) : C Z :=
  size ← gets get_downstream_size;
  post_downstream_loop msg_type (seqZ 0 size) OB_SUCCESS.

(** The return code, [need_submit] and the message type. *)
Definition decide_downstream_msg_type_ (s : committer) : Z * bool * ObTwoPhaseCommitMsgType :=
  match s.(upstream_state_) with
  | REDO_COMPLETE =>
    if is_sub2pc s then (OB_SUCCESS, true, OB_MSG_TX_PREPARE_REDO_REQ)
    else (OB_SUCCESS, false, OB_MSG_TX_UNKNOWN)
  | PREPARE => (OB_SUCCESS, true, OB_MSG_TX_PREPARE_REQ)
  | PRE_COMMIT => (OB_SUCCESS, true, OB_MSG_TX_PRE_COMMIT_REQ)
  | COMMIT => (OB_SUCCESS, true, OB_MSG_TX_COMMIT_REQ)
  | ABORT => (OB_SUCCESS, true, OB_MSG_TX_ABORT_REQ)
  | CLEAR => (OB_SUCCESS, true, OB_MSG_TX_CLEAR_REQ)
  | _ => (OB_TRANS_INVALID_STATE, true, OB_MSG_TX_UNKNOWN)
  end.

Fixpoint retransmit_downstream_loop (msg_type : ObTwoPhaseCommitMsgType) (this_part_id : Z)
    (ids : list Z) : C () :=
  match ids with
  | [] => mret ()
  | i :: ids =>
    collected ← gets collected_;
    (if negb (has_member collected i) && negb (this_part_id =? i)
     then post_msg msg_type i ;; mret () else mret ()) ;;
    retransmit_downstream_loop msg_type this_part_id ids
  end.

(** [retransmit_downstream_msg_ ()] *)
Definition retransmit_downstream_msg_ : C Z :=
  s ← gets id;
  if (is_root s || is_internal s) && is_real_upstream s then
    this_part_id ← get_self_id;
    '(ret, need_submit, msg_type) ← gets decide_downstream_msg_type_;
    if ob_fail ret then mret ret
    else if (need_submit : bool) then
      size ← gets get_downstream_size;
      retransmit_downstream_loop msg_type this_part_id (seqZ 0 size) ;; mret ret
    else mret ret
  else mret OB_SUCCESS.

(** [retransmit_downstream_msg_ (participant)] *)
Definition retransmit_downstream_msg_to (participant : Z) : C Z :=
  s ← gets id;
  if is_leaf s then mret OB_SUCCESS
  else
    '(ret, need_submit, msg_type) ← gets decide_downstream_msg_type_;
    if ob_fail ret then mret ret
    else if (need_submit : bool) then post_msg msg_type participant ;; mret ret
    else mret ret.

(** ** Answering the upstream *)

(** Whether the participant answers for the phase [state]. *)
Definition need_respond (state : ObTxState) (s : committer) : Z * bool :=
  match get_2pc_role s with
  | ROOT => (OB_SUCCESS, negb (is_real_upstream s))
  | INTERNAL =>
    (OB_SUCCESS,
     ((all_downstream_collected_ s || negb (is_real_upstream s)) && state_eqb s.(state_) state)
     || state_ltb state s.(state_))
  | LEAF => (OB_SUCCESS, state_leb state s.(state_))
  | UNKNOWN_ROLE => (OB_TRANS_INVALID_STATE, false)
  end.

(** The response for the phase [state], if there is one. *)
Definition upstream_msg_type (state : ObTxState) (s : committer) : Z * option ObTwoPhaseCommitMsgType :=
  match state with
  | INIT => (OB_SUCCESS, None)
  | REDO_COMPLETE => (OB_SUCCESS, if is_sub2pc s then Some OB_MSG_TX_PREPARE_REDO_RESP else None)
  | PREPARE => (OB_SUCCESS, Some OB_MSG_TX_PREPARE_RESP)
  | PRE_COMMIT => (OB_SUCCESS, Some OB_MSG_TX_PRE_COMMIT_RESP)
  | COMMIT => (OB_SUCCESS, Some OB_MSG_TX_COMMIT_RESP)
  | ABORT => (OB_SUCCESS, Some OB_MSG_TX_ABORT_RESP)
  | CLEAR => (OB_NOT_SUPPORTED, None)
  | _ => (OB_TRANS_INVALID_STATE, None)
  end.

Definition retransmit_upstream_msg_ (state : ObTxState) : C Z :=
  s ← gets id;
  if state_ltb s.(upstream_state_) s.(state_) then mret OB_INVALID_ARGUMENT
  else
    let '(ret, respond) := need_respond state s in
    if respond then
      let '(ret, msg_type) := upstream_msg_type state s in
      if ob_succ ret then
        match msg_type with
        | Some msg_type => post_msg msg_type OB_C2PC_SENDER_ID ;; mret ret
        | None => mret ret
        end
      else mret ret
    else mret ret.

(** ** The pre-commit phase *)

Definition on_pre_commit : C Z :=
  ret ← set_downstream_state PRE_COMMIT;
  if ob_fail ret then mret ret
  else
    s ← gets id;
    match get_2pc_role s with
    | ROOT =>
      (if get_downstream_size s =? 1 then drive_self_2pc_phase COMMIT
       else post_downstream_msg OB_MSG_TX_PRE_COMMIT_REQ) ;;
      mret ret
    | INTERNAL => post_downstream_msg OB_MSG_TX_PRE_COMMIT_REQ ;; mret ret
    | LEAF => post_msg OB_MSG_TX_PRE_COMMIT_RESP OB_C2PC_UPSTREAM_ID ;; mret ret
    | UNKNOWN_ROLE => mret OB_TRANS_INVALID_STATE
    end.

(** The failure of [drive_self_2pc_phase] is not returned. *)
Definition try_enter_pre_commit_state : C Z :=
  s ← gets id;
  if is_2pc_logging s then mret OB_EAGAIN
  else
    tmp_ret ← drive_self_2pc_phase PRE_COMMIT;
    if ob_fail tmp_ret then mret OB_SUCCESS else on_pre_commit.

(** ** Entry points of the coordinator *)

Definition two_phase_commit : C Z :=
  s ← gets id;
  if state_leb PREPARE s.(upstream_state_) then mret OB_SUCCESS
  else if is_2pc_logging s then mret OB_SUCCESS
  else
    ret ← drive_self_2pc_phase PREPARE;
    if ob_fail ret then mret ret
    else post_downstream_msg OB_MSG_TX_PREPARE_REQ ;; mret ret.

Definition two_phase_abort : C Z :=
  s ← gets id;
  if negb (state_eqb INIT s.(state_)) then mret OB_STATE_NOT_MATCH
  else if is_2pc_logging s then mret OB_EAGAIN
  else
    ret ← drive_self_2pc_phase ABORT;
    if ob_fail ret then mret ret
    else post_downstream_msg OB_MSG_TX_ABORT_REQ ;; mret ret.

Definition handle_timeout : C Z :=
  submit_2pc_log_ ;;
  s ← gets id;
  (if is_root s || is_internal s then retransmit_downstream_msg_ ;; mret () else mret ()) ;;
  s ← gets id;
  (if is_internal s || is_leaf s then retransmit_upstream_msg_ s.(state_) ;; mret () else mret ()) ;;
  s ← gets id;
  (if is_root s && (1 =? get_downstream_size s) && negb (is_2pc_logging s) then
     (if state_eqb s.(upstream_state_) s.(state_) && state_ltb s.(state_) CLEAR
         && state_leb PREPARE s.(state_)
      then drive_self_2pc_phase (decide_next_state_ s.(state_)) ;; mret () else mret ()) ;;
     s ← gets id;
     if state_eqb PRE_COMMIT s.(upstream_state_) && state_eqb PREPARE s.(state_)
     then on_pre_commit ;; mret () else mret ()
   else mret ()) ;;
  mret OB_SUCCESS.

(** ** Responses: [ob_two_phase_upstream_committer.cpp] *)

Definition handle_2pc_prepare_response_impl_ (participant : Z) : C Z :=
  downstream_state ← get_downstream_state;
  ret ← apply_2pc_msg_ OB_MSG_TX_PREPARE_RESP;
  if ob_fail ret then mret ret
  else
    ret ← collect_downstream_ participant;
    s ← gets id;
    if ob_fail ret then mret ret
    else if is_2pc_logging s then mret ret
    else if state_eqb PREPARE downstream_state && all_downstream_collected_ s then
      match get_2pc_role s with
      | ROOT => try_enter_pre_commit_state
      | INTERNAL => post_msg OB_MSG_TX_PREPARE_RESP OB_C2PC_UPSTREAM_ID
      | LEAF => mret OB_ERR_UNEXPECTED
      | UNKNOWN_ROLE => mret OB_ERR_UNEXPECTED
      end
    else mret ret.

Definition handle_2pc_prepare_response (participant : Z) : C Z :=
  upstream_state ← get_upstream_state;
  match upstream_state with
  | INIT => mret OB_SUCCESS
  | REDO_COMPLETE =>
    s ← gets id;
    if is_sub2pc s then drive_self_2pc_phase PREPARE else mret OB_SUCCESS
  | PREPARE => handle_2pc_prepare_response_impl_ participant
  | PRE_COMMIT | COMMIT | ABORT => retransmit_downstream_msg_to participant ;; mret OB_SUCCESS
  | CLEAR => mret OB_SUCCESS
  | _ => mret OB_TRANS_INVALID_STATE
  end.

(** The first conditions use the code of [apply_2pc_msg_] without keeping it in
    [ret], so that its failure is returned as success. *)
Definition handle_2pc_ack_response_impl_ (participant : Z) : C Z :=
  downstream_state ← get_downstream_state;
  s ← gets id;
  r1 ← (if state_eqb s.(upstream_state_) COMMIT then apply_2pc_msg_ OB_MSG_TX_COMMIT_RESP
        else mret OB_SUCCESS);
  if ob_fail r1 then mret OB_SUCCESS
  else
    s ← gets id;
    r2 ← (if state_eqb s.(upstream_state_) ABORT then apply_2pc_msg_ OB_MSG_TX_ABORT_RESP
          else mret OB_SUCCESS);
    if ob_fail r2 then mret OB_SUCCESS
    else
      ret ← collect_downstream_ participant;
      s ← gets id;
      if ob_fail ret then mret ret
      else if is_2pc_logging s then mret ret
      else if (state_eqb COMMIT downstream_state || state_eqb ABORT downstream_state)
              && all_downstream_collected_ s then
        match get_2pc_role s with
        | ROOT =>
          ret ← drive_self_2pc_phase CLEAR;
          if ob_fail ret then mret ret
          else post_downstream_msg OB_MSG_TX_CLEAR_REQ ;; mret ret
        | INTERNAL =>
          let msg_type :=
            match s.(upstream_state_) with
            | PRE_COMMIT => OB_MSG_TX_PRE_COMMIT_RESP
            | COMMIT => OB_MSG_TX_COMMIT_RESP
            | _ => OB_MSG_TX_ABORT_RESP
            end in
          post_msg msg_type OB_C2PC_UPSTREAM_ID ;; mret ret
        | LEAF => mret OB_ERR_UNEXPECTED
        | UNKNOWN_ROLE => mret OB_ERR_UNEXPECTED
        end
      else mret ret.

Definition handle_2pc_commit_response (participant : Z) : C Z :=
  upstream_state ← get_upstream_state;
  match upstream_state with
  | INIT | REDO_COMPLETE => mret OB_TRANS_PROTOCOL_ERROR
  | PREPARE | PRE_COMMIT => mret OB_SUCCESS
  | COMMIT => handle_2pc_ack_response_impl_ participant
  | ABORT => mret OB_TRANS_PROTOCOL_ERROR
  | CLEAR => retransmit_downstream_msg_to participant
  | _ => mret OB_TRANS_INVALID_STATE
  end.

Definition handle_2pc_abort_response_impl_ (participant : Z) : C Z :=
  downstream_state ← get_downstream_state;
  s ← gets id;
  if negb (state_eqb INIT downstream_state) && negb (state_eqb REDO_COMPLETE downstream_state)
     && negb (state_eqb PREPARE downstream_state) then mret OB_TRANS_INVALID_STATE
  else if is_2pc_logging s then mret OB_SUCCESS
  else if state_eqb INIT s.(upstream_state_) || state_eqb REDO_COMPLETE s.(upstream_state_)
          || state_eqb PREPARE s.(upstream_state_) then
    match get_2pc_role s with
    | ROOT | INTERNAL =>
      ret ← apply_2pc_msg_ OB_MSG_TX_ABORT_RESP;
      if ob_fail ret then mret ret
      else
        ret ← drive_self_2pc_phase ABORT;
        if ob_fail ret then mret ret
        else
          ret ← collect_downstream_ participant;
          if ob_fail ret then mret ret
          else post_downstream_msg OB_MSG_TX_ABORT_REQ ;; mret ret
    | LEAF => mret OB_ERR_UNEXPECTED
    | UNKNOWN_ROLE => mret OB_ERR_UNEXPECTED
    end
  else mret OB_TRANS_INVALID_STATE.

Definition handle_2pc_abort_response (participant : Z) : C Z :=
  upstream_state ← get_upstream_state;
  match upstream_state with
  | INIT | REDO_COMPLETE | PREPARE => handle_2pc_abort_response_impl_ participant
  | COMMIT | ABORT => handle_2pc_ack_response_impl_ participant
  | CLEAR => retransmit_downstream_msg_to participant
  | _ => mret OB_TRANS_INVALID_STATE
  end.

Definition handle_2pc_pre_commit_response_impl_ (participant : Z) : C Z :=
  ret ← apply_2pc_msg_ OB_MSG_TX_PRE_COMMIT_RESP;
  if ob_fail ret then mret ret
  else
    ret ← collect_downstream_ participant;
    s ← gets id;
    if ob_fail ret then mret ret
    else if all_downstream_collected_ s then
      match get_2pc_role s with
      | ROOT =>
        ret ← drive_self_2pc_phase COMMIT;
        if ob_fail ret then mret ret
        else post_downstream_msg OB_MSG_TX_COMMIT_REQ ;; mret ret
      | INTERNAL => post_msg OB_MSG_TX_PRE_COMMIT_RESP OB_C2PC_UPSTREAM_ID
      | LEAF => mret OB_ERR_UNEXPECTED
      | UNKNOWN_ROLE => mret OB_ERR_UNEXPECTED
      end
    else mret ret.

Definition handle_2pc_pre_commit_response (participant : Z) : C Z :=
  upstream_state ← get_upstream_state;
  match upstream_state with
  | INIT | REDO_COMPLETE => mret OB_TRANS_PROTOCOL_ERROR
  | PREPARE => mret OB_SUCCESS
  | PRE_COMMIT => handle_2pc_pre_commit_response_impl_ participant
  | COMMIT => retransmit_downstream_msg_to participant
  | ABORT => mret OB_TRANS_PROTOCOL_ERROR
  | CLEAR => retransmit_downstream_msg_to participant
  | _ => mret OB_TRANS_INVALID_STATE
  end.

Definition handle_2pc_clear_response (participant : Z) : C Z := mret OB_SUCCESS.

(** ** Responses of the XA prepare: [ob_two_phase_committer_xa.cpp] *)

Definition handle_2pc_prepare_redo_response_impl_ (participant : Z) : C Z :=
  state ← get_downstream_state;
  s ← gets id;
  if negb (is_sub2pc s) then mret OB_ERR_UNEXPECTED
  else
    ret ← collect_downstream_ participant;
    s ← gets id;
    if ob_fail ret then mret ret
    else if is_2pc_logging s then mret ret
    else if state_eqb REDO_COMPLETE state && all_downstream_collected_ s then
      if is_root s then reply_to_scheduler_for_sub2pc SUBPREPARE_RESP ;; mret ret
      else post_msg OB_MSG_TX_PREPARE_REDO_RESP OB_C2PC_UPSTREAM_ID ;; mret ret
    else mret ret.

Definition handle_2pc_prepare_redo_response (participant : Z) : C Z :=
  s ← gets id;
  if negb (is_sub2pc s) then mret OB_ERR_UNEXPECTED
  else
    match s.(upstream_state_) with
    | INIT =>
      set_upstream_state_ REDO_COMPLETE ;; reset_collected ;;
      handle_2pc_prepare_redo_response_impl_ participant
    | REDO_COMPLETE => handle_2pc_prepare_redo_response_impl_ participant
    | PREPARE | PRE_COMMIT | COMMIT | ABORT => retransmit_downstream_msg_to participant
    | CLEAR => mret OB_SUCCESS
    | _ => mret OB_TRANS_INVALID_STATE
    end.

Definition handle_2pc_resp (msg_type : ObTwoPhaseCommitMsgType) (participant_id : Z) : C Z :=
  match msg_type with
  | OB_MSG_TX_PREPARE_REDO_RESP => handle_2pc_prepare_redo_response participant_id
  | OB_MSG_TX_PREPARE_RESP => handle_2pc_prepare_response participant_id
  | OB_MSG_TX_PRE_COMMIT_RESP => handle_2pc_pre_commit_response participant_id
  | OB_MSG_TX_COMMIT_RESP => handle_2pc_commit_response participant_id
  | OB_MSG_TX_ABORT_RESP => handle_2pc_abort_response participant_id
  | OB_MSG_TX_CLEAR_RESP => handle_2pc_clear_response participant_id
  | _ => mret OB_TRANS_INVALID_STATE
  end.

(** ** Requests: [ob_two_phase_downstream_committer.cpp] *)

(** What follows the change of phase on a request: the root has no upstream, an
    inner node passes the request on ([keep_ret] says whether the code of that
    is returned), a leaf is done. *)
Definition pass_request_on (msg_type : ObTwoPhaseCommitMsgType) (keep_ret : bool) : C Z :=
  s ← gets id;
  match get_2pc_role s with
  | ROOT => mret OB_ERR_UNEXPECTED
  | INTERNAL =>
    tmp_ret ← post_downstream_msg msg_type;
    mret (if keep_ret then tmp_ret else OB_SUCCESS)
  | LEAF => mret OB_SUCCESS
  | UNKNOWN_ROLE => mret OB_ERR_UNEXPECTED
  end.

Definition handle_2pc_prepare_request_impl_ : C Z :=
  s ← gets id;
  if is_2pc_logging s then mret OB_SUCCESS
  else
    ret ← apply_2pc_msg_ OB_MSG_TX_PREPARE_REQ;
    if ob_fail ret then mret ret
    else
      ret ← drive_self_2pc_phase PREPARE;
      if ob_fail ret then mret ret else pass_request_on OB_MSG_TX_PREPARE_REQ false.

Definition handle_2pc_prepare_request : C Z :=
  state ← get_downstream_state;
  match state with
  | INIT | REDO_COMPLETE => handle_2pc_prepare_request_impl_
  | PREPARE =>
    retransmit_downstream_msg_ ;; retransmit_upstream_msg_ PREPARE ;; mret OB_SUCCESS
  | ABORT =>
    ret ← apply_2pc_msg_ OB_MSG_TX_PREPARE_REQ;
    if ob_fail ret then mret ret
    else retransmit_downstream_msg_ ;; retransmit_upstream_msg_ ABORT ;; mret ret
  | PRE_COMMIT | COMMIT =>
    retransmit_downstream_msg_ ;; retransmit_upstream_msg_ PREPARE ;; mret OB_SUCCESS
  | CLEAR => mret OB_SUCCESS
  | _ => mret OB_TRANS_INVALID_STATE
  end.

Definition handle_2pc_commit_request_impl_ : C Z :=
  s ← gets id;
  if is_2pc_logging s then mret OB_SUCCESS
  else
    ret ← apply_2pc_msg_ OB_MSG_TX_COMMIT_REQ;
    if ob_fail ret then mret ret
    else
      ret ← drive_self_2pc_phase COMMIT;
      if ob_fail ret then mret ret else pass_request_on OB_MSG_TX_COMMIT_REQ false.

(** The case ABORT falls through to the case CLEAR, which keeps the code. *)
Definition handle_2pc_commit_request : C Z :=
  state ← get_downstream_state;
  match state with
  | INIT | REDO_COMPLETE => mret OB_TRANS_PROTOCOL_ERROR
  | PREPARE | PRE_COMMIT => handle_2pc_commit_request_impl_
  | COMMIT => retransmit_downstream_msg_ ;; retransmit_upstream_msg_ COMMIT
  | ABORT => mret OB_TRANS_PROTOCOL_ERROR
  | CLEAR => mret OB_SUCCESS
  | _ => mret OB_TRANS_INVALID_STATE
  end.

Definition handle_2pc_abort_request_impl_ : C Z :=
  s ← gets id;
  if is_2pc_logging s then mret OB_SUCCESS
  else
    ret ← apply_2pc_msg_ OB_MSG_TX_ABORT_REQ;
    if ob_fail ret then mret ret
    else
      ret ← drive_self_2pc_phase ABORT;
      if ob_fail ret then mret ret else pass_request_on OB_MSG_TX_ABORT_REQ true.

Definition handle_2pc_abort_request : C Z :=
  state ← get_downstream_state;
  match state with
  | INIT | REDO_COMPLETE | PREPARE => handle_2pc_abort_request_impl_
  | PRE_COMMIT => mret OB_TRANS_PROTOCOL_ERROR
  | COMMIT => mret OB_SUCCESS
  | ABORT =>
    ret ← apply_2pc_msg_ OB_MSG_TX_ABORT_REQ;
    if ob_fail ret then mret ret
    else retransmit_downstream_msg_ ;; retransmit_upstream_msg_ ABORT
  | CLEAR => mret OB_SUCCESS
  | _ => mret OB_TRANS_INVALID_STATE
  end.

Definition handle_2pc_pre_commit_request_impl_ : C Z :=
  ret ← apply_2pc_msg_ OB_MSG_TX_PRE_COMMIT_REQ;
  if ob_fail ret then mret ret else try_enter_pre_commit_state.

Definition handle_2pc_pre_commit_request : C Z :=
  state ← get_downstream_state;
  match state with
  | INIT | REDO_COMPLETE => mret OB_TRANS_PROTOCOL_ERROR
  | PREPARE => handle_2pc_pre_commit_request_impl_
  | PRE_COMMIT | COMMIT => retransmit_downstream_msg_ ;; retransmit_upstream_msg_ PRE_COMMIT
  | ABORT => mret OB_TRANS_PROTOCOL_ERROR
  | CLEAR => mret OB_SUCCESS
  | _ => mret OB_TRANS_INVALID_STATE
  end.

Definition handle_2pc_clear_request_impl_ : C Z :=
  s ← gets id;
  if is_2pc_logging s then mret OB_SUCCESS
  else
    ret ← apply_2pc_msg_ OB_MSG_TX_CLEAR_REQ;
    if ob_fail ret then mret ret
    else
      ret ← drive_self_2pc_phase CLEAR;
      if ob_fail ret then mret ret else pass_request_on OB_MSG_TX_CLEAR_REQ true.

Definition handle_2pc_clear_request : C Z :=
  state ← get_downstream_state;
  match state with
  | INIT => mret OB_SUCCESS
  | PREPARE | PRE_COMMIT => mret OB_TRANS_PROTOCOL_ERROR
  | COMMIT | ABORT => handle_2pc_clear_request_impl_
  | CLEAR => mret OB_SUCCESS
  | _ => mret OB_TRANS_INVALID_STATE
  end.

Definition handle_2pc_prepare_redo_request_impl_ : C Z :=
  s ← gets id;
  if negb (is_sub2pc s) then mret OB_ERR_UNEXPECTED
  else if is_2pc_logging s then mret OB_SUCCESS
  else
    ret ← apply_2pc_msg_ OB_MSG_TX_PREPARE_REDO_REQ;
    if ob_fail ret then mret ret
    else
      ret ← drive_self_2pc_phase REDO_COMPLETE;
      s ← gets id;
      if ob_fail ret then mret ret
      else if is_internal s then post_downstream_msg OB_MSG_TX_PREPARE_REDO_REQ ;; mret ret
      else mret ret.

Definition handle_2pc_prepare_redo_request : C Z :=
  s ← gets id;
  if negb (is_sub2pc s) then mret OB_ERR_UNEXPECTED
  else
    match s.(state_) with
    | INIT => handle_2pc_prepare_redo_request_impl_
    | REDO_COMPLETE =>
      (if state_eqb REDO_COMPLETE s.(upstream_state_) && all_downstream_collected_ s then mret ()
       else retransmit_downstream_msg_ ;; mret ()) ;;
      s ← gets id;
      (if state_eqb PREPARE s.(upstream_state_) then mret ()
       else retransmit_upstream_msg_ REDO_COMPLETE ;; mret ()) ;;
      mret OB_SUCCESS
    | PREPARE =>
      retransmit_downstream_msg_ ;; retransmit_upstream_msg_ PREPARE ;; mret OB_SUCCESS
    | ABORT =>
      retransmit_downstream_msg_ ;; retransmit_upstream_msg_ ABORT ;; mret OB_SUCCESS
    | PRE_COMMIT | COMMIT | CLEAR => mret OB_SUCCESS
    | _ => mret OB_TRANS_INVALID_STATE
    end.

Definition handle_2pc_req (msg_type : ObTwoPhaseCommitMsgType) : C Z :=
  match msg_type with
  | OB_MSG_TX_PREPARE_REDO_REQ => handle_2pc_prepare_redo_request
  | OB_MSG_TX_PREPARE_REQ => handle_2pc_prepare_request
  | OB_MSG_TX_PRE_COMMIT_REQ => handle_2pc_pre_commit_request
  | OB_MSG_TX_COMMIT_REQ => handle_2pc_commit_request
  | OB_MSG_TX_ABORT_REQ => handle_2pc_abort_request
  | OB_MSG_TX_CLEAR_REQ => handle_2pc_clear_request
  | _ => mret OB_TRANS_INVALID_STATE
  end.

(** ** Log callbacks *)

Definition apply_prepare_log : C Z :=
  s ← gets id;
  if state_eqb ABORT s.(upstream_state_) then mret OB_SUCCESS
  else if negb (state_eqb INIT s.(state_)) && negb (state_eqb REDO_COMPLETE s.(state_))
  then mret OB_TRANS_INVALID_STATE
  else if negb (state_eqb PREPARE s.(upstream_state_)) then mret OB_TRANS_INVALID_STATE
  else
    ret ← on_prepare;
    if ob_fail ret then mret ret
    else
      ret ← set_downstream_state PREPARE;
      s ← gets id;
      if ob_fail ret then mret ret
      else if all_downstream_collected_ s then
        match get_2pc_role s with
        | ROOT =>
          ret ← try_enter_pre_commit_state;
          mret (if ob_fail ret && (ret =? OB_EAGAIN) then OB_SUCCESS else ret)
        | INTERNAL | LEAF => post_msg OB_MSG_TX_PREPARE_RESP OB_C2PC_UPSTREAM_ID ;; mret ret
        | UNKNOWN_ROLE => mret OB_TRANS_INVALID_STATE
        end
      else mret ret.

(** The end of [apply_commit_log] and [apply_abort_log]. *)
Definition after_decision (msg_type : ObTwoPhaseCommitMsgType) : C Z :=
  s ← gets id;
  if all_downstream_collected_ s then
    match get_2pc_role s with
    | ROOT =>
      tmp_ret ← drive_self_2pc_phase CLEAR;
      if ob_fail tmp_ret then mret OB_SUCCESS
      else post_downstream_msg OB_MSG_TX_CLEAR_REQ ;; mret OB_SUCCESS
    | INTERNAL | LEAF => post_msg msg_type OB_C2PC_UPSTREAM_ID ;; mret OB_SUCCESS
    | UNKNOWN_ROLE => mret OB_ERR_UNEXPECTED
    end
  else mret OB_SUCCESS.

Definition apply_commit_log : C Z :=
  s ← gets id;
  if negb (state_eqb PREPARE s.(state_)) && negb (state_eqb PRE_COMMIT s.(state_))
     && negb (state_eqb COMMIT s.(state_)) then mret OB_TRANS_INVALID_STATE
  else if negb (state_eqb COMMIT s.(upstream_state_)) then mret OB_TRANS_INVALID_STATE
  else
    ret ← on_commit;
    if ob_fail ret then mret ret
    else
      ret ← set_downstream_state COMMIT;
      if ob_fail ret then mret ret else after_decision OB_MSG_TX_COMMIT_RESP.

Definition apply_abort_log : C Z :=
  s ← gets id;
  if negb (state_eqb INIT s.(state_)) && negb (state_eqb REDO_COMPLETE s.(state_))
     && negb (state_eqb PREPARE s.(state_)) then mret OB_TRANS_INVALID_STATE
  else
    ret ← on_abort;
    if ob_fail ret then mret ret
    else
      ret ← set_downstream_state ABORT;
      if ob_fail ret then mret ret else after_decision OB_MSG_TX_ABORT_RESP.

Definition apply_clear_log : C Z :=
  s ← gets id;
  if negb (state_eqb COMMIT s.(state_)) && negb (state_eqb ABORT s.(state_))
  then mret OB_TRANS_INVALID_STATE
  else if negb (state_eqb CLEAR s.(upstream_state_)) then mret OB_TRANS_INVALID_STATE
  else
    ret ← on_clear;
    if ob_fail ret then mret ret else set_downstream_state CLEAR.

(** The code it computes is not the one it returns. *)
Definition apply_commit_info_log : C Z :=
  s ← gets id;
  (if negb (is_sub2pc s) then mret ()
   else if state_eqb ABORT s.(state_) then mret ()
   else
     (if (is_internal s || is_leaf s) && all_downstream_collected_ s
      then post_msg OB_MSG_TX_PREPARE_REDO_RESP OB_C2PC_UPSTREAM_ID ;; mret () else mret ()) ;;
     s ← gets id;
     if is_root s && all_downstream_collected_ s
     then reply_to_scheduler_for_sub2pc SUBPREPARE_RESP ;; mret () else mret ()) ;;
  mret OB_SUCCESS.

(** [None] is [ob_abort ()]. *)
Definition apply_log (log_type : ObTwoPhaseCommitLogType) : C (option Z) :=
  ret ←
    match log_type with
    | OB_LOG_TX_COMMIT_INFO => apply_commit_info_log
    | OB_LOG_TX_PREPARE => apply_prepare_log
    | OB_LOG_TX_COMMIT => apply_commit_log
    | OB_LOG_TX_ABORT => apply_abort_log
    | OB_LOG_TX_CLEAR => apply_clear_log
    | _ => mret OB_TRANS_INVALID_STATE
    end;
  mret (if ob_fail ret then None else Some ret).

(** A kill of a context whose commit was requested is reported to the scheduler. *)
Definition on_local_abort_tx_ : C Z :=
  s ← gets id;
  if ob_fail (v_tx_end v) then mret (v_tx_end v)
  else if ob_fail (v_trans_clear v) then mret (v_trans_clear v)
  else if ob_fail (v_notify_array v) then mret (v_notify_array v)
  else if ob_fail (v_notify_data_source v) then mret (v_notify_data_source v)
  else
    modify (set_state ABORT) ;;
    (if bool_decide (s.(part_trans_action_) = ACTION_COMMIT) then respond (TX_COMMIT_RESP OB_TRANS_KILLED) else mret ()) ;;
    modify (set_is_exiting true) ;; mret OB_SUCCESS.

(** ** Abort before the commit is requested *)

Definition do_local_abort_tx_ : C Z :=
  if v_has_log v then compensate_abort_log_
  else modify (set_force_abort true) ;; on_local_abort_tx_.

(** [abort_], with [do_local_tx_end_ (ABORT_TX)]. *)
Definition abort_ : C Z :=
  ret ←
    (if ob_fail (v_mds_tx_end v) then mret (v_mds_tx_end v)
     else
       ret ← do_local_abort_tx_;
       (if ob_succ ret
        then modify (fun s => if bool_decide (s.(part_trans_action_) = ACTION_COMMIT) then s
                              else set_part_trans_action ACTION_ABORT s)
        else mret ()) ;;
       mret ret);
  modify (set_part_trans_action ACTION_ABORT) ;;
  mret ret.

Definition is_committing_ (s : committer) : bool :=
  negb (state_eqb INIT s.(state_)) || bool_decide (ACTION_COMMIT = s.(part_trans_action_))
  || bool_decide (ACTION_ABORT = s.(part_trans_action_)).

Definition abort : C Z :=
  s ← gets id;
  if v_is_follower v then mret OB_NOT_MASTER
  else if is_2pc_blocking s then mret OB_EAGAIN
  else if is_committing_ s then
    if bool_decide (s.(part_trans_action_) = ACTION_ABORT) then mret OB_SUCCESS
    else if bool_decide (s.(part_trans_action_) = ACTION_COMMIT) || negb (state_eqb s.(state_) ABORT)
    then mret OB_TRANS_PROTOCOL_ERROR
    else mret OB_SUCCESS
  else abort_.

(** What follows the [apply_log] of a commit or abort log. *)
Definition remove_dup (r : option Z) : option Z :=
  match r with
  | Some ret => Some (if ob_succ ret && v_is_dup_tx v then v_remove_dup v else ret)
  | None => None
  end.

Definition on_commit_log_success : C (option Z) :=
  if ob_fail (v_retain_ctx v) then mret (Some (v_retain_ctx v))
  else if ob_fail (v_tx_data_writable v) then mret (Some (v_tx_data_writable v))
  else
    modify (set_end_log_ts (v_log_ts v)) ;;
    if ob_fail (v_notify_data_source v) then mret (Some (v_notify_data_source v))
    else r ← apply_log OB_LOG_TX_COMMIT; mret (remove_dup r).

Definition on_abort_log_success : C (option Z) :=
  s ← gets id;
  if ob_fail (v_retain_ctx v) then mret (Some (v_retain_ctx v))
  else if ob_fail (v_tx_data_writable v) then mret (Some (v_tx_data_writable v))
  else
    modify (set_end_log_ts (v_log_ts v)) ;;
    if s.(force_abort_) then ret ← on_local_abort_tx_; mret (remove_dup (Some ret))
    else if ob_fail (v_notify_array v) then mret (Some (v_notify_array v))
    else if ob_fail (v_notify_data_source v) then mret (Some (v_notify_data_source v))
    else r ← apply_log OB_LOG_TX_ABORT; mret (remove_dup r).

(** The callback of a state log in [on_success_ops_], for a distributed
    transaction. *)
Definition on_success_ops_ (log_type : ObTwoPhaseCommitLogType) : C (option Z) :=
  modify (set_state_log_submitting None) ;;
  match log_type with
  | OB_LOG_TX_PREPARE =>
    if ob_fail (v_assign_log_info v) then mret (Some (v_assign_log_info v))
    else if ob_fail (v_notify_data_source v) then mret (Some (v_notify_data_source v))
    else apply_log log_type
  | OB_LOG_TX_COMMIT => on_commit_log_success
  | OB_LOG_TX_ABORT => on_abort_log_success
  | OB_LOG_TX_CLEAR => apply_log log_type
  | _ => mret (Some OB_ERR_UNEXPECTED)
  end.

(** ** Replay and recovery *)

Definition enter_replayed (st : ObTxState) (reset : bool) : C Z :=
  set_upstream_state_ st ;;
  ret ← set_downstream_state st;
  if ob_fail ret then mret ret
  else (if reset then reset_collected else mret ()) ;; mret ret.

Definition replay_prepare_log : C Z :=
  s ← gets id;
  if state_eqb PREPARE s.(state_) then
    set_upstream_state_ PREPARE ;; reset_collected ;; mret OB_SUCCESS
  else if negb (state_eqb INIT s.(state_)) && negb (state_eqb REDO_COMPLETE s.(state_))
          && negb (state_eqb PRE_COMMIT s.(state_)) then mret OB_TRANS_INVALID_STATE
  else enter_replayed PREPARE true.

Definition replay_commit_info_log : C Z :=
  s ← gets id;
  if state_eqb REDO_COMPLETE s.(state_) then
    set_upstream_state_ REDO_COMPLETE ;; reset_collected ;; mret OB_SUCCESS
  else if negb (state_eqb INIT s.(state_)) && negb (state_eqb PREPARE s.(state_))
          && negb (state_eqb PRE_COMMIT s.(state_)) then mret OB_TRANS_INVALID_STATE
  else enter_replayed REDO_COMPLETE true.

Definition replay_commit_log : C Z :=
  s ← gets id;
  if state_eqb COMMIT s.(state_) then
    set_upstream_state_ COMMIT ;; reset_collected ;; mret OB_SUCCESS
  else if negb (state_eqb PREPARE s.(state_)) && negb (state_eqb PRE_COMMIT s.(state_))
  then mret OB_TRANS_INVALID_STATE
  else enter_replayed COMMIT true.

Definition replay_abort_log : C Z :=
  s ← gets id;
  if state_eqb ABORT s.(state_) then
    set_upstream_state_ ABORT ;; reset_collected ;; mret OB_SUCCESS
  else if negb (state_eqb INIT s.(state_)) && negb (state_eqb REDO_COMPLETE s.(state_))
          && negb (state_eqb PREPARE s.(state_)) then mret OB_TRANS_INVALID_STATE
  else enter_replayed ABORT true.

Definition replay_clear_log : C Z :=
  s ← gets id;
  if state_eqb CLEAR s.(state_) then set_upstream_state_ CLEAR ;; mret OB_SUCCESS
  else if negb (state_eqb COMMIT s.(state_)) && negb (state_eqb ABORT s.(state_))
  then mret OB_TRANS_INVALID_STATE
  else enter_replayed CLEAR false.

Definition replay_log (log_type : ObTwoPhaseCommitLogType) : C Z :=
  ret ← merge_intermediate_participants;
  if ob_fail ret then mret ret
  else
    match log_type with
    | OB_LOG_TX_COMMIT_INFO => replay_commit_info_log
    | OB_LOG_TX_PREPARE => replay_prepare_log
    | OB_LOG_TX_COMMIT => replay_commit_log
    | OB_LOG_TX_ABORT => replay_abort_log
    | OB_LOG_TX_CLEAR => replay_clear_log
    | _ => mret OB_TRANS_INVALID_STATE
    end.

Definition recover_from_tx_table : C Z :=
  s ← gets id;
  set_upstream_state_ s.(state_) ;; reset_collected ;; mret OB_SUCCESS.

Definition handle_reboot : C Z := mret OB_NOT_SUPPORTED.
Definition leader_takeover : C Z := mret OB_NOT_SUPPORTED.
Definition leader_revoke : C Z := mret OB_NOT_SUPPORTED.

(** ** XA *)

Definition prepare_redo : C Z :=
  s ← gets id;
  if negb (state_eqb INIT s.(upstream_state_)) then mret OB_SUCCESS
  else if is_2pc_logging s then mret OB_SUCCESS
  else
    set_upstream_state_ REDO_COMPLETE ;; reset_collected ;;
    post_downstream_msg OB_MSG_TX_PREPARE_REDO_REQ ;;
    submit_log OB_LOG_TX_COMMIT_INFO ;;
    mret OB_SUCCESS.

Definition continue_execution (is_rollback : bool) : C Z :=
  s ← gets id;
  if is_2pc_logging s then mret OB_SUCCESS
  else if state_ltb REDO_COMPLETE s.(upstream_state_) || state_ltb REDO_COMPLETE s.(state_)
  then mret OB_SUCCESS
  else if is_rollback then
    ret ← drive_self_2pc_phase ABORT;
    if ob_fail ret then mret ret else post_downstream_msg OB_MSG_TX_ABORT_REQ ;; mret ret
  else
    ret ← drive_self_2pc_phase PREPARE;
    if ob_fail ret then mret ret else post_downstream_msg OB_MSG_TX_PREPARE_REQ ;; mret ret.

Definition is_prepared_sub2pc (s : committer) : bool :=
  is_sub2pc s && state_eqb REDO_COMPLETE s.(state_) && all_downstream_collected_ s.

(** ** Callbacks of the timestamp service, for a distributed transaction *)

Definition clear_gts_waiting : C () := modify (set_gts_waiting None).

Definition gts_callback_interrupted (ls_offline : bool) (target_ls_id : Z) : C Z :=
  s ← gets id;
  if ls_offline && negb (target_ls_id =? s.(ls_id_)) then mret OB_EAGAIN
  else clear_gts_waiting ;; mret (v_revert_ctx v).

(** A failure other than OB_EAGAIN ends the wait. *)
Definition end_wait_on_error (ret : Z) : C () :=
  if ob_fail ret && negb (ret =? OB_EAGAIN) then clear_gts_waiting else mret ().

Definition get_gts_callback_distributed (gts : SCN) : C Z :=
  clear_gts_waiting ;;
  modify (fun s => set_prepare_version
    (Scn.max (Scn.max gts (v_max_read_version v).2) s.(prepare_version_)) s) ;;
  s ← gets id;
  if is_2pc_blocking s then mret OB_SUCCESS
  else if state_leb s.(upstream_state_) PREPARE then drive_self_2pc_phase PREPARE
  else mret OB_SUCCESS.

Definition get_gts_callback (gts : SCN) : C Z :=
  s ← gets id;
  '(ret, need_revert_ctx) ←
    (if negb (v_srr_valid v) || negb (Scn.is_valid gts) then mret (OB_INVALID_ARGUMENT, false)
     else if s.(is_exiting_) then mret (OB_TRANS_IS_EXITING, true)
     else if v_is_follower v then clear_gts_waiting ;; mret (OB_SUCCESS, true)
     else if v_stc_expired v then mret (OB_EAGAIN, false)
     else ret ← get_gts_callback_distributed gts; mret (ret, true));
  end_wait_on_error ret ;;
  mret (if need_revert_ctx : bool then v_revert_ctx v else ret).

Definition gts_elapse_callback_distributed : C Z :=
  clear_gts_waiting ;;
  s ← gets id;
  if negb (is_root s) then mret OB_ERR_UNEXPECTED
  else if v_is_follower v then mret OB_SUCCESS
  else
    ret ← try_enter_pre_commit_state;
    if ob_fail ret then mret ret
    else
      s ← gets id;
      if is_sub2pc s then reply_to_scheduler_for_sub2pc SUBCOMMIT_RESP else mret ret.

Definition gts_elapse_callback (gts : SCN) : C Z :=
  s ← gets id;
  '(ret, need_revert_ctx) ←
    (if negb (v_srr_valid v) || negb (Scn.is_valid gts) then mret (OB_INVALID_ARGUMENT, false)
     else if s.(is_exiting_) then mret (OB_TRANS_IS_EXITING, true)
     else if scn_gt s.(commit_version_) gts then mret (OB_EAGAIN, false)
     else ret ← gts_elapse_callback_distributed; mret (ret, true));
  end_wait_on_error ret ;;
  mret (if need_revert_ctx : bool then v_revert_ctx v else ret).

(** ** Messages for a context that no longer exists

    The return code, the message to send and [need_ack]; the latter two are
    those of the caller where the code does not set them. *)

Definition handle_orphan_2pc_req (recv_msg_type : ObTwoPhaseCommitMsgType)
    (send : ObTwoPhaseCommitMsgType) (need_ack : bool) : Z * ObTwoPhaseCommitMsgType * bool :=
  match recv_msg_type with
  | OB_MSG_TX_PREPARE_REDO_REQ | OB_MSG_TX_PREPARE_REQ | OB_MSG_TX_PRE_COMMIT_REQ
  | OB_MSG_TX_COMMIT_REQ | OB_MSG_TX_ABORT_REQ => (OB_SUCCESS, OB_MSG_TX_ABORT_RESP, true)
  | OB_MSG_TX_CLEAR_REQ => (OB_SUCCESS, send, false)
  | _ => (OB_TRANS_INVALID_STATE, send, need_ack)
  end.

Definition handle_orphan_2pc_resp (recv_msg_type : ObTwoPhaseCommitMsgType)
    (send : ObTwoPhaseCommitMsgType) (need_ack : bool) : Z * ObTwoPhaseCommitMsgType * bool :=
  match recv_msg_type with
  | OB_MSG_TX_PREPARE_REDO_RESP | OB_MSG_TX_PREPARE_RESP | OB_MSG_TX_PRE_COMMIT_RESP =>
    (OB_SUCCESS, OB_MSG_TX_ABORT_REQ, true)
  | OB_MSG_TX_COMMIT_RESP | OB_MSG_TX_ABORT_RESP => (OB_SUCCESS, OB_MSG_TX_CLEAR_REQ, true)
  | OB_MSG_TX_CLEAR_RESP => (OB_SUCCESS, send, false)
  | _ => (OB_TRANS_INVALID_STATE, send, need_ack)
  end.

Definition is_2pc_request_msg (msg_type : ObTwoPhaseCommitMsgType) : bool :=
  match msg_type with
  | OB_MSG_TX_PREPARE_REQ | OB_MSG_TX_PRE_COMMIT_REQ | OB_MSG_TX_COMMIT_REQ
  | OB_MSG_TX_ABORT_REQ | OB_MSG_TX_CLEAR_REQ | OB_MSG_TX_PREPARE_REDO_REQ => true
  | _ => false
  end.

Definition is_2pc_response_msg (msg_type : ObTwoPhaseCommitMsgType) : bool :=
  match msg_type with
  | OB_MSG_TX_PREPARE_RESP | OB_MSG_TX_PRE_COMMIT_RESP | OB_MSG_TX_COMMIT_RESP
  | OB_MSG_TX_ABORT_RESP | OB_MSG_TX_CLEAR_RESP | OB_MSG_TX_PREPARE_REDO_RESP => true
  | _ => false
  end.

(** The answer to [recv] from the log stream it was sent to; [max_decided] is
    the position the clear request carries. *)
Definition post_orphan_msg_ (max_decided : Z * SCN) (msg_type : ObTwoPhaseCommitMsgType)
    (recv : ObTxMsg) : Z * option ObTxMsg :=
  let inv := invalid_scn in
  let post m :=
    let ret := v_rpc_post v msg_type (sender_ recv) in
    (ret, if ob_fail ret then None else Some m) in
  let msg t scn := TxMsg t (receiver_ recv) (sender_ recv) INVALID_LS_ID inv inv inv scn in
  match msg_type with
  | OB_MSG_TX_ABORT_REQ => post (msg TX_2PC_ABORT_REQ inv)
  | OB_MSG_TX_ABORT_RESP => post (msg TX_2PC_ABORT_RESP inv)
  | OB_MSG_TX_CLEAR_REQ =>
    if ob_fail max_decided.1 then (max_decided.1, None)
    else post (msg TX_2PC_CLEAR_REQ max_decided.2)
  | OB_MSG_TX_CLEAR_RESP => post (msg TX_2PC_CLEAR_RESP inv)
  | _ => (OB_INVALID_ARGUMENT, None)
  end.

Definition handle_tx_orphan_2pc_msg (max_decided : Z * SCN) (recv : ObTxMsg) : Z * option ObTxMsg :=
  let recv_msg_type := switch_msg_type_ (type_ recv) in
  let '(ret, send_msg_type, need_ack) :=
    if is_2pc_request_msg recv_msg_type then handle_orphan_2pc_req recv_msg_type OB_MSG_TX_UNKNOWN true
    else if is_2pc_response_msg recv_msg_type
    then handle_orphan_2pc_resp recv_msg_type OB_MSG_TX_UNKNOWN true
    else (OB_ERR_UNEXPECTED, OB_MSG_TX_UNKNOWN, true) in
  if ob_fail ret then (ret, None)
  else if need_ack then post_orphan_msg_ max_decided send_msg_type recv
  else (ret, None).

(** ** Entry points of the messages: [handle_tx_2pc_*]

    [msg_2pc_cache_] points to the message while it is handled.  The points of
    error injection are off. *)

Definition with_cache (msg : ObTxMsg) (m : C Z) : C Z :=
  modify (set_msg_2pc_cache (Some msg)) ;;
  ret ← m;
  modify (set_msg_2pc_cache None) ;;
  mret ret.

Definition request_commit (ret : Z) : C Z :=
  (if ob_succ ret then modify (set_part_trans_action ACTION_COMMIT) else mret ()) ;; mret ret.

Definition handle_req (msg : ObTxMsg) : C Z := handle_2pc_req (switch_msg_type_ (type_ msg)).

(** The index of the sender, then the handler of the response; [tolerate] is
    the case of a coordinator that has no list of participants. *)
Definition handle_resp (tolerate : bool) (msg : ObTxMsg) : C Z :=
  s ← gets id;
  let '(ret, participant_id) := find_participant_id_ (sender_ msg) s in
  if ob_fail ret then
    mret (if tolerate && bool_decide (s.(participants_) = []) then OB_SUCCESS else ret)
  else handle_2pc_resp (switch_msg_type_ (type_ msg)) participant_id.

Definition handle_tx_2pc_prepare_req (msg : ObTxMsg) : C Z :=
  ret ← with_cache msg
    (if ob_fail (v_set_app_trace_info v) then mret (v_set_app_trace_info v) else handle_req msg);
  request_commit ret.

Definition handle_tx_2pc_prepare_resp (msg : ObTxMsg) : C Z := with_cache msg (handle_resp true msg).

Definition handle_tx_2pc_prepare_redo_req (msg : ObTxMsg) : C Z :=
  s ← gets id;
  if negb (is_2pc_logging s) then
    modify (set_is_sub2pc true) ;;
    with_cache msg
      (ret ←
         (if s.(force_abort_) then
            ret ← compensate_abort_log_;
            mret (if ob_fail ret then ret else OB_TRANS_KILLED)
          else handle_req msg);
       request_commit ret)
  else mret OB_SUCCESS.

(** The only entry that does not set [msg_2pc_cache_]. *)
Definition handle_tx_2pc_prepare_redo_resp (msg : ObTxMsg) : C Z := handle_resp true msg.

Definition handle_tx_2pc_prepare_version_req (msg : ObTxMsg) : C Z :=
  with_cache msg (ret ← handle_req msg; request_commit ret).

Definition handle_tx_2pc_prepare_version_resp (msg : ObTxMsg) : C Z :=
  with_cache msg
    (update_2pc_prepare_version_ (msg_prepare_version_ msg) ;;
     if ob_fail (v_assign_log_info v) then mret (v_assign_log_info v) else handle_resp false msg).

Definition handle_tx_2pc_pre_commit_req (msg : ObTxMsg) : C Z := with_cache msg (handle_req msg).
Definition handle_tx_2pc_pre_commit_resp (msg : ObTxMsg) : C Z := with_cache msg (handle_resp false msg).
Definition handle_tx_2pc_commit_req (msg : ObTxMsg) : C Z := with_cache msg (handle_req msg).
Definition handle_tx_2pc_commit_resp (msg : ObTxMsg) : C Z := with_cache msg (handle_resp false msg).
Definition handle_tx_2pc_abort_req (msg : ObTxMsg) : C Z := with_cache msg (handle_req msg).
Definition handle_tx_2pc_abort_resp (msg : ObTxMsg) : C Z := with_cache msg (handle_resp true msg).
Definition handle_tx_2pc_clear_req (msg : ObTxMsg) : C Z :=
  s ← gets id;
  with_cache msg (if s.(is_exiting_) then mret OB_TRANS_CTX_NOT_EXIST else handle_req msg).
Definition handle_tx_2pc_clear_resp (msg : ObTxMsg) : C Z := with_cache msg (handle_resp false msg).

Definition handle_tx_msg (msg : ObTxMsg) : C Z :=
  match type_ msg with
  | TX_2PC_PREPARE_REDO_REQ => handle_tx_2pc_prepare_redo_req msg
  | TX_2PC_PREPARE_REDO_RESP => handle_tx_2pc_prepare_redo_resp msg
  | TX_2PC_PREPARE_VERSION_REQ => handle_tx_2pc_prepare_version_req msg
  | TX_2PC_PREPARE_VERSION_RESP => handle_tx_2pc_prepare_version_resp msg
  | TX_2PC_PREPARE_REQ => handle_tx_2pc_prepare_req msg
  | TX_2PC_PREPARE_RESP => handle_tx_2pc_prepare_resp msg
  | TX_2PC_PRE_COMMIT_REQ => handle_tx_2pc_pre_commit_req msg
  | TX_2PC_PRE_COMMIT_RESP => handle_tx_2pc_pre_commit_resp msg
  | TX_2PC_COMMIT_REQ => handle_tx_2pc_commit_req msg
  | TX_2PC_COMMIT_RESP => handle_tx_2pc_commit_resp msg
  | TX_2PC_ABORT_REQ => handle_tx_2pc_abort_req msg
  | TX_2PC_ABORT_RESP => handle_tx_2pc_abort_resp msg
  | TX_2PC_CLEAR_REQ => handle_tx_2pc_clear_req msg
  | TX_2PC_CLEAR_RESP => handle_tx_2pc_clear_resp msg
  end.

(** The answer of the service for a context that is not used any more. *)
Definition answer_orphan (max_decided : Z * SCN) (msg : ObTxMsg) : C () :=
  match (handle_tx_orphan_2pc_msg max_decided msg).2 with
  | Some reply => modify (fun s => set_outbox (s.(outbox_) ++ [reply]) s)
  | None => mret ()
  end.

(** The body of [CASE__] in [handle_tx_batch_req], for a valid message and a
    context that was found: [leader] is the role of the log stream,
    [exec_complete] the outcome of [is_exec_complete]. *)
Definition handle_tx_batch_req (leader exec_complete : bool) (max_decided : Z * SCN) (msg : ObTxMsg) : C Z :=
  s ← gets id;
  if negb leader then mret OB_NOT_MASTER
  else if s.(is_exiting_) then answer_orphan max_decided msg ;; mret OB_TRANS_CTX_NOT_EXIST
  else if is_2pc_blocking s then mret OB_NEED_RETRY
  else if (bool_decide (type_ msg = TX_2PC_PREPARE_REDO_REQ)
           || bool_decide (type_ msg = TX_2PC_PREPARE_REQ)) && negb exec_complete then
    answer_orphan max_decided msg ;; mret OB_TRANS_CTX_NOT_EXIST
  else handle_tx_msg msg.
End committer.
