(* ===== verification/TwoPhaseNode.v ===== *)
(** * One context of a distributed transaction

    The invariant of a participant of [TwoPhaseCommitter] in a transaction with
    one coordinator and its leaves, and the proof that every operation of the
    committer keeps it, whatever the components it calls return.

    The invariant speaks about what is durable at the participants ([facts]):
    which of them have a prepare, commit or abort log.  During one call these
    facts do not change, so that a method is verified against them by
    [wp]; [TwoPhaseSystem] lets them grow. *)

From Stdlib Require Import ZArith Lia Bool.
From stdpp Require Import base list option numbers sets gmap.
From S2P Require Import Prelude BitSet Serialization Scn TwoPhaseCommitter.

Local Open Scope Z_scope.

(** ** Durable facts *)

(** [prepared i], [committed i], [aborted i]: participant [i] has the log;
    [abort_ok]: some participant has not prepared and never will; [latched]: the
    coordinator had decided to abort before its own prepare log when the call
    began. *)
Record facts := Facts {
  prepared : Z -> Prop;
  committed : Z -> Prop;
  aborted : Z -> Prop;
  abort_ok : Prop;
  latched : Prop
}.

(** The pairs of durable and in-memory state of a context. *)
Definition states_ok (d u : ObTxState) : bool :=
  match d, u with
  | INIT, (INIT | PREPARE | ABORT) => true
  | PREPARE, (PREPARE | PRE_COMMIT | COMMIT | ABORT) => true
  | PRE_COMMIT, (PRE_COMMIT | COMMIT) => true
  | COMMIT, (COMMIT | CLEAR) => true
  | ABORT, (ABORT | CLEAR) => true
  | CLEAR, CLEAR => true
  | _, _ => false
  end.

(** The log that is being written agrees with the state it leads to. *)
Definition pending_ok (p : option ObTwoPhaseCommitLogType) (d u : ObTxState) : bool :=
  match p with
  | None => true
  | Some OB_LOG_TX_PREPARE => state_eqb u PREPARE && state_eqb d INIT
  | Some OB_LOG_TX_COMMIT => state_eqb u COMMIT && (state_eqb d PREPARE || state_eqb d PRE_COMMIT)
  | Some OB_LOG_TX_ABORT => state_eqb u ABORT && (state_eqb d INIT || state_eqb d PREPARE)
  | Some OB_LOG_TX_CLEAR => state_eqb u CLEAR && (state_eqb d COMMIT || state_eqb d ABORT)
  | Some _ => false
  end.

(** ** Proof steps *)

(** One step of a method: an action, a test or the decomposition of a result. *)
Ltac wstep :=
  lazymatch goal with
  | |- wp (mbind _ _) _ _ => apply wp_bind
  | |- wp (mret _) _ _ => apply wp_ret
  | |- wp (gets _) _ _ => apply wp_gets; unfold id
  | |- wp (modify _) _ _ => apply wp_modify
  | |- wp (if ?b then _ else _) _ _ => destruct b eqn:?
  | |- wp (match ?p with pair _ _ => _ end) _ _ => destruct p eqn:?
  end.
Ltac wsteps := repeat wstep.

(** The call succeeded. *)
Ltac wsucc := change (ob_fail OB_SUCCESS) with false; cbv iota beta.

(** The test of a return code in a conclusion. *)
Ltac case_ret := lazymatch goal with |- if ?b then _ else _ => destruct b eqn:? end.

(** A call, by its specification. *)
Ltac wcall H := eapply wp_mono; [apply H | cbv beta].

(** The invariant after an assignment that it does not depend on. *)
Ltac inv_frame H := destruct H; constructor; cbn; eauto; try done.

(** ** The invariant *)

Section node.
(** The participants of the transaction, the coordinator among them. *)
Context (root : Z) (parts : list Z).

Definition leaf (i : Z) : Prop := i ∈ parts /\ i <> root.

Record topology := {
  t_root : root ∈ parts;
  t_nodup : NoDup parts;
  t_valid : INVALID_LS_ID ∉ parts;
  t_size : Z.of_nat (length parts) < OB_C2PC_SENDER_ID
}.

Definition all_prepared (F : facts) : Prop := forall i, i ∈ parts -> prepared F i.
Definition leaves_committed (F : facts) : Prop := forall i, leaf i -> committed F i.

(** What the facts say together: a commit log is only written when everybody has
    prepared, and then nobody has a reason to abort; [j] only writes an abort log
    for a reason. *)
Record facts_ok (F : facts) (j : Z) := {
  f_excl : abort_ok F -> all_prepared F -> False;
  f_latch : latched F -> ~ prepared F root;
  f_commit : forall i, i ∈ parts -> committed F i -> all_prepared F;
  f_abort : aborted F j -> abort_ok F
}.

(** What a message promises; [ao] is the reason to abort. *)
Definition promise (F : facts) (ao : Prop) (m : ObTxMsg) : Prop :=
  match type_ m with
  | TX_2PC_PREPARE_REQ => msg_upstream_ m = root
  | TX_2PC_PREPARE_RESP => prepared F (sender_ m)
  | TX_2PC_PRE_COMMIT_REQ | TX_2PC_COMMIT_REQ => all_prepared F
  | TX_2PC_PRE_COMMIT_RESP => True
  | TX_2PC_COMMIT_RESP => committed F (sender_ m)
  | TX_2PC_ABORT_REQ =>
    (msg_upstream_ m = root \/ msg_upstream_ m = INVALID_LS_ID) /\ (ao \/ leaves_committed F)
  | TX_2PC_ABORT_RESP => ao \/ (committed F (sender_ m) /\ committed F root)
  | TX_2PC_CLEAR_REQ => ao \/ committed F root
  | TX_2PC_CLEAR_RESP => True
  | _ => False
  end.

(** Requests go from the coordinator to a leaf, responses from a leaf to the
    coordinator. *)
Definition direction (m : ObTxMsg) : Prop :=
  if is_2pc_request_msg (switch_msg_type_ (type_ m)) then sender_ m = root /\ leaf (receiver_ m)
  else leaf (sender_ m) /\ receiver_ m = root.

Definition msg_ok (F : facts) (ao : Prop) (m : ObTxMsg) : Prop := direction m /\ promise F ao m.

(** The reason to abort that a context with states [d] and [u] knows. *)
Definition reason (F : facts) (j : Z) (s : committer) : Prop :=
  abort_ok F \/ (j = root /\ s.(upstream_state_) = ABORT /\ s.(state_) = INIT).

Definition durable (F : facts) (j : Z) (d : ObTxState) : Prop :=
  match d with
  | INIT => ~ prepared F j /\ ~ committed F j /\ ~ aborted F j
  | PREPARE | PRE_COMMIT => prepared F j /\ ~ committed F j /\ ~ aborted F j
  | COMMIT => committed F j
  | ABORT => aborted F j /\ ~ committed F j
  | _ => False
  end.

(** What the collected responses say, by the phase they are collected for. *)
Definition collected_ok (F : facts) (u : ObTxState) (i : Z) : Prop :=
  match u with
  | PREPARE => prepared F i
  | COMMIT => committed F i
  | _ => True
  end.

Record node_inv (F : facts) (j : Z) (s : committer) : Prop := {
  ni_ls : s.(ls_id_) = j;
  ni_part : j ∈ parts;
  ni_inter : s.(intermediate_participants_) = [];
  ni_sub : s.(is_sub2pc_) = false;
  ni_exit : s.(is_exiting_) = false;
  ni_root : j = root -> s.(upstream_) = root /\ s.(participants_) = parts;
  ni_leaf : j <> root -> s.(participants_) = [] /\ (s.(upstream_) = INVALID_LS_ID \/ s.(upstream_) = root);
  ni_self : s.(self_id_) = -1 \/ (0 <= s.(self_id_) /\ s.(participants_) !! Z.to_nat s.(self_id_) = Some j);
  ni_wf : bitset_wf s.(collected_);
  ni_coll : forall i, has_member s.(collected_) i = true ->
    exists p, parts !! Z.to_nat i = Some p /\ p <> root /\ collected_ok F s.(upstream_state_) p;
  ni_states : states_ok s.(state_) s.(upstream_state_) = true;
  ni_dur : durable F j s.(state_);
  ni_ap : s.(upstream_state_) = PRE_COMMIT \/ s.(upstream_state_) = COMMIT -> all_prepared F;
  ni_abort : s.(upstream_state_) = ABORT -> s.(state_) = PREPARE -> abort_ok F;
  ni_clear : s.(upstream_state_) = CLEAR -> s.(state_) = COMMIT ->
    if decide (j = root) then leaves_committed F else committed F root;
  ni_pend : pending_ok s.(state_log_submitting_) s.(state_) s.(upstream_state_) = true;
  ni_wait : s.(gts_waiting_) = Some WAIT_GTS_ELAPSING ->
    j = root /\ s.(upstream_state_) = PREPARE /\ s.(state_) = PREPARE /\ all_prepared F;
  ni_out : Forall (msg_ok F (reason F j s)) s.(outbox_);
  ni_resp : forall st, TX_COMMIT_RESP st ∈ s.(scheduler_resp_) ->
    if decide (st = OB_SUCCESS) then all_prepared F else reason F j s;
  ni_latch : latched F -> reason F j s;
  ni_cache : forall m, s.(msg_2pc_cache_) = Some m ->
    msg_ok F (abort_ok F \/ latched F) m /\ receiver_ m = j
}.

(** The fields that decide what happens next. *)
Definition ctl (s : committer) :=
  (s.(state_), s.(upstream_state_), s.(state_log_submitting_), s.(gts_waiting_),
   s.(collected_), s.(msg_2pc_cache_)).

(** [m] sends messages or updates versions; it does not move the state machine. *)
Definition quiet {A} (F : facts) (j : Z) (m : M committer A) (s : committer) : Prop :=
  wp m (fun _ s' => node_inv F j s' /\ ctl s' = ctl s) s.

Lemma quiet_skip {A} F j (x : A) s : node_inv F j s -> quiet F j (mret x) s.
Proof. done. Qed.
End node.

Arguments ni_ls {root parts F j s} _.
Arguments ni_part {root parts F j s} _.
Arguments ni_inter {root parts F j s} _.
Arguments ni_sub {root parts F j s} _.
Arguments ni_exit {root parts F j s} _.
Arguments ni_root {root parts F j s} _.
Arguments ni_leaf {root parts F j s} _.
Arguments ni_self {root parts F j s} _.
Arguments ni_wf {root parts F j s} _.
Arguments ni_coll {root parts F j s} _.
Arguments ni_states {root parts F j s} _.
Arguments ni_dur {root parts F j s} _.
Arguments ni_ap {root parts F j s} _.
Arguments ni_abort {root parts F j s} _.
Arguments ni_clear {root parts F j s} _.
Arguments ni_pend {root parts F j s} _.
Arguments ni_wait {root parts F j s} _.
Arguments ni_out {root parts F j s} _.
Arguments ni_resp {root parts F j s} _.
Arguments ni_latch {root parts F j s} _.
Arguments ni_cache {root parts F j s} _.
Arguments t_root {root parts} _.
Arguments t_nodup {root parts} _.
Arguments t_valid {root parts} _.
Arguments t_size {root parts} _.
Arguments f_excl {root parts F j} _.
Arguments f_latch {root parts F j} _.
Arguments f_commit {root parts F j} _.
Arguments f_abort {root parts F j} _.

(** The place of a participant in a list. *)
Lemma find_participant_spec p i l :
  match find_participant p i l with
  | (ret, k) =>
    (ret = OB_SUCCESS /\ i <= k /\ l !! Z.to_nat (k - i) = Some p) \/
    (ret = OB_ENTRY_NOT_EXIST /\ k = -1 /\ p ∉ l)
  end.
Proof.
  revert i. induction l as [| q l IH]; intros i; cbn [find_participant].
  { right. split_and!; [done | done |]. apply not_elem_of_nil. }
  destruct (Z.eqb_spec p q) as [<- | Hne].
  { left. split_and!; [done | lia |]. by rewrite Z.sub_diag. }
  specialize (IH (i + 1)). destruct (find_participant p (i + 1) l) as [ret k].
  destruct IH as [(-> & Hk & Hl) | (-> & -> & Hn)]; [left | right].
  2:{ split_and!; [done | done |]. by intros [? | ?]%elem_of_cons. }
  split_and!; [done | lia |]. replace (Z.to_nat (k - i)) with (S (Z.to_nat (k - (i + 1)))) by lia. done.
Qed.

(** The index of a participant in the list of the coordinator. *)
Lemma find_participant_id_spec s p ret k : find_participant_id_ p s = (ret, k) ->
  ret = OB_SUCCESS -> 0 <= k /\ s.(participants_) !! Z.to_nat k = Some p.
Proof.
  intros E Hr. unfold find_participant_id_ in E.
  pose proof (find_participant_spec p 0 s.(participants_)) as Hf. rewrite E in Hf.
  destruct Hf as [(_ & Hk & Hl) | (Hr' & _)]; [| by rewrite Hr' in Hr]. by rewrite Z.sub_0_r in Hl.
Qed.

Section ops.
Context (v : virtuals) (root : Z) (parts : list Z) (T : topology root parts).
Context (F : facts) (j : Z) (FO : facts_ok root parts F j).

Local Abbreviation NI := (node_inv root parts F j).
Local Abbreviation Quiet := (quiet root parts F j).
Local Abbreviation AP := (all_prepared parts F).
Local Abbreviation Leaf := (leaf root parts).

(** *** Topology *)

Lemma root_valid : ls_is_valid root = true.
Proof.
  unfold ls_is_valid. apply negb_true_iff, Z.eqb_neq. intros E.
  apply (t_valid T). rewrite <- E. apply (t_root T).
Qed.

Lemma role_root s : NI s -> j = root -> get_2pc_role s = ROOT.
Proof.
  intros H E. destruct (ni_root H E) as [Hu _]. unfold get_2pc_role.
  by rewrite Hu, root_valid, (ni_ls H), E, Z.eqb_refl.
Qed.

Lemma role_leaf s : NI s -> j <> root ->
  (get_2pc_role s = LEAF /\ s.(upstream_) = root) \/ get_2pc_role s = UNKNOWN_ROLE.
Proof.
  intros H E. destruct (ni_leaf H E) as [Hp [Hu | Hu]]; unfold get_2pc_role; rewrite Hu.
  - by right.
  - left. rewrite root_valid, (ni_ls H), Hp.
    by destruct (Z.eqb_spec root j); [congruence |].
Qed.

Lemma role_cases s : NI s ->
  (j = root /\ get_2pc_role s = ROOT) \/
  (j <> root /\ get_2pc_role s = LEAF /\ s.(upstream_) = root) \/
  (j <> root /\ get_2pc_role s = UNKNOWN_ROLE).
Proof.
  intros H. destruct (decide (j = root)) as [E | E].
  - left. split; [done | by apply role_root].
  - right. destruct (role_leaf s H E) as [[? ?] | ?]; [left | right]; done.
Qed.

Lemma size_root s : NI s -> j = root -> get_downstream_size s = Z.of_nat (length parts).
Proof. intros H E. unfold get_downstream_size. by destruct (ni_root H E) as [_ ->]. Qed.

Lemma size_leaf s : NI s -> j <> root -> get_downstream_size s = 0.
Proof. intros H E. unfold get_downstream_size. by destruct (ni_leaf H E) as [-> _]. Qed.

Lemma parts_index_inj (a b : nat) p : parts !! a = Some p -> parts !! b = Some p -> a = b.
Proof. apply NoDup_lookup, (t_nodup T). Qed.

(** *** Sending *)

Definition sendable (s : committer) (t : ObTwoPhaseCommitMsgType) : Prop :=
  match t with
  | OB_MSG_TX_PREPARE_REQ => j = root
  | OB_MSG_TX_PRE_COMMIT_REQ | OB_MSG_TX_COMMIT_REQ => j = root /\ AP
  | OB_MSG_TX_ABORT_REQ => j = root /\ (reason root F j s \/ leaves_committed root parts F)
  | OB_MSG_TX_CLEAR_REQ => j = root /\ (reason root F j s \/ committed F root)
  | OB_MSG_TX_PREPARE_RESP => j <> root /\ prepared F j
  | OB_MSG_TX_PRE_COMMIT_RESP | OB_MSG_TX_CLEAR_RESP => j <> root
  | OB_MSG_TX_COMMIT_RESP => j <> root /\ committed F j
  | OB_MSG_TX_ABORT_RESP => j <> root /\ (reason root F j s \/ (committed F j /\ committed F root))
  | OB_MSG_TX_PREPARE_REDO_REQ | OB_MSG_TX_PREPARE_REDO_RESP => False
  | OB_MSG_TX_UNKNOWN | OB_MSG_TX_MAX => True
  end.

Lemma ctl_inv s s' : ctl s' = ctl s ->
  s'.(state_) = s.(state_) /\ s'.(upstream_state_) = s.(upstream_state_) /\
  s'.(state_log_submitting_) = s.(state_log_submitting_) /\ s'.(gts_waiting_) = s.(gts_waiting_) /\
  s'.(collected_) = s.(collected_) /\ s'.(msg_2pc_cache_) = s.(msg_2pc_cache_).
Proof. unfold ctl. intros [=]. done. Qed.

Lemma sendable_ctl s s' t : ctl s' = ctl s -> sendable s t -> sendable s' t.
Proof.
  intros (Hd & Hu & _)%ctl_inv. unfold sendable, reason. by rewrite Hd, Hu.
Qed.

Lemma get_self_id_spec s : NI s ->
  wp get_self_id (fun id s' => NI s' /\ ctl s' = ctl s /\
    (j = root -> 0 <= id /\ parts !! Z.to_nat id = Some root) /\ (j <> root -> id = -1)) s.
Proof.
  intros H. unfold wp, get_self_id. destruct (Z.eqb_spec s.(self_id_) (-1)) as [Hs | Hs].
  - unfold find_participant_id_.
    pose proof (find_participant_spec s.(ls_id_) 0 s.(participants_)) as Hf.
    destruct (find_participant _ _ _) as [ret id]. cbn [fst snd].
    rewrite (ni_ls H), Z.sub_0_r in Hf.
    assert (NI (set_self_id id s)) as H'.
    { pose proof Hf as Hf'. inv_frame H. destruct Hf' as [(_ & ? & ?) | (_ & -> & _)]; auto. }
    split_and!; [done | done | |].
    + intros E. destruct (ni_root H E) as [_ Hp]. rewrite Hp in Hf.
      destruct Hf as [(_ & ? & Hf) | (_ & _ & Hf)]; [by rewrite <- E |].
      exfalso. apply Hf. rewrite E. apply (t_root T).
    + intros E. destruct (ni_leaf H E) as [Hp _]. rewrite Hp in Hf.
      by destruct Hf as [(_ & _ & Hf) | (_ & -> & _)].
  - cbn [fst snd]. destruct (ni_self H) as [? | [Hi Hl]]; [done |].
    split_and!; [done | done | |].
    + intros E. destruct (ni_root H E) as [_ Hp]. rewrite Hp in Hl. by rewrite <- E.
    + intros E. destruct (ni_leaf H E) as [Hp _]. by rewrite Hp in Hl.
Qed.

Lemma rpc_post_msg_quiet s t r m : NI s -> msg_ok root parts F (reason root F j s) m ->
  Quiet (rpc_post_msg v t r m) s.
Proof.
  intros H Hm. unfold quiet, rpc_post_msg. wsteps; split; try done.
  inv_frame H. apply Forall_app. by split; [| constructor].
Qed.

Lemma post_msg_quiet_ s t r : NI s -> sendable s t ->
  (is_2pc_request_msg t = true -> Leaf r) -> (is_2pc_response_msg t = true -> r = root) ->
  Quiet (post_msg_ v t r) s.
Proof.
  intros H Hs Hreq Hresp. pose proof (ni_ls H) as Hj. pose proof (ni_part H) as Hpart.
  pose proof (fun m => rpc_post_msg_quiet s t r m H) as Hpost.
  unfold quiet, wp, post_msg_, is_sub2pc. rewrite (ni_sub H).
  destruct t; cbn in Hs, Hreq, Hresp; try done; repeat case_match; try done;
    (apply Hpost; split; cbn; rewrite ?Hj);
    repeat match goal with
           | H : _ /\ _ |- _ => destruct H
           | H : true = true -> _ |- _ => specialize (H eq_refl)
           | H : false = true -> _ |- _ => clear H
           end; subst; unfold leaf; auto; tauto.
Qed.

(** Requests are those the coordinator can send. *)
Lemma sendable_request s t : is_2pc_request_msg t = true -> sendable s t -> j = root.
Proof. by destruct t; cbn; try done; intros _ ?; destruct_and?. Qed.

Lemma index_leaf i p : parts !! i = Some p -> p <> root -> Leaf p.
Proof. intros Hp Hn. split; [| done]. by eapply list_elem_of_lookup_2. Qed.

Lemma post_participant_quiet s t i p : NI s -> sendable s t -> is_2pc_request_msg t = true ->
  0 <= i -> parts !! Z.to_nat i = Some p -> p <> root -> Quiet (post_msg v t i) s.
Proof.
  intros H Hs Ht Hi Hp Hn. pose proof (sendable_request s t Ht Hs) as E.
  pose proof (lookup_lt_Some _ _ _ Hp) as Hlt. pose proof (t_size T) as Hsize.
  unfold quiet, wp, post_msg. rewrite (size_root s H E).
  unfold OB_C2PC_UPSTREAM_ID, OB_C2PC_SENDER_ID in *.
  destruct (Z.leb_spec (Z.of_nat (length parts)) i); [lia |].
  destruct (Z.eqb_spec (INT64_MAX - 1) i); [lia |].
  destruct (Z.eqb_spec (INT64_MAX - 2) i); [lia |]. cbn [andb negb].
  destruct (ni_root H E) as [_ ->]. rewrite Hp. cbn [default].
  apply post_msg_quiet_; [done | done | |].
  - intros _. by eapply index_leaf.
  - intros Hr. by destruct t.
Qed.

Lemma post_upstream_quiet s t : NI s -> sendable s t -> is_2pc_response_msg t = true ->
  s.(upstream_) = root -> Quiet (post_msg v t OB_C2PC_UPSTREAM_ID) s.
Proof.
  intros H Hs Ht Hu. unfold quiet, wp, post_msg.
  rewrite Z.eqb_refl, Hu. cbn [negb andb]. rewrite andb_false_r.
  apply post_msg_quiet_; [done | done | by destruct t | done].
Qed.

Lemma post_sender_quiet s t : NI s -> sendable s t -> is_2pc_response_msg t = true -> j <> root ->
  Quiet (post_msg v t OB_C2PC_SENDER_ID) s.
Proof.
  intros H Hs Ht E. unfold quiet, wp, post_msg.
  replace (OB_C2PC_SENDER_ID =? OB_C2PC_SENDER_ID) with true by done.
  replace (OB_C2PC_UPSTREAM_ID =? OB_C2PC_SENDER_ID) with false by done.
  cbn [negb andb]. rewrite !andb_false_r.
  destruct s.(msg_2pc_cache_) as [m |] eqn:Hm.
  - apply post_msg_quiet_; [done | done | by destruct t | intros _].
    destruct (ni_cache H m Hm) as [[Hd _] Hr]. unfold direction in Hd.
    destruct (is_2pc_request_msg _); [by destruct Hd |]. destruct Hd. congruence.
  - destruct (ls_is_valid s.(upstream_)) eqn:Hv; [| done].
    destruct (ni_leaf H E) as [_ [Hu | Hu]]; rewrite Hu in *; [done |].
    by apply post_msg_quiet_; [| | destruct t |].
Qed.

Lemma post_downstream_loop_quiet t ids s tmp :
  NI s -> (sendable s t) -> is_2pc_request_msg t = true ->
  Forall (fun i => 0 <= i < Z.of_nat (length parts)) ids ->
  Quiet (post_downstream_loop v t ids tmp) s.
Proof.
  revert s tmp. induction ids as [| i ids IH]; intros s tmp H Hs Ht Hids; [done |].
  pose proof (sendable_request s t Ht Hs) as E. inversion_clear Hids as [| ?? Hi Hids'].
  cbn [post_downstream_loop]. unfold quiet. wstep.
  wcall (get_self_id_spec s H). intros id s1 (H1 & C1 & Hid & _). destruct (Hid E) as [Hid0 Hidr].
  pose proof (sendable_ctl _ _ _ C1 Hs) as Hs1. rewrite <- C1.
  destruct (Z.eqb_spec i id) as [-> | Hne]; cbn [negb]; [by apply IH |].
  destruct (lookup_lt_is_Some_2 parts (Z.to_nat i)) as [p Hp]; [lia |].
  wstep. wcall (post_participant_quiet s1 t i p); try done; try lia.
  { intros ->. pose proof (parts_index_inj _ _ _ Hp Hidr). lia. }
  intros r s2 [H2 C2]. rewrite <- C2. apply IH; try done. by eapply sendable_ctl.
Qed.

Lemma post_downstream_quiet t s : NI s -> (j = root -> sendable s t) -> is_2pc_request_msg t = true ->
  Quiet (post_downstream_msg v t) s.
Proof.
  intros H Hs Ht. unfold quiet, post_downstream_msg. wsteps.
  destruct (decide (j = root)) as [E | E].
  - rewrite (size_root s H E). apply post_downstream_loop_quiet; auto.
    apply Forall_forall. intros i Hi%elem_of_seqZ. lia.
  - by rewrite (size_leaf s H E).
Qed.

(** *** Retransmission *)

Lemma aborted_reason s : NI s -> s.(state_) = ABORT -> abort_ok F.
Proof. intros H E. pose proof (ni_dur H) as Hd. rewrite E in Hd. by apply (f_abort FO), Hd. Qed.

(** A context that drives the abort phase knows a reason for it. *)
Lemma abort_phase_reason s : NI s -> s.(upstream_state_) = ABORT -> s.(state_) <> INIT \/ j = root ->
  reason root F j s.
Proof.
  intros H Hu Hd. pose proof (ni_states H) as Hst. rewrite Hu in Hst.
  destruct s.(state_) eqn:E; try done.
  - right. by destruct Hd as [Hd |].
  - left. by apply (ni_abort H).
  - left. by apply (aborted_reason s).
Qed.

Lemma clear_phase_reason s : NI s -> s.(upstream_state_) = CLEAR ->
  abort_ok F \/ committed F j.
Proof.
  intros H Hu. pose proof (ni_states H) as Hst. pose proof (ni_dur H) as Hd. rewrite Hu in Hst.
  destruct s.(state_) eqn:E; try done; cbn in Hd.
  - by right.
  - left. by apply (aborted_reason s).
Qed.

Lemma downstream_sendable s t ret : NI s -> j = root ->
  decide_downstream_msg_type_ s = (ret, true, t) -> ob_fail ret = false ->
  sendable s t /\ is_2pc_request_msg t = true.
Proof.
  intros H E. unfold decide_downstream_msg_type_, is_sub2pc. rewrite (ni_sub H).
  destruct s.(upstream_state_) eqn:Hu; intros [= <- <-] Hr; try by vm_compute in Hr.
  all: cbn; (split; [| done]).
  - split; [done | apply (ni_ap H); auto].
  - split; [done | apply (ni_ap H); auto].
  - split; [done |]. left. apply abort_phase_reason; auto.
  - split; [done |]. destruct (clear_phase_reason s H Hu) as [? | Hc]; [by left; left |].
    right. by rewrite <- E.
Qed.

Lemma retransmit_downstream_loop_quiet t this ids s :
  NI s -> sendable s t -> is_2pc_request_msg t = true ->
  0 <= this -> parts !! Z.to_nat this = Some root ->
  Forall (fun i => 0 <= i < Z.of_nat (length parts)) ids ->
  Quiet (retransmit_downstream_loop v t this ids) s.
Proof.
  revert s. induction ids as [| i ids IH]; intros s H Hs Ht H0 Hthis Hids; [done |].
  inversion_clear Hids as [| ?? Hi Hids']. cbn [retransmit_downstream_loop]. unfold quiet. wsteps.
  - apply andb_true_iff in Heqb as [_ Hne%negb_true_iff%Z.eqb_neq].
    destruct (lookup_lt_is_Some_2 parts (Z.to_nat i)) as [p Hp]; [lia |].
    wcall (post_participant_quiet s t i p); try done; try lia.
    { intros ->. pose proof (parts_index_inj _ _ _ Hp Hthis). lia. }
    intros r s2 [H2 C2]. wsteps. rewrite <- C2. apply IH; try done. by eapply sendable_ctl.
  - by apply IH.
Qed.

Lemma retransmit_downstream_quiet s : NI s -> Quiet (retransmit_downstream_msg_ v) s.
Proof.
  intros H. unfold quiet, retransmit_downstream_msg_. wsteps; try done.
  assert (j = root) as E.
  { destruct (role_cases s H) as [[? _] | [(_ & Hr & _) | [_ Hr]]]; [done | |];
      unfold is_root, is_internal in Heqb; by rewrite Hr in Heqb. }
  wcall (get_self_id_spec s H). intros id s1 (H1 & C1 & Hid & _). destruct (Hid E) as [H0 Hr].
  rewrite <- C1. wsteps; try done.
  destruct (downstream_sendable s1 _ _ H1 E Heqp) as [Hs Ht]; [done |].
  wcall (retransmit_downstream_loop_quiet o id); try done.
  rewrite (size_root s1 H1 E). apply Forall_forall. intros i Hi%elem_of_seqZ. lia.
Qed.

Lemma retransmit_downstream_to_quiet s i p : NI s -> j = root ->
  0 <= i -> parts !! Z.to_nat i = Some p -> p <> root -> Quiet (retransmit_downstream_msg_to v i) s.
Proof.
  intros H E Hi Hp Hn. unfold quiet, retransmit_downstream_msg_to. wsteps; try done.
  destruct (downstream_sendable s _ _ H E Heqp0) as [Hs Ht]; [done |].
  by wcall (post_participant_quiet s o i p).
Qed.

(** The answer for a phase the context has reached. *)
Lemma retransmit_upstream_quiet s st : NI s -> j <> root ->
  (forall t, (upstream_msg_type st s).2 = Some t -> state_leb st s.(state_) = true -> sendable s t) ->
  Quiet (retransmit_upstream_msg_ v st) s.
Proof.
  intros H E Hs. unfold quiet, retransmit_upstream_msg_. wsteps; try done.
  destruct o as [t |] eqn:Et; wsteps; [| done]. subst. rename Heqp0 into Et.
  wcall (post_sender_quiet s t); try done.
  - apply Hs; [done |]. unfold need_respond in Heqp.
    by destruct (role_leaf s H E) as [[Hr _] | Hr]; rewrite Hr in Heqp; simplify_eq.
  - unfold upstream_msg_type, is_sub2pc in Et. rewrite (ni_sub H) in Et. by destruct st; simplify_eq.
Qed.

(** The answer for a phase that the durable state has reached can be sent. *)
Lemma upstream_sendable s st t : NI s -> j <> root ->
  match st with PREPARE | PRE_COMMIT | COMMIT => s.(state_) <> ABORT /\ s.(state_) <> CLEAR
              | ABORT => s.(state_) = ABORT | _ => True end ->
  (upstream_msg_type st s).2 = Some t -> state_leb st s.(state_) = true -> sendable s t.
Proof.
  intros H E Hst Ht Hle. pose proof (ni_dur H) as Hd. pose proof (ni_part H) as Hp.
  unfold upstream_msg_type, is_sub2pc in Ht. rewrite (ni_sub H) in Ht.
  destruct st; simplify_eq/=; try done.
  3: by split; [done |]; left; left; apply (aborted_reason s).
  all: (split; [done |]); destruct Hst, s.(state_); try done; try by vm_compute in Hle.
  all: cbn in Hd; try by destruct Hd. by apply (f_commit FO j Hp Hd).
Qed.

(** *** Applying a message *)

Lemma set_upstream_inv s u : NI s -> (j <> root -> u = root) ->
  NI (if ls_is_valid s.(upstream_) then s else set_upstream u s).
Proof.
  intros H Hu. destruct (ls_is_valid s.(upstream_)) eqn:Hv; [done |].
  inv_frame H.
  - intros E. destruct (ni_root0 E) as [Hr _]. rewrite Hr, root_valid in Hv. done.
  - intros E. split; [by apply ni_leaf0 | right; auto].
Qed.

Lemma set_2pc_upstream_quiet s u : NI s -> (j <> root -> u = root) -> Quiet (set_2pc_upstream_ u) s.
Proof.
  intros H Hu. unfold quiet, set_2pc_upstream_. wsteps. split; [by apply set_upstream_inv |].
  by destruct (ls_is_valid _).
Qed.

Lemma set_commit_version_quiet s x : NI s -> Quiet (set_2pc_commit_version_ v x) s.
Proof.
  intros H. unfold quiet, wp, set_2pc_commit_version_. repeat case_match; try done.
  cbn [fst snd]. split; [inv_frame H | done].
Qed.

Lemma update_prepare_version_quiet s x : NI s -> Quiet (update_2pc_prepare_version_ x) s.
Proof. intros H. unfold quiet, update_2pc_prepare_version_. wsteps. split; [inv_frame H | done]. Qed.

Lemma set_max_commit_scn_quiet s f : NI s ->
  Quiet (modify (fun s => set_max_2pc_commit_scn (f s) s)) s.
Proof. intros H. unfold quiet. wsteps. split; [inv_frame H | done]. Qed.

Lemma quiet_bind {A B} (m : M committer A) (f : A -> M committer B) s :
  Quiet m s -> (forall x s', NI s' -> ctl s' = ctl s -> Quiet (f x) s') -> Quiet (m ≫= f) s.
Proof.
  intros Hm Hf. unfold quiet. wstep. wcall Hm. intros x s' [H C]. rewrite <- C. by apply Hf.
Qed.

Lemma cached_sender s m : NI s -> s.(msg_2pc_cache_) = Some m ->
  is_2pc_request_msg (switch_msg_type_ (type_ m)) = true -> sender_ m = root.
Proof.
  intros H Hm Ht. destruct (ni_cache H m Hm) as [[Hd _] _]. unfold direction in Hd.
  rewrite Ht in Hd. by destruct Hd.
Qed.

(** A request is only received by a leaf, a response only by the coordinator. *)
Lemma cached_role s m : NI s -> s.(msg_2pc_cache_) = Some m ->
  if is_2pc_request_msg (switch_msg_type_ (type_ m)) then j <> root else j = root.
Proof.
  intros H Hm. destruct (ni_cache H m Hm) as [[Hd _] Hr]. unfold direction in Hd.
  destruct (is_2pc_request_msg _); destruct Hd as [Hd1 Hd2]; [| congruence].
  rewrite Hr in Hd2. by destruct Hd2.
Qed.

Lemma apply_2pc_msg_body_quiet s m : NI s -> s.(msg_2pc_cache_) = Some m ->
  Quiet (apply_2pc_msg_body v m) s.
Proof.
  intros H Hm. pose proof (cached_sender s m H Hm) as Hs.
  destruct (ni_cache H m Hm) as [[_ Hp] _]. unfold promise in Hp.
  unfold quiet, wp, apply_2pc_msg_body, is_sub2pc. rewrite (ni_sub H).
  destruct (type_ m) eqn:Ht; cbn [switch_msg_type_] in *; try done; cbn [negb andb];
    repeat case_bool_decide; try done.
  - apply (quiet_bind (set_2pc_upstream_ _)); [by apply set_2pc_upstream_quiet |].
    intros. by apply quiet_skip.
  - apply quiet_bind; [by apply update_prepare_version_quiet |]. intros. by apply quiet_skip.
  - apply quiet_bind; [apply set_2pc_upstream_quiet; auto |]. intros. by apply set_commit_version_quiet.
  - apply quiet_bind; [by apply update_prepare_version_quiet |]. intros. by apply set_commit_version_quiet.
  - apply quiet_bind; [apply set_2pc_upstream_quiet; auto |]. intros _ s1 H1 _.
    apply quiet_bind; [by apply set_commit_version_quiet |]. intros r s2 H2 _. by destruct (ob_fail r).
  - apply quiet_bind; [by apply set_max_commit_scn_quiet |]. intros. by apply set_commit_version_quiet.
  - destruct Hp as [Hp _]. apply (quiet_bind (if ls_is_valid _ then _ else _)).
    + destruct (ls_is_valid (msg_upstream_ m)) eqn:Hv; [| by apply quiet_skip].
      apply set_2pc_upstream_quiet; [done |]. intros _. destruct Hp as [| Hp]; [done |].
      by rewrite Hp in Hv.
    + intros. by apply quiet_skip.
  - case_match; [done |].
    apply quiet_bind; [apply set_2pc_upstream_quiet; auto |]. intros _ s1 H1 _.
    apply quiet_bind; [by apply set_max_commit_scn_quiet |]. intros. by apply quiet_skip.
Qed.

Lemma apply_2pc_msg_quiet s t : NI s -> Quiet (apply_2pc_msg_ v t) s.
Proof.
  intros H. unfold quiet, wp, apply_2pc_msg_. destruct s.(msg_2pc_cache_) as [m |] eqn:Hm; [| done].
  case_match; [done |]. by apply apply_2pc_msg_body_quiet.
Qed.

(** *** Submitting logs *)

(** The states of the machine, without what is in flight. *)
Definition core (s : committer) := (s.(state_), s.(upstream_state_), s.(collected_), s.(msg_2pc_cache_)).

Lemma core_inv s s' : core s' = core s ->
  s'.(state_) = s.(state_) /\ s'.(upstream_state_) = s.(upstream_state_) /\
  s'.(collected_) = s.(collected_) /\ s'.(msg_2pc_cache_) = s.(msg_2pc_cache_).
Proof. unfold core. intros [=]. done. Qed.

Lemma ctl_core s s' : ctl s' = ctl s -> core s' = core s.
Proof. unfold ctl, core. intros [=]. congruence. Qed.

Lemma is_2pc_logging_false s :
  is_2pc_logging s = false -> s.(state_log_submitting_) = None /\ s.(gts_waiting_) = None.
Proof.
  unfold is_2pc_logging. intros [H1 H2]%orb_false_iff.
  apply bool_decide_eq_false in H1, H2. split; by apply dec_stable.
Qed.

(** Generating a version can register a wait for a timestamp, nothing else. *)
Definition versioned (s s' : committer) : Prop :=
  NI s' /\ core s' = core s /\ s'.(state_log_submitting_) = s.(state_log_submitting_) /\
  (s'.(gts_waiting_) = s.(gts_waiting_) \/ s'.(gts_waiting_) = Some GET_GTS).

Lemma versioned_refl s : NI s -> versioned s s.
Proof. unfold versioned. auto. Qed.

Lemma generate_prepare_version_spec s : NI s ->
  wp (generate_prepare_version_ v) (fun _ s' => versioned s s') s.
Proof.
  intros H. pose proof (versioned_refl s H) as V. unfold generate_prepare_version_. do 2 wstep.
  wstep; [done |]. wstep. eapply (wp_mono _ (fun _ s' => versioned s s')).
  - unfold get_gts_. wsteps; try done; (split; [inv_frame H | cbn; auto]).
  - intros [[ret ok] gts] s1 [H1 V1].
    wsteps; (split; [| done]); try done; inv_frame H1.
Qed.

(** A log that agrees with the state can be submitted. *)
Lemma after_submit_log_spec s t : NI s -> pending_ok (Some t) s.(state_) s.(upstream_state_) = true ->
  wp (after_submit_log_ v t) (fun _ s' => NI s' /\ core s' = core s) s.
Proof.
  intros H Ht. unfold after_submit_log_. destruct t; wsteps; split; try done; inv_frame H.
Qed.

Lemma submit_log_out_spec s t : NI s -> pending_ok (Some t) s.(state_) s.(upstream_state_) = true ->
  wp (submit_log_out v t) (fun _ s' => NI s' /\ core s' = core s) s.
Proof.
  intros H Ht. unfold submit_log_out. wsteps; try done. by wcall (after_submit_log_spec s t H Ht).
Qed.

Lemma set_upstream_state_same s : set_upstream_state s.(upstream_state_) s = s.
Proof. by destruct s. Qed.

Lemma states_prepare d : states_ok d PREPARE = true -> state_ltb d PREPARE = true -> d = INIT.
Proof. by destruct d. Qed.

Lemma submit_log_spec s t : NI s ->
  t = OB_LOG_TX_PREPARE \/ pending_ok (Some t) s.(state_) s.(upstream_state_) = true ->
  wp (submit_log v t) (fun _ s' => NI s' /\ core s' = core s) s.
Proof.
  intros H Ht. unfold submit_log. do 2 wstep. wstep; [done |]. unfold submit_log_impl_.
  wstep; [done |]. destruct t; try done; try (apply submit_log_out_spec; [done | by destruct Ht]).
  - wstep. wcall (generate_prepare_version_spec s H).
    intros ret s1 (H1 & C1 & _). do 3 wstep; [| by wsteps]. rewrite <- C1.
    apply submit_log_out_spec; [done |].
    repeat match goal with E : _ && _ = true |- _ => apply andb_true_iff in E as [? ?] end.
    match goal with E : state_eqb _ _ = true |- _ => apply bool_decide_eq_true in E; rename E into Hu end.
    pose proof (ni_states H1) as Hst. rewrite Hu in Hst. cbn. rewrite Hu.
    by rewrite (states_prepare _ Hst).
  - destruct Ht as [Ht | Ht]; [done |]. pose proof Ht as [Hu _]%andb_true_iff.
    apply bool_decide_eq_true in Hu. unfold set_upstream_state_. do 2 wstep.
    rewrite <- Hu, set_upstream_state_same. by apply submit_log_out_spec.
Qed.

(** What the difference of the states asks for agrees with them. *)
Lemma decide_log_ok s ret t : NI s -> decide_2pc_log_type_ s = (ret, true, t) ->
  t = OB_LOG_TX_PREPARE \/ pending_ok (Some t) s.(state_) s.(upstream_state_) = true.
Proof.
  intros H. pose proof (ni_states H) as Hst. unfold decide_2pc_log_type_.
  destruct (is_2pc_logging s); [done |].
  destruct s.(state_), s.(upstream_state_); try done; cbn; intros [= <- <-]; auto.
Qed.

Lemma submit_2pc_log_spec s : NI s -> wp (submit_2pc_log_ v) (fun _ s' => NI s' /\ core s' = core s) s.
Proof.
  intros H. unfold submit_2pc_log_. wsteps; try done.
  wcall (submit_log_spec s o H); [| done]. by eapply decide_log_ok.
Qed.

(** *** Entering a phase *)

Definition phase_ok (s : committer) (next : ObTxState) : Prop :=
  match next with
  | PREPARE => s.(state_) = INIT /\ (j = root -> s.(upstream_state_) <> ABORT)
  | PRE_COMMIT => AP /\ s.(state_) = PREPARE /\
      (j = root -> s.(upstream_state_) = PREPARE \/ s.(upstream_state_) = PRE_COMMIT)
  | COMMIT => AP /\ (s.(state_) = PREPARE \/ s.(state_) = PRE_COMMIT)
  | ABORT => s.(state_) = INIT \/ (s.(state_) = PREPARE /\ abort_ok F)
  | CLEAR => s.(state_) = ABORT \/
      (s.(state_) = COMMIT /\ if decide (j = root) then leaves_committed root parts F else committed F root)
  | _ => False
  end.

Definition entered (u : ObTxState) (c : bitset) (s : committer) : committer :=
  set_upstream_state u (set_collected c s).

(** A context that is about to abort without having prepared keeps its reason,
    unless it is a leaf, which has told nobody. *)
Lemma reason_entered s u c : phase_ok s u -> reason root F j s -> reason root F j (entered u c s).
Proof.
  intros Hp [Hr | (Hj & Hu & Hd)]; [by left |]. right. cbn. split; [done |]. split; [| done].
  destruct u; cbn in Hp; try done; rewrite Hd in Hp; try tauto; intuition congruence.
Qed.

Lemma msg_ok_mono (P Q : Prop) m : (P -> Q) -> msg_ok root parts F P m -> msg_ok root parts F Q m.
Proof.
  intros HPQ [Hd Hp]. split; [done |]. unfold promise in *. destruct (type_ m); try done; tauto.
Qed.

Lemma enter_inv s u c : NI s -> s.(state_log_submitting_) = None ->
  s.(gts_waiting_) <> Some WAIT_GTS_ELAPSING ->
  phase_ok s u -> bitset_wf c ->
  (forall i, has_member c i = true -> exists p, parts !! Z.to_nat i = Some p /\ p <> root /\ collected_ok F u p) ->
  NI (entered u c s).
Proof.
  intros H Hpend Hwait Hp Hwf Hc. pose proof (reason_entered s u c Hp) as Hr.
  destruct H. constructor; cbn; auto.
  - destruct u; cbn in Hp; try done; destruct s.(state_); try done; intuition congruence.
  - intros [-> | ->]; by destruct Hp.
  - intros -> E. cbn in Hp. rewrite E in Hp. by destruct Hp as [? | [_ ?]].
  - intros -> E. cbn in Hp. rewrite E in Hp. by destruct Hp as [? | [_ ?]].
  - by rewrite Hpend.
  - by intros ?.
  - eapply Forall_impl; [exact ni_out0 |]. intros m. by apply msg_ok_mono.
  - intros st Hst. specialize (ni_resp0 st Hst). case_decide; auto.
Qed.

Lemma entered_reset s u : NI s -> s.(state_log_submitting_) = None ->
  s.(gts_waiting_) <> Some WAIT_GTS_ELAPSING ->
  phase_ok s u -> NI (entered u [] s).
Proof.
  intros. apply enter_inv; try done; [by constructor |].
  intros i. unfold has_member. by repeat case_match.
Qed.

Lemma respond_inv s r : NI s ->
  (forall st, r = TX_COMMIT_RESP st -> if decide (st = OB_SUCCESS) then AP else reason root F j s) ->
  NI (set_scheduler_resp (s.(scheduler_resp_) ++ [r]) s).
Proof.
  intros H Hr. inv_frame H. intros st [Hst | Hst%list_elem_of_singleton]%elem_of_app; [by apply ni_resp0 |].
  by apply Hr.
Qed.

Lemma respond_not_sub s phase st : NI s ->
  check_and_response_scheduler_ phase st s =
  (OB_SUCCESS, set_scheduler_resp (s.(scheduler_resp_) ++ [TX_COMMIT_RESP st]) s).
Proof.
  intros H. unfold check_and_response_scheduler_, is_sub2pc, mbind, M_bind, gets, id.
  by rewrite (ni_sub H).
Qed.

(** The frame of a phase action: the durable state and the message stay. *)
Definition keeps (s s' : committer) : Prop :=
  s'.(state_) = s.(state_) /\ s'.(msg_2pc_cache_) = s.(msg_2pc_cache_).

(** After the action of a phase: the invariant, and on success the invariant of
    the phase that is entered. *)
Definition acted (u : ObTxState) (s : committer) (ret : Z) (s' : committer) : Prop :=
  keeps s s' /\ if ob_fail ret then NI s' else NI (entered u [] s').

Lemma compensate_abort_log_spec s : NI s -> s.(state_log_submitting_) = None -> s.(gts_waiting_) = None ->
  s.(state_) = INIT -> wp (compensate_abort_log_ v) (fun _ s' => NI s' /\ keeps s s') s.
Proof.
  intros H Hp Hw Hd. unfold compensate_abort_log_. do 2 wstep. rewrite Hp, andb_false_r. do 2 wstep.
  unfold submit_log_impl_. wstep; [wsteps; split; [inv_frame H | done] |].
  unfold set_upstream_state_. do 2 wstep.
  assert (NI (set_upstream_state ABORT (set_force_abort true s))) as H1.
  { assert (NI (entered ABORT s.(collected_) s)) as H1; [| inv_frame H1].
    apply enter_inv; try done; [by rewrite Hw | by left | apply (ni_wf H) |].
    intros i Hi. destruct (ni_coll H i Hi) as (p & ? & ? & _). by exists p. }
  wcall (submit_log_out_spec _ OB_LOG_TX_ABORT H1); [cbn; by rewrite Hd |].
  intros _ s' [H2 (Hd2 & _ & _ & Hm2)%core_inv]. done.
Qed.

Lemma do_prepare_spec s : NI s -> s.(state_log_submitting_) = None -> s.(gts_waiting_) = None ->
  phase_ok s PREPARE -> wp (do_prepare v) (fun '(ret, _) s' => acted PREPARE s ret s') s.
Proof.
  intros H Hp Hw [Hd Hu]. unfold do_prepare. do 2 wstep. destruct s.(force_abort_) eqn:Hf.
  - wstep. eapply (wp_mono _ (fun ret s' => ob_fail ret = true /\ NI s' /\ keeps s s')).
    + wstep; [by wsteps |]. wstep. wcall (compensate_abort_log_spec s H Hp Hw Hd).
      intros ret s' [H' K']. wsteps. by destruct (ob_fail ret) eqn:E; rewrite ?E.
    + intros ret s' (Hr & H' & K'). cbv zeta. rewrite !(ob_fail_succ _ Hr). cbn [andb].
      rewrite !(ob_fail_succ _ Hr). wsteps; simplify_eq; rewrite ?(ob_fail_succ _ Hr); try done. unfold acted. by rewrite Hr.
  - do 2 wstep. cbn [ob_succ]. wstep. wstep.
    eapply (wp_mono _ (fun _ s' => versioned s s')).
    { wstep; [by apply generate_prepare_version_spec | by wsteps; apply versioned_refl]. }
    intros ret s' (H' & (Hd' & Hu' & _ & Hm')%core_inv & Hp' & Hw'). wsteps. split; [done |].
    case_ret; [done |]. apply entered_reset; [done | congruence | | by cbn; rewrite Hd', Hu'].
    destruct Hw'; congruence.
Qed.

Lemma is_root_spec s : NI s -> is_root s = bool_decide (j = root).
Proof.
  intros H. unfold is_root. destruct (role_cases s H) as [[E ->] | [(E & -> & _) | [E ->]]].
  - by rewrite !bool_decide_true.
  - by rewrite !bool_decide_false.
  - by rewrite !bool_decide_false.
Qed.

Lemma commit_phase_excl s : NI s -> AP -> s.(state_) = PREPARE -> s.(upstream_state_) <> ABORT.
Proof. intros H Hap Hd Hu. by apply (f_excl FO), Hap; apply (ni_abort H). Qed.

Section action.
Context (s : committer) (H : NI s).
Context (Hp : s.(state_log_submitting_) = None) (Hw : s.(gts_waiting_) = None).

Lemma not_waiting : s.(gts_waiting_) <> Some WAIT_GTS_ELAPSING.
Proof. by rewrite Hw. Qed.

Lemma acted_now u ret : phase_ok s u -> acted u s ret s.
Proof. intros Hu. split; [done |]. case_ret; [done |]. apply entered_reset; auto using not_waiting. Qed.

Lemma do_pre_commit_spec : phase_ok s PRE_COMMIT -> s.(upstream_state_) <> PRE_COMMIT ->
  wp (do_pre_commit v) (fun '(ret, need_wait) s' => keeps s s' /\ NI s' /\
    (need_wait = true -> j = root) /\
    (need_wait = false -> NI (entered PRE_COMMIT [] s'))) s.
Proof.
  intros Hph Hne. pose proof Hph as (Hap & Hd & Hu). unfold do_pre_commit. do 2 wstep.
  rewrite (is_root_spec s H). case_bool_decide as E.
  - assert (NI (set_commit_version s.(prepare_version_) s)) as H1 by inv_frame H.
    assert (NI (set_gts_waiting (Some WAIT_GTS_ELAPSING) (set_commit_version s.(prepare_version_) s))) as H2.
    { destruct (Hu E); [| done]. inv_frame H1. }
    assert (NI (entered PRE_COMMIT [] (set_commit_version s.(prepare_version_) s))) as H3.
    { apply entered_reset; [done | done | apply not_waiting | done]. }
    assert (NI (entered PRE_COMMIT [] s)) as H4 by (apply entered_reset; auto using not_waiting).
    wsteps; split_and!; try done.
  - wsteps. split_and!; try done. intros _. apply entered_reset; auto using not_waiting.
Qed.

Lemma do_commit_spec : phase_ok s COMMIT -> wp (do_commit v) (acted COMMIT s) s.
Proof.
  intros Hph. unfold do_commit. do 2 wstep. rewrite (is_root_spec s H). case_bool_decide as E.
  - do 2 wstep; [wsteps; by apply acted_now |]. apply wp_bind. unfold wp at 1.
    rewrite (respond_not_sub s _ _ H). wsteps. split; [done |]. destruct Hph as [Hap Hd].
    case_ret; [apply respond_inv; [done |]; intros st [= <-]; done |].
    apply (respond_inv (entered COMMIT [] s)); [apply entered_reset; auto using not_waiting; by split |].
    by intros st [= <-].
  - wsteps. by apply acted_now.
Qed.

Lemma do_abort_spec : phase_ok s ABORT -> wp do_abort (acted ABORT s) s.
Proof.
  intros Hph. unfold do_abort, is_sub2pc. do 2 wstep. rewrite (is_root_spec s H), (ni_sub H).
  cbn [negb andb]. case_bool_decide as E; wsteps; [| by apply acted_now].
  unfold wp. rewrite (respond_not_sub s _ _ H). cbn [fst snd]. wsteps. split; [done |]. cbn [ob_fail].
  apply (respond_inv (entered ABORT [] s)); [apply entered_reset; auto using not_waiting |].
  intros st [= <-]. cbn. destruct Hph as [Hd | [Hd Ha]]; [right | left]; done.
Qed.

Lemma do_clear_spec : phase_ok s CLEAR -> wp do_clear (acted CLEAR s) s.
Proof.
  intros Hph. unfold do_clear. do 2 wstep. rewrite (is_root_spec s H).
  case_bool_decide as E; wsteps; [| by apply acted_now].
  unfold wp. rewrite (respond_not_sub s _ _ H). cbn [fst snd]. wsteps. split; [done |]. cbn [ob_fail].
  apply (respond_inv (entered CLEAR [] s)); [apply entered_reset; auto using not_waiting |].
  intros st [= <-]. pose proof (ni_dur H) as Hdur.
  destruct Hph as [Hd | [Hd _]]; rewrite Hd in *; cbn in Hdur |- *.
  - left. by apply (aborted_reason s).
  - by apply (f_commit FO j (ni_part H)).
Qed.

Lemma do_phase_spec u : phase_ok s u -> s.(upstream_state_) <> u ->
  wp (do_phase v u) (fun '(ret, _) s' => acted u s ret s') s.
Proof.
  intros Hph Hne. unfold do_phase. destruct u; try done.
  - by apply do_prepare_spec.
  - wstep. wcall (do_pre_commit_spec Hph Hne). intros [ret need_wait] s' (K & H' & Hnw & Hok).
    do 2 wstep. rewrite (is_root_spec s' H'). unfold acted.
    destruct (ob_fail ret) eqn:Hr; [wsteps; by rewrite Hr |].
    destruct need_wait; cbn [andb]; [rewrite bool_decide_true by auto; by wsteps |].
    wsteps. rewrite Hr. auto.
  - wstep. wcall (do_commit_spec Hph). intros ret s' H'. by wsteps.
  - wstep. wcall (do_abort_spec Hph). intros ret s' H'. by wsteps.
  - wstep. wcall (do_clear_spec Hph). intros ret s' H'. by wsteps.
Qed.
End action.

Lemma merge_nop s : s.(intermediate_participants_) = [] ->
  merge_intermediate_participants v s = (OB_SUCCESS, s).
Proof. intros H. unfold merge_intermediate_participants. by rewrite H. Qed.

(** Driving the context to a phase it may enter: the invariant is kept, the
    durable state is not touched, and success means that the phase is the
    current one. *)
Definition driven (u : ObTxState) (s : committer) (ret : Z) (s' : committer) : Prop :=
  NI s' /\ keeps s s' /\ (ob_fail ret = false -> s'.(upstream_state_) = u).

Lemma submit_driven u s s0 ret : NI s -> keeps s0 s -> s.(upstream_state_) = u ->
  wp (submit_2pc_log_ v ;; mret ret) (driven u s0) s.
Proof.
  intros H [K1 K2] Hu. wstep. wcall (submit_2pc_log_spec s H).
  intros _ s' [H' (Hd & Hu' & _ & Hm)%core_inv]. wsteps. unfold driven, keeps.
  by rewrite Hd, Hu', Hm.
Qed.

Lemma drive_spec u s : NI s -> s.(upstream_state_) = u \/ phase_ok s u ->
  wp (drive_self_2pc_phase v u) (driven u s) s.
Proof.
  intros H Hu. unfold drive_self_2pc_phase. do 3 wstep.
  destruct (is_2pc_logging s) eqn:Hl; [by wsteps |].
  destruct (is_2pc_blocking s) eqn:Hb; [by wsteps |].
  apply is_2pc_logging_false in Hl as [Hp Hw].
  destruct (state_eqb u s.(upstream_state_)) eqn:Hq.
  { apply bool_decide_eq_true in Hq. wstep. wsucc. do 2 wstep.
    destruct (_ && _); [by apply submit_driven |]. by wstep. }
  assert (s.(upstream_state_) <> u) as Hne by (intros <-; by apply bool_decide_eq_false in Hq).
  destruct Hu as [| Hph]; [done |].
  wstep. wcall (do_phase_spec s H Hp Hw u Hph Hne). intros [ret no_log] s1 [K1 H1].
  destruct (ob_fail ret) eqn:Hr.
  { wstep. rewrite Hr. wstep. split_and!; try done. by rewrite Hr. }
  wstep. unfold wp at 1. rewrite (merge_nop s1 (ni_inter H1)). cbn [fst snd].
  wsucc. unfold reset_collected, set_upstream_state_.
  do 5 wstep. wsucc. do 2 wstep.
  destruct (negb no_log && _); [by apply submit_driven |]. by wstep.
Qed.

(** *** Collecting responses *)

Lemma collect_spec s i p : NI s -> j = root -> 0 <= i -> parts !! Z.to_nat i = Some p -> p <> root ->
  collected_ok F s.(upstream_state_) p ->
  wp (collect_downstream_ v i) (fun _ s' => NI s' /\ s'.(state_) = s.(state_) /\
    s'.(upstream_state_) = s.(upstream_state_) /\ s'.(msg_2pc_cache_) = s.(msg_2pc_cache_)) s.
Proof.
  intros H E Hi Hp Hn Hc. unfold collect_downstream_. do 2 wstep. rewrite (role_root s H E). wstep.
  wcall (get_self_id_spec s H). intros id s1 (H1 & (Hd & Hu & _ & _ & _ & Hm)%ctl_inv & _).
  wstep; [by wsteps |]. unfold wp, add_collected.
  destruct (BitSet.add_member _ _ _) as [ret c] eqn:Ha. cbn [fst snd]. split_and!; try done.
  pose proof (add_member_wf _ _ _ _ _ Ha (ni_wf H1)) as Hwf.
  inv_frame H1. intros k Hk. destruct (decide (ret = OB_SUCCESS)) as [-> | Hr].
  - apply add_member_ok in Ha as [_ Ha]. rewrite Ha in Hk.
    destruct (Z.eqb_spec k i) as [Heq | Hne]; [rewrite Heq | by apply ni_coll0].
    exists p. by rewrite Hu.
  - apply ni_coll0. by rewrite <- (add_member_fail _ _ _ _ _ Ha Hr).
Qed.

(** When the count of collected responses is that of the other participants,
    every one of them has answered. *)
Lemma all_collected s p : NI s -> j = root -> all_downstream_collected_ s = true -> Leaf p ->
  collected_ok F s.(upstream_state_) p.
Proof.
  intros H E Hall [Hp Hn]. unfold all_downstream_collected_ in Hall.
  rewrite (role_root s H E), (size_root s H E) in Hall. apply Z.eqb_eq in Hall.
  rewrite (num_members_length _ (ni_wf H)) in Hall.
  destruct (proj1 (list_elem_of_lookup _ _) (t_root T)) as [r Hr].
  destruct (proj1 (list_elem_of_lookup _ _) Hp) as [k Hk].
  assert (forall i, i ∈ members s.(collected_) -> 0 <= i < Z.of_nat (length parts) /\ i <> Z.of_nat r) as Hin.
  { intros i Hi. rewrite elem_of_members, <- has_member_bit_at in Hi.
    destruct (ni_coll H i Hi) as (q & Hq & Hqn & _).
    rewrite has_member_bit_at in Hi. apply bit_at_lt in Hi.
    pose proof (lookup_lt_Some _ _ _ Hq). split; [lia |]. intros ->. rewrite Nat2Z.id in Hq. congruence. }
  pose proof (lookup_lt_Some _ _ _ Hr) as Hrl. pose proof (lookup_lt_Some _ _ _ Hk) as Hkl.
  assert (Z.of_nat r :: members s.(collected_) ≡ₚ seqZ 0 (Z.of_nat (length parts))) as Hperm.
  { apply submseteq_length_Permutation.
    - apply NoDup_submseteq.
      + apply NoDup_cons. split; [| apply NoDup_members]. intros Hi. by destruct (Hin _ Hi).
      + intros i [-> | Hi]%elem_of_cons; apply elem_of_seqZ; [lia |]. destruct (Hin _ Hi). lia.
    - rewrite length_seqZ. cbn. lia. }
  assert (Z.of_nat k ∈ Z.of_nat r :: members s.(collected_)) as Hmem.
  { rewrite Hperm. apply elem_of_seqZ. lia. }
  apply elem_of_cons in Hmem as [Heq | Hmem].
  { apply Nat2Z.inj in Heq. subst. congruence. }
  rewrite elem_of_members, <- has_member_bit_at in Hmem.
  destruct (ni_coll H _ Hmem) as (q & Hq & _ & Hc). rewrite Nat2Z.id, Hk in Hq. by simplify_eq.
Qed.

Lemma prepared_self s : NI s -> s.(state_) = PREPARE \/ s.(state_) = PRE_COMMIT -> prepared F j.
Proof. intros H E. pose proof (ni_dur H) as Hd. by destruct E as [E | E]; rewrite E in Hd; destruct Hd. Qed.

Lemma all_collected_prepared s : NI s -> j = root -> all_downstream_collected_ s = true ->
  s.(upstream_state_) = PREPARE -> s.(state_) = PREPARE -> AP.
Proof.
  intros H E Hall Hu Hd p Hp. destruct (decide (p = root)) as [-> | Hn].
  - rewrite <- E. apply (prepared_self s); auto.
  - pose proof (all_collected s p H E Hall (conj Hp Hn)) as Hc. by rewrite Hu in Hc.
Qed.

(** *** The pre-commit phase *)

Lemma state_inv s d : NI s -> s.(state_log_submitting_) = None ->
  s.(gts_waiting_) <> Some WAIT_GTS_ELAPSING -> s.(upstream_state_) <> ABORT -> s.(upstream_state_) <> CLEAR ->
  states_ok d s.(upstream_state_) = true -> durable F j d -> NI (set_state d s).
Proof.
  intros H Hp Hw Ha Hc Hst Hd.
  assert (reason root F j s -> reason root F j (set_state d s)) as Hr.
  { intros [? | (_ & ? & _)]; [by left | done]. }
  destruct H. constructor; cbn; auto; try done.
  - by rewrite Hp.
  - eapply Forall_impl; [exact ni_out0 |]. intros m. by apply msg_ok_mono.
  - intros st Hin. specialize (ni_resp0 st Hin). case_decide; auto.
Qed.

Lemma pre_commit_not_pending s : NI s -> s.(upstream_state_) = PRE_COMMIT ->
  s.(state_log_submitting_) = None /\ s.(gts_waiting_) <> Some WAIT_GTS_ELAPSING.
Proof.
  intros H Hu. split.
  - pose proof (ni_pend H) as Hp. rewrite Hu in Hp. by destruct s.(state_log_submitting_) as [[] |].
  - intros Hw. apply (ni_wait H) in Hw as (_ & Hw & _). congruence.
Qed.

Lemma on_pre_commit_spec s : NI s -> s.(state_) = PREPARE -> s.(upstream_state_) = PRE_COMMIT ->
  wp (on_pre_commit v) (fun _ s' => NI s' /\ s'.(msg_2pc_cache_) = s.(msg_2pc_cache_)) s.
Proof.
  intros H Hd Hu. unfold on_pre_commit, set_downstream_state. do 4 wstep.
  wsucc. do 2 wstep.
  destruct (pre_commit_not_pending s H Hu) as [Hp Hw].
  assert (NI (set_state PRE_COMMIT s)) as H1.
  { apply state_inv; try done; rewrite ?Hu; try done. pose proof (ni_dur H) as Hdur. by rewrite Hd in Hdur. }
  pose proof (ni_ap H1 (or_introl Hu)) as Hap.
  destruct (role_cases _ H1) as [[E ->] | [(E & -> & Hup) | [E ->]]].
  - wstep. wstep.
    + wcall (drive_spec COMMIT _ H1); [right; by split; [| right] |].
      intros r s' (H' & [_ K] & _). by wsteps.
    + wcall (post_downstream_quiet OB_MSG_TX_PRE_COMMIT_REQ _ H1); [by intros; split | done |].
      intros r s' (H' & C%ctl_inv). wsteps. split; [done |]. by destruct_and! C.
  - wstep. wcall (post_upstream_quiet _ OB_MSG_TX_PRE_COMMIT_RESP H1); try done.
    intros r s' (H' & C%ctl_inv). wsteps. split; [done |]. by destruct_and! C.
  - by wsteps.
Qed.

Lemma try_enter_spec s : NI s -> phase_ok s PRE_COMMIT ->
  wp (try_enter_pre_commit_state v) (fun _ s' => NI s' /\ s'.(msg_2pc_cache_) = s.(msg_2pc_cache_)) s.
Proof.
  intros H Hph. unfold try_enter_pre_commit_state. do 3 wstep; [by wsteps |]. wstep.
  wcall (drive_spec PRE_COMMIT s H (or_intror Hph)). intros ret s1 (H1 & [Hd Hm] & Hu).
  wstep; [by wsteps |]. rewrite <- Hm. apply on_pre_commit_spec; [done | | auto].
  rewrite Hd. apply Hph.
Qed.

(** *** Responses, at the coordinator *)

(** A handler keeps the invariant and the message it handles. *)
Definition safe {A} (s : committer) (_ : A) (s' : committer) : Prop :=
  NI s' /\ s'.(msg_2pc_cache_) = s.(msg_2pc_cache_).

Lemma safe_refl {A} (x : A) s : NI s -> safe s x s.
Proof. done. Qed.

Lemma safe_quiet {A} (m : M committer A) s : Quiet m s -> wp m (safe s) s.
Proof. intros Hq. wcall Hq. intros x s' [H C%ctl_inv]. split; [done |]. by destruct_and! C. Qed.

Lemma safe_trans {A B} s s1 s2 (x : A) (y : B) : safe s x s1 -> safe s1 y s2 -> safe s y s2.
Proof. intros [_ E1] [H E2]. split; [done | congruence]. Qed.

(** A reason to abort is no reason for a context that knows everybody has
    prepared. *)
Lemma no_reason : AP -> abort_ok F \/ latched F -> False.
Proof.
  intros Hap [Ha | Hl]; [by apply (f_excl FO) | by apply (f_latch FO), Hap, (t_root T)].
Qed.

Lemma known_reason s : NI s -> s.(upstream_state_) <> ABORT \/ s.(state_) <> INIT \/ j <> root ->
  abort_ok F \/ latched F -> abort_ok F.
Proof. intros H Hs [? | Hl]; [done |]. destruct (ni_latch H Hl) as [? | (? & ? & ?)]; [done | tauto]. Qed.

Section response.
Context (s : committer) (m : ObTxMsg) (i : Z).
Context (H : NI s) (E : j = root) (Hm : s.(msg_2pc_cache_) = Some m).
Context (Hi : 0 <= i) (Hp : parts !! Z.to_nat i = Some (sender_ m)) (Hn : sender_ m <> root).

Lemma prepare_response_impl_spec : s.(upstream_state_) = PREPARE -> prepared F (sender_ m) ->
  wp (handle_2pc_prepare_response_impl_ v i) (safe s) s.
Proof.
  intros Hu Hprep. unfold handle_2pc_prepare_response_impl_, get_downstream_state. do 3 wstep.
  wcall (apply_2pc_msg_quiet s OB_MSG_TX_PREPARE_RESP H).
  intros ret s1 (H1 & (Hd1 & Hu1 & _ & _ & _ & Hm1)%ctl_inv). wstep; [by wsteps |]. wstep.
  wcall (collect_spec s1 i (sender_ m) H1 E Hi Hp Hn); [by rewrite Hu1, Hu |].
  intros ret2 s2 (H2 & Hd2 & Hu2 & Hm2). do 2 wstep. rewrite Hm1 in Hm2.
  wstep; [by wsteps |]. wstep; [by wsteps |]. wstep; [| by wsteps].
  apply andb_true_iff in Heqb2 as [Hd Hall]. apply bool_decide_eq_true in Hd.
  rewrite (role_root s2 H2 E). wcall (try_enter_spec s2 H2).
  - split_and!; [| congruence | left; congruence].
    apply (all_collected_prepared s2); auto; congruence.
  - intros r s3 [H3 Hm3]. split; [done | congruence].
Qed.

Lemma prepare_response_spec : prepared F (sender_ m) -> wp (handle_2pc_prepare_response v i) (safe s) s.
Proof.
  intros Hprep. unfold handle_2pc_prepare_response, get_upstream_state. do 2 wstep.
  pose proof (ni_states H) as Hst. destruct s.(upstream_state_) eqn:Hu; try done.
  - by destruct s.(state_).
  - by apply prepare_response_impl_spec.
  - wstep. wcall (safe_quiet _ _ (retransmit_downstream_to_quiet s i _ H E Hi Hp Hn)). by intros; wsteps.
  - wstep. wcall (safe_quiet _ _ (retransmit_downstream_to_quiet s i _ H E Hi Hp Hn)). by intros; wsteps.
  - wstep. wcall (safe_quiet _ _ (retransmit_downstream_to_quiet s i _ H E Hi Hp Hn)). by intros; wsteps.
Qed.

(** Sending the clear request once the coordinator is in CLEAR. *)
Lemma post_clear_safe s0 ret : NI s0 -> s0.(upstream_state_) = CLEAR ->
  wp (post_downstream_msg v OB_MSG_TX_CLEAR_REQ ;; mret ret) (safe (A := Z) s0) s0.
Proof.
  intros H0 Hu. wstep. wcall (safe_quiet _ _ (post_downstream_quiet OB_MSG_TX_CLEAR_REQ s0 H0 ltac:(
    intros _; cbn; split; [done |]; destruct (clear_phase_reason s0 H0 Hu) as [? | Hc];
    [by left; left | right; by rewrite <- E]) eq_refl)).
  intros; by wsteps.
Qed.

Lemma ack_response_spec : collected_ok F s.(upstream_state_) (sender_ m) ->
  s.(upstream_state_) = COMMIT \/ s.(upstream_state_) = ABORT ->
  wp (handle_2pc_ack_response_impl_ v i) (safe s) s.
Proof.
  intros Hc Hu. unfold handle_2pc_ack_response_impl_, get_downstream_state. do 5 wstep.
  eapply (wp_mono _ (fun _ s' => NI s' /\ ctl s' = ctl s)).
  { wstep; [by apply apply_2pc_msg_quiet | by wsteps]. }
  intros r1 s1 [H1 C1]. wstep; [wsteps; split; [done |]; by apply ctl_inv in C1; destruct_and! C1 |].
  do 3 wstep. eapply (wp_mono _ (fun _ s' => NI s' /\ ctl s' = ctl s)).
  { rewrite <- C1. wstep; [by apply apply_2pc_msg_quiet | by wsteps]. }
  intros r2 s2 [H2 (Hd2 & Hu2 & _ & _ & _ & Hm2)%ctl_inv]. wstep; [by wsteps |]. wstep.
  wcall (collect_spec s2 i (sender_ m) H2 E Hi Hp Hn); [by rewrite Hu2 |].
  intros ret s3 (H3 & Hd3 & Hu3 & Hm3). rewrite Hm2 in Hm3. rewrite Hd2 in Hd3. rewrite Hu2 in Hu3.
  do 2 wstep. wstep; [by wsteps |]. wstep; [by wsteps |]. wstep; [| by wsteps].
  rewrite (role_root s3 H3 E). wstep. apply andb_true_iff in Heqb3 as [Hd Hall].
  wcall (drive_spec CLEAR s3 H3).
  { right. cbn. rewrite Hd3. apply orb_true_iff in Hd as [Hd | Hd]; apply bool_decide_eq_true in Hd;
      [right | by left]. split; [done |]. rewrite decide_True by done. intros q Hq.
    pose proof (all_collected s3 q H3 E Hall Hq) as Hcq. rewrite Hu3 in Hcq.
    destruct Hu as [Hu | Hu]; [by rewrite Hu in Hcq |].
    pose proof (ni_states H) as Hst. by rewrite Hu, <- Hd in Hst. }
  intros r s4 (H4 & [_ Hm4] & Hu4). wstep; [wsteps; split; [done | congruence] |].
  wcall (post_clear_safe s4 r H4 (Hu4 eq_refl)). intros r5 s5 [H5 Hm5]. split; [done | congruence].
Qed.

Lemma commit_response_spec : committed F (sender_ m) -> wp (handle_2pc_commit_response v i) (safe s) s.
Proof.
  intros Hcom. unfold handle_2pc_commit_response, get_upstream_state. do 2 wstep.
  destruct s.(upstream_state_) eqn:Hu; try done.
  - apply ack_response_spec; rewrite Hu; auto.
  - apply safe_quiet. by eapply retransmit_downstream_to_quiet.
Qed.

Lemma abort_response_impl_spec :
  s.(upstream_state_) <> ABORT ->
  (abort_ok F \/ latched F) \/ committed F root ->
  wp (handle_2pc_abort_response_impl_ v i) (safe s) s.
Proof.
  intros Hna Hr. unfold handle_2pc_abort_response_impl_, get_downstream_state. do 4 wstep.
  wstep; [by wsteps |]. wstep; [by wsteps |]. wstep; [| by wsteps].
  rewrite (role_root s H E). wstep. wcall (apply_2pc_msg_quiet s OB_MSG_TX_ABORT_RESP H).
  intros r1 s1 (H1 & (Hd1 & Hu1 & _ & _ & _ & Hm1)%ctl_inv). wstep; [by wsteps |]. wstep.
  wcall (drive_spec ABORT s1 H1).
  { right. cbn. rewrite Hd1. pose proof (ni_dur H) as Hdur.
    destruct s.(state_) eqn:Hd; try done; [by left | right; split; [done |]].
    destruct Hr as [Hr | Hr]; [| rewrite <- E in Hr; cbn in Hdur; tauto].
    apply (known_reason s H); [by left | done]. }
  intros r2 s2 (H2 & [_ Hm2] & Hu2). wstep; [wsteps; split; [done | congruence] |]. specialize (Hu2 eq_refl).
  wstep. wcall (collect_spec s2 i (sender_ m) H2 E Hi Hp Hn); [by rewrite Hu2 |].
  intros r3 s3 (H3 & _ & Hu3 & Hm3). wstep; [wsteps; split; [done | congruence] |]. wstep.
  wcall (safe_quiet _ _ (post_downstream_quiet OB_MSG_TX_ABORT_REQ s3 H3 ltac:(intros _; cbn; split;
    [done |]; left; apply abort_phase_reason; [done | congruence | by right]) eq_refl)).
  intros r4 s4 [H4 Hm4]. wsteps. split; [done | congruence].
Qed.

Lemma abort_response_spec :
  (abort_ok F \/ latched F) \/ (committed F (sender_ m) /\ committed F root) ->
  wp (handle_2pc_abort_response v i) (safe s) s.
Proof.
  intros Hr. unfold handle_2pc_abort_response, get_upstream_state. do 2 wstep.
  destruct s.(upstream_state_) eqn:Hu; try done.
  - apply abort_response_impl_spec; [by rewrite Hu | tauto].
  - pose proof (ni_states H) as Hst. rewrite Hu in Hst. by destruct s.(state_).
  - apply abort_response_impl_spec; [by rewrite Hu | tauto].
  - apply ack_response_spec; rewrite Hu; [| by left]. cbn.
    destruct Hr as [Hr | [? _]]; [| done]. destruct no_reason; [| done]. apply (ni_ap H). auto.
  - apply ack_response_spec; rewrite Hu; [done | by right].
  - apply safe_quiet. by eapply retransmit_downstream_to_quiet.
Qed.

Lemma pre_commit_response_impl_spec : s.(upstream_state_) = PRE_COMMIT ->
  wp (handle_2pc_pre_commit_response_impl_ v i) (safe s) s.
Proof.
  intros Hu. unfold handle_2pc_pre_commit_response_impl_. wstep.
  wcall (apply_2pc_msg_quiet s OB_MSG_TX_PRE_COMMIT_RESP H).
  intros r1 s1 (H1 & (Hd1 & Hu1 & _ & _ & _ & Hm1)%ctl_inv). wstep; [by wsteps |]. wstep.
  wcall (collect_spec s1 i (sender_ m) H1 E Hi Hp Hn); [by rewrite Hu1, Hu |].
  intros r2 s2 (H2 & Hd2 & Hu2 & Hm2). do 2 wstep. wstep; [wsteps; split; [done | congruence] |].
  wstep; [| wsteps; split; [done | congruence]]. rewrite (role_root s2 H2 E). wstep.
  assert (AP) as Hap by (apply (ni_ap H); auto).
  wcall (drive_spec COMMIT s2 H2).
  { right. split; [done |]. rewrite Hd2, Hd1. pose proof (ni_states H) as Hst. rewrite Hu in Hst.
    destruct s.(state_); auto; done. }
  intros r3 s3 (H3 & [_ Hm3] & Hu3). wstep; [wsteps; split; [done | congruence] |]. wstep.
  wcall (safe_quiet _ _ (post_downstream_quiet OB_MSG_TX_COMMIT_REQ s3 H3 ltac:(by intros _) eq_refl)).
  intros r4 s4 [H4 Hm4]. wsteps. split; [done | congruence].
Qed.

Lemma pre_commit_response_spec : wp (handle_2pc_pre_commit_response v i) (safe s) s.
Proof.
  unfold handle_2pc_pre_commit_response, get_upstream_state. do 2 wstep.
  destruct s.(upstream_state_) eqn:Hu; try done.
  - by apply pre_commit_response_impl_spec.
  - apply safe_quiet. by eapply retransmit_downstream_to_quiet.
  - apply safe_quiet. by eapply retransmit_downstream_to_quiet.
Qed.

Lemma handle_2pc_resp_spec : wp (handle_2pc_resp v (switch_msg_type_ (type_ m)) i) (safe s) s.
Proof.
  destruct (ni_cache H m Hm) as [[_ Hpr] _]. unfold promise in Hpr. unfold handle_2pc_resp.
  destruct (type_ m); cbn [switch_msg_type_]; try done.
  - by apply prepare_response_spec.
  - by apply pre_commit_response_spec.
  - by apply commit_response_spec.
  - by apply abort_response_spec.
Qed.
End response.

(** *** Requests, at a leaf *)

Lemma pass_request_on_leaf s t keep : NI s -> j <> root -> wp (pass_request_on v t keep) (safe s) s.
Proof.
  intros H E. unfold pass_request_on. do 2 wstep.
  by destruct (role_leaf s H E) as [[-> _] | ->]; wsteps.
Qed.

(** The common end of the request handlers. *)
Lemma drive_and_pass s s0 u t keep : NI s -> j <> root -> s.(msg_2pc_cache_) = s0.(msg_2pc_cache_) ->
  phase_ok s u ->
  wp (ret ← drive_self_2pc_phase v u; if ob_fail ret then mret ret else pass_request_on v t keep)
     (safe s0) s.
Proof.
  intros H E Hm Hph. wstep. wcall (drive_spec u s H (or_intror Hph)).
  intros r s1 (H1 & [_ Hm1] & _). wstep; [wsteps; split; [done | congruence] |].
  wcall (pass_request_on_leaf s1 t keep H1 E). intros r2 s2 [H2 Hm2]. split; [done | congruence].
Qed.

Lemma retransmit_both s st : NI s -> j <> root ->
  match st with PREPARE | PRE_COMMIT | COMMIT => s.(state_) <> ABORT /\ s.(state_) <> CLEAR
              | ABORT => s.(state_) = ABORT | _ => True end ->
  wp (retransmit_downstream_msg_ v ;; retransmit_upstream_msg_ v st) (safe s) s.
Proof.
  intros H E Hst. wstep. wcall (retransmit_downstream_quiet s H). intros _ s1 [H1 C1].
  pose proof (ctl_inv _ _ C1) as (Hd & _ & _ & _ & _ & Hm). rewrite <- Hd in Hst.
  wcall (safe_quiet _ _ (retransmit_upstream_quiet s1 st H1 E (fun t => upstream_sendable s1 st t H1 E Hst))).
  intros r s2 [H2 Hm2]. split; [done | congruence].
Qed.

Lemma retransmit_both_ret s st (ret : Z) : NI s -> j <> root ->
  match st with PREPARE | PRE_COMMIT | COMMIT => s.(state_) <> ABORT /\ s.(state_) <> CLEAR
              | ABORT => s.(state_) = ABORT | _ => True end ->
  wp (retransmit_downstream_msg_ v ;; retransmit_upstream_msg_ v st ;; mret ret) (safe s) s.
Proof.
  intros H E Hst. pose proof (retransmit_both s st H E Hst) as Hw.
  unfold wp, mbind, M_bind in *. destruct (retransmit_downstream_msg_ v s) as [r1 s1].
  by destruct (retransmit_upstream_msg_ v st s1).
Qed.

Section request.
Context (s : committer) (m : ObTxMsg).
Context (H : NI s) (E : j <> root) (Hm : s.(msg_2pc_cache_) = Some m).

Lemma prepare_request_spec : wp (handle_2pc_prepare_request v) (safe s) s.
Proof.
  unfold handle_2pc_prepare_request, get_downstream_state. do 2 wstep.
  destruct s.(state_) eqn:Hd; try done.
  2: by pose proof (ni_dur H) as Hdur; rewrite Hd in Hdur.
  2, 3, 4: apply retransmit_both_ret; [done | done | by rewrite Hd].
  - unfold handle_2pc_prepare_request_impl_. do 2 wstep. wstep; [by wsteps |]. wstep.
    wcall (apply_2pc_msg_quiet s OB_MSG_TX_PREPARE_REQ H).
    intros r s1 (H1 & (Hd1 & _ & _ & _ & _ & Hm1)%ctl_inv). wstep; [by wsteps |].
    apply drive_and_pass; try done. split; [congruence | done].
  - wstep. wcall (apply_2pc_msg_quiet s OB_MSG_TX_PREPARE_REQ H).
    intros r s1 (H1 & (Hd1 & _ & _ & _ & _ & Hm1)%ctl_inv). wstep; [by wsteps |].
    wcall (retransmit_both_ret s1 ABORT r H1 E); [congruence |].
    intros r2 s2 [H2 Hm2]. split; [done | congruence].
Qed.

Lemma commit_request_spec : AP -> wp (handle_2pc_commit_request v) (safe s) s.
Proof.
  intros Hap. unfold handle_2pc_commit_request, get_downstream_state. do 2 wstep.
  assert (s.(state_) = PREPARE \/ s.(state_) = PRE_COMMIT ->
    wp (handle_2pc_commit_request_impl_ v) (safe s) s) as Himpl.
  { intros Hd. unfold handle_2pc_commit_request_impl_. do 2 wstep. wstep; [by wsteps |]. wstep.
    wcall (apply_2pc_msg_quiet s OB_MSG_TX_COMMIT_REQ H).
    intros r s1 (H1 & (Hd1 & _ & _ & _ & _ & Hm1)%ctl_inv). wstep; [by wsteps |].
    apply drive_and_pass; try done. split; [done | by rewrite Hd1]. }
  destruct s.(state_) eqn:Hd; try done; auto. apply retransmit_both; [done | done | by rewrite Hd].
Qed.

Lemma abort_request_spec : (abort_ok F \/ latched F) \/ leaves_committed root parts F ->
  wp (handle_2pc_abort_request v) (safe s) s.
Proof.
  intros Hr. unfold handle_2pc_abort_request, get_downstream_state. do 2 wstep.
  assert (phase_ok s ABORT -> wp (handle_2pc_abort_request_impl_ v) (safe s) s) as Himpl.
  { intros Hph. unfold handle_2pc_abort_request_impl_. do 2 wstep. wstep; [by wsteps |]. wstep.
    wcall (apply_2pc_msg_quiet s OB_MSG_TX_ABORT_REQ H).
    intros r s1 (H1 & (Hd1 & _ & _ & _ & _ & Hm1)%ctl_inv). wstep; [by wsteps |].
    apply drive_and_pass; try done. unfold phase_ok in *. by rewrite Hd1. }
  pose proof (ni_dur H) as Hdur. destruct s.(state_) eqn:Hd; try done; auto; cbn in Hdur.
  - apply Himpl. by left.
  - apply Himpl. right. split; [done |]. destruct Hr as [Hr | Hr].
    + apply (known_reason s H); [by right; right | done].
    + destruct Hdur as (_ & Hnc & _). destruct Hnc. apply Hr. split; [apply (ni_part H) | done].
  - wstep. wcall (apply_2pc_msg_quiet s OB_MSG_TX_ABORT_REQ H).
    intros r s1 (H1 & (Hd1 & _ & _ & _ & _ & Hm1)%ctl_inv). wstep; [by wsteps |].
    wcall (retransmit_both s1 ABORT H1 E); [congruence |].
    intros r2 s2 [H2 Hm2]. split; [done | congruence].
Qed.

Lemma pre_commit_request_spec : AP -> wp (handle_2pc_pre_commit_request v) (safe s) s.
Proof.
  intros Hap. unfold handle_2pc_pre_commit_request, get_downstream_state. do 2 wstep.
  destruct s.(state_) eqn:Hd; try done.
  2, 3: apply retransmit_both; [done | done | by rewrite Hd].
  unfold handle_2pc_pre_commit_request_impl_. wstep. wcall (apply_2pc_msg_quiet s OB_MSG_TX_PRE_COMMIT_REQ H).
  intros r s1 (H1 & (Hd1 & _ & _ & _ & _ & Hm1)%ctl_inv). wstep; [by wsteps |].
  wcall (try_enter_spec s1 H1); [split_and!; [done | congruence | done] |].
  intros r2 s2 [H2 Hm2]. split; [done | congruence].
Qed.

Lemma clear_request_spec : (abort_ok F \/ latched F) \/ committed F root ->
  wp (handle_2pc_clear_request v) (safe s) s.
Proof.
  intros Hr. unfold handle_2pc_clear_request, get_downstream_state. do 2 wstep.
  assert (phase_ok s CLEAR -> wp (handle_2pc_clear_request_impl_ v) (safe s) s) as Himpl.
  { intros Hph. unfold handle_2pc_clear_request_impl_. do 2 wstep. wstep; [by wsteps |]. wstep.
    wcall (apply_2pc_msg_quiet s OB_MSG_TX_CLEAR_REQ H).
    intros r s1 (H1 & (Hd1 & _ & _ & _ & _ & Hm1)%ctl_inv). wstep; [by wsteps |].
    apply drive_and_pass; try done. unfold phase_ok in *. by rewrite Hd1. }
  pose proof (ni_dur H) as Hdur. destruct s.(state_) eqn:Hd; try done; cbn in Hdur.
  - apply Himpl. right. split; [done |]. rewrite decide_False by done.
    destruct Hr as [Hr | ?]; [| done]. destruct no_reason; [| done].
    by apply (f_commit FO j (ni_part H)).
  - apply Himpl. by left.
Qed.

Lemma handle_2pc_req_spec : wp (handle_2pc_req v (switch_msg_type_ (type_ m))) (safe s) s.
Proof.
  destruct (ni_cache H m Hm) as [[_ Hpr] _]. unfold promise in Hpr. unfold handle_2pc_req.
  destruct (type_ m); cbn [switch_msg_type_]; try done.
  - by apply prepare_request_spec.
  - by apply pre_commit_request_spec.
  - by apply commit_request_spec.
  - apply abort_request_spec. tauto.
  - by apply clear_request_spec.
Qed.
End request.

(** *** Entry points *)

(** The object between two calls: it holds no message. *)
Definition idle (s : committer) : Prop := NI s /\ s.(msg_2pc_cache_) = None.

Lemma cache_inv s m : NI s -> msg_ok root parts F (abort_ok F \/ latched F) m -> receiver_ m = j ->
  NI (set_msg_2pc_cache (Some m) s).
Proof. intros H Hm Hr. inv_frame H. by intros ? [= <-]. Qed.

Lemma with_cache_spec s m (b : M committer Z) :
  wp b (fun _ s' => NI s') (set_msg_2pc_cache (Some m) s) ->
  wp (with_cache m b) (fun _ s' => idle s') s.
Proof.
  intros Hb. unfold with_cache. do 3 wstep. wcall Hb. intros r s' H'. wsteps. split; [| done].
  inv_frame H'.
Qed.

Lemma request_commit_inv s ret : idle s -> wp (request_commit ret) (fun _ s' => idle s') s.
Proof. intros [H Hc]. unfold request_commit. wsteps; (split; [| done]); [inv_frame H | done]. Qed.

Section message.
Context (s : committer) (m : ObTxMsg).
Context (H : NI s) (Hok : msg_ok root parts F (abort_ok F \/ latched F) m) (Hrecv : receiver_ m = j).

Local Abbreviation s1 := (set_msg_2pc_cache (Some m) s).

Lemma s1_inv : NI s1.
Proof. by apply cache_inv. Qed.

Lemma handle_req_spec : is_2pc_request_msg (switch_msg_type_ (type_ m)) = true ->
  wp (handle_req v m) (fun _ s' => NI s') s1.
Proof.
  intros Ht. pose proof (cached_role s1 m s1_inv eq_refl) as E. rewrite Ht in E.
  unfold handle_req. wcall (handle_2pc_req_spec s1 m s1_inv E eq_refl). by intros r s' [? _].
Qed.

Lemma handle_resp_spec tolerate : is_2pc_request_msg (switch_msg_type_ (type_ m)) = false ->
  wp (handle_resp v tolerate m) (fun _ s' => NI s') s1.
Proof.
  intros Ht. pose proof (cached_role s1 m s1_inv eq_refl) as E. rewrite Ht in E.
  destruct (ni_root s1_inv E) as [_ Hparts]. destruct Hok as [Hdir _]. unfold direction in Hdir.
  rewrite Ht in Hdir. destruct Hdir as [[_ Hn] _].
  unfold handle_resp. do 2 wstep. wstep. pose proof s1_inv. wstep; [by wsteps |].
  assert (z = OB_SUCCESS) as Hz by (unfold ob_fail in Heqb; by destruct (Z.eqb_spec z OB_SUCCESS)).
  destruct (find_participant_id_spec _ _ _ _ Heqp Hz) as [Hi Hp]. rewrite Hparts in Hp.
  wcall (handle_2pc_resp_spec s1 m z0 s1_inv E eq_refl Hi Hp Hn). by intros r s' [? _].
Qed.

(** Every message entry keeps the invariant. *)
Lemma handle_tx_msg_spec : wp (handle_tx_msg v m) (fun _ s' => idle s') s.
Proof.
  destruct Hok as [_ Hpr]. unfold promise in Hpr.
  pose proof handle_req_spec as Hq. pose proof handle_resp_spec as Hs. unfold handle_tx_msg.
  destruct (type_ m) eqn:Ht; try done; cbn [switch_msg_type_ is_2pc_request_msg] in Hq, Hs.
  - unfold handle_tx_2pc_prepare_req. wstep. eapply (wp_mono _ (fun _ s' => idle s')).
    + apply with_cache_spec. wstep; [wsteps; apply s1_inv | auto].
    + intros r s'. apply request_commit_inv.
  - apply with_cache_spec; auto.
  - apply with_cache_spec; auto.
  - apply with_cache_spec; auto.
  - apply with_cache_spec; auto.
  - apply with_cache_spec; auto.
  - apply with_cache_spec; auto.
  - apply with_cache_spec; auto.
  - unfold handle_tx_2pc_clear_req. do 2 wstep. apply with_cache_spec. wstep; [wsteps; apply s1_inv | auto].
  - apply with_cache_spec; auto.
Qed.
End message.

(** *** Timers, callbacks of the timestamp service, requests of the scheduler *)

Lemma idle_quiet {A} (m : M committer A) s : idle s -> Quiet m s -> wp m (fun _ s' => idle s') s.
Proof.
  intros [_ Hc] Hq. wcall (safe_quiet _ _ Hq). intros x s' [H' Hm]. split; [done | congruence].
Qed.

Lemma idle_drive u s : idle s -> s.(upstream_state_) = u \/ phase_ok s u ->
  wp (drive_self_2pc_phase v u) (fun ret s' => idle s' /\ s'.(state_) = s.(state_) /\
    (ob_fail ret = false -> s'.(upstream_state_) = u)) s.
Proof.
  intros [H Hc] Hu. wcall (drive_spec u s H Hu). intros r s' (H' & [Hd Hm] & Hu').
  split; [split; [done | congruence] | done].
Qed.

(** The first phase can be entered until another one is. *)
Lemma prepare_phase_ok s : NI s -> state_leb s.(upstream_state_) PREPARE = true ->
  s.(upstream_state_) = PREPARE \/ phase_ok s PREPARE.
Proof.
  intros H Hu. pose proof (ni_states H) as Hst. destruct s.(upstream_state_) eqn:Eu; try done;
    destruct s.(state_) eqn:Ed; try done; auto. right. split; [done |]. by rewrite Eu.
Qed.

Lemma two_phase_commit_spec s : idle s -> wp (two_phase_commit v) (fun _ s' => idle s') s.
Proof.
  intros H. unfold two_phase_commit. do 2 wstep. wstep; [by wsteps |]. wstep; [by wsteps |]. wstep.
  wcall (idle_drive PREPARE s H).
  { apply prepare_phase_ok; [apply H |]. unfold state_leb in *. lia. }
  intros r s1 (H1 & _ & Hu). wstep; [by wsteps |]. wstep.
  wcall (idle_quiet _ s1 H1 (post_downstream_quiet OB_MSG_TX_PREPARE_REQ s1 (proj1 H1) (fun E => E) eq_refl)).
  intros r2 s2 H2. by wsteps.
Qed.

Lemma two_phase_abort_spec s : idle s -> wp (two_phase_abort v) (fun _ s' => idle s') s.
Proof.
  intros H. unfold two_phase_abort. do 2 wstep. wstep; [by wsteps |]. wstep; [by wsteps |]. wstep.
  apply negb_false_iff, bool_decide_eq_true in Heqb.
  wcall (idle_drive ABORT s H); [by right; left |].
  intros r s1 (H1 & Hd & Hu). wstep; [by wsteps |]. wstep.
  wcall (idle_quiet _ s1 H1 (post_downstream_quiet OB_MSG_TX_ABORT_REQ s1 (proj1 H1)
    ltac:(intros E; split; [done |]; left; apply abort_phase_reason; [apply H1 | auto | by right]) eq_refl)).
  intros r2 s2 H2. by wsteps.
Qed.

(** The coordinator of a single participant moves on by itself. *)
Lemma single_phase_ok s : NI s -> j = root -> get_downstream_size s = 1 ->
  s.(upstream_state_) = s.(state_) -> state_ltb s.(state_) CLEAR = true ->
  state_leb PREPARE s.(state_) = true -> phase_ok s (decide_next_state_ s.(state_)).
Proof.
  intros H E Hsize Hu Hlt Hle. rewrite (size_root s H E) in Hsize.
  assert (forall i, i ∈ parts -> i = root) as Hone.
  { intros i Hi. pose proof (t_root T) as Hr. destruct parts as [| a [| b l]]; [set_solver | | cbn in Hsize; lia].
    rewrite elem_of_cons in Hi, Hr. destruct Hi as [-> | Hi]; [| set_solver].
    destruct Hr as [-> | Hr]; [done | set_solver]. }
  assert (prepared F j -> AP) as Hap by (intros Hp i Hi; rewrite (Hone i Hi); by rewrite <- E).
  pose proof (ni_dur H) as Hd. pose proof (ni_states H) as Hst.
  unfold phase_ok. rewrite Hu.
  destruct s.(state_); try done; cbn in Hd |- *.
  - split_and!; auto. by apply Hap, Hd.
  - split; [by apply Hap, Hd | by right].
  - right. split; [done |]. rewrite decide_True by done. intros i [Hi Hn]. by apply Hone in Hi.
  - by left.
Qed.

Lemma handle_timeout_spec s : idle s -> wp (handle_timeout v) (fun _ s' => idle s') s.
Proof.
  intros [H Hc]. unfold handle_timeout. wstep. wcall (submit_2pc_log_spec s H).
  intros _ s1 [H1 (_ & _ & _ & Hm1)%core_inv]. do 3 wstep.
  assert (idle s1) as I1 by (split; [done | congruence]).
  eapply (wp_mono _ (fun _ s' => idle s')).
  { wstep; [| by wsteps]. wstep. wcall (idle_quiet _ s1 I1 (retransmit_downstream_quiet s1 H1)). intros; by wsteps. }
  intros _ s2 I2. do 3 wstep. eapply (wp_mono _ (fun _ s' => idle s')).
  { wstep; [| by wsteps].
    assert (j <> root) as E.
    { intros E. pose proof (role_root s2 (proj1 I2) E) as Hr.
      unfold is_internal, is_leaf in Heqb. by rewrite Hr in Heqb. }
    wstep. wcall (idle_quiet _ s2 I2 (retransmit_upstream_quiet s2 s2.(state_) (proj1 I2) E (fun t =>
      upstream_sendable s2 s2.(state_) t (proj1 I2) E ltac:(by destruct s2.(state_))))). intros; by wsteps. }
  intros _ s3 I3. do 3 wstep. eapply (wp_mono _ (fun _ s' => idle s')); [| intros _ s4 I4; by wsteps].
  wstep; [| by wsteps]. apply andb_true_iff in Heqb as [[Hr Hsize]%andb_true_iff _].
  rewrite (is_root_spec s3 (proj1 I3)) in Hr. apply bool_decide_eq_true in Hr.
  apply Z.eqb_eq in Hsize. wstep. eapply (wp_mono _ (fun _ s' => idle s')).
  { wstep; [| by wsteps]. apply andb_true_iff in Heqb as [[Hu Hlt]%andb_true_iff Hle].
    apply bool_decide_eq_true in Hu. wstep.
    wcall (idle_drive (decide_next_state_ s3.(state_)) s3 I3).
    { right. by apply single_phase_ok; [apply I3 | | | | |]. }
    intros r s4 [I4 _]. by wsteps. }
  intros _ s4 [H4 Hc4]. do 2 wstep. wstep; [| by wsteps].
  apply andb_true_iff in Heqb as [Hu Hd]. apply bool_decide_eq_true in Hu, Hd. wstep.
  wcall (on_pre_commit_spec s4 H4); [done | done |]. intros r s5 [H5 Hm5]. wsteps. split; [done | congruence].
Qed.

Lemma clear_wait_idle s : idle s -> idle (set_gts_waiting None s).
Proof. intros [H Hc]. split; [inv_frame H | done]. Qed.

Lemma end_wait_spec s ret : idle s -> wp (end_wait_on_error ret) (fun _ s' => idle s') s.
Proof. intros H. unfold end_wait_on_error, clear_gts_waiting. wsteps; [by apply clear_wait_idle | done]. Qed.

Lemma get_gts_callback_spec s gts : idle s -> wp (get_gts_callback v gts) (fun _ s' => idle s') s.
Proof.
  intros H. unfold get_gts_callback, clear_gts_waiting. do 3 wstep.
  eapply (wp_mono _ (fun _ s' => idle s')).
  - do 4 (wstep; [by wsteps; try apply clear_wait_idle |]). wstep.
    unfold get_gts_callback_distributed, clear_gts_waiting. do 6 wstep.
    assert (idle (set_prepare_version (Scn.max (Scn.max gts (v_max_read_version v).2) s.(prepare_version_))
              (set_gts_waiting None s))) as H1.
    { destruct (clear_wait_idle s H) as [H1 Hc]. split; [inv_frame H1 | done]. }
    wstep; [by wsteps |]. wstep; [| by wsteps].
    wcall (idle_drive PREPARE _ H1); [by apply prepare_phase_ok; [apply H1 |] |].
    intros r s2 [H2 _]. by wsteps.
  - intros [ret need] s1 H1. wstep. wcall (end_wait_spec s1 ret H1). intros; by wsteps.
Qed.

Lemma gts_elapse_callback_spec s gts : idle s -> s.(gts_waiting_) = Some WAIT_GTS_ELAPSING ->
  wp (gts_elapse_callback v gts) (fun _ s' => idle s') s.
Proof.
  intros H Hw. destruct (ni_wait (proj1 H) Hw) as (E & Hu & Hd & Hap).
  pose proof (clear_wait_idle s H) as H0.
  unfold gts_elapse_callback. do 3 wstep. eapply (wp_mono _ (fun _ s' => idle s')).
  - do 3 (wstep; [by wsteps |]). wstep.
    unfold gts_elapse_callback_distributed, clear_gts_waiting. do 4 wstep.
    wstep; [by wsteps |]. wstep; [by wsteps |]. wstep.
    wcall (try_enter_spec _ (proj1 H0)); [split_and!; [done | done | by left] |].
    intros r s1 [H1 Hm1]. assert (idle s1) as I1 by (split; [done | rewrite Hm1; apply H]).
    wstep; [by wsteps |]. do 2 wstep. unfold is_sub2pc. rewrite (ni_sub H1). by wsteps.
  - intros [ret need] s1 H1. wstep. wcall (end_wait_spec s1 ret H1). intros; by wsteps.
Qed.

Lemma gts_callback_interrupted_spec s off ls : idle s ->
  wp (gts_callback_interrupted v off ls) (fun _ s' => idle s') s.
Proof.
  intros H. unfold gts_callback_interrupted, clear_gts_waiting. wsteps; [done | by apply clear_wait_idle].
Qed.
End ops.

(** ** Log callbacks

    The callback of a log runs when the log has become durable: the facts have
    grown by it. *)
Section callback.
Context (v : virtuals) (root : Z) (parts : list Z) (T : topology root parts).
Context (F F' : facts) (j : Z) (FO' : facts_ok root parts F' j) (log : ObTwoPhaseCommitLogType).

(** [F'] is [F] with [log] durable at [j]. *)
Record logged : Prop := {
  l_prep : forall i, prepared F' i <-> prepared F i \/ (i = j /\ log = OB_LOG_TX_PREPARE);
  l_commit : forall i, committed F' i <-> committed F i \/ (i = j /\ log = OB_LOG_TX_COMMIT);
  l_abort : forall i, aborted F' i <-> aborted F i \/ (i = j /\ log = OB_LOG_TX_ABORT);
  l_ok : abort_ok F -> abort_ok F';
  l_latch : latched F' -> abort_ok F'
}.
Context (L : logged).

Local Abbreviation NI := (node_inv root parts F' j).
Local Abbreviation Idle := (idle root parts F' j).

(** A context that has left: it answers nothing any more. *)
Definition retired (s : committer) : Prop :=
  s.(is_exiting_) = true /\ s.(outbox_) = [] /\
  forall st, TX_COMMIT_RESP st ∈ s.(scheduler_resp_) -> st <> OB_SUCCESS /\ abort_ok F'.

Definition outcome_ok (r : option Z) (s : committer) : Prop :=
  r = Some OB_SUCCESS ->
  (log <> OB_LOG_TX_CLEAR /\ Idle s) \/ ((log = OB_LOG_TX_ABORT \/ log = OB_LOG_TX_CLEAR) /\ retired s).

Context (s : committer) (H : node_inv root parts F j s).
Context (Hc : s.(msg_2pc_cache_) = None) (Hout : s.(outbox_) = []) (Hresp : s.(scheduler_resp_) = []).
Context (Hpend : s.(state_log_submitting_) = Some log).

(** The state a log leads to. *)
Definition log_target : ObTxState :=
  match log with
  | OB_LOG_TX_PREPARE => PREPARE
  | OB_LOG_TX_COMMIT => COMMIT
  | OB_LOG_TX_ABORT => ABORT
  | _ => CLEAR
  end.

Lemma prepared_mono i : prepared F i -> prepared F' i.
Proof. rewrite (l_prep L). auto. Qed.
Lemma committed_mono i : committed F i -> committed F' i.
Proof. rewrite (l_commit L). auto. Qed.
Lemma all_prepared_mono : all_prepared parts F -> all_prepared parts F'.
Proof. intros Hap i Hi. by apply prepared_mono, Hap. Qed.

(** The context once the log is applied. *)
Lemma applied_inv ts : log <> OB_LOG_TX_CLEAR ->
  NI (set_state log_target (set_end_log_ts ts (set_state_log_submitting None s))).
Proof.
  intros Hlog. pose proof (ni_pend H) as Hp. rewrite Hpend in Hp.
  assert (~ committed F j) as Hnc.
  { pose proof (ni_dur H) as Hd. intros Hcm.
    destruct log; try done; apply andb_true_iff in Hp as [_ Hp]; destruct s.(state_);
      try by vm_compute in Hp. all: cbn in Hd; tauto. }
  assert (log = OB_LOG_TX_PREPARE -> ~ aborted F j) as Hna.
  { intros El. pose proof (ni_dur H) as Hd. rewrite El in Hp. apply andb_true_iff in Hp as [_ Hp].
    apply bool_decide_eq_true in Hp. rewrite Hp in Hd. apply Hd. }
  assert (forall st, log_target = st -> s.(upstream_state_) = st) as Hu.
  { unfold log_target. intros st <-. destruct log; try done; apply andb_true_iff in Hp as [Hp _];
      by apply bool_decide_eq_true in Hp. }
  destruct H. constructor; cbn; auto; try done.
  - intros i Hi. destruct (ni_coll0 i Hi) as (p & ? & ? & Hco). exists p. split_and!; try done.
    unfold collected_ok in *. destruct s.(upstream_state_); auto using prepared_mono, committed_mono.
  - unfold log_target in *. specialize (Hu _ eq_refl). rewrite Hu. by destruct log.
  - unfold log_target, durable. destruct log eqn:El; try done.
    + split; [apply (l_prep L); auto |]. rewrite (l_commit L), (l_abort L).
      split; intros [? | [_ ?]]; try congruence. by apply Hna.
    + apply (l_commit L); auto.
    + split; [apply (l_abort L); auto |]. rewrite (l_commit L). intros [? | [_ ?]]; congruence.
  - intros Hx. by apply all_prepared_mono, ni_ap0.
  - intros Hx Hy. rewrite (Hu _ Hy) in Hx. done.
  - intros Hx Hy. rewrite (Hu _ Hy) in Hx. done.
  - intros Hw. destruct (ni_wait0 Hw) as (_ & Hux & Hdx & _).
    destruct log; try done; cbn in Hp; rewrite Hux, Hdx in Hp; done.
  - rewrite Hout. done.
  - intros st. rewrite Hresp. by intros ?%not_elem_of_nil.
  - intros Hl. left. by apply (l_latch L).
  - by rewrite Hc.
Qed.

(** The object when the callback begins. *)
Local Abbreviation s0 := (set_state_log_submitting None s).

Lemma set_end_log_ts_same s1 : set_end_log_ts s1.(end_log_ts_) s1 = s1.
Proof. by destruct s1. Qed.

Lemma pending_states : pending_ok (Some log) s.(state_) s.(upstream_state_) = true.
Proof. rewrite <- Hpend. apply (ni_pend H). Qed.

Lemma after_decision_spec s1 t : Idle s1 ->
  (s1.(state_) = COMMIT /\ s1.(upstream_state_) = COMMIT /\ t = OB_MSG_TX_COMMIT_RESP) \/
  (s1.(state_) = ABORT /\ t = OB_MSG_TX_ABORT_RESP) ->
  wp (after_decision v t) (fun _ s' => Idle s') s1.
Proof.
  intros I1 Hs. pose proof (proj1 I1) as H1. unfold after_decision. do 2 wstep. wstep; [| by wsteps].
  destruct (role_cases root parts T F' j s1 H1) as [[E ->] | [(E & -> & Hup) | [E ->]]]; [| | by wsteps].
  - wstep. wcall (idle_drive v root parts T F' j FO' CLEAR s1 I1).
    { right. destruct Hs as [(Hd & Hu & _) | [Hd _]]; [right; split; [done |] | by left].
      rewrite decide_True by done. intros q Hq.
      pose proof (all_collected root parts T F' j FO' s1 q H1 E Heqb Hq) as Hcq. by rewrite Hu in Hcq. }
    intros r s2 (I2 & _ & Hu2). wstep; [by wsteps |].
    wcall (post_clear_safe v root parts T F' j FO' E s2 OB_SUCCESS (proj1 I2) (Hu2 eq_refl)).
    intros r3 s3 [H3 Hm3]. split; [done |]. rewrite Hm3. apply I2.
  - pose proof (ni_dur H1) as Hd. wstep.
    wcall (idle_quiet root parts F' j (post_msg v t OB_C2PC_UPSTREAM_ID) s1 I1).
    + apply post_upstream_quiet; try done.
      * destruct Hs as [(Hs & _ & ->) | (Hs & ->)]; rewrite Hs in Hd; (split; [done |]); [done |].
        left. left. by apply (aborted_reason root parts F' j FO' s1).
      * by destruct Hs as [(_ & _ & ->) | (_ & ->)].
    + intros; by wsteps.
Qed.

Lemma apply_prepare_log_spec : log = OB_LOG_TX_PREPARE ->
  wp (apply_prepare_log v) (fun _ s' => Idle s') s0.
Proof.
  intros El. pose proof pending_states as Hp. rewrite El in Hp. apply andb_true_iff in Hp as [Hu Hd].
  apply bool_decide_eq_true in Hu, Hd.
  assert (NI (set_state PREPARE s0)) as H1.
  { pose proof (applied_inv s.(end_log_ts_)) as H1. unfold log_target in H1. rewrite El in H1.
    apply (H1 ltac:(done)). }
  assert (s0.(upstream_state_) = PREPARE) as Hu0 by done. assert (s0.(state_) = INIT) as Hd0 by done.
  unfold apply_prepare_log. do 2 wstep. rewrite Hu0, Hd0. cbn [negb andb]. 
  change (state_eqb ABORT PREPARE) with false. change (state_eqb INIT INIT) with true.
  change (state_eqb PREPARE PREPARE) with true. cbn [negb andb].
  unfold on_prepare, set_downstream_state. do 2 wstep. wsucc. do 4 wstep. do 2 wstep. wsucc. 
  assert (Idle (set_state PREPARE s0)) as I1 by done.
  wstep; [| by wsteps].
  destruct (role_cases root parts T F' j _ H1) as [[E ->] | [(E & -> & Hup) | [E ->]]]; [| | by wsteps].
  - wstep. wcall (try_enter_spec v root parts T F' j FO' _ H1).
    + split_and!; [| done | by left].
      by apply (all_collected_prepared root parts T F' j FO' (set_state PREPARE s0)).
    + intros r s2 [H2 Hm2]. wsteps. split; [done |]. by rewrite Hm2.
  - wstep. wcall (idle_quiet root parts F' j (post_msg v OB_MSG_TX_PREPARE_RESP OB_C2PC_UPSTREAM_ID) _ I1).
    + apply post_upstream_quiet; try done. split; [done |]. apply (l_prep L). auto.
    + intros; by wsteps.
Qed.

Lemma apply_commit_log_spec ts : log = OB_LOG_TX_COMMIT ->
  wp (apply_commit_log v) (fun r s' => ob_fail r = false -> Idle s') (set_end_log_ts ts s0).
Proof.
  intros El. pose proof pending_states as Hp. rewrite El in Hp. apply andb_true_iff in Hp as [Hu Hd].
  apply bool_decide_eq_true in Hu.
  assert (NI (set_state COMMIT (set_end_log_ts ts s0))) as H1.
  { pose proof (applied_inv ts) as H1. unfold log_target in H1. rewrite El in H1. apply (H1 ltac:(done)). }
  unfold apply_commit_log, on_commit. do 2 wstep. wstep; [by wsteps |]. wstep; [by wsteps |].
  do 2 wstep. wstep; [wsteps; congruence |]. unfold set_downstream_state. do 4 wstep. wsucc.
  eapply wp_mono; [apply (after_decision_spec _ OB_MSG_TX_COMMIT_RESP (conj H1 Hc)); by left |]. done.
Qed.

Lemma apply_abort_log_spec ts : log = OB_LOG_TX_ABORT ->
  wp (apply_abort_log v) (fun r s' => ob_fail r = false -> Idle s') (set_end_log_ts ts s0).
Proof.
  intros El. pose proof pending_states as Hp. rewrite El in Hp. apply andb_true_iff in Hp as [Hu Hd].
  apply bool_decide_eq_true in Hu.
  assert (NI (set_state ABORT (set_end_log_ts ts s0))) as H1.
  { pose proof (applied_inv ts) as H1. unfold log_target in H1. rewrite El in H1. apply (H1 ltac:(done)). }
  unfold apply_abort_log, on_abort, is_sub2pc. do 2 wstep. wstep; [by wsteps |]. do 4 wstep.
  cbn [is_sub2pc_ set_end_log_ts set_state_log_submitting]. rewrite (ni_sub H). cbn [andb].
  do 2 wstep. wstep; [wsteps; congruence |]. unfold set_downstream_state. do 4 wstep. wsucc.
  eapply wp_mono; [apply (after_decision_spec _ OB_MSG_TX_ABORT_RESP (conj H1 Hc)); by right |]. done.
Qed.

(** Leaving by a local abort, with the abort log durable. *)
Lemma on_local_abort_retired s1 : s1.(outbox_) = [] -> s1.(scheduler_resp_) = [] -> abort_ok F' ->
  wp (on_local_abort_tx_ v) (fun r s' => r = OB_SUCCESS -> retired s') s1.
Proof.
  intros Ho Hr Ha. unfold on_local_abort_tx_, respond. do 2 wstep.
  do 4 (wstep; [wsteps; intros Hz; by rewrite Hz in * |]). wsteps; intros _; (split; [done |]); split; try done; cbn.
  - rewrite Hr. intros st [= ->]%list_elem_of_singleton. done.
  - rewrite Hr. by intros st ?%not_elem_of_nil.
Qed.

Lemma remove_dup_ok r : remove_dup v r = Some OB_SUCCESS -> r = Some OB_SUCCESS.
Proof.
  destruct r as [r |]; [| done]. cbn. unfold ob_succ. destruct (Z.eqb_spec r OB_SUCCESS) as [-> | Hn]; [done |].
  intros [= ->]. done.
Qed.

(** A failure of [apply_log] ends the process. *)
Lemma apply_log_wrap (m : M committer Z) (Q : committer -> Prop) s1 :
  wp m (fun r s' => ob_fail r = false -> Q s') s1 ->
  wp (ret ← m; mret (if ob_fail ret then None else Some ret)) (fun r s' => r = Some OB_SUCCESS -> Q s') s1.
Proof.
  intros Hm. wstep. wcall Hm. intros r s' HQ. wstep. destruct (ob_fail r); [done | auto].
Qed.

Lemma apply_clear_log_spec : log = OB_LOG_TX_CLEAR ->
  wp apply_clear_log (fun r s' => ob_fail r = false -> retired s') s0.
Proof.
  intros El. unfold apply_clear_log, on_clear, set_downstream_state.
  wsteps; intros Hz; try done. all: split; [done |]; cbn; rewrite Hresp; split; [done |].
  all: by intros st ?%not_elem_of_nil.
Qed.

(** The callback of the log that was being written. *)
Lemma on_success_ops_spec : wp (on_success_ops_ v log) outcome_ok s.
Proof.
  unfold on_success_ops_. do 2 wstep.
  assert (log = OB_LOG_TX_PREPARE \/ log = OB_LOG_TX_COMMIT \/ log = OB_LOG_TX_ABORT \/ log = OB_LOG_TX_CLEAR)
    as Hlog by (pose proof pending_states as Hp; destruct log; auto; done).
  destruct Hlog as [El | [El | [El | El]]]; rewrite El.
  - wstep; [wsteps; intros [= Hz]; by rewrite Hz in * |]. wstep; [wsteps; intros [= Hz]; by rewrite Hz in * |].
    eapply wp_mono; [apply (apply_log_wrap (apply_prepare_log v) Idle) |].
    + eapply wp_mono; [by apply apply_prepare_log_spec |]. done.
    + intros r s' Hs' Hr. left. split; [congruence | auto].
  - unfold on_commit_log_success. do 2 (wstep; [wsteps; intros [= Hz]; by rewrite Hz in * |]). do 2 wstep.
    wstep; [wsteps; intros [= Hz]; by rewrite Hz in * |]. wstep.
    eapply wp_mono; [apply (apply_log_wrap (apply_commit_log v) Idle); by apply apply_commit_log_spec |].
    intros r s' Hs'. wstep. intros Hr%remove_dup_ok. left. split; [congruence | auto].
  - unfold on_abort_log_success. do 2 wstep.
    do 2 (wstep; [wsteps; intros [= Hz]; by rewrite Hz in * |]). do 2 wstep.
    assert (abort_ok F') as Ha.
    { apply (f_abort FO'), (l_abort L). auto. }
    wstep.
    + wstep. eapply wp_mono; [by apply on_local_abort_retired |]. intros r s' Hr. wstep.
      intros Hd%remove_dup_ok. right. split; [auto |]. apply Hr. congruence.
    + do 2 (wstep; [wsteps; intros [= Hz]; by rewrite Hz in * |]). wstep.
      eapply wp_mono; [apply (apply_log_wrap (apply_abort_log v) Idle); by apply apply_abort_log_spec |].
      intros r s' Hs'. wstep. intros Hr%remove_dup_ok. left. split; [congruence | auto].
  - eapply wp_mono; [apply (apply_log_wrap apply_clear_log retired); by apply apply_clear_log_spec |].
    intros r s' Hs' Hr. right. split; auto.
Qed.
(** *** The callback succeeds *)

(** The calls of the callback into other components succeed; the log service, the
    timestamp service and the network can still fail. *)
Definition callbacks_succeed : Prop :=
  v_assign_log_info v = OB_SUCCESS /\ v_notify_data_source v = OB_SUCCESS /\ v_notify_array v = OB_SUCCESS /\
  v_retain_ctx v = OB_SUCCESS /\ v_tx_data_writable v = OB_SUCCESS /\ v_tx_end v = OB_SUCCESS /\
  v_trans_clear v = OB_SUCCESS /\ v_remove_dup v = OB_SUCCESS.

Lemma after_decision_returns s1 t : NI s1 -> wp (after_decision v t) (fun r _ => r = OB_SUCCESS) s1.
Proof.
  intros H1. unfold after_decision. do 2 wstep. wstep; [| by wsteps].
  destruct (get_2pc_role s1) eqn:Er; [by unfold all_downstream_collected_ in *; rewrite Er in * | ..].
  all: by repeat (wstep || (apply wp_any; intros ? ?)).
Qed.

Lemma try_enter_returns s1 : NI s1 -> phase_ok root parts F' j s1 PRE_COMMIT -> j = root ->
  wp (try_enter_pre_commit_state v) (fun r _ => r = OB_SUCCESS \/ r = OB_EAGAIN) s1.
Proof.
  intros H1 Hph E. unfold try_enter_pre_commit_state. do 3 wstep; [wsteps; auto |]. wstep.
  wcall (drive_spec v root parts T F' j FO' PRE_COMMIT s1 H1 (or_intror Hph)). intros ret s2 (H2 & _ & _).
  wstep; [wsteps; auto |]. unfold on_pre_commit, set_downstream_state. do 4 wstep. wsucc. do 2 wstep.
  change (get_2pc_role (set_state PRE_COMMIT s2)) with (get_2pc_role s2).
  destruct (role_cases root parts T F' j s2 H2) as [[_ ->] | [[Hn _] | [Hn _]]]; [| done | done].
  wstep. apply wp_any. intros. wsteps. auto.
Qed.

Lemma apply_prepare_log_returns : log = OB_LOG_TX_PREPARE ->
  wp (apply_prepare_log v) (fun r _ => r = OB_SUCCESS) s0.
Proof.
  intros El. pose proof pending_states as Hp. rewrite El in Hp. apply andb_true_iff in Hp as [Hu Hd].
  apply bool_decide_eq_true in Hu, Hd.
  assert (NI (set_state PREPARE s0)) as H1.
  { pose proof (applied_inv s.(end_log_ts_)) as H1. unfold log_target in H1. rewrite El in H1.
    apply (H1 ltac:(done)). }
  unfold apply_prepare_log, on_prepare, set_downstream_state. do 2 wstep.
  cbn [upstream_state_ state_ set_state_log_submitting]. rewrite Hu, Hd.
  change (state_eqb ABORT PREPARE) with false. change (state_eqb INIT INIT) with true.
  change (state_eqb PREPARE PREPARE) with true. cbn [negb andb]. do 2 wstep. wsucc. do 6 wstep. wsucc.
  wstep; [| by wsteps].
  destruct (role_cases root parts T F' j _ H1) as [[E Er] | [(E & Er & _) | [E Er]]]; rewrite Er.
  - wstep. wcall (try_enter_returns _ H1); [| done |].
    + split_and!; [| done | by left].
      by apply (all_collected_prepared root parts T F' j FO' (set_state PREPARE s0)).
    + intros r s2 [-> | ->]; by wsteps.
  - wstep. apply wp_any. intros. by wsteps.
  - unfold all_downstream_collected_ in *. by rewrite Er in *.
Qed.

Lemma apply_commit_log_returns ts : v_tx_end v = OB_SUCCESS -> log = OB_LOG_TX_COMMIT ->
  wp (apply_commit_log v) (fun r _ => r = OB_SUCCESS) (set_end_log_ts ts s0).
Proof.
  intros Hv El. pose proof pending_states as Hp. rewrite El in Hp. apply andb_true_iff in Hp as [Hu Hd].
  apply bool_decide_eq_true in Hu.
  assert (NI (set_state COMMIT (set_end_log_ts ts s0))) as H1.
  { pose proof (applied_inv ts) as H1. unfold log_target in H1. rewrite El in H1. apply (H1 ltac:(done)). }
  unfold apply_commit_log, on_commit, set_downstream_state. do 2 wstep.
  cbn [upstream_state_ state_ set_end_log_ts set_state_log_submitting]. rewrite Hu, Hv.
  assert (negb (state_eqb PREPARE s.(state_)) && negb (state_eqb PRE_COMMIT s.(state_)) &&
          negb (state_eqb COMMIT s.(state_)) = false) as -> by (by destruct s.(state_)).
  change (negb (state_eqb COMMIT COMMIT)) with false. wsucc. do 2 wstep. wsucc. do 4 wstep. wsucc.
  by apply after_decision_returns.
Qed.

Lemma apply_abort_log_returns ts : v_tx_end v = OB_SUCCESS -> v_trans_clear v = OB_SUCCESS ->
  log = OB_LOG_TX_ABORT -> wp (apply_abort_log v) (fun r _ => r = OB_SUCCESS) (set_end_log_ts ts s0).
Proof.
  intros Hv Hv' El. pose proof pending_states as Hp. rewrite El in Hp. apply andb_true_iff in Hp as [_ Hd].
  assert (NI (set_state ABORT (set_end_log_ts ts s0))) as H1.
  { pose proof (applied_inv ts) as H1. unfold log_target in H1. rewrite El in H1. apply (H1 ltac:(done)). }
  unfold apply_abort_log, on_abort, is_sub2pc, set_downstream_state. do 2 wstep.
  cbn [upstream_state_ state_ is_sub2pc_ set_end_log_ts set_state_log_submitting]. rewrite Hv, Hv'.
  assert (negb (state_eqb INIT s.(state_)) && negb (state_eqb REDO_COMPLETE s.(state_)) &&
          negb (state_eqb PREPARE s.(state_)) = false) as -> by (by destruct s.(state_)).
  wsucc. do 4 wstep. cbn [is_sub2pc_ set_end_log_ts set_state_log_submitting]. rewrite (ni_sub H). cbn [andb].
  do 2 wstep. wsucc. do 4 wstep. wsucc. by apply after_decision_returns.
Qed.

Lemma apply_clear_log_returns : log = OB_LOG_TX_CLEAR -> wp apply_clear_log (fun r _ => r = OB_SUCCESS) s0.
Proof.
  intros El. pose proof pending_states as Hp. rewrite El in Hp. apply andb_true_iff in Hp as [Hu Hd].
  apply bool_decide_eq_true in Hu. unfold apply_clear_log, on_clear, set_downstream_state. do 2 wstep.
  cbn [upstream_state_ state_ set_state_log_submitting]. rewrite Hu.
  assert (negb (state_eqb COMMIT s.(state_)) && negb (state_eqb ABORT s.(state_)) = false) as ->
    by (by destruct s.(state_)).
  by wsteps.
Qed.

Lemma apply_log_returns (m : M committer Z) s1 :
  wp m (fun r _ => r = OB_SUCCESS) s1 ->
  wp (ret ← m; mret (if ob_fail ret then None else Some ret)) (fun r _ => r = Some OB_SUCCESS) s1.
Proof. intros Hm. wstep. wcall Hm. intros r s' ->. by wstep. Qed.

Lemma remove_dup_returns : v_remove_dup v = OB_SUCCESS -> remove_dup v (Some OB_SUCCESS) = Some OB_SUCCESS.
Proof. intros Hv. unfold remove_dup. rewrite Hv. by destruct (ob_succ OB_SUCCESS && v_is_dup_tx v). Qed.

(** The callback of the log that was being written reports no failure: the process
    is not aborted. *)
Lemma on_success_ops_returns : callbacks_succeed ->
  wp (on_success_ops_ v log) (fun r _ => r = Some OB_SUCCESS) s.
Proof.
  intros (V1 & V2 & V3 & V4 & V5 & V6 & V7 & V8). unfold on_success_ops_. do 2 wstep.
  assert (log = OB_LOG_TX_PREPARE \/ log = OB_LOG_TX_COMMIT \/ log = OB_LOG_TX_ABORT \/ log = OB_LOG_TX_CLEAR)
    as Hlog by (pose proof pending_states as Hp; destruct log; auto; done).
  destruct Hlog as [El | [El | [El | El]]]; rewrite El.
  - rewrite V1, V2. wsucc. by apply apply_log_returns, apply_prepare_log_returns.
  - unfold on_commit_log_success. rewrite V2, V4, V5. wsucc. do 3 wstep.
    wcall (apply_log_returns (apply_commit_log v)); [by apply apply_commit_log_returns |].
    intros r s' ->. wstep. by apply remove_dup_returns.
  - unfold on_abort_log_success. do 2 wstep. rewrite V2, V3, V4, V5. wsucc. do 3 wstep.
    + wstep. unfold on_local_abort_tx_. do 2 wstep. rewrite V6, V7, V2, V3. wsucc. unfold respond.
      wsteps; by apply remove_dup_returns.
    + wstep. wcall (apply_log_returns (apply_abort_log v)); [by apply apply_abort_log_returns |].
      intros r s' ->. wstep. by apply remove_dup_returns.
  - by apply apply_log_returns, apply_clear_log_returns.
Qed.
End callback.

(** ** Growth of the facts *)

(** [F'] knows more than [F], and nothing new about [j] itself. *)
Record facts_le (j : Z) (F F' : facts) : Prop := {
  le_prep : forall i, prepared F i -> prepared F' i;
  le_commit : forall i, committed F i -> committed F' i;
  le_self : (prepared F' j -> prepared F j) /\ (committed F' j -> committed F j) /\
            (aborted F j <-> aborted F' j);
  le_ok : abort_ok F -> abort_ok F'
}.

Section mono.
Context (root : Z) (parts : list Z) (F F' : facts).

Lemma promise_mono (P Q : Prop) m :
  (forall i, prepared F i -> prepared F' i) -> (forall i, committed F i -> committed F' i) -> (P -> Q) ->
  msg_ok root parts F P m -> msg_ok root parts F' Q m.
Proof.
  intros Hp Hc HPQ [Hd Hpr]. split; [done |]. unfold promise, all_prepared, leaves_committed in *.
  destruct (type_ m); intuition auto.
Qed.

Lemma node_inv_mono j s : facts_le j F F' -> s.(msg_2pc_cache_) = None ->
  (latched F' -> reason root F' j s) -> node_inv root parts F j s -> node_inv root parts F' j s.
Proof.
  intros [Hp Hc (Hp' & Hc' & Ha) Hok] Hcache Hl H.
  assert (reason root F j s -> reason root F' j s) as Hr by (unfold reason; tauto).
  assert (all_prepared parts F -> all_prepared parts F') as Hap by (unfold all_prepared; auto).
  destruct H. constructor; auto.
  - intros i Hi. destruct (ni_coll0 i Hi) as (p & ? & ? & Hco). exists p. split_and!; try done.
    unfold collected_ok in *. destruct s.(upstream_state_); auto.
  - specialize (Hp j). specialize (Hc j). unfold durable in *. destruct s.(state_); tauto.
  - intros Hu Hd. specialize (ni_clear0 Hu Hd). case_decide; [| auto]. intros i Hi. auto.
  - intros Hw. destruct (ni_wait0 Hw) as (? & ? & ? & ?). auto.
  - eapply Forall_impl; [exact ni_out0 |]. intros m. by apply promise_mono.
  - intros st Hst. specialize (ni_resp0 st Hst). case_decide; auto.
  - by rewrite Hcache.
Qed.
End mono.

(** ** Local abort *)
Section local_abort.
Context (v : virtuals) (root : Z) (parts : list Z) (T : topology root parts).
Context (F : facts) (j : Z) (FO : facts_ok root parts F j).

(** A context that has not entered the protocol aborts on its own: it writes an
    abort log, or leaves when it has written nothing. *)
Lemma abort_spec s : idle root parts F j s -> s.(upstream_state_) = INIT ->
  s.(state_log_submitting_) = None -> s.(gts_waiting_) = None ->
  wp (abort v) (fun _ s' => idle root parts F j s' \/
    (s'.(is_exiting_) = true /\ s'.(outbox_) = s.(outbox_) /\ s'.(scheduler_resp_) = s.(scheduler_resp_))) s.
Proof.
  intros [H Hc] Hu Hp Hw.
  assert (s.(state_) = INIT) as Hd.
  { pose proof (ni_states H) as Hst. rewrite Hu in Hst. by destruct s.(state_). }
  assert (forall s' x, idle root parts F j s' -> idle root parts F j (set_part_trans_action x s')) as Hact.
  { intros s' x [H' Hc']. split; [inv_frame H' | done]. }
  unfold abort. do 2 wstep. do 2 (wstep; [wsteps; by left |]). wstep; [wsteps; by left |].
  apply orb_false_iff in Heqb1 as [[_ Hna%bool_decide_eq_false]%orb_false_iff _].
  unfold abort_. wstep. eapply (wp_mono _ (fun _ s' => idle root parts F j s' \/
    (s'.(is_exiting_) = true /\ s'.(outbox_) = s.(outbox_) /\ s'.(scheduler_resp_) = s.(scheduler_resp_)))).
  - wstep; [wsteps; by left |]. wstep. eapply (wp_mono _ (fun _ s' => idle root parts F j s' \/
      (s'.(is_exiting_) = true /\ s'.(outbox_) = s.(outbox_) /\ s'.(scheduler_resp_) = s.(scheduler_resp_)))).
    + unfold do_local_abort_tx_. wstep.
      * wcall (compensate_abort_log_spec v root parts F j s H Hp Hw Hd).
        intros r s' [H' [_ Hm]]. left. split; [done | congruence].
      * assert (idle root parts F j (set_force_abort true s)) as I1 by (split; [inv_frame H | done]).
        unfold on_local_abort_tx_. do 4 wstep. do 4 (wstep; [wsteps; by left |]). do 3 wstep.
        cbn [part_trans_action_ set_force_abort]. rewrite bool_decide_false by congruence. wsteps. by right.
    + intros r s' Hs'. wsteps; auto. destruct (bool_decide _); [done |].
      destruct Hs' as [Hs' | Hs']; [left; by apply Hact | by right].
  - intros r s' Hs'. wsteps. destruct Hs' as [Hs' | Hs']; [left; by apply Hact | by right].
Qed.
End local_abort.
