(* ===== verification/TwoPhaseLocal.v ===== *)
(** * The operations of one committer

    What the loops and the driver of [TwoPhaseCommitter] do on their own, in any
    state and for any tree of participants: who is sent a message, when the
    responses are complete, what a call that fails leaves behind. *)

From Stdlib Require Import ZArith Lia Bool.
From stdpp Require Import base list option numbers sets gmap.
From S2P Require Import Prelude BitSet Serialization Scn TwoPhaseCommitter TwoPhaseNode.

Local Open Scope Z_scope.

(** ** Sending to the participants *)

(** [self_id_] is the place of this participant in its own list, once it is known. *)
Definition self_ok (s : committer) : Prop :=
  s.(self_id_) = -1 \/ s.(self_id_) = (find_participant_id_ s.(ls_id_) s).2.

Definition self_index (s : committer) : Z := (find_participant_id_ s.(ls_id_) s).2.

(** The elements of [l] that [f] selects, by index and value. *)
Fixpoint selected (f : Z -> Z -> bool) (k : Z) (l : list Z) : list Z :=
  match l with
  | [] => []
  | p :: l => if f k p then p :: selected f (k + 1) l else selected f (k + 1) l
  end.

Lemma selected_ext f g k l :
  (forall (i : nat) p, l !! i = Some p -> f (k + Z.of_nat i) p = g (k + Z.of_nat i) p) ->
  selected f k l = selected g k l.
Proof.
  revert k. induction l as [| p l IH]; intros k H; cbn; [done |].
  pose proof (H 0%nat p eq_refl) as H0. rewrite Z.add_0_r in H0. rewrite H0.
  rewrite (IH (k + 1)); [done |]. intros i q Hq. specialize (H (S i) q Hq).
  by replace (k + Z.of_nat (S i)) with (k + 1 + Z.of_nat i) in H by lia.
Qed.

Lemma selected_filter (P : Z -> bool) k l : selected (fun _ p => P p) k l = filter (fun p => P p = true) l.
Proof.
  revert k. induction l as [| p l IH]; intros k; [done |]. cbn [selected]. rewrite filter_cons.
  destruct (P p) eqn:E; [rewrite decide_True by done | rewrite decide_False by congruence]; by rewrite IH.
Qed.

Lemma filter_selected f (P : Z -> Prop) `{!forall p, Decision (P p)} k l :
  filter P (selected f k l) = selected (fun i p => f i p && bool_decide (P p)) k l.
Proof.
  revert k. induction l as [| p l IH]; intros k; [done |]. cbn [selected].
  destruct (f k p); cbn [andb]; [| done]. rewrite filter_cons, IH. by repeat case_decide; case_bool_decide.
Qed.

Lemma selected_nil f k l :
  selected f k l = [] <-> forall (i : nat) p, l !! i = Some p -> f (k + Z.of_nat i) p = false.
Proof.
  revert k. induction l as [| p l IH]; intros k; cbn [selected]; [done |]. split.
  - destruct (f k p) eqn:E; [done |]. intros Hs [| i] q Hq; [| specialize (proj1 (IH _) Hs i q Hq)].
    + injection Hq as <-. by rewrite Z.add_0_r.
    + by replace (k + Z.of_nat (S i)) with (k + 1 + Z.of_nat i) by lia.
  - intros H. pose proof (H 0%nat p eq_refl) as H0. rewrite Z.add_0_r in H0. rewrite H0. apply IH.
    intros i q Hq. specialize (H (S i) q Hq). by replace (k + 1 + Z.of_nat i) with (k + Z.of_nat (S i)) by lia.
Qed.

Section send.
Context (v : virtuals) (t : ObTwoPhaseCommitMsgType).

(** The network takes a message to [p]. *)
Definition reaches (p : Z) : bool := ob_succ (v_rpc_post v t p).

(** The messages [ms] are of type [t], from [s]. *)
Definition sent_by (s : committer) (ms : list ObTxMsg) : Prop :=
  Forall (fun m => switch_msg_type_ (type_ m) = t /\ sender_ m = s.(ls_id_)) ms.

Context (Ht : is_2pc_request_msg t = true) (Hv : v_assign_log_info v = OB_SUCCESS).

Definition same_outside (s s' : committer) : Prop := exists o, s' = set_outbox o s.

Lemma reaches_fail p : ob_fail (v_rpc_post v t p) = negb (reaches p).
Proof. unfold reaches, ob_fail, ob_succ. done. Qed.

Lemma reaches_decide p : reaches p = bool_decide (v_rpc_post v t p = OB_SUCCESS).
Proof. unfold reaches, ob_succ. case_bool_decide; by apply Z.eqb_eq || by apply Z.eqb_neq. Qed.

Lemma rpc_post_msg_sends p m s : rpc_post_msg v t p m s =
  (v_rpc_post v t p, set_outbox (s.(outbox_) ++ (if reaches p then [m] else [])) s).
Proof.
  unfold rpc_post_msg. rewrite reaches_fail. destruct (reaches p); cbn; [done |].
  rewrite app_nil_r. by destruct s.
Qed.

Lemma post_msg__sends p s : exists m,
  post_msg_ v t p s = (v_rpc_post v t p, set_outbox (s.(outbox_) ++ (if reaches p then [m] else [])) s) /\
  receiver_ m = p /\ sender_ m = s.(ls_id_) /\ switch_msg_type_ (type_ m) = t.
Proof.
  unfold post_msg_. rewrite Hv. change (ob_fail OB_SUCCESS) with false. cbv iota.
  pose proof (fun m => rpc_post_msg_sends p m s) as Hs.
  destruct t; try done; rewrite Hs; eexists; (split; [reflexivity |]); try done.
  by destruct (is_sub2pc s).
Qed.

(** One participant, by its index. *)
Lemma post_msg_sends i p s : get_downstream_size s < OB_C2PC_SENDER_ID -> 0 <= i ->
  s.(participants_) !! Z.to_nat i = Some p -> exists m,
  post_msg v t i s = (v_rpc_post v t p, set_outbox (s.(outbox_) ++ (if reaches p then [m] else [])) s) /\
  receiver_ m = p /\ sender_ m = s.(ls_id_) /\ switch_msg_type_ (type_ m) = t.
Proof.
  intros Hsz Hi Hp. pose proof (lookup_lt_Some _ _ _ Hp) as Hl. unfold get_downstream_size in Hsz.
  unfold OB_C2PC_SENDER_ID in Hsz. unfold post_msg, get_downstream_size, OB_C2PC_UPSTREAM_ID, OB_C2PC_SENDER_ID.
  destruct (Z.leb_spec (Z.of_nat (length s.(participants_))) i); [lia |]. cbn [andb].
  destruct (Z.eqb_spec (INT64_MAX - 1) i); [lia |]. destruct (Z.eqb_spec (INT64_MAX - 2) i); [lia |].
  rewrite Hp. apply post_msg__sends.
Qed.

(** What a loop over the participants from index [k] does: it sends to those that
    [g] selects and that can be reached. *)
Definition broadcasts (g : Z -> bool) (k : Z) (l : list Z) (s s' : committer) : Prop :=
  exists ms, s' = set_outbox (s.(outbox_) ++ ms) s /\ sent_by s ms /\
             receiver_ <$> ms = selected (fun i p => g i && reaches p) k l.

Lemma broadcasts_nil g k s : broadcasts g k [] s s.
Proof. exists []. rewrite app_nil_r. split; [by destruct s |]. by split; [constructor |]. Qed.

Lemma broadcasts_skip g k p l s s' : g k = false -> broadcasts g (k + 1) l s s' -> broadcasts g k (p :: l) s s'.
Proof. intros Hg (ms & -> & Hs & Hm). exists ms. split; [done |]. split; [done |]. cbn. by rewrite Hg. Qed.

Lemma broadcasts_post g k p l m s s' : g k = true -> receiver_ m = p -> sender_ m = s.(ls_id_) ->
  switch_msg_type_ (type_ m) = t ->
  broadcasts g (k + 1) l (set_outbox (s.(outbox_) ++ (if reaches p then [m] else [])) s) s' ->
  broadcasts g k (p :: l) s s'.
Proof.
  intros Hg Hr Hs Ht' (ms & -> & Hsb & Hm). exists ((if reaches p then [m] else []) ++ ms). cbn [selected].
  rewrite Hg. cbn [andb set_outbox outbox_] in *. rewrite app_assoc. split; [done |]. unfold sent_by in *.
  destruct (reaches p); cbn; [| done]. split; [by constructor |]. by rewrite Hm, Hr.
Qed.

Lemma get_self_id_known s : s.(self_id_) = self_index s -> get_self_id s = (self_index s, s).
Proof.
  intros Hs. unfold get_self_id, self_index in *. destruct (Z.eqb_spec s.(self_id_) (-1)) as [E | E].
  - destruct (find_participant_id_ s.(ls_id_) s) as [ret id]. cbn in *. rewrite <- Hs. by destruct s.
  - by rewrite <- Hs.
Qed.

Lemma get_self_id_first s : self_ok s -> get_self_id s = (self_index s, set_self_id (self_index s) s).
Proof.
  intros Hs. unfold get_self_id. destruct (Z.eqb_spec s.(self_id_) (-1)) as [E | E].
  - unfold self_index. by destruct (find_participant_id_ s.(ls_id_) s).
  - destruct Hs as [Hs | Hs]; [done |]. unfold self_index. rewrite <- Hs. by destruct s.
Qed.

(** The rest of the list from index [k]. *)
Definition rest_from (k : Z) (l : list Z) (s : committer) : Prop :=
  0 <= k /\ drop (Z.to_nat k) s.(participants_) = l.

Lemma rest_from_cons k p l s : rest_from k (p :: l) s ->
  s.(participants_) !! Z.to_nat k = Some p /\ rest_from (k + 1) l s.
Proof.
  intros [Hk Hd]. split.
  - rewrite <- (Nat.add_0_r (Z.to_nat k)), <- lookup_drop. by rewrite Hd.
  - split; [lia |]. replace (Z.to_nat (k + 1)) with (Z.to_nat k + 1)%nat by lia. by rewrite <- drop_drop, Hd.
Qed.

Lemma seqZ_length_cons k p (l : list Z) : seqZ k (Z.of_nat (length (p :: l))) = k :: seqZ (k + 1) (Z.of_nat (length l)).
Proof. rewrite seqZ_cons by (cbn; lia). f_equal. f_equal; cbn; lia. Qed.

Lemma post_downstream_loop_sends l k ret s : s.(self_id_) = self_index s -> rest_from k l s ->
  get_downstream_size s < OB_C2PC_SENDER_ID ->
  broadcasts (fun i => negb (i =? self_index s)) k l s
    (post_downstream_loop v t (seqZ k (Z.of_nat (length l))) ret s).2.
Proof.
  revert k ret s. induction l as [| p l IH]; intros k ret s Hs Hr Hsz; [apply broadcasts_nil |].
  pose proof (proj1 Hr) as Hk. apply rest_from_cons in Hr as [Hp Hr']. rewrite seqZ_length_cons. cbn [post_downstream_loop].
  unfold mbind at 1, M_bind at 1. rewrite (get_self_id_known s Hs).
  destruct (Z.eqb_spec k (self_index s)) as [E | E]; cbn [negb].
  - apply broadcasts_skip; [by rewrite E, Z.eqb_refl | by apply IH].
  - destruct (post_msg_sends k p s Hsz) as (m & Hm & Hrm & Hsm & Htm); [done | done |].
    unfold mbind, M_bind. rewrite Hm. apply (broadcasts_post _ k p l m); try done.
    + by destruct (Z.eqb_spec k (self_index s)).
    + exact (IH (k + 1) _ (set_outbox _ s) Hs Hr' Hsz).
Qed.

Lemma retransmit_downstream_loop_sends l k self s : rest_from k l s ->
  get_downstream_size s < OB_C2PC_SENDER_ID ->
  broadcasts (fun i => negb (has_member s.(collected_) i) && negb (self =? i)) k l s
    (retransmit_downstream_loop v t self (seqZ k (Z.of_nat (length l))) s).2.
Proof.
  revert k s. induction l as [| p l IH]; intros k s Hr Hsz; [apply broadcasts_nil |].
  pose proof (proj1 Hr) as Hk. apply rest_from_cons in Hr as [Hp Hr']. rewrite seqZ_length_cons. cbn [retransmit_downstream_loop].
  unfold mbind at 1, M_bind at 1, gets. 
  destruct (negb (has_member s.(collected_) k) && negb (self =? k)) eqn:E.
  - destruct (post_msg_sends k p s Hsz) as (m & Hm & Hrm & Hsm & Htm); [done | done |].
    unfold mbind, M_bind. rewrite Hm. cbn [mret M_ret].
    apply (broadcasts_post _ k p l m); try done.
    exact (IH (k + 1) (set_outbox _ s) Hr' Hsz).
  - unfold mbind, M_bind, mret, M_ret. apply broadcasts_skip; [done | by apply IH].
Qed.
End send.

Lemma post_downstream_loop_first v t k ids ret s : self_ok s ->
  post_downstream_loop v t (k :: ids) ret s =
  post_downstream_loop v t (k :: ids) ret (set_self_id (self_index s) s).
Proof.
  intros Hs. cbn [post_downstream_loop]. unfold mbind at 1 3, M_bind at 1 3.
  by rewrite (get_self_id_first s Hs), (get_self_id_known (set_self_id (self_index s) s) eq_refl).
Qed.

(** The index of this participant in its own list is where it is itself. *)
Lemma self_index_spec s (i : nat) p : NoDup s.(participants_) -> s.(participants_) !! i = Some p ->
  (Z.of_nat i =? self_index s) = (p =? s.(ls_id_)).
Proof.
  intros Hnd Hp. unfold self_index, find_participant_id_.
  pose proof (find_participant_spec s.(ls_id_) 0 s.(participants_)) as Hf.
  destruct (find_participant s.(ls_id_) 0 s.(participants_)) as [ret k]. cbn [snd].
  destruct Hf as [(_ & Hk & Hl) | (_ & -> & Hn)].
  - rewrite Z.sub_0_r in Hl. destruct (Z.eqb_spec p s.(ls_id_)) as [-> | Hne].
    + apply Z.eqb_eq. rewrite (NoDup_lookup _ _ _ _ Hnd Hp Hl). lia.
    + apply Z.eqb_neq. intros <-. rewrite Nat2Z.id in Hl. congruence.
  - destruct (Z.eqb_spec p s.(ls_id_)) as [-> | Hne]; [| apply Z.eqb_neq; lia].
    exfalso. by apply Hn, (list_elem_of_lookup_2 _ i).
Qed.

(** The participants this one is the coordinator of. *)
Definition downstreams (s : committer) : list Z := filter (fun p => p <> s.(ls_id_)) s.(participants_).

Lemma filter_reachable v t s :
  filter (fun p => negb (p =? s.(ls_id_)) && reaches v t p = true) s.(participants_) =
  filter (fun p => v_rpc_post v t p = OB_SUCCESS) (downstreams s).
Proof.
  unfold downstreams. rewrite list_filter_filter. apply list_filter_iff. intros p. unfold reaches, ob_succ.
  rewrite andb_true_iff, negb_true_iff, Z.eqb_neq, Z.eqb_eq. tauto.
Qed.

(** A broadcast reaches everybody it can.  [post_downstream_msg] sends exactly
    one message of the given type to each participant other than the sender, in the
    order of the list; a participant the network refuses does not keep the ones
    after it from being sent theirs. *)
Theorem post_downstream_msg_sends_to_all v t s :
  is_2pc_request_msg t = true -> v_assign_log_info v = OB_SUCCESS ->
  NoDup s.(participants_) -> self_ok s -> get_downstream_size s < OB_C2PC_SENDER_ID ->
  exists ms, (post_downstream_msg v t s).2.(outbox_) = s.(outbox_) ++ ms /\ sent_by t s ms /\
    receiver_ <$> ms = filter (fun p => v_rpc_post v t p = OB_SUCCESS) (downstreams s).
Proof.
  intros Ht Hv Hnd Hs Hsz.
  assert (broadcasts v t (fun i => negb (i =? self_index s)) 0 s.(participants_) (set_self_id (self_index s) s)
    (post_downstream_loop v t (seqZ 0 (get_downstream_size s)) OB_SUCCESS (set_self_id (self_index s) s)).2)
    as (ms & Hms & Hsb & Hr).
  { by apply (post_downstream_loop_sends v t Ht Hv s.(participants_) 0 _ (set_self_id (self_index s) s)). }
  exists ms. split; [| split; [done |]].
  - unfold post_downstream_msg, mbind, M_bind, gets. destruct (seqZ 0 (get_downstream_size s)) eqn:E.
    + apply eq_sym, (f_equal outbox_) in Hms. exact (eq_sym Hms).
    + rewrite (post_downstream_loop_first v t _ _ _ s Hs), Hms. done.
  - rewrite Hr, <- filter_reachable, <- (selected_filter _ 0). apply selected_ext. intros i p Hp.
    by rewrite Z.add_0_l, (self_index_spec s i p Hnd Hp).
Qed.

(** A coordinator of three participants; the second cannot be reached. *)
Definition coordinator : committer :=
  Committer [] (-1) 1 1 [1; 2; 3] [] [] INIT PREPARE false invalid_scn invalid_scn invalid_scn invalid_scn
    None None false false None [] [] false ACTION_COMMIT.

Definition refused (bad : Z) : virtuals :=
  let v := virtuals_ok in {|
  v_bitset_push := v.(v_bitset_push); v_reserve := v.(v_reserve);
  v_push_participant := v.(v_push_participant); v_push_commit_part := v.(v_push_commit_part);
  v_mds_tx_end := v.(v_mds_tx_end); v_search_dup_redo := v.(v_search_dup_redo); v_is_dup_tx := v.(v_is_dup_tx);
  v_dup_redo_sync_completed := v.(v_dup_redo_sync_completed); v_dup_redo_sync := v.(v_dup_redo_sync);
  v_dup_pre_commit := v.(v_dup_pre_commit); v_mt_prepared := v.(v_mt_prepared); v_get_gts := v.(v_get_gts);
  v_max_read_version := v.(v_max_read_version); v_dup_max_read_version := v.(v_dup_max_read_version);
  v_restart_timer := v.(v_restart_timer); v_tx_data_writable := v.(v_tx_data_writable);
  v_wait_gts_elapse := v.(v_wait_gts_elapse); v_acquire_ctx_ref := v.(v_acquire_ctx_ref);
  v_assign_log_info := v.(v_assign_log_info); v_notify_array := v.(v_notify_array);
  v_notify_data_source := v.(v_notify_data_source); v_retain_ctx := v.(v_retain_ctx);
  v_remove_dup := v.(v_remove_dup); v_is_follower := v.(v_is_follower); v_has_log := v.(v_has_log);
  v_stc_expired := v.(v_stc_expired); v_srr_valid := v.(v_srr_valid); v_revert_ctx := v.(v_revert_ctx);
  v_tx_end := v.(v_tx_end); v_trans_clear := v.(v_trans_clear); v_big_segment_active := v.(v_big_segment_active);
  v_submit_log := v.(v_submit_log); v_log_ts := v.(v_log_ts);
  v_rpc_post _ p := if p =? bad then OB_EAGAIN else OB_SUCCESS;
  v_set_app_trace_info := v.(v_set_app_trace_info); v_min_version_4_1 := v.(v_min_version_4_1) |}.

Lemma post_downstream_msg_sends_to_all_witness :
  exists ms, (post_downstream_msg (refused 2) OB_MSG_TX_PREPARE_REQ coordinator).2.(outbox_) = ms /\
    receiver_ <$> ms = [3].
Proof.
  destruct (post_downstream_msg_sends_to_all (refused 2) OB_MSG_TX_PREPARE_REQ coordinator) as (ms & Hm & _ & Hr).
  - done.
  - done.
  - by apply (bool_decide_unpack _).
  - by left.
  - done.
  - exists ms. split; [exact Hm | exact Hr].
Defined.

(** The participants whose response is missing. *)
Definition uncollected (s : committer) : list Z :=
  selected (fun i p => negb (has_member s.(collected_) i) && negb (p =? s.(ls_id_))) 0 s.(participants_).

(** Retransmission asks exactly those that have not answered.  For a
    coordinator whose phase has a request, [retransmit_downstream_msg_] sends that
    request to each participant other than the sender whose response is not
    collected, and to nobody else. *)
Theorem retransmit_downstream_msg_asks_the_missing v t s :
  get_2pc_role s = ROOT -> s.(msg_2pc_cache_) = None -> decide_downstream_msg_type_ s = (OB_SUCCESS, true, t) ->
  v_assign_log_info v = OB_SUCCESS -> NoDup s.(participants_) -> self_ok s ->
  get_downstream_size s < OB_C2PC_SENDER_ID ->
  exists ms, (retransmit_downstream_msg_ v s).2.(outbox_) = s.(outbox_) ++ ms /\ sent_by t s ms /\
    receiver_ <$> ms = filter (fun p => v_rpc_post v t p = OB_SUCCESS) (uncollected s).
Proof.
  intros Hrole Hc Hd Hv Hnd Hs Hsz.
  assert (is_2pc_request_msg t = true) as Ht.
  { unfold decide_downstream_msg_type_ in Hd. destruct s.(upstream_state_); try done; try (by injection Hd as <-).
    destruct (is_sub2pc s); by inversion Hd. }
  set (s1 := set_self_id (self_index s) s).
  destruct (retransmit_downstream_loop_sends v t Ht Hv s.(participants_) 0 (self_index s) s1) as (ms & Hms & Hsb & Hr);
    [by split | done |].
  exists ms. split; [| split; [done |]].
  - unfold retransmit_downstream_msg_, is_root, is_internal, is_real_upstream, mbind, M_bind, gets, mret, M_ret, id.
    rewrite Hrole, Hc, (bool_decide_true (ROOT = ROOT)) by done. cbn [orb andb]. rewrite (get_self_id_first s Hs).
    change (decide_downstream_msg_type_ (set_self_id (self_index s) s)) with (decide_downstream_msg_type_ s).
    rewrite Hd. change (ob_fail OB_SUCCESS) with false. cbv iota. fold s1.
    change (get_downstream_size s1) with (get_downstream_size s). unfold get_downstream_size.
    destruct (retransmit_downstream_loop _ _ _ _ s1) as [? s2]. cbn [snd] in *. by rewrite Hms.
  - unfold uncollected. rewrite Hr, filter_selected. apply selected_ext. intros i p Hp.
    rewrite Z.add_0_l, Z.eqb_sym, (self_index_spec s i p Hnd Hp). by rewrite <- reaches_decide.
Qed.

Lemma retransmit_downstream_msg_asks_the_missing_witness :
  exists ms, (retransmit_downstream_msg_ virtuals_ok (set_collected [2] coordinator)).2.(outbox_) = ms /\
    receiver_ <$> ms = [3].
Proof.
  destruct (retransmit_downstream_msg_asks_the_missing virtuals_ok OB_MSG_TX_PREPARE_REQ (set_collected [2] coordinator))
    as (ms & Hm & _ & Hr).
  - done.
  - done.
  - done.
  - done.
  - by apply (bool_decide_unpack _).
  - by left.
  - done.
  - exists ms. split; [exact Hm | exact Hr].
Defined.

(** ** Collecting the responses *)

(** The responses that are collected are those of participants other than this one. *)
Definition collected_in_range (s : committer) : Prop :=
  forall i, has_member s.(collected_) i = true -> 0 <= i < get_downstream_size s /\ i <> self_index s.

(** [n] indices without [self]: a set of them is complete when its size is. *)
Lemma members_complete b n self : bitset_wf b -> 0 <= self < n ->
  (forall i, has_member b i = true -> 0 <= i < n /\ i <> self) ->
  num_members b = n - 1 <-> forall i, 0 <= i < n -> i <> self -> has_member b i = true.
Proof.
  intros Hwf Hself Hin. rewrite (num_members_length b Hwf).
  assert (forall i, i ∈ members b <-> has_member b i = true) as Hm
    by (intros i; by rewrite elem_of_members, has_member_bit_at).
  assert (NoDup (self :: members b)) as Hnd.
  { apply NoDup_cons. split; [| apply NoDup_members]. rewrite Hm. intros Hx. by destruct (Hin _ Hx). }
  assert (self :: members b ⊆+ seqZ 0 n) as Hsub.
  { apply NoDup_submseteq; [done |]. intros i. rewrite elem_of_cons, elem_of_seqZ, Hm.
    intros [-> | Hi]; [lia |]. apply Hin in Hi. lia. }
  split.
  - intros Hl i Hi Hne. apply Hm.
    assert (self :: members b ≡ₚ seqZ 0 n) as Hp.
    { apply submseteq_length_Permutation; [done |]. rewrite length_seqZ. cbn. lia. }
    assert (i ∈ self :: members b) as Hx by (rewrite Hp; apply elem_of_seqZ; lia).
    by apply elem_of_cons in Hx as [-> |].
  - intros Hall. assert (seqZ 0 n ⊆+ self :: members b) as Hsub2.
    { apply NoDup_submseteq; [apply NoDup_seqZ |]. intros i. rewrite elem_of_cons, elem_of_seqZ, Hm.
      intros Hi. destruct (decide (i = self)); [by left | right]. by apply Hall. }
    apply submseteq_length in Hsub, Hsub2. rewrite length_seqZ in Hsub, Hsub2. cbn in Hsub, Hsub2. lia.
Qed.

Lemma self_index_lookup s : s.(ls_id_) ∈ s.(participants_) -> 0 <= self_index s < get_downstream_size s.
Proof.
  intros Hin. unfold self_index, get_downstream_size, find_participant_id_.
  pose proof (find_participant_spec s.(ls_id_) 0 s.(participants_)) as Hf.
  destruct (find_participant _ _ _) as [ret k]. cbn [snd]. rewrite Z.sub_0_r in Hf.
  destruct Hf as [(_ & Hk & Hl) | (_ & _ & Hn)]; [| done]. apply lookup_lt_Some in Hl. lia.
Qed.

(** The count decides completeness.  [all_downstream_collected_] of a
    coordinator compares the number of collected responses with the number of
    participants; it holds exactly when every participant other than the
    coordinator has answered. *)
Theorem all_downstream_collected_complete s :
  get_2pc_role s = ROOT -> NoDup s.(participants_) -> s.(ls_id_) ∈ s.(participants_) ->
  bitset_wf s.(collected_) -> collected_in_range s ->
  all_downstream_collected_ s = true <-> uncollected s = [].
Proof.
  intros Hrole Hnd Hself Hwf Hin. unfold all_downstream_collected_. rewrite Hrole, Z.eqb_eq.
  rewrite (members_complete _ _ (self_index s) Hwf (self_index_lookup s Hself) Hin).
  unfold uncollected, get_downstream_size. rewrite selected_nil. split.
  - intros H i p Hp. rewrite Z.add_0_l, <- (self_index_spec s i p Hnd Hp).
    destruct (Z.eqb_spec (Z.of_nat i) (self_index s)); [by rewrite andb_false_r |].
    rewrite H; [done | apply lookup_lt_Some in Hp; lia | done].
  - intros H i Hi Hne. destruct (lookup_lt_is_Some_2 s.(participants_) (Z.to_nat i)) as [p Hp]; [lia |].
    specialize (H _ _ Hp). rewrite Z.add_0_l, <- (self_index_spec s _ p Hnd Hp), Z2Nat.id in H by lia.
    apply Z.eqb_neq in Hne. rewrite Hne, andb_true_r in H. by apply negb_false_iff.
Qed.

Lemma all_downstream_collected_complete_witness :
  all_downstream_collected_ (set_collected [6] coordinator) = true /\ uncollected (set_collected [6] coordinator) = [].
Proof.
  split; [by vm_compute |].
  apply (all_downstream_collected_complete (set_collected [6] coordinator)).
  - done.
  - by apply (bool_decide_unpack _).
  - by apply (bool_decide_unpack _).
  - by apply (Forall_cons_2 _ _ _); [by split | apply Forall_nil_2].
  - intros i Hi. rewrite has_member_bit_at in Hi. pose proof (bit_at_lt _ _ Hi) as Hr. cbn in Hr.
    assert (i ∈ members [6]) as Hm by (by apply elem_of_members).
    assert (members [6] = [1; 2]) as Hx by (by vm_compute). rewrite Hx in Hm.
    rewrite !elem_of_cons in Hm. destruct Hm as [-> | [-> | []%not_elem_of_nil]]; by vm_compute.
  - by vm_compute.
Defined.

(** ** Driving the state machine *)

(** The variables of the state machine. *)
Definition machine (s : committer) := (s.(state_), s.(upstream_state_), s.(collected_)).

Definition steady {A} (m : M committer A) : Prop := forall s, wp m (fun _ s' => machine s' = machine s) s.

Lemma steady_bind {A B} (m : M committer A) (k : A -> M committer B) :
  steady m -> (forall x, steady (k x)) -> steady (m ≫= k).
Proof.
  intros Hm Hk s. wstep. wcall (Hm s). intros x s1 H1. wcall (Hk x s1). intros y s2 H2. congruence.
Qed.

Lemma steady_ret {A} (x : A) : steady (mret x).
Proof. by intros s. Qed.
Lemma steady_gets {A} (f : committer -> A) : steady (gets f).
Proof. by intros s. Qed.
Lemma steady_modify f : (forall s, machine (f s) = machine s) -> steady (modify f).
Proof. intros Hf s. apply Hf. Qed.
Lemma steady_if {A} (b : bool) (m m' : M committer A) : steady m -> steady m' -> steady (if b then m else m').
Proof. by destruct b. Qed.

Ltac steady := repeat first
  [ apply steady_ret | apply steady_gets | apply steady_modify; intros; reflexivity
  | apply steady_bind; [| intros ?] | apply steady_if
  | match goal with
    | |- steady (let '(_, _) := ?p in _) => destruct p
    | |- steady (match ?x with _ => _ end) => destruct x
    end ].

Section drive.
Context (v : virtuals).

Lemma generate_prepare_version_steady : steady (generate_prepare_version_ v).
Proof. unfold generate_prepare_version_, get_gts_. steady. Qed.

Lemma check_and_response_scheduler_steady st r : steady (check_and_response_scheduler_ st r).
Proof. unfold check_and_response_scheduler_, reply_to_scheduler_for_sub2pc, respond. steady. Qed.

Lemma submit_log_out_steady t : steady (submit_log_out v t).
Proof. unfold submit_log_out, after_submit_log_. steady. Qed.

Lemma merge_steady : steady (merge_intermediate_participants v).
Proof.
  intros s. unfold wp, merge_intermediate_participants. repeat case_match; done.
Qed.

(** What a phase can change before it is entered: a context that was marked for
    abort turns to ABORT instead of preparing. *)
Definition before_phase (next : ObTxState) (s s' : committer) : Prop :=
  machine s' = machine s \/
  (next = PREPARE /\ s.(force_abort_) = true /\ machine s' = (s.(state_), ABORT, s.(collected_))).

Lemma forced_abort s : s.(force_abort_) = true ->
  wp (if ob_fail (v_mds_tx_end v) then mret (v_mds_tx_end v)
      else ret ← compensate_abort_log_ v; mret (if ob_fail ret then ret else OB_TRANS_KILLED))
     (fun r s' => ob_fail r = true /\
        (machine s' = machine s \/ machine s' = (s.(state_), ABORT, s.(collected_)))) s.
Proof.
  intros Hf. wstep; [by wsteps; auto |]. unfold compensate_abort_log_. do 3 wstep.
  destruct (_ && _); [by wsteps; auto |]. do 2 wstep. unfold submit_log_impl_. wstep; [by wsteps; auto |].
  unfold set_upstream_state_. do 2 wstep. wcall (submit_log_out_steady OB_LOG_TX_ABORT). intros r s1 H1. wstep.
  split; [| right; by rewrite H1]. by destruct (ob_fail r) eqn:E.
Qed.

Lemma do_phase_before next s : wp (do_phase v next) (fun r s' =>
  before_phase next s s' /\ (machine s' = machine s \/ ob_fail r.1 = true)) s.
Proof.
  pose proof check_and_response_scheduler_steady as Hc.
  assert (forall (m : M committer (Z * bool)), steady m ->
    wp m (fun r s' => before_phase next s s' /\ (machine s' = machine s \/ ob_fail r.1 = true)) s) as Hst.
  { intros m Hm. wcall (Hm s). intros r s' H. split; [by left | by left]. }
  assert (forall r, wp (let ret := if ob_succ r then v_search_dup_redo v else r in
    let '(ret, no_need_submit_log) :=
      if ob_succ ret && v_is_dup_tx v && negb (v_dup_redo_sync_completed v)
      then (v_dup_redo_sync v, true) else (ret, false) in
    let ret := if ob_succ ret then v_mds_tx_end v else ret in
    ret ← (if ob_succ ret then generate_prepare_version_ v else mret ret);
    let ret := if ob_succ ret then v_restart_timer v else ret in
    mret (ret, no_need_submit_log)) (fun r s' => before_phase next s s' /\ (machine s' = machine s \/ ob_fail r.1 = true)) s) as Hst'.
  { intros r. apply Hst. pose proof generate_prepare_version_steady. cbv zeta. steady; auto. }
  destruct next; cbn [do_phase]; try (apply Hst; unfold do_pre_commit, do_commit, do_abort, do_clear; steady; auto; fail).
  unfold do_prepare. do 2 wstep. destruct s.(force_abort_) eqn:Hf; [| exact (Hst' OB_SUCCESS)].
  wstep. wcall (forced_abort s Hf). intros r s1 [Hr H1].
  pose proof (ob_fail_succ r Hr) as Hr'. 
  repeat (rewrite Hr'; cbv iota beta zeta; cbn [andb]). wsteps.
  repeat (rewrite Hr'; cbv iota beta zeta). split; [| by right]. destruct H1; [by left | right]. by rewrite Hf.
Qed.

Lemma submit_log_keeps t s : (t = OB_LOG_TX_ABORT -> s.(upstream_state_) = ABORT) ->
  wp (submit_log v t) (fun _ s' => machine s' = machine s) s.
Proof.
  intros Ht. unfold submit_log, submit_log_impl_. do 3 wstep; [by wsteps |]. wstep; [by wsteps |].
  pose proof (submit_log_out_steady t) as Hs.
  destruct t; try by wsteps; try apply Hs.
  - wstep. wcall generate_prepare_version_steady. intros r s1 H1. do 2 wstep.
    wstep; [| by wsteps]. wcall Hs. intros. congruence.
  - unfold set_upstream_state_. do 2 wstep. wcall Hs. intros r s1 ->. unfold machine. cbn.
    by rewrite (Ht eq_refl).
Qed.

Lemma submit_2pc_log_steady : steady (submit_2pc_log_ v).
Proof.
  intros s. unfold submit_2pc_log_. do 2 wstep. unfold decide_2pc_log_type_.
  destruct (is_2pc_logging s); [by wsteps |]. destruct (state_ltb _ _); [| by wsteps].
  assert (forall t ret, (t = OB_LOG_TX_ABORT -> s.(upstream_state_) = ABORT) ->
    wp (submit_log v t ;; mret ret : M committer Z) (fun _ s' => machine s' = machine s) s) as Hs.
  { intros t ret Ht. wstep. wcall (submit_log_keeps t s Ht). intros. by wstep. }
  destruct s.(upstream_state_); try by wsteps.
  all: repeat case_match; simplify_eq; try by wsteps.
  all: wsucc; by apply Hs.
Qed.

(** What [drive_self_2pc_phase] leaves behind. *)
Definition drive_result (next : ObTxState) (s : committer) (ret : Z) (s' : committer) : Prop :=
  s'.(state_) = s.(state_) /\
  (is_2pc_logging s || is_2pc_blocking s = true -> ret = OB_EAGAIN /\ s' = s) /\
  (ret = OB_SUCCESS -> s'.(upstream_state_) = next) /\
  (ret <> OB_SUCCESS -> s'.(collected_) = s.(collected_) /\
     (s'.(upstream_state_) = s.(upstream_state_) \/
      (next = PREPARE /\ s.(force_abort_) = true /\ s'.(upstream_state_) = ABORT))).

Lemma machine_inv s s' : machine s' = machine s ->
  s'.(state_) = s.(state_) /\ s'.(upstream_state_) = s.(upstream_state_) /\ s'.(collected_) = s.(collected_).
Proof. unfold machine. by intros [= -> -> ->]. Qed.

Lemma ob_fail_ne r : ob_fail r = true -> r <> OB_SUCCESS.
Proof. by intros H ->. Qed.

Lemma before_phase_fails next s ret s' : is_2pc_logging s || is_2pc_blocking s = false ->
  before_phase next s s' -> ob_fail ret = true -> drive_result next s ret s'.
Proof.
  intros Hb H Hr. apply ob_fail_ne in Hr. unfold drive_result. rewrite Hb.
  destruct H as [(Hs & Hu & Hc)%machine_inv | (Hn & Hf & [= Hs Hu Hc])].
  - split_and!; [done | done | done | auto].
  - split_and!; [done | done | done | intros _]. split; [done | right; done].
Qed.

Lemma drive_wp next s : wp (drive_self_2pc_phase v next) (drive_result next s) s.
Proof.
  unfold drive_self_2pc_phase. do 3 wstep.
  destruct (is_2pc_logging s) eqn:Hl; [do 2 wstep; unfold drive_result; rewrite Hl; by wsteps; split_and!; auto |].
  destruct (is_2pc_blocking s) eqn:Hb; [do 2 wstep; unfold drive_result; rewrite Hl, Hb; by wsteps; split_and!; auto |].
  assert (is_2pc_logging s || is_2pc_blocking s = false) as Hlb by (by rewrite Hl, Hb).
  assert (forall s1 no_log, s1.(state_) = s.(state_) -> s1.(upstream_state_) = next ->
    wp (s ← gets id; if negb no_log && negb (is_2pc_logging s) then submit_2pc_log_ v ;; mret OB_SUCCESS
        else mret OB_SUCCESS : M committer Z) (drive_result next s) s1) as Hend.
  { intros s1 no_log Hs Hu. do 2 wstep. wstep.
    - wstep. wcall submit_2pc_log_steady. intros r s2 (Hs2 & Hu2 & _)%machine_inv. wstep.
      unfold drive_result. rewrite Hlb. split_and!; [congruence | done | congruence | done].
    - wstep. unfold drive_result. rewrite Hlb. by split_and!. }
  destruct (state_eqb next s.(upstream_state_)) eqn:Hq.
  { apply bool_decide_eq_true in Hq. wstep. wsucc. by apply (Hend s false). }
  wstep. wcall do_phase_before. intros [ret no_log] s1 [H1 H1']. cbn [fst] in H1'.
  destruct (ob_fail ret) eqn:Hr; [wstep; rewrite Hr; wstep; by apply before_phase_fails |].
  destruct H1' as [Hm | ?]; [| done]. wstep. wcall merge_steady. intros r2 s2 H2.
  assert (machine s2 = machine s) as Hm2 by congruence. apply machine_inv in Hm2 as (Hs2 & Hu2 & Hc2).
  destruct (ob_fail r2) eqn:Hr2.
  { wstep. rewrite Hr2. wstep. apply before_phase_fails; [done | left; congruence | done]. }
  unfold reset_collected, set_upstream_state_. do 5 wstep. rewrite Hr2.
  assert (r2 = OB_SUCCESS) as ->. { unfold ob_fail in Hr2. apply negb_false_iff in Hr2. by apply Z.eqb_eq. }
  by apply Hend.
Qed.

End drive.
