(* ===== verification/TwoPhaseSystem.v ===== *)
(** * Atomic commit of a distributed transaction

    The participants of one transaction, each a context of [TwoPhaseCommitter],
    exchange messages over a network that loses, duplicates, delays and reorders
    them.  A participant writes its logs to a replicated log and can crash at any
    time; it is rebuilt from its log by [replay_log].  Whatever the timestamp
    service, the log service and the other components return, the participants
    agree on the outcome, and the scheduler is told the outcome they agree on. *)

From Stdlib Require Import ZArith Lia Bool.
From stdpp Require Import base list option numbers sets gmap.
From S2P Require Import Prelude BitSet Serialization Scn TwoPhaseCommitter TwoPhaseNode.

Local Open Scope Z_scope.

(** ** The system *)

(** [nodes]: the contexts in memory; [hist]: the state logs each participant has
    made durable; [net]: every message that was sent; [client]: the responses to
    the scheduler. *)
Record system := System {
  nodes : gmap Z committer;
  hist : Z -> list ObTwoPhaseCommitLogType;
  net : list ObTxMsg;
  client : list scheduler_resp
}.

(** The messages and responses of a call leave the context. *)
Definition drain (s : committer) : committer := set_outbox [] (set_scheduler_resp [] s).

Definition after_call (S : system) (j : Z) (s' : committer) : system :=
  System (<[j := drain s']> S.(nodes)) S.(hist)
         (S.(net) ++ s'.(outbox_)) (S.(client) ++ s'.(scheduler_resp_)).

Definition append_log (h : Z -> list ObTwoPhaseCommitLogType) (j : Z) (logs : list ObTwoPhaseCommitLogType)
    : Z -> list ObTwoPhaseCommitLogType :=
  fun i => if decide (i = j) then h i ++ logs else h i.

(** What the bodies of the replayed logs put into a context besides its state. *)
Record log_body := LogBody {
  body_prepare_version : SCN;
  body_commit_version : SCN;
  body_end_log_ts : SCN;
  body_max_2pc_commit_scn : SCN;
  body_commit_parts : list ObTxExecPart;
  body_transfer_blocking : bool
}.

(** The context that is created for the replay: its place in the transaction is in
    the logs and is that of the context that wrote them; nothing is assumed of the
    versions in [w]. *)
Definition blank (w : log_body) (s : committer) : committer :=
  Committer [] (-1) s.(ls_id_) s.(upstream_) s.(participants_) w.(body_commit_parts) [] INIT INIT s.(is_sub2pc_)
    w.(body_prepare_version) w.(body_commit_version) w.(body_end_log_ts) w.(body_max_2pc_commit_scn) None None
    w.(body_transfer_blocking) false None [] [] false ACTION_COMMIT.

Definition replay_all (v : virtuals) (logs : list ObTwoPhaseCommitLogType) (s : committer) : committer :=
  foldl (fun s log => (replay_log v log s).2) s logs.

(** A context without a prepare log has nothing to resume, and one with a clear
    log is not resumed. *)
Definition resumes (logs : list ObTwoPhaseCommitLogType) : bool :=
  bool_decide (OB_LOG_TX_PREPARE ∈ logs) && negb (bool_decide (OB_LOG_TX_CLEAR ∈ logs)).

Definition pending_logs (s : committer) : list ObTwoPhaseCommitLogType :=
  option_list s.(state_log_submitting_).

Section system.
Context (root : Z) (parts : list Z).

Inductive step (S : system) : system -> Prop :=
| step_message j s v max_decided m :
    m ∈ S.(net) -> receiver_ m = j -> S.(nodes) !! j = Some s ->
    step S (after_call S j (handle_tx_batch_req v true true max_decided m s).2)
| step_orphan v max_decided m :
    m ∈ S.(net) -> receiver_ m ∈ parts -> S.(nodes) !! receiver_ m = None ->
    step S (System S.(nodes) S.(hist)
              (S.(net) ++ option_list (handle_tx_orphan_2pc_msg v max_decided m).2) S.(client))
| step_commit s v :
    S.(nodes) !! root = Some s -> s.(is_exiting_) = false ->
    step S (after_call S root (two_phase_commit v s).2)
| step_two_phase_abort s v :
    S.(nodes) !! root = Some s -> s.(is_exiting_) = false ->
    step S (after_call S root (two_phase_abort v s).2)
| step_local_abort j s v :
    S.(nodes) !! j = Some s -> s.(is_exiting_) = false ->
    s.(upstream_state_) = INIT -> is_2pc_logging s = false ->
    step S (after_call S j (abort v s).2)
| step_delay_abort j s :
    S.(nodes) !! j = Some s -> s.(is_exiting_) = false ->
    step S (after_call S j (set_force_abort true s))
| step_block j s b :
    S.(nodes) !! j = Some s -> s.(is_exiting_) = false ->
    step S (after_call S j (set_transfer_blocking b s))
| step_timeout j s v :
    S.(nodes) !! j = Some s -> s.(is_exiting_) = false ->
    step S (after_call S j (handle_timeout v s).2)
| step_retry_prepare j s v :
    S.(nodes) !! j = Some s -> s.(is_exiting_) = false ->
    state_ltb s.(upstream_state_) PREPARE = true ->
    step S (after_call S j (drive_self_2pc_phase v PREPARE s).2)
| step_gts j s v gts :
    S.(nodes) !! j = Some s -> s.(is_exiting_) = false -> s.(gts_waiting_) = Some GET_GTS ->
    step S (after_call S j (get_gts_callback v gts s).2)
| step_gts_elapse j s v gts :
    S.(nodes) !! j = Some s -> s.(is_exiting_) = false -> s.(gts_waiting_) = Some WAIT_GTS_ELAPSING ->
    step S (after_call S j (gts_elapse_callback v gts s).2)
| step_gts_interrupted j s v off ls :
    S.(nodes) !! j = Some s -> s.(is_exiting_) = false ->
    step S (after_call S j (gts_callback_interrupted v off ls s).2)
| step_log j s s' v log :
    S.(nodes) !! j = Some s -> s.(is_exiting_) = false -> s.(state_log_submitting_) = Some log ->
    on_success_ops_ v log s = (Some OB_SUCCESS, s') ->
    step S (after_call (System S.(nodes) (append_log S.(hist) j [log]) S.(net) S.(client)) j s')
| step_crash j s v w (logs : list ObTwoPhaseCommitLogType) :
    S.(nodes) !! j = Some s -> s.(is_exiting_) = false ->
    logs = [] \/ logs = pending_logs s ->
    step S (System (if resumes (S.(hist) j ++ logs)
                    then <[j := replay_all v (S.(hist) j ++ logs) (blank w s)]> S.(nodes)
                    else delete j S.(nodes))
                   (append_log S.(hist) j logs) S.(net) S.(client))
| step_exit j s :
    S.(nodes) !! j = Some s -> s.(is_exiting_) = true ->
    step S (System (delete j S.(nodes)) S.(hist) S.(net) S.(client)).

(** A context before the protocol: the scheduler has sent the participants to the
    coordinator. *)
Definition fresh (j : Z) (s : committer) : Prop :=
  s.(ls_id_) = j /\ s.(self_id_) = -1 /\ s.(collected_) = [] /\
  s.(intermediate_participants_) = [] /\ s.(is_sub2pc_) = false /\ s.(is_exiting_) = false /\
  (if decide (j = root) then s.(upstream_) = root /\ s.(participants_) = parts
   else s.(upstream_) = INVALID_LS_ID /\ s.(participants_) = []) /\
  s.(state_) = INIT /\ s.(upstream_state_) = INIT /\
  s.(state_log_submitting_) = None /\ s.(gts_waiting_) = None /\
  s.(msg_2pc_cache_) = None /\ s.(outbox_) = [] /\ s.(scheduler_resp_) = [].

Definition initial (S : system) : Prop :=
  (forall j s, S.(nodes) !! j = Some s -> j ∈ parts /\ fresh j s) /\
  (forall j, j ∈ parts -> is_Some (S.(nodes) !! j)) /\
  (forall j, S.(hist) j = []) /\ S.(net) = [] /\ S.(client) = [].

Inductive reachable : system -> Prop :=
| reachable_initial S : initial S -> reachable S
| reachable_step S S' : reachable S -> step S S' -> reachable S'.

(** ** The invariant *)

Definition is_prepared (S : system) (i : Z) : Prop := OB_LOG_TX_PREPARE ∈ S.(hist) i.
Definition is_committed (S : system) (i : Z) : Prop := OB_LOG_TX_COMMIT ∈ S.(hist) i.
Definition is_aborted (S : system) (i : Z) : Prop := OB_LOG_TX_ABORT ∈ S.(hist) i.
Definition is_cleared (S : system) (i : Z) : Prop := OB_LOG_TX_CLEAR ∈ S.(hist) i.

Definition gone (S : system) (i : Z) : Prop :=
  match S.(nodes) !! i with None => True | Some s => s.(is_exiting_) = true end.

(** A participant that has not prepared and never will. *)
Definition doomed (S : system) : Prop :=
  exists i, i ∈ parts /\ ~ is_prepared S i /\ (gone S i \/ is_aborted S i).

(** The coordinator is aborting and has not prepared. *)
Definition self_abort (S : system) : Prop :=
  exists s, S.(nodes) !! root = Some s /\ s.(is_exiting_) = false /\
            s.(upstream_state_) = ABORT /\ s.(state_) = INIT.

Definition abort_reason (S : system) : Prop := doomed S \/ self_abort S.

Definition facts_of (S : system) (j : Z) : facts := {|
  prepared := is_prepared S;
  committed := is_committed S;
  aborted := is_aborted S;
  abort_ok := if decide (j = root) then doomed S else abort_reason S;
  latched := j = root /\ self_abort S |}.

Definition everybody_prepared (S : system) : Prop := forall i, i ∈ parts -> is_prepared S i.

(** The logs of a context and its durable state. *)
Definition hist_ok (h : list ObTwoPhaseCommitLogType) (d : ObTxState) : Prop :=
  match d with
  | INIT => h = []
  | PREPARE | PRE_COMMIT => h = [OB_LOG_TX_PREPARE]
  | COMMIT => h = [OB_LOG_TX_PREPARE; OB_LOG_TX_COMMIT]
  | ABORT => h = [OB_LOG_TX_ABORT] \/ h = [OB_LOG_TX_PREPARE; OB_LOG_TX_ABORT]
  | _ => False
  end.

Definition node_ok (S : system) (j : Z) (s : committer) : Prop :=
  s.(outbox_) = [] /\ s.(scheduler_resp_) = [] /\
  (s.(is_exiting_) = true \/ (idle root parts (facts_of S j) j s /\ hist_ok (S.(hist) j) s.(state_))).

(** The sequences of state logs a participant writes. *)
Definition log_shapes : list (list ObTwoPhaseCommitLogType) :=
  [ []; [OB_LOG_TX_PREPARE];
    [OB_LOG_TX_PREPARE; OB_LOG_TX_COMMIT]; [OB_LOG_TX_PREPARE; OB_LOG_TX_COMMIT; OB_LOG_TX_CLEAR];
    [OB_LOG_TX_ABORT]; [OB_LOG_TX_ABORT; OB_LOG_TX_CLEAR];
    [OB_LOG_TX_PREPARE; OB_LOG_TX_ABORT]; [OB_LOG_TX_PREPARE; OB_LOG_TX_ABORT; OB_LOG_TX_CLEAR] ].

(** A context leaves after a prepare log only with a decision. *)
Definition ended (h : list ObTwoPhaseCommitLogType) : Prop :=
  OB_LOG_TX_PREPARE ∈ h -> OB_LOG_TX_ABORT ∈ h \/ (OB_LOG_TX_COMMIT ∈ h /\ OB_LOG_TX_CLEAR ∈ h).

Definition resp_ok (S : system) (r : scheduler_resp) : Prop :=
  forall st, r = TX_COMMIT_RESP st -> if decide (st = OB_SUCCESS) then everybody_prepared S else abort_reason S.

Record sys_inv (S : system) : Prop := {
  si_nodes : forall j s, S.(nodes) !! j = Some s -> j ∈ parts /\ node_ok S j s;
  si_net : Forall (msg_ok root parts (facts_of S root) (abort_reason S)) S.(net);
  si_client : Forall (resp_ok S) S.(client);
  si_commit : forall i, i ∈ parts -> is_committed S i -> everybody_prepared S;
  si_abort : forall i, i ∈ parts -> is_aborted S i -> abort_ok (facts_of S i);
  si_gone : forall i, i ∈ parts -> gone S i -> ended (S.(hist) i);
  si_clear : forall i, i ∈ parts -> is_committed S i -> is_cleared S i ->
    if decide (i = root) then leaves_committed root parts (facts_of S i) else is_committed S root;
  si_shape : forall i, i ∈ parts -> S.(hist) i ∈ log_shapes
}.

Context (T : topology root parts).

(** ** What the invariant gives to a context *)

Lemma node_inv_of S j s : sys_inv S -> S.(nodes) !! j = Some s -> s.(is_exiting_) = false ->
  idle root parts (facts_of S j) j s /\ hist_ok (S.(hist) j) s.(state_).
Proof.
  intros I Hn He. destruct (si_nodes S I j s Hn) as (_ & _ & _ & [? | ?]); [congruence | done].
Qed.

Lemma node_drained S j s : sys_inv S -> S.(nodes) !! j = Some s -> s.(outbox_) = [] /\ s.(scheduler_resp_) = [].
Proof. intros I Hn. by destruct (si_nodes S I j s Hn) as (_ & ? & ? & _). Qed.

Lemma self_abort_not_prepared S : sys_inv S -> self_abort S -> ~ is_prepared S root.
Proof.
  intros I (s & Hn & He & _ & Hd). destruct (node_inv_of S root s I Hn He) as [_ Hh].
  rewrite Hd in Hh. unfold is_prepared. rewrite Hh. apply not_elem_of_nil.
Qed.

Lemma reason_excl S : sys_inv S -> abort_reason S -> everybody_prepared S -> False.
Proof.
  intros I [(i & Hi & Hn & _) | Hs] Hall; [by apply Hn, Hall |].
  apply (self_abort_not_prepared S I Hs), Hall, (t_root T).
Qed.

Lemma abort_ok_reason S j : abort_ok (facts_of S j) -> abort_reason S.
Proof. cbn. case_decide; [by left | done]. Qed.

Lemma facts_ok_of S j : sys_inv S -> j ∈ parts -> facts_ok root parts (facts_of S j) j.
Proof.
  intros I Hj. constructor.
  - intros Ha Hall. apply (reason_excl S I); [by eapply abort_ok_reason | done].
  - intros [_ Hs]. by apply (self_abort_not_prepared S).
  - intros i Hi Hc. by apply (si_commit S I i).
  - by apply (si_abort S I).
Qed.

(** ** One context moves *)

Section move.
Context (S S' : system) (I : sys_inv S) (j : Z) (Hj : j ∈ parts).
Context (Hnodes : forall i, i <> j -> S'.(nodes) !! i = S.(nodes) !! i).
Context (Hhist : forall i, i <> j -> S'.(hist) i = S.(hist) i).
Context (Hgrow : exists logs, S'.(hist) j = S.(hist) j ++ logs).
Context (Hdoom : doomed S -> doomed S') (Hreason : abort_reason S -> abort_reason S').

Lemma hist_mono log i : log ∈ S.(hist) i -> log ∈ S'.(hist) i.
Proof.
  destruct (decide (i = j)) as [-> | Hn].
  - destruct Hgrow as [logs ->]. intros ?. apply elem_of_app. by left.
  - by rewrite (Hhist i Hn).
Qed.

Lemma prepared_all_mono : everybody_prepared S -> everybody_prepared S'.
Proof. intros H i Hi. by apply hist_mono, H. Qed.

Lemma msg_ok_grow k (P Q : Prop) m : (P -> Q) ->
  msg_ok root parts (facts_of S k) P m -> msg_ok root parts (facts_of S' root) Q m.
Proof. intros HPQ. apply promise_mono; [| | done]; intros i; apply hist_mono. Qed.

Lemma facts_grow i : i <> j -> facts_le i (facts_of S i) (facts_of S' i).
Proof.
  intros Hn. constructor; cbn.
  - intros k. apply hist_mono.
  - intros k. apply hist_mono.
  - unfold is_prepared, is_committed, is_aborted. by rewrite (Hhist i Hn).
  - case_decide; auto.
Qed.

Lemma other_node_ok i s : i <> j -> S'.(nodes) !! i = Some s -> i ∈ parts /\ node_ok S' i s.
Proof.
  intros Hn Hs. rewrite (Hnodes i Hn) in Hs.
  destruct (si_nodes S I i s Hs) as (Hi & Ho & Hr & Hok). split; [done |]. split_and!; [done | done |].
  destruct Hok as [He | [[H Hc] Hh]]; [by left | right]. split; [split; [| done] | by rewrite (Hhist i Hn)].
  eapply node_inv_mono; [by apply facts_grow | done | | done].
  intros [-> (s1 & Hs1 & _ & Hu & Hd)]. rewrite (Hnodes root Hn), Hs in Hs1. simplify_eq. by right.
Qed.

Lemma other_gone i : i <> j -> gone S' i -> gone S i.
Proof. intros Hn. unfold gone. by rewrite (Hnodes i Hn). Qed.

(** The rest of the system keeps the invariant when the context that moves does. *)
Lemma move_inv :
  (forall s', S'.(nodes) !! j = Some s' -> node_ok S' j s') ->
  Forall (msg_ok root parts (facts_of S' root) (abort_reason S')) (drop (length S.(net)) S'.(net)) ->
  take (length S.(net)) S'.(net) = S.(net) ->
  Forall (resp_ok S') (drop (length S.(client)) S'.(client)) ->
  take (length S.(client)) S'.(client) = S.(client) ->
  (is_committed S' j -> everybody_prepared S') ->
  (is_aborted S' j -> abort_ok (facts_of S' j)) ->
  (gone S' j -> ended (S'.(hist) j)) ->
  (is_committed S' j -> is_cleared S' j ->
     if decide (j = root) then leaves_committed root parts (facts_of S' j) else is_committed S' root) ->
  S'.(hist) j ∈ log_shapes ->
  sys_inv S'.
Proof.
  intros Hnode Hnet Htake Hclient Htake' Hcommit Habort Hgone Hclear Hshape. constructor.
  - intros i s Hs. destruct (decide (i = j)) as [-> | Hn]; [split; auto | by apply other_node_ok].
  - rewrite <- (take_drop (length S.(net)) S'.(net)), Htake. apply Forall_app. split; [| done].
    eapply Forall_impl; [apply (si_net S I) |]. intros m. by apply msg_ok_grow.
  - rewrite <- (take_drop (length S.(client)) S'.(client)), Htake'. apply Forall_app. split; [| done].
    eapply Forall_impl; [apply (si_client S I) |]. intros r Hr st E. specialize (Hr st E).
    case_decide; [by apply prepared_all_mono | auto].
  - intros i Hi Hc. destruct (decide (i = j)) as [-> | Hn]; [auto |].
    apply prepared_all_mono, (si_commit S I i Hi). unfold is_committed in *. by rewrite (Hhist i Hn) in Hc.
  - intros i Hi Ha. destruct (decide (i = j)) as [-> | Hn]; [auto |].
    apply (le_ok _ _ _ (facts_grow i Hn)), (si_abort S I i Hi). unfold is_aborted in *.
    by rewrite (Hhist i Hn) in Ha.
  - intros i Hi Hg. destruct (decide (i = j)) as [-> | Hn]; [auto |].
    rewrite (Hhist i Hn). by apply (si_gone S I i Hi), other_gone.
  - intros i Hi Hc Hcl. destruct (decide (i = j)) as [-> | Hn]; [by apply Hclear |].
    assert (is_committed S i) as Hc' by (unfold is_committed in *; by rewrite (Hhist i Hn) in Hc).
    assert (is_cleared S i) as Hcl' by (unfold is_cleared in *; by rewrite (Hhist i Hn) in Hcl).
    pose proof (si_clear S I i Hi Hc' Hcl') as H. case_decide; [| by apply hist_mono].
    intros k Hk. by apply hist_mono, H.
  - intros i Hi. destruct (decide (i = j)) as [-> | Hn]; [done |]. rewrite (Hhist i Hn). by apply (si_shape S I).
Qed.
End move.

(** ** Calls *)

(** The logs determine the durable state, up to the phase that writes none. *)
Lemma hist_ok_durable S j d d' : hist_ok (S.(hist) j) d -> durable (facts_of S j) j d' ->
  hist_ok (S.(hist) j) d'.
Proof.
  unfold durable, facts_of, prepared, committed, aborted, is_prepared, is_committed, is_aborted.
  intros Hh Hd. destruct d; cbn in Hh; try done; destruct_or?; rewrite Hh in *;
    destruct d'; cbn; try done; auto; exfalso; repeat rewrite ?elem_of_cons, ?elem_of_nil in Hd;
    intuition congruence.
Qed.

Section call.
Context (S : system) (I : sys_inv S) (j : Z) (s s' : committer).
Context (Hs : S.(nodes) !! j = Some s) (He : s.(is_exiting_) = false).

Local Abbreviation S1 := (after_call S j s').

Lemma call_part : j ∈ parts.
Proof. by destruct (si_nodes S I j s Hs). Qed.

Lemma call_nodes i : i <> j -> S1.(nodes) !! i = S.(nodes) !! i.
Proof. intros Hn. cbn. by rewrite lookup_insert_ne. Qed.

Lemma call_node : S1.(nodes) !! j = Some (drain s').
Proof. cbn. by rewrite lookup_insert_eq. Qed.

Lemma call_gone i : gone S i -> gone S1 i.
Proof.
  destruct (decide (i = j)) as [-> | Hn]; unfold gone; [rewrite Hs; congruence |].
  by rewrite (call_nodes i Hn).
Qed.

Lemma call_doomed : doomed S -> doomed S1.
Proof.
  intros (i & Hi & Hp & Hg). exists i. split_and!; [done | done |].
  destruct Hg as [Hg |]; [left; by apply call_gone | by right].
Qed.

(** The outcome of a call: the context goes on, or leaves without having
    prepared. *)
Definition call_ok : Prop :=
  idle root parts (facts_of S j) j s' \/
  (s'.(is_exiting_) = true /\ s'.(outbox_) = [] /\ s'.(scheduler_resp_) = [] /\ ~ is_prepared S j).

Lemma call_self_abort : call_ok -> self_abort S -> abort_reason S1.
Proof.
  intros Hok Hsa. destruct (decide (root = j)) as [E | Hn].
  - destruct Hok as [[H _] | (He' & _ & _ & Hp)].
    + destruct (ni_latch H) as [Hr | (_ & Hu & Hd)]; [by split | |].
      * left. apply call_doomed. cbn in Hr. by rewrite decide_True in Hr by done.
      * right. exists (drain s'). rewrite E, call_node. split_and!; try done. apply (ni_exit H).
    + left. exists j. split_and!; [apply call_part | done |]. left. unfold gone. by rewrite call_node.
  - right. destruct Hsa as (s1 & Hs1 & Hrest). exists s1. by rewrite (call_nodes root Hn).
Qed.

Lemma call_reason : call_ok -> abort_reason S -> abort_reason S1.
Proof. intros Hok [Hd | Hsa]; [left; by apply call_doomed | by apply call_self_abort]. Qed.

(** The reasons the context has given are reasons of the system. *)
Lemma call_given : idle root parts (facts_of S j) j s' -> reason root (facts_of S j) j s' -> abort_reason S1.
Proof.
  intros Hok [Ha | (E & Hu & Hd)].
  - apply call_reason; [by left | by eapply abort_ok_reason].
  - right. exists (drain s'). rewrite <- E, call_node. split_and!; try done. apply (ni_exit (proj1 Hok)).
Qed.

Lemma call_facts_le : call_ok -> facts_le j (facts_of S j) (facts_of S1 j).
Proof.
  intros Hok. constructor; [done | done | done | cbn].
  case_decide; [apply call_doomed | by apply call_reason].
Qed.

Lemma call_node_ok : call_ok -> node_ok S1 j (drain s').
Proof.
  intros Hok. split_and!; [done | done |]. pose proof (call_facts_le Hok) as Hle.
  destruct Hok as [[H Hc] | (He' & _)]; [right | by left].
  assert (node_inv root parts (facts_of S j) j (drain s')) as H1.
  { inv_frame H. by intros st ?%not_elem_of_nil. }
  split; [split; [| done] |].
  - eapply node_inv_mono; [exact Hle | done | | exact H1].
    intros [E (s1 & Hs1 & _ & Hu & Hd)]. rewrite <- E, call_node in Hs1. simplify_eq. by right.
  - destruct (node_inv_of S j s I Hs He) as [_ Hh]. eapply hist_ok_durable; [exact Hh |]. apply (ni_dur H).
Qed.

Lemma call_inv : call_ok -> sys_inv S1.
Proof.
  intros Hok. pose proof (facts_ok_of S j I call_part) as FO.
  apply (move_inv S S1 I j call_part); cbn [net client hist after_call].
  - apply call_nodes.
  - done.
  - exists []. by rewrite app_nil_r.
  - apply call_doomed.
  - by apply call_reason.
  - intros s1. rewrite call_node. intros [= <-]. by apply call_node_ok.
  - rewrite drop_app_length. destruct Hok as [Hok | (_ & -> & _)]; [| done].
    eapply Forall_impl; [apply (ni_out (proj1 Hok)) |].
    intros m. apply promise_mono; try done. by apply call_given.
  - by rewrite take_app_length.
  - rewrite drop_app_length. destruct Hok as [Hok | (_ & _ & -> & _)]; [| done].
    apply Forall_forall. intros r Hr st ->. pose proof (ni_resp (proj1 Hok) st Hr) as Hst.
    case_decide; [done | by apply call_given].
  - by rewrite take_app_length.
  - apply (f_commit FO j call_part).
  - intros Ha. apply (le_ok _ _ _ (call_facts_le Hok)), (f_abort FO Ha).
  - unfold gone. rewrite call_node. cbn. intros He'.
    destruct Hok as [[H _] | (_ & _ & _ & Hp)]; [| by intros ?].
    pose proof (ni_exit H). congruence.
  - apply (si_clear S I j call_part).
  - apply (si_shape S I j call_part).
Qed.
End call.

(** ** Logs *)

Section extend.
Context (S : system) (I : sys_inv S) (j : Z) (s : committer).
Context (Hs : S.(nodes) !! j = Some s) (He : s.(is_exiting_) = false).
Context (logs : list ObTwoPhaseCommitLogType) (Hlogs : logs = [] \/ logs = pending_logs s).
Context (S' : system) (Hh : S'.(hist) = append_log S.(hist) j logs).

Lemma hist_self : S'.(hist) j = S.(hist) j ++ logs.
Proof. rewrite Hh. unfold append_log. by rewrite decide_True. Qed.

Lemma hist_other i : i <> j -> S'.(hist) i = S.(hist) i.
Proof. intros Hn. rewrite Hh. unfold append_log. by rewrite decide_False. Qed.

Lemma hist_grow log i : log ∈ S.(hist) i -> log ∈ S'.(hist) i.
Proof.
  destruct (decide (i = j)) as [-> | Hn]; [rewrite hist_self, elem_of_app; auto | by rewrite hist_other].
Qed.

Lemma node_idle : node_inv root parts (facts_of S j) j s.
Proof. apply (node_inv_of S j s I Hs He). Qed.

(** The logs of the context, after the one that was being written. *)
Inductive extended : Prop :=
| ext_same : logs = [] -> extended
| ext_prepare : logs = [OB_LOG_TX_PREPARE] -> S.(hist) j = [] ->
    s.(upstream_state_) = PREPARE -> s.(state_) = INIT -> extended
| ext_commit : logs = [OB_LOG_TX_COMMIT] -> S.(hist) j = [OB_LOG_TX_PREPARE] ->
    s.(upstream_state_) = COMMIT -> extended
| ext_abort : logs = [OB_LOG_TX_ABORT] ->
    (S.(hist) j = [] /\ s.(state_) = INIT \/ S.(hist) j = [OB_LOG_TX_PREPARE] /\ s.(state_) = PREPARE) ->
    s.(upstream_state_) = ABORT -> extended
| ext_clear : logs = [OB_LOG_TX_CLEAR] -> s.(upstream_state_) = CLEAR ->
    (s.(state_) = COMMIT /\ S.(hist) j = [OB_LOG_TX_PREPARE; OB_LOG_TX_COMMIT] \/
     s.(state_) = ABORT /\ (S.(hist) j = [OB_LOG_TX_ABORT] \/ S.(hist) j = [OB_LOG_TX_PREPARE; OB_LOG_TX_ABORT])) ->
    extended.

Lemma extended_cases : extended.
Proof.
  destruct Hlogs as [E | E]; [by apply ext_same |]. unfold pending_logs in E.
  destruct (node_inv_of S j s I Hs He) as [[HN _] Hok]. pose proof (ni_pend HN) as Hp.
  destruct s.(state_log_submitting_) as [log |]; [| by apply ext_same].
  destruct log; try done; cbn [pending_ok] in Hp; apply andb_true_iff in Hp as [Hu Hd];
    apply bool_decide_eq_true in Hu.
  - apply bool_decide_eq_true in Hd. rewrite Hd in Hok. by apply ext_prepare.
  - apply ext_commit; [done | | done].
    apply orb_true_iff in Hd as [Hd | Hd]; apply bool_decide_eq_true in Hd; by rewrite Hd in Hok.
  - apply ext_abort; [done | | done].
    apply orb_true_iff in Hd as [Hd | Hd]; apply bool_decide_eq_true in Hd; rewrite Hd in Hok; auto.
  - apply ext_clear; [done | done |].
    apply orb_true_iff in Hd as [Hd | Hd]; apply bool_decide_eq_true in Hd; rewrite Hd in Hok; auto.
Qed.

(** A participant that never prepares still does not. *)
Lemma unprepared_stays i : ~ is_prepared S i -> gone S i \/ is_aborted S i -> ~ is_prepared S' i.
Proof.
  intros Hn Hg. destruct (decide (i = j)) as [-> | Hne].
  - unfold is_prepared. rewrite hist_self, elem_of_app. intros [? | Hin]; [done |].
    destruct extended_cases as [El | El E _ _ | El | El | El]; rewrite El in Hin;
      try (by apply elem_of_nil in Hin); try (by apply list_elem_of_singleton in Hin).
    destruct Hg as [Hg | Hg]; [unfold gone in Hg; rewrite Hs in Hg; congruence |].
    unfold is_aborted in Hg. by rewrite E, elem_of_nil in Hg.
  - unfold is_prepared. by rewrite hist_other.
Qed.

Lemma hist_self_elem log : log ∈ S'.(hist) j -> log ∈ S.(hist) j \/ logs = [log].
Proof.
  rewrite hist_self, elem_of_app. intros [? | Hin]; [by left | right].
  destruct extended_cases as [El | El | El | El | El]; rewrite El in Hin |- *;
    [by apply elem_of_nil in Hin | | | |]; apply list_elem_of_singleton in Hin; by rewrite Hin.
Qed.

Lemma not_cleared : OB_LOG_TX_CLEAR ∉ S.(hist) j.
Proof.
  destruct (node_inv_of S j s I Hs He) as [_ Hok]. intros Hin.
  destruct s.(state_); cbn in Hok; try done; destruct_or?; rewrite Hok in Hin;
    repeat rewrite ?elem_of_cons, ?elem_of_nil in Hin; intuition congruence.
Qed.

Lemma extend_prepared : everybody_prepared S -> everybody_prepared S'.
Proof. intros Hall i Hi. by apply hist_grow, Hall. Qed.

Lemma extend_commit : j ∈ parts -> is_committed S' j -> everybody_prepared S'.
Proof.
  intros Hj [Hc | El]%hist_self_elem; apply extend_prepared; [by apply (si_commit S I j) |].
  apply (ni_ap node_idle). right.
  by destruct extended_cases as [El' | El' | El' | El' | El']; rewrite El in El'.
Qed.

Lemma extend_abort : j ∈ parts -> is_aborted S' j -> abort_ok (facts_of S j) \/ ~ is_prepared S' j.
Proof.
  intros Hj [Ha | El]%hist_self_elem; [left; by apply (si_abort S I j) |].
  destruct extended_cases as [El' | El' | El' | El' Hd Hu | El']; rewrite El in El'; try done.
  destruct Hd as [[Hh0 Hd] | [_ Hd]]; [right | left; by apply (ni_abort node_idle)].
  unfold is_prepared. rewrite hist_self, Hh0, El. by intros ?%list_elem_of_singleton.
Qed.

Lemma extend_clear : is_committed S' j -> is_cleared S' j ->
  if decide (j = root) then leaves_committed root parts (facts_of S j) else is_committed S root.
Proof.
  intros Hc [Hcl | El]%hist_self_elem; [by destruct not_cleared |].
  apply hist_self_elem in Hc as [Hc | El2]; [| by rewrite El in El2].
  destruct extended_cases as [El' | El' | El' | El' | El' Hu Hd]; rewrite El in El'; try done.
  apply (ni_clear node_idle); [done |]. destruct Hd as [[? _] | [_ Hd]]; [done |]. exfalso.
  destruct Hd as [Hd | Hd]; unfold is_committed in Hc; rewrite Hd in Hc;
    repeat rewrite ?elem_of_cons, ?elem_of_nil in Hc; intuition congruence.
Qed.

Lemma extend_self_abort : j = root -> self_abort S -> ~ is_prepared S' j.
Proof.
  intros Ej (s1 & Hs1 & _ & Hu & Hd). rewrite <- Ej, Hs in Hs1. injection Hs1 as <-.
  destruct (node_inv_of S j s I Hs He) as [_ Hok]. rewrite Hd in Hok.
  unfold is_prepared. intros [Hin | El]%hist_self_elem; [by rewrite Hok, elem_of_nil in Hin |].
  destruct extended_cases as [El' | El' _ Hu' _ | El' | El' | El']; rewrite El in El'; try done. congruence.
Qed.

Lemma extend_ended : is_aborted S' j \/ is_cleared S' j -> ended (S'.(hist) j).
Proof.
  intros [Ha | Hcl] Hp; [by left |].
  apply hist_self_elem in Hcl as [? | El]; [by destruct not_cleared |].
  destruct extended_cases as [El' | El' | El' | El' | El' _ Hd]; rewrite El in El'; try done.
  rewrite hist_self, El in *. destruct Hd as [[_ Hd] | [_ [Hd | Hd]]]; rewrite Hd; cbn; [right | left | left];
    repeat rewrite ?elem_of_cons; auto.
Qed.

Lemma extend_shape : j ∈ parts -> S'.(hist) j ∈ log_shapes.
Proof.
  intros Hj. rewrite hist_self.
  destruct extended_cases as [El | El Eh | El Eh | El Eh | El _ Eh]; rewrite El.
  - rewrite app_nil_r. by apply (si_shape S I).
  - rewrite Eh. by repeat constructor.
  - rewrite Eh. by repeat constructor.
  - destruct Eh as [[Eh _] | [Eh _]]; rewrite Eh; by repeat constructor.
  - destruct Eh as [[_ Eh] | [_ [Eh | Eh]]]; rewrite Eh; by repeat constructor.
Qed.

(** Reasons to abort survive, when the context itself is accounted for. *)
Lemma extend_doomed :
  (forall i, i <> j -> S'.(nodes) !! i = S.(nodes) !! i) -> doomed S -> doomed S'.
Proof.
  intros Hn (i & Hi & Hp & Hg). exists i. split_and!; [done | by apply unprepared_stays |].
  destruct Hg as [Hg | Hg]; [left | right; by apply hist_grow].
  destruct (decide (i = j)) as [-> | Hne].
  - unfold gone in Hg. rewrite Hs in Hg. congruence.
  - unfold gone. by rewrite (Hn i Hne).
Qed.
End extend.

(** The callback of a log. *)
Section log_step.
Context (S : system) (I : sys_inv S) (j : Z) (s s' : committer) (v : virtuals) (log : ObTwoPhaseCommitLogType).
Context (Hs : S.(nodes) !! j = Some s) (He : s.(is_exiting_) = false).
Context (Hpend : s.(state_log_submitting_) = Some log).
Context (Hrun : on_success_ops_ v log s = (Some OB_SUCCESS, s')).

Local Abbreviation S1 := (after_call (System S.(nodes) (append_log S.(hist) j [log]) S.(net) S.(client)) j s').

Lemma log_logs : [log] = [] \/ [log] = pending_logs s.
Proof. right. unfold pending_logs. by rewrite Hpend. Qed.

Lemma log_part : j ∈ parts.
Proof. by destruct (si_nodes S I j s Hs). Qed.

Lemma log_nodes i : i <> j -> S1.(nodes) !! i = S.(nodes) !! i.
Proof. intros Hn. cbn. by rewrite lookup_insert_ne. Qed.

Lemma log_node : S1.(nodes) !! j = Some (drain s').
Proof. cbn. by rewrite lookup_insert_eq. Qed.

(** The facts the callback runs with. *)
Definition log_facts : facts := {|
  prepared := is_prepared S1;
  committed := is_committed S1;
  aborted := is_aborted S1;
  abort_ok := abort_ok (facts_of S j) \/ (is_aborted S1 j /\ ~ is_prepared S1 j);
  latched := False |}.

Lemma log_doomed : doomed S -> doomed S1.
Proof. by apply (extend_doomed S I j s Hs He [log] log_logs S1 eq_refl), log_nodes. Qed.

Lemma log_self_doomed : is_aborted S1 j -> ~ is_prepared S1 j -> doomed S1.
Proof. intros Ha Hp. exists j. split_and!; [apply log_part | done | by right]. Qed.

Lemma log_self_abort : self_abort S -> abort_reason S1.
Proof.
  intros Hsa. destruct (decide (j = root)) as [E | Hn].
  - left. pose proof (extend_self_abort S I j s Hs He [log] log_logs S1 eq_refl E Hsa) as Hp.
    apply log_self_doomed; [| done]. destruct Hsa as (s1 & Hs1 & _ & Hu & Hd).
    rewrite <- E, Hs in Hs1. injection Hs1 as <-.
    pose proof (ni_pend (node_idle S I j s Hs He)) as Hpd. rewrite Hpend, Hu, Hd in Hpd.
    assert (log = OB_LOG_TX_ABORT) as El by (by destruct log). unfold is_aborted.
    rewrite (hist_self S j [log] S1 eq_refl), El. apply elem_of_app. right. by constructor.
  - right. destruct Hsa as (s1 & Hs1 & Hrest). exists s1. rewrite log_nodes; [done | congruence].
Qed.

Lemma log_reason : abort_reason S -> abort_reason S1.
Proof. intros [? | ?]; [left; by apply log_doomed | by apply log_self_abort]. Qed.

Lemma log_facts_ok : facts_ok root parts log_facts j.
Proof.
  constructor; cbn.
  - intros [Ha | [_ Hp]] Hall; [| by apply Hp, Hall, log_part].
    destruct (decide (j = root)) as [E | E].
    + destruct (log_doomed Ha) as (i & Hi & Hp & _). by apply Hp, Hall.
    + destruct Ha as [Hd | Hsa].
      * destruct (log_doomed Hd) as (i & Hi & Hp & _). by apply Hp, Hall.
      * apply (self_abort_not_prepared S I Hsa). unfold is_prepared.
        rewrite <- (hist_other S j [log] S1 eq_refl root) by done. apply Hall, (t_root T).
  - done.
  - intros i Hi Hc. destruct (decide (i = j)) as [-> | Hn].
    + by apply (extend_commit S I j s Hs He [log] log_logs S1 eq_refl).
    + apply (extend_prepared S j [log] S1 eq_refl), (si_commit S I i Hi).
      unfold is_committed in *. by rewrite (hist_other S j [log] S1 eq_refl) in Hc.
  - intros Ha. destruct (extend_abort S I j s Hs He [log] log_logs S1 eq_refl log_part Ha); auto.
Qed.

Lemma log_elem x i : x ∈ S1.(hist) i <-> x ∈ S.(hist) i \/ (i = j /\ log = x).
Proof.
  destruct (decide (i = j)) as [-> | Hn].
  - rewrite (hist_self S j [log] S1 eq_refl), elem_of_app, list_elem_of_singleton. intuition congruence.
  - rewrite (hist_other S j [log] S1 eq_refl i Hn). intuition congruence.
Qed.

Lemma log_logged : logged (facts_of S j) log_facts j log.
Proof. constructor; cbn; try done; try (by left); intros i; apply log_elem. Qed.

Lemma log_outcome :
  (log <> OB_LOG_TX_CLEAR /\ idle root parts log_facts j s') \/
  ((log = OB_LOG_TX_ABORT \/ log = OB_LOG_TX_CLEAR) /\ retired log_facts s').
Proof.
  destruct (node_inv_of S j s I Hs He) as [[H Hc] _]. destruct (node_drained S j s I Hs) as [Ho Hr].
  pose proof (on_success_ops_spec v root parts T (facts_of S j) log_facts j log_facts_ok log log_logged s H
    Hc Ho Hr Hpend) as Hw.
  unfold wp in Hw. rewrite Hrun in Hw. by apply Hw.
Qed.

(** With the calls of the callback succeeding, the process is not aborted. *)
Lemma log_callback_returns : callbacks_succeed v -> wp (on_success_ops_ v log) (fun r _ => r = Some OB_SUCCESS) s.
Proof.
  intros Hv. destruct (node_inv_of S j s I Hs He) as [[H Hc] _]. destruct (node_drained S j s I Hs) as [Ho Hr].
  by apply (on_success_ops_returns v root parts T (facts_of S j) log_facts j log_facts_ok log log_logged s H
    Hc Ho Hr Hpend).
Qed.

Lemma log_abort_ok : abort_ok log_facts -> abort_ok (facts_of S1 j).
Proof.
  intros [Ha | [Ha Hp]]; cbn in *.
  - case_decide; [by apply log_doomed | by apply log_reason].
  - pose proof (log_self_doomed Ha Hp). case_decide; [done | by left].
Qed.

Lemma log_given : idle root parts log_facts j s' -> reason root log_facts j s' -> abort_reason S1.
Proof.
  intros Hok [Ha | (E & Hu & Hd)].
  - by eapply abort_ok_reason, log_abort_ok.
  - right. exists (drain s'). rewrite <- E, log_node. split_and!; try done. apply (ni_exit (proj1 Hok)).
Qed.

Lemma log_hist_ok : log <> OB_LOG_TX_CLEAR -> durable log_facts j s'.(state_) ->
  hist_ok (S1.(hist) j) s'.(state_).
Proof.
  intros Hlog Hd. unfold durable, log_facts, prepared, committed, aborted, is_prepared, is_committed, is_aborted in Hd.
  rewrite (hist_self S j [log] S1 eq_refl) in *.
  assert (forall h, h ∈ [[OB_LOG_TX_PREPARE]; [OB_LOG_TX_PREPARE; OB_LOG_TX_COMMIT]; [OB_LOG_TX_ABORT];
                         [OB_LOG_TX_PREPARE; OB_LOG_TX_ABORT]] ->
    S.(hist) j ++ [log] = h -> hist_ok (S.(hist) j ++ [log]) s'.(state_)) as Hshape.
  { intros h Hh Eh. rewrite Eh in *. repeat rewrite ?elem_of_cons, ?elem_of_nil in Hh.
    destruct_or?; try done; subst; destruct s'.(state_); cbn; try done; auto; exfalso;
      repeat rewrite ?elem_of_cons, ?elem_of_nil in Hd; intuition congruence. }
  destruct (extended_cases S I j s Hs He [log] log_logs) as [El | El E _ _ | El E _ | El E _ | El _ _];
    try done; try (by injection El as ->); injection El as El0.
  - apply (Hshape [OB_LOG_TX_PREPARE]); [by repeat constructor | by rewrite E, El0].
  - apply (Hshape [OB_LOG_TX_PREPARE; OB_LOG_TX_COMMIT]); [by repeat constructor | by rewrite E, El0].
  - destruct E as [[E _] | [E _]].
    + apply (Hshape [OB_LOG_TX_ABORT]); [by repeat constructor | by rewrite E, El0].
    + apply (Hshape [OB_LOG_TX_PREPARE; OB_LOG_TX_ABORT]); [by repeat constructor | by rewrite E, El0].
Qed.

Lemma log_node_ok : node_ok S1 j (drain s').
Proof.
  split_and!; [done | done |]. destruct log_outcome as [[Hlog [H Hc]] | [_ [He' _]]]; [right | by left].
  assert (node_inv root parts log_facts j (drain s')) as H1.
  { inv_frame H. by intros st ?%not_elem_of_nil. }
  split; [split; [| done] |].
  - eapply node_inv_mono; [| done | | exact H1].
    + constructor; [done | done | done | apply log_abort_ok].
    + intros [E (s1 & Hs1 & _ & Hu & Hd)]. rewrite <- E, log_node in Hs1. injection Hs1 as <-. by right.
  - apply log_hist_ok; [done | apply (ni_dur H)].
Qed.

Lemma log_inv : sys_inv S1.
Proof.
  pose proof log_outcome as Hout.
  apply (move_inv S S1 I j log_part); cbn [net client after_call].
  - apply log_nodes.
  - intros i. apply (hist_other S j [log] S1 eq_refl).
  - exists [log]. apply (hist_self S j [log] S1 eq_refl).
  - apply log_doomed.
  - apply log_reason.
  - intros s1. rewrite log_node. intros [= <-]. apply log_node_ok.
  - rewrite drop_app_length. destruct Hout as [[_ Hok] | [_ (_ & -> & _)]]; [| done].
    eapply Forall_impl; [apply (ni_out (proj1 Hok)) |].
    intros m. apply promise_mono; try done. by apply log_given.
  - by rewrite take_app_length.
  - rewrite drop_app_length. apply Forall_forall. intros r Hr st ->.
    destruct Hout as [[_ Hok] | [_ (_ & _ & Hresp)]].
    + pose proof (ni_resp (proj1 Hok) st Hr) as Hst. case_decide; [done | by apply log_given].
    + destruct (Hresp st Hr) as [Hne Ha]. rewrite decide_False by done. by eapply abort_ok_reason, log_abort_ok.
  - by rewrite take_app_length.
  - apply (extend_commit S I j s Hs He [log] log_logs S1 eq_refl log_part).
  - intros Ha. apply log_abort_ok, (f_abort log_facts_ok Ha).
  - unfold gone. rewrite log_node. cbn [is_exiting_ drain]. intros He'.
    apply (extend_ended S I j s Hs He [log] log_logs S1 eq_refl).
    destruct Hout as [[_ [H _]] | [[El | El] _]].
    + pose proof (ni_exit H) as Hx. cbn in He'. congruence.
    + left. apply log_elem. auto.
    + right. apply log_elem. auto.
  - intros Hc Hcl.
    pose proof (extend_clear S I j s Hs He [log] log_logs S1 eq_refl Hc Hcl) as H.
    case_decide; [| by apply (hist_grow S j [log] S1 eq_refl)].
    intros k Hk. by apply (hist_grow S j [log] S1 eq_refl), H.
  - apply (extend_shape S I j s Hs He [log] log_logs S1 eq_refl log_part).
Qed.
End log_step.

(** ** Recovery *)

(** What replay rebuilds from the logs of a context that goes on. *)
Lemma replay_prepare v w s : replay_all v [OB_LOG_TX_PREPARE] (blank w s) =
  set_upstream_state PREPARE (set_state PREPARE (blank w s)).
Proof. done. Qed.

Lemma replay_commit v w s : replay_all v [OB_LOG_TX_PREPARE; OB_LOG_TX_COMMIT] (blank w s) =
  set_upstream_state COMMIT (set_state COMMIT (blank w s)).
Proof. done. Qed.

Lemma replay_abort v w s : replay_all v [OB_LOG_TX_PREPARE; OB_LOG_TX_ABORT] (blank w s) =
  set_upstream_state ABORT (set_state ABORT (blank w s)).
Proof. done. Qed.

Section crash_step.
Context (S : system) (I : sys_inv S) (j : Z) (s : committer) (v : virtuals) (w : log_body) (logs : list ObTwoPhaseCommitLogType).
Context (Hs : S.(nodes) !! j = Some s) (He : s.(is_exiting_) = false).
Context (Hlogs : logs = [] \/ logs = pending_logs s).

Local Abbreviation S1 :=
  (System (if resumes (S.(hist) j ++ logs)
           then <[j := replay_all v (S.(hist) j ++ logs) (blank w s)]> S.(nodes)
           else delete j S.(nodes))
          (append_log S.(hist) j logs) S.(net) S.(client)).

Lemma crash_part : j ∈ parts.
Proof. by destruct (si_nodes S I j s Hs). Qed.

Lemma crash_nodes i : i <> j -> S1.(nodes) !! i = S.(nodes) !! i.
Proof. intros Hn. cbn. case_match; [by rewrite lookup_insert_ne | by rewrite lookup_delete_ne]. Qed.

Lemma crash_doomed : doomed S -> doomed S1.
Proof. by apply (extend_doomed S I j s Hs He logs Hlogs S1 eq_refl), crash_nodes. Qed.

Lemma crash_not_resumed : ~ is_prepared S1 j -> resumes (S.(hist) j ++ logs) = false.
Proof.
  unfold is_prepared. rewrite (hist_self S j logs S1 eq_refl). intros Hp. unfold resumes.
  by rewrite bool_decide_false.
Qed.

Lemma crash_reason : abort_reason S -> abort_reason S1.
Proof.
  intros [Hd | Hsa]; [left; by apply crash_doomed |]. destruct (decide (j = root)) as [E | Hn].
  - left. pose proof (extend_self_abort S I j s Hs He logs Hlogs S1 eq_refl E Hsa) as Hp.
    exists j. split_and!; [apply crash_part | done | left].
    unfold gone. cbn. rewrite (crash_not_resumed Hp). by rewrite lookup_delete_eq.
  - right. destruct Hsa as (s1 & Hs1 & Hrest). exists s1. rewrite crash_nodes; [done | congruence].
Qed.

(** The logs of a context that goes on. *)
Lemma crash_logs : resumes (S.(hist) j ++ logs) = true ->
  S.(hist) j ++ logs = [OB_LOG_TX_PREPARE] \/
  S.(hist) j ++ logs = [OB_LOG_TX_PREPARE; OB_LOG_TX_COMMIT] \/
  S.(hist) j ++ logs = [OB_LOG_TX_PREPARE; OB_LOG_TX_ABORT].
Proof.
  destruct (node_inv_of S j s I Hs He) as [_ Hok].
  destruct (extended_cases S I j s Hs He logs Hlogs) as [El | El E _ _ | El E _ | El E _ | El _ E]; rewrite El.
  - rewrite app_nil_r. destruct s.(state_); cbn in Hok; try done; destruct_or?; rewrite Hok; auto; done.
  - rewrite E. auto.
  - rewrite E. auto.
  - destruct E as [[E _] | [E _]]; rewrite E; [done | auto].
  - by destruct E as [[_ E] | [_ [E | E]]]; rewrite E.
Qed.

(** The context as it is rebuilt. *)
Definition rebuilt (st : ObTxState) : committer := set_upstream_state st (set_state st (blank w s)).

Lemma rebuilt_inv F st : node_inv root parts (facts_of S j) j s ->
  st = PREPARE \/ st = COMMIT \/ st = ABORT -> durable F j st ->
  (st = COMMIT -> all_prepared parts F) -> (latched F -> abort_ok F) ->
  node_inv root parts F j (rebuilt st).
Proof.
  intros H Hst Hd Hap Hl. destruct H. constructor; cbn; auto; try done.
  - by constructor.
  - intros i. unfold has_member. by repeat case_match.
  - by destruct Hst as [-> | [-> | ->]].
  - intros [-> | ->]; [by destruct Hst as [? | [? | ?]] | auto].
  - intros ->. done.
  - intros ->. done.
  - by intros r ?%not_elem_of_nil.
  - intros ?. left. auto.
Qed.

Lemma crash_rebuilt : resumes (S.(hist) j ++ logs) = true ->
  exists st, (st = PREPARE \/ st = COMMIT \/ st = ABORT) /\ hist_ok (S.(hist) j ++ logs) st /\
    replay_all v (S.(hist) j ++ logs) (blank w s) = rebuilt st.
Proof.
  intros Hr. destruct (crash_logs Hr) as [E | [E | E]]; rewrite E.
  - exists PREPARE. rewrite replay_prepare. by split_and!; [left | |].
  - exists COMMIT. rewrite replay_commit. by split_and!; [right; left | |].
  - exists ABORT. rewrite replay_abort. by split_and!; [right; right | right |].
Qed.

Lemma hist_ok_facts S0 k d : hist_ok (S0.(hist) k) d -> durable (facts_of S0 k) k d.
Proof.
  unfold durable, facts_of, prepared, committed, aborted, is_prepared, is_committed, is_aborted.
  destruct d; cbn; try done; intros Hh; destruct_or?; rewrite Hh;
    repeat rewrite ?elem_of_cons, ?elem_of_nil; intuition congruence.
Qed.

Lemma crash_node_ok s1 : S1.(nodes) !! j = Some s1 -> node_ok S1 j s1.
Proof.
  cbn. destruct (resumes _) eqn:Hr; [| by rewrite lookup_delete_eq].
  rewrite lookup_insert_eq. intros [= <-]. destruct (crash_rebuilt Hr) as (st & Hst & Hh & Hre).
  rewrite Hre. split_and!; [done | done | right].
  assert (hist_ok (S1.(hist) j) st) as Hh1 by by rewrite (hist_self S j logs S1 eq_refl).
  split; [split; [| done] | done]. apply rebuilt_inv; [apply (node_idle S I j s Hs He) | done | | |].
  - by apply (hist_ok_facts S1).
  - intros ->. apply (extend_commit S I j s Hs He logs Hlogs S1 eq_refl crash_part).
    unfold is_committed. rewrite Hh1. by repeat constructor.
  - intros [E (s1 & Hs1 & _ & _ & Hd)]. exfalso. cbn in Hs1.
    rewrite <- E, lookup_insert_eq in Hs1. injection Hs1 as <-. cbn in Hd.
    by destruct Hst as [-> | [-> | ->]].
Qed.

Lemma crash_inv : sys_inv S1.
Proof.
  apply (move_inv S S1 I j crash_part); cbn [net client].
  - apply crash_nodes.
  - intros i. apply (hist_other S j logs S1 eq_refl).
  - exists logs. apply (hist_self S j logs S1 eq_refl).
  - apply crash_doomed.
  - apply crash_reason.
  - apply crash_node_ok.
  - by rewrite drop_all.
  - by rewrite firstn_all.
  - by rewrite drop_all.
  - by rewrite firstn_all.
  - apply (extend_commit S I j s Hs He logs Hlogs S1 eq_refl crash_part).
  - intros Ha. destruct (extend_abort S I j s Hs He logs Hlogs S1 eq_refl crash_part Ha) as [Hr | Hp].
    + cbn in *. case_decide; [by apply crash_doomed | by apply crash_reason].
    + assert (doomed S1) as Hd by (exists j; split_and!; [apply crash_part | done | by right]).
      cbn. case_decide; [done | by left].
  - unfold gone. cbn. destruct (resumes _) eqn:Hr.
    + rewrite lookup_insert_eq. destruct (crash_rebuilt Hr) as (st & _ & _ & ->). done.
    + intros _ Hp. apply (extend_ended S I j s Hs He logs Hlogs S1 eq_refl); [| done].
      right. unfold resumes in Hr. change (append_log (hist S) j logs j) with (S1.(hist) j) in Hp.
      rewrite (hist_self S j logs S1 eq_refl) in Hp. rewrite bool_decide_true in Hr by done.
      apply negb_false_iff, bool_decide_eq_true in Hr. unfold is_cleared.
      by rewrite (hist_self S j logs S1 eq_refl).
  - intros Hc Hcl. pose proof (extend_clear S I j s Hs He logs Hlogs S1 eq_refl Hc Hcl) as H.
    case_decide; [| by apply (hist_grow S j logs S1 eq_refl)].
    intros k Hk. by apply (hist_grow S j logs S1 eq_refl), H.
  - apply (extend_shape S I j s Hs He logs Hlogs S1 eq_refl crash_part).
Qed.
End crash_step.

(** ** Contexts that have left *)

Lemma gone_verdict S j : sys_inv S -> j ∈ parts -> gone S j ->
  abort_reason S \/ (is_committed S j /\ is_cleared S j).
Proof.
  intros I Hj Hg. destruct (decide (OB_LOG_TX_PREPARE ∈ S.(hist) j)) as [Hp | Hp].
  - destruct (si_gone S I j Hj Hg Hp) as [Ha | Hc]; [left | by right].
    by eapply abort_ok_reason, (si_abort S I j).
  - left. left. exists j. auto.
Qed.

(** The answer for a context that is gone keeps the promises. *)
Lemma orphan_answer_ok S v md m r : sys_inv S -> m ∈ S.(net) -> receiver_ m ∈ parts -> gone S (receiver_ m) ->
  (handle_tx_orphan_2pc_msg v md m).2 = Some r -> msg_ok root parts (facts_of S root) (abort_reason S) r.
Proof.
  intros I Hm Hj Hg Hr.
  destruct (proj1 (Forall_forall _ _) (si_net S I) m Hm) as [Hd Hp].
  pose proof (gone_verdict S _ I Hj Hg) as Hv.
  assert (receiver_ m <> root -> is_committed S (receiver_ m) -> is_cleared S (receiver_ m) -> is_committed S root) as Hleaf.
  { intros Hn Hc Hcl. pose proof (si_clear S I _ Hj Hc Hcl) as H. by rewrite decide_False in H. }
  assert (receiver_ m = root -> is_committed S (receiver_ m) -> is_cleared S (receiver_ m) ->
    leaves_committed root parts (facts_of S root)) as Hroot.
  { intros E Hc Hcl. pose proof (si_clear S I _ Hj Hc Hcl) as H. by rewrite decide_True in H. }
  unfold direction, promise in *. unfold handle_tx_orphan_2pc_msg, post_orphan_msg_ in Hr.
  destruct (type_ m); try done; cbn in Hd, Hr; repeat case_match; simplify_eq/=; try done;
    destruct Hd as [Hd1 Hd2]; (split; [by unfold direction; cbn; rewrite ?Hd1, ?Hd2 |]); cbn.
  all: try (apply proj2 in Hd2; tauto).
  all: rewrite Hd2 in Hv, Hroot; tauto.
Qed.

(** ** The invariant holds in every reachable state *)

Lemma initial_inv S : initial S -> sys_inv S.
Proof.
  intros (Hn & Hdom & Hh & Hnet & Hcl).
  assert (forall i, is_prepared S i \/ is_committed S i \/ is_aborted S i \/ is_cleared S i -> False) as Hno.
  { intros i. unfold is_prepared, is_committed, is_aborted, is_cleared. rewrite Hh, !elem_of_nil. tauto. }
  constructor.
  - intros j s Hs. destruct (Hn j s Hs) as [Hj Hf]. split; [done |].
    destruct Hf as (E1 & E2 & E3 & E4 & E5 & E6 & Hrole & E7 & E8 & E9 & E10 & E11 & E12 & E13).
    split_and!; [done | done | right]. rewrite Hh, E7. split; [| done]. split; [| done].
    constructor; rewrite ?E2, ?E3, ?E7, ?E8, ?E9, ?E10, ?E12, ?E13; cbn; auto; try done.
    + intros ->. by rewrite decide_True in Hrole.
    + intros Hne. rewrite decide_False in Hrole by done. destruct Hrole. auto.
    + by constructor.
    + intros i. unfold has_member. by repeat case_match.
    + split_and!; intros ?; eapply Hno; eauto.
    + by intros [? | ?].
    + by intros st ?%not_elem_of_nil.
    + intros [-> (s1 & Hs1 & _ & Hu & Hd)]. rewrite Hs in Hs1. injection Hs1 as <-. congruence.
    + by rewrite E11.
  - by rewrite Hnet.
  - by rewrite Hcl.
  - intros i _ Hc. destruct (Hno i). auto.
  - intros i _ Hc. destruct (Hno i). auto.
  - intros i _ _ Hc. destruct (Hno i). auto.
  - intros i _ Hc. destruct (Hno i). auto.
  - intros i _. rewrite Hh. by constructor.
Qed.

(** A call that keeps the invariant of its context keeps that of the system. *)
Lemma idle_call S j s (m : M committer Z) : sys_inv S -> S.(nodes) !! j = Some s -> s.(is_exiting_) = false ->
  (facts_ok root parts (facts_of S j) j -> idle root parts (facts_of S j) j s ->
   wp m (fun _ s' => idle root parts (facts_of S j) j s') s) ->
  sys_inv (after_call S j (m s).2).
Proof.
  intros I Hs He Hm. apply (call_inv S I j s); [done | done |]. left.
  apply Hm; [apply facts_ok_of; [done |]; by destruct (si_nodes S I j s Hs) |].
  apply (node_inv_of S j s I Hs He).
Qed.

Lemma message_ok S j m : sys_inv S -> m ∈ S.(net) -> receiver_ m = j ->
  msg_ok root parts (facts_of S j) (abort_ok (facts_of S j) \/ latched (facts_of S j)) m.
Proof.
  intros I Hm Hr. pose proof (proj1 (Forall_forall _ _) (si_net S I) m Hm) as Hok.
  eapply promise_mono; [| | | exact Hok]; [done | done |]. cbn. unfold abort_reason. case_decide; tauto.
Qed.

(** The service answers for a context that is leaving. *)
Lemma leaving_answer S j s v md m : sys_inv S -> S.(nodes) !! j = Some s -> s.(is_exiting_) = true ->
  m ∈ S.(net) -> receiver_ m = j -> sys_inv (after_call S j (handle_tx_batch_req v true true md m s).2).
Proof.
  intros I Hs He Hm Hr. destruct (si_nodes S I j s Hs) as (Hj & Ho & Hre & _).
  set (reply := (handle_tx_orphan_2pc_msg v md m).2).
  assert ((handle_tx_batch_req v true true md m s).2 = set_outbox (option_list reply) s) as ->.
  { unfold handle_tx_batch_req, answer_orphan, mbind, M_bind, gets, id. cbn [negb]. rewrite He. fold reply.
    destruct reply as [r |]; cbn; [by rewrite Ho |]. destruct s; cbn in *; by subst. }
  assert (gone S j) as Hg by (unfold gone; by rewrite Hs).
  set (S1 := after_call S j _).
  assert (forall i, gone S i <-> gone S1 i) as Hgone.
  { intros i. unfold gone. cbn. destruct (decide (i = j)) as [-> | Hn];
      [by rewrite lookup_insert_eq, Hs | by rewrite lookup_insert_ne]. }
  assert (doomed S -> doomed S1) as Hd.
  { intros (i & ? & ? & Hgi). exists i. split_and!; [done | done |]. by rewrite <- Hgone. }
  assert (self_abort S -> self_abort S1) as Hsa.
  { intros (s1 & Hs1 & He1 & ?). exists s1. split; [| done]. cbn. rewrite lookup_insert_ne; [done |].
    intros ->. congruence. }
  apply (move_inv S S1 I j Hj); cbn [net client hist S1 after_call].
  - intros i Hn. cbn. by rewrite lookup_insert_ne.
  - done.
  - exists []. by rewrite app_nil_r.
  - done.
  - unfold abort_reason. tauto.
  - intros s1. cbn. rewrite lookup_insert_eq. intros [= <-]. split_and!; [done | done | by left].
  - rewrite drop_app_length. cbn. destruct reply as [r |] eqn:Er; [| done]. constructor; [| done].
    eapply promise_mono; [| | | eapply (orphan_answer_ok S v md m r I Hm)]; try done; try (by rewrite Hr).
    unfold abort_reason. tauto.
  - by rewrite take_app_length.
  - rewrite drop_app_length. cbn. by rewrite Hre.
  - by rewrite take_app_length.
  - by apply (si_commit S I).
  - intros Ha. pose proof (si_abort S I j Hj Ha) as H. cbn in *. case_decide; [auto |]. unfold abort_reason in *. tauto.
  - intros _. by apply (si_gone S I).
  - by apply (si_clear S I).
  - by apply (si_shape S I).
Qed.

(** A participant whose context does not change, or only disappears. *)
Lemma quiet_step S S1 j : sys_inv S -> j ∈ parts ->
  (forall i, i <> j -> S1.(nodes) !! i = S.(nodes) !! i) -> S1.(hist) = S.(hist) ->
  S1.(nodes) !! j = S.(nodes) !! j \/ (S1.(nodes) !! j = None /\ gone S j) ->
  S1.(client) = S.(client) -> (exists ms, S1.(net) = S.(net) ++ ms /\
    Forall (msg_ok root parts (facts_of S root) (abort_reason S)) ms) ->
  sys_inv S1.
Proof.
  intros I Hj Hn Hh Hnj Hc (ms & Hnet & Hms).
  assert (forall i, gone S i <-> gone S1 i) as Hgone.
  { intros i. unfold gone. destruct (decide (i = j)) as [-> | Hne]; [| by rewrite (Hn i Hne)].
    destruct Hnj as [-> | [-> Hg]]; [done |]. by split; [| intros _]. }
  assert (doomed S -> doomed S1) as Hd.
  { intros (i & ? & ? & Hgi). exists i. unfold is_prepared, is_aborted in *. rewrite Hh, <- Hgone. auto. }
  assert (self_abort S -> self_abort S1) as Hsa.
  { intros (s1 & Hs1 & He1 & ?). exists s1. split; [| done]. rewrite <- Hs1.
    destruct (decide (root = j)) as [E | Hne]; [| by apply Hn].
    destruct Hnj as [Hnj | [_ Hg]]; [by rewrite E |]. unfold gone in Hg. rewrite <- E, Hs1 in Hg. congruence. }
  assert (abort_reason S -> abort_reason S1) as Hr by (unfold abort_reason; tauto).
  apply (move_inv S S1 I j Hj); rewrite ?Hc, ?Hnet.
  - done.
  - by rewrite Hh.
  - exists []. by rewrite Hh, app_nil_r.
  - done.
  - done.
  - intros s1 Hs1. destruct Hnj as [Hnj | [Hnj _]]; [| congruence]. rewrite Hnj in Hs1.
    destruct (si_nodes S I j s1 Hs1) as (_ & Ho & Hre & Hok). split_and!; [done | done |].
    destruct Hok as [? | [[H Hca] Hhi]]; [by left | right]. rewrite Hh. split; [split; [| done] | done].
    eapply node_inv_mono; [| done | | exact H].
    + constructor; cbn; unfold is_prepared, is_committed, is_aborted; rewrite ?Hh; try done. case_decide; auto.
    + intros [E (s2 & Hs2 & _ & Hu & Hdd)]. rewrite <- E, Hnj, Hs1 in Hs2. injection Hs2 as <-. by right.
  - rewrite drop_app_length. eapply Forall_impl; [exact Hms |]. intros m.
    apply promise_mono; cbn; unfold is_prepared, is_committed; by rewrite ?Hh.
  - by rewrite take_app_length.
  - by rewrite drop_all.
  - by rewrite firstn_all.
  - unfold is_committed, everybody_prepared, is_prepared. rewrite Hh. by apply (si_commit S I).
  - unfold is_aborted. rewrite Hh. intros Ha. pose proof (si_abort S I j Hj Ha) as H. cbn in *. case_decide; auto.
  - rewrite Hh, <- Hgone. by apply (si_gone S I).
  - pose proof (si_clear S I j Hj) as H. unfold is_committed, is_cleared, leaves_committed, committed in *.
    cbn in *. unfold is_committed in *. by rewrite Hh.
  - rewrite Hh. by apply (si_shape S I).
Qed.

Lemma step_inv S S' : sys_inv S -> step S S' -> sys_inv S'.
Proof.
  intros I Hstep. destruct Hstep.
  - destruct s.(is_exiting_) eqn:He; [by eapply leaving_answer |].
    apply (idle_call S j s (handle_tx_batch_req v true true max_decided m)); try done.
    intros FO Hidle. unfold handle_tx_batch_req. do 2 wstep. cbn [negb]. rewrite He.
    wstep; [by wsteps |]. rewrite andb_false_r.
    apply (handle_tx_msg_spec v root parts T (facts_of S j) j FO s m (proj1 Hidle)); [| done].
    by apply message_ok.
  - apply (quiet_step S _ (receiver_ m)); try done; [by left |].
    exists (option_list (handle_tx_orphan_2pc_msg v max_decided m).2). split; [done |].
    destruct (handle_tx_orphan_2pc_msg v max_decided m).2 as [r |] eqn:Er; [| done].
    constructor; [| done]. eapply orphan_answer_ok; try done. unfold gone. by rewrite H1.
  - apply (idle_call S root s (two_phase_commit v)); try done. intros FO Hidle.
    by apply (two_phase_commit_spec v root parts T _ root FO).
  - apply (idle_call S root s (two_phase_abort v)); try done. intros FO Hidle.
    by apply (two_phase_abort_spec v root parts T _ root FO).
  - apply is_2pc_logging_false in H2 as [Hp Hw]. apply (call_inv S I j s); try done.
    destruct (node_inv_of S j s I H H0) as [Hidle Hh]. destruct (node_drained S j s I H) as [Ho Hr].
    pose proof (abort_spec v root parts _ j s Hidle H1 Hp Hw) as [Hok | (He & Ho' & Hr')];
      [by left | right]. split_and!; [done | congruence | congruence |].
    pose proof (ni_states (proj1 Hidle)) as Hst. rewrite H1 in Hst. unfold is_prepared.
    destruct s.(state_); try done. cbn in Hh. rewrite Hh. apply not_elem_of_nil.
  - apply (idle_call S j s (fun s => (OB_SUCCESS, set_force_abort true s))); try done.
    intros _ [HN Hc]. split; [inv_frame HN | done].
  - apply (idle_call S j s (fun s => (OB_SUCCESS, set_transfer_blocking b s))); try done.
    intros _ [HN Hc]. split; [inv_frame HN | done].
  - apply (idle_call S j s (handle_timeout v)); try done. intros FO Hidle.
    by apply (handle_timeout_spec v root parts T _ j FO).
  - apply (idle_call S j s (drive_self_2pc_phase v PREPARE)); try done. intros FO Hidle.
    eapply wp_mono; [apply (idle_drive v root parts T _ j FO PREPARE s Hidle) | by intros r s' [? _]].
    apply prepare_phase_ok; [apply Hidle |]. unfold state_leb, state_ltb in *. lia.
  - apply (idle_call S j s (get_gts_callback v gts)); try done. intros FO Hidle.
    by apply (get_gts_callback_spec v root parts T _ j FO).
  - apply (idle_call S j s (gts_elapse_callback v gts)); try done. intros FO Hidle.
    by apply (gts_elapse_callback_spec v root parts T _ j FO).
  - apply (idle_call S j s (gts_callback_interrupted v off ls)); try done. intros FO Hidle.
    by apply gts_callback_interrupted_spec.
  - by apply (log_inv S I j s s' v log).
  - by apply (crash_inv S I j s v w logs).
  - destruct (si_nodes S I j s H) as [Hj _].
    apply (quiet_step S _ j); try done; cbn.
    + intros i Hn. by rewrite lookup_delete_ne.
    + right. split; [by rewrite lookup_delete_eq |]. unfold gone. by rewrite H.
    + exists []. by rewrite app_nil_r.
Qed.

Lemma reachable_inv S : reachable S -> sys_inv S.
Proof. induction 1; [by apply initial_inv | by eapply step_inv]. Qed.
End system.
