(* ===== verification/AtomicCommit.v ===== *)
(** * The guarantees of the commit protocol

    The theorems about the reachable states of [TwoPhaseSystem], and an
    executable schedule ([run]) that produces such states: the witnesses run a
    transaction to its commit, to its abort and through a crash. *)

From Stdlib Require Import ZArith Lia Bool.
From stdpp Require Import base list option numbers sets gmap relations.
From S2P Require Import Prelude BitSet Serialization Scn TwoPhaseCommitter TwoPhaseNode TwoPhaseSystem.

Local Open Scope Z_scope.

#[global] Instance is_prepared_dec S i : Decision (is_prepared S i) := decide (OB_LOG_TX_PREPARE ∈ S.(hist) i).
#[global] Instance is_committed_dec S i : Decision (is_committed S i) := decide (OB_LOG_TX_COMMIT ∈ S.(hist) i).
#[global] Instance is_aborted_dec S i : Decision (is_aborted S i) := decide (OB_LOG_TX_ABORT ∈ S.(hist) i).
#[global] Instance is_cleared_dec S i : Decision (is_cleared S i) := decide (OB_LOG_TX_CLEAR ∈ S.(hist) i).

(** ** Schedules *)

(** A choice of the next step: a message by its number, a log that becomes
    durable, a crash before or after it does. *)
Inductive event :=
| Commit
| Deliver (n : nat)
| Durable (j : Z)
| Timeout (j : Z)
| Kill (j : Z)
| Crash (j : Z) (durable : bool)
| Forget (j : Z).

Section run.
Context (root : Z) (parts : list Z) (v : virtuals) (w : log_body).

Definition alive (S : system) (j : Z) : option committer :=
  s ← S.(nodes) !! j; if s.(is_exiting_) then None else Some s.

Definition run_event (S : system) (e : event) : option system :=
  match e with
  | Commit => s ← alive S root; Some (after_call S root (two_phase_commit v s).2)
  | Deliver n =>
    m ← S.(net) !! n;
    match S.(nodes) !! receiver_ m with
    | Some s => Some (after_call S (receiver_ m) (handle_tx_batch_req v true true (OB_SUCCESS, 200) m s).2)
    | None =>
      if bool_decide (receiver_ m ∈ parts) then
        Some (System S.(nodes) S.(hist)
                (S.(net) ++ option_list (handle_tx_orphan_2pc_msg v (OB_SUCCESS, 200) m).2) S.(client))
      else None
    end
  | Durable j =>
    s ← alive S j;
    log ← s.(state_log_submitting_);
    match on_success_ops_ v log s with
    | (Some 0, s') =>
      Some (after_call (System S.(nodes) (append_log S.(hist) j [log]) S.(net) S.(client)) j s')
    | _ => None
    end
  | Timeout j => s ← alive S j; Some (after_call S j (handle_timeout v s).2)
  | Kill j => s ← alive S j; Some (after_call S j (set_force_abort true s))
  | Crash j durable =>
    s ← alive S j;
    let logs := if durable then pending_logs s else [] in
    Some (System (if resumes (S.(hist) j ++ logs)
                  then <[j := replay_all v (S.(hist) j ++ logs) (blank w s)]> S.(nodes)
                  else delete j S.(nodes))
                 (append_log S.(hist) j logs) S.(net) S.(client))
  | Forget j =>
    s ← S.(nodes) !! j;
    if s.(is_exiting_) then Some (System (delete j S.(nodes)) S.(hist) S.(net) S.(client)) else None
  end.

Fixpoint run (S : system) (es : list event) : option system :=
  match es with
  | [] => Some S
  | e :: es => S' ← run_event S e; run S' es
  end.

Lemma alive_spec S j s : alive S j = Some s -> S.(nodes) !! j = Some s /\ s.(is_exiting_) = false.
Proof.
  unfold alive. destruct (S.(nodes) !! j) as [s1 |]; cbn; [| done].
  destruct s1.(is_exiting_) eqn:E; [done |]. by intros [= <-].
Qed.

(** Every event is a step. *)
Lemma run_event_step S e S' : run_event S e = Some S' -> step root parts S S'.
Proof.
  unfold run_event. destruct e; cbn.
  - destruct (alive S root) as [s |] eqn:Ha; [| done]. apply alive_spec in Ha as [Hs He].
    intros [= <-]. by apply step_commit.
  - destruct (S.(net) !! n) as [m |] eqn:Hm; [| done]. apply list_elem_of_lookup_2 in Hm. cbn.
    destruct (S.(nodes) !! receiver_ m) as [s |] eqn:Hs.
    + intros [= <-]. by apply step_message.
    + case_bool_decide; [| done]. intros [= <-]. by apply step_orphan.
  - destruct (alive S j) as [s |] eqn:Ha; [| done]. apply alive_spec in Ha as [Hs He]. cbn.
    destruct s.(state_log_submitting_) as [log |] eqn:Hl; [| done]. cbn.
    destruct (on_success_ops_ v log s) as [[[] |] s'] eqn:Hr; try done. intros [= <-]. by eapply step_log.
  - destruct (alive S j) as [s |] eqn:Ha; [| done]. apply alive_spec in Ha as [Hs He].
    intros [= <-]. by apply step_timeout.
  - destruct (alive S j) as [s |] eqn:Ha; [| done]. apply alive_spec in Ha as [Hs He].
    intros [= <-]. by apply step_delay_abort.
  - destruct (alive S j) as [s |] eqn:Ha; [| done]. apply alive_spec in Ha as [Hs He]. cbn.
    intros [= <-]. apply step_crash; [done | done |]. by destruct durable; [right | left].
  - destruct (S.(nodes) !! j) as [s |] eqn:Hs; [| done]. cbn.
    destruct s.(is_exiting_) eqn:He; [| done]. intros [= <-]. by eapply step_exit.
Qed.

Lemma run_reachable S es S' : reachable root parts S -> run S es = Some S' -> reachable root parts S'.
Proof.
  revert S. induction es as [| e es IH]; intros S Hr; cbn; [by intros [= <-] |].
  destruct (run_event S e) as [S1 |] eqn:E; [| done]. cbn. apply IH.
  eapply reachable_step; [exact Hr | by eapply run_event_step].
Qed.
End run.

(** ** A transaction with one coordinator and one leaf *)

Definition new_node (j : Z) : committer :=
  Committer [] (-1) j (if j =? 1 then 1 else INVALID_LS_ID) (if j =? 1 then [1; 2] else []) [] []
    INIT INIT false invalid_scn invalid_scn invalid_scn invalid_scn None None false false None [] [] false
    ACTION_START.

Definition replayed : log_body := LogBody 101 invalid_scn invalid_scn invalid_scn [] false.

Definition two_nodes : system := System (<[1 := new_node 1]> (<[2 := new_node 2]> ∅)) (fun _ => []) [] [].

Lemma two_nodes_initial : initial 1 [1; 2] two_nodes.
Proof.
  split_and!; try done.
  - intros j s. cbn. rewrite !lookup_insert_Some, lookup_empty.
    intros [[<- <-] | [_ [[<- <-] | [_ [=]]]]]; (split; [by repeat constructor |]);
      by repeat split.
  - intros j. rewrite !elem_of_cons. intros [-> | [-> | []%not_elem_of_nil]]; eexists; done.
Qed.

Lemma two_nodes_topology : topology 1 [1; 2].
Proof. constructor; [by constructor | by apply (bool_decide_unpack _) | | done]. by apply (bool_decide_unpack _). Qed.

(** The failure-free schedule. *)
Definition commit_schedule : list event :=
  [Commit; Deliver 0; Durable 1; Durable 2; Deliver 1; Deliver 2; Deliver 3; Deliver 4; Durable 1; Durable 2;
   Deliver 5; Deliver 6; Durable 1; Durable 2].

(** The leaf is killed before it is asked to prepare, and leaves. *)
Definition abort_schedule : list event :=
  [Commit; Crash 2 false; Durable 1; Deliver 0; Deliver 1; Durable 1].

Definition outcome_of (es : list event) : system := default two_nodes (run 1 [1; 2] virtuals_ok replayed two_nodes es).

Lemma outcome_reachable es : is_Some (run 1 [1; 2] virtuals_ok replayed two_nodes es) ->
  reachable 1 [1; 2] (outcome_of es).
Proof.
  unfold outcome_of. intros [S' HS]. rewrite HS. cbn.
  eapply run_reachable; [apply reachable_initial, two_nodes_initial | exact HS].
Qed.

(** ** What is never taken back *)

Section stable.
Context (root : Z) (parts : list Z).

(** Logs and responses are only added. *)
Lemma step_grows S S' : step root parts S S' ->
  (forall i, S.(hist) i `prefix_of` S'.(hist) i) /\ S.(client) `prefix_of` S'.(client).
Proof.
  intros Hs. destruct Hs; cbn; (split; [intros i | try apply prefix_app_r; reflexivity]); try reflexivity.
  all: unfold append_log; case_decide; [apply prefix_app_r |]; reflexivity.
Qed.

Lemma steps_grow S S' : rtc (step root parts) S S' -> S.(client) `prefix_of` S'.(client).
Proof.
  induction 1 as [| S S1 S2 Hs _ IH]; [reflexivity |]. etrans; [apply (step_grows S S1 Hs) | done].
Qed.

Lemma steps_reachable S S' : reachable root parts S -> rtc (step root parts) S S' -> reachable root parts S'.
Proof. intros Hr. induction 1 as [| S S1 S2 Hs _ IH]; [done |]. apply IH. by eapply reachable_step. Qed.

Context (T : topology root parts).

Lemma committed_excl S i j : sys_inv root parts S -> i ∈ parts -> j ∈ parts ->
  is_committed S i -> is_aborted S j -> False.
Proof.
  intros I Hi Hj Hc Ha. apply (reason_excl root parts T S I).
  - eapply abort_ok_reason, si_abort; [exact I | exact Hj | exact Ha].
  - by apply (si_commit root parts S I i).
Qed.

End stable.

(** ** The guarantees *)

(** C1: Atomicity.  In every state the protocol can reach -- whatever messages
    are lost, repeated or reordered, whichever contexts crash, time out or are
    killed, and whatever the log service, the timestamp service and the network
    return -- no participant has written a commit log while another has written
    an abort log. *)
Theorem atomic_commit root parts S i j : topology root parts -> reachable root parts S ->
  i ∈ parts -> j ∈ parts -> is_committed S i -> ~ is_aborted S j.
Proof. intros T Hr Hi Hj Hc Ha. exact (committed_excl root parts T S i j (reachable_inv root parts T S Hr) Hi Hj Hc Ha). Qed.

Lemma atomic_commit_witness :
  is_committed (outcome_of commit_schedule) 1 /\ ~ is_aborted (outcome_of commit_schedule) 2.
Proof.
  assert (is_committed (outcome_of commit_schedule) 1) as Hc by (apply (bool_decide_unpack _); by vm_compute).
  split; [exact Hc |].
  apply (atomic_commit 1 [1; 2] (outcome_of commit_schedule) 1 2 two_nodes_topology); [| | | exact Hc].
  - apply outcome_reachable. by vm_compute; eexists.
  - by apply (bool_decide_unpack _).
  - by apply (bool_decide_unpack _).
Defined.

(** C7: Commit validity.  A commit log is only written after every participant
    of the transaction, the coordinator included, has made a prepare log durable. *)
Theorem commit_after_every_prepare root parts S i j : topology root parts -> reachable root parts S ->
  i ∈ parts -> is_committed S i -> j ∈ parts -> is_prepared S j.
Proof. intros T Hr Hi Hc. exact (si_commit root parts S (reachable_inv root parts T S Hr) i Hi Hc j). Qed.

Lemma commit_after_every_prepare_witness :
  is_committed (outcome_of commit_schedule) 2 /\ is_prepared (outcome_of commit_schedule) 1.
Proof.
  assert (is_committed (outcome_of commit_schedule) 2) as Hc by (apply (bool_decide_unpack _); by vm_compute).
  split; [exact Hc |].
  apply (commit_after_every_prepare 1 [1; 2] (outcome_of commit_schedule) 2 1 two_nodes_topology); [| | exact Hc |].
  - apply outcome_reachable. by vm_compute; eexists.
  - by apply (bool_decide_unpack _).
  - by apply (bool_decide_unpack _).
Defined.



(** C25: The state logs of a participant.  Every participant writes its state logs
    in one of the eight orders of the protocol: at most one decision, a commit only
    after a prepare, nothing after a clear. *)
Theorem state_logs_in_protocol_order root parts S j : topology root parts -> reachable root parts S ->
  j ∈ parts -> S.(hist) j ∈ log_shapes.
Proof. intros T Hr. exact (si_shape root parts S (reachable_inv root parts T S Hr) j). Qed.

Lemma state_logs_in_protocol_order_witness :
  (outcome_of commit_schedule).(hist) 2 = [OB_LOG_TX_PREPARE; OB_LOG_TX_COMMIT; OB_LOG_TX_CLEAR] /\
  (outcome_of commit_schedule).(hist) 2 ∈ log_shapes.
Proof.
  split; [by vm_compute |]. apply (state_logs_in_protocol_order 1 [1; 2] (outcome_of commit_schedule) 2 two_nodes_topology).
  - apply outcome_reachable. by vm_compute; eexists.
  - by apply (bool_decide_unpack _).
Defined.

(** C26: The coordinator forgets last.  A coordinator with a clear log after a
    commit has the commit of every participant, and a leaf only clears a committed
    transaction when the coordinator has committed: a request that reaches a
    participant without a context can be answered from the absence alone. *)
Theorem clear_after_every_commit root parts S i : topology root parts -> reachable root parts S ->
  i ∈ parts -> is_committed S i -> is_cleared S i ->
  if decide (i = root) then forall j, j ∈ parts -> is_committed S j else is_committed S root.
Proof.
  intros T Hr Hi Hc Hcl. pose proof (si_clear root parts S (reachable_inv root parts T S Hr) i Hi Hc Hcl) as H.
  case_decide as E; [| done]. intros j Hj. destruct (decide (j = root)) as [-> | Hn]; [by rewrite <- E |].
  by apply (H j).
Qed.

Lemma clear_after_every_commit_witness :
  is_cleared (outcome_of commit_schedule) 1 /\ is_committed (outcome_of commit_schedule) 2.
Proof.
  assert (is_cleared (outcome_of commit_schedule) 1) as Hc by (apply (bool_decide_unpack _); by vm_compute).
  split; [exact Hc |].
  apply (clear_after_every_commit 1 [1; 2] (outcome_of commit_schedule) 1 two_nodes_topology); [| | | exact Hc |].
  - apply outcome_reachable. by vm_compute; eexists.
  - by apply (bool_decide_unpack _).
  - apply (bool_decide_unpack _). by vm_compute.
  - by apply (bool_decide_unpack _).
Defined.


(** Nothing outside the callback answers. *)
Definition virtuals_isolated : virtuals := {|
  v_bitset_push _ := OB_SUCCESS; v_reserve := OB_SUCCESS;
  v_push_participant _ := OB_SUCCESS; v_push_commit_part _ := OB_SUCCESS;
  v_mds_tx_end := OB_SUCCESS; v_search_dup_redo := OB_SUCCESS; v_is_dup_tx := false;
  v_dup_redo_sync_completed := true; v_dup_redo_sync := OB_SUCCESS; v_dup_pre_commit := OB_SUCCESS;
  v_mt_prepared := false; v_get_gts := (OB_EAGAIN, 0); v_max_read_version := (OB_SUCCESS, 90);
  v_dup_max_read_version := invalid_scn; v_restart_timer := OB_EAGAIN;
  v_tx_data_writable := OB_SUCCESS; v_wait_gts_elapse := (OB_EAGAIN, false);
  v_acquire_ctx_ref := OB_SUCCESS; v_assign_log_info := OB_SUCCESS;
  v_notify_array := OB_SUCCESS; v_notify_data_source := OB_SUCCESS; v_retain_ctx := OB_SUCCESS;
  v_remove_dup := OB_SUCCESS; v_is_follower := false; v_has_log := true; v_stc_expired := false; v_srr_valid := true;
  v_revert_ctx := OB_SUCCESS; v_tx_end := OB_SUCCESS; v_trans_clear := OB_SUCCESS;
  v_big_segment_active := false; v_submit_log _ := (OB_EAGAIN, false); v_log_ts := 101;
  v_rpc_post _ _ := OB_EAGAIN; v_set_app_trace_info := OB_SUCCESS; v_min_version_4_1 := true |}.


(** The states a log records; the pre-commit phase writes none. *)
Definition recorded_state (d : ObTxState) : ObTxState :=
  match d with PRE_COMMIT => PREPARE | _ => d end.

(** C27: Recovery.  A context rebuilt by [replay_log] from the state logs a
    participant has made durable is in the state that participant had reached: the
    state of its last log in both variables, nothing collected, nothing being
    written, and the same place in the transaction. *)
Theorem replay_restores_durable_state root parts S j s v w : topology root parts -> reachable root parts S ->
  S.(nodes) !! j = Some s -> s.(is_exiting_) = false -> resumes (S.(hist) j) = true ->
  let s' := replay_all v (S.(hist) j) (blank w s) in
  s'.(state_) = recorded_state s.(state_) /\ s'.(upstream_state_) = recorded_state s.(state_) /\
  s'.(collected_) = [] /\ is_2pc_logging s' = false /\
  s'.(ls_id_) = s.(ls_id_) /\ s'.(upstream_) = s.(upstream_) /\ s'.(participants_) = s.(participants_).
Proof.
  intros T Hr Hs He Hres s'. unfold s'.
  destruct (node_inv_of root parts S j s (reachable_inv root parts T S Hr) Hs He) as [_ Hh].
  unfold hist_ok in Hh. destruct s.(state_); try done; rewrite ?Hh in Hres |- *; try done.
  by destruct Hh as [Hh | Hh]; rewrite Hh in Hres |- *.
Qed.

Lemma replay_restores_durable_state_witness :
  exists s, (outcome_of (take 10 commit_schedule)).(nodes) !! 2 = Some s /\
    (replay_all virtuals_ok ((outcome_of (take 10 commit_schedule)).(hist) 2) (blank replayed s)).(state_) =
      recorded_state s.(state_).
Proof.
  eexists. split; [by vm_compute |].
  eapply proj1, (replay_restores_durable_state 1 [1; 2] (outcome_of (take 10 commit_schedule)) 2 _ virtuals_ok replayed
    two_nodes_topology).
  - apply outcome_reachable. by vm_compute; eexists.
  - by vm_compute.
  - done.
  - by vm_compute.
Defined.

(** ** Refinement of atomic commitment

    The specification knows nothing of messages, coordinators or crashes: a
    participant votes, and then takes the decision when the votes of the others
    allow it. *)
Inductive vote := Undecided | Voted | Committed | Aborted.

Section atomic_commitment.
Context (parts : list Z).

(** Somebody votes; everybody has voted and somebody commits; nobody has committed
    and somebody aborts. *)
Inductive decision : vote -> vote -> (Z -> vote) -> Prop :=
| decide_prepare f : decision Undecided Voted f
| decide_commit f : (forall i, i ∈ parts -> f i = Voted \/ f i = Committed) -> decision Voted Committed f
| decide_abort a f : a = Undecided \/ a = Voted -> (forall i, i ∈ parts -> f i <> Committed) -> decision a Aborted f.

Definition spec_step (f g : Z -> vote) : Prop :=
  exists j, j ∈ parts /\ decision (f j) (g j) f /\ forall i, i <> j -> g i = f i.
End atomic_commitment.

(** What the logs of a participant say. *)
Definition vote_of (h : list ObTwoPhaseCommitLogType) : vote :=
  if decide (OB_LOG_TX_COMMIT ∈ h) then Committed
  else if decide (OB_LOG_TX_ABORT ∈ h) then Aborted
  else if decide (OB_LOG_TX_PREPARE ∈ h) then Voted else Undecided.

Definition votes (S : system) (i : Z) : vote := vote_of (S.(hist) i).

(** The decision a log is. *)
Definition decided_by (log : ObTwoPhaseCommitLogType) (a b : vote) : Prop :=
  (log = OB_LOG_TX_PREPARE /\ a = Undecided /\ b = Voted) \/
  (log = OB_LOG_TX_COMMIT /\ a = Voted /\ b = Committed) \/
  (log = OB_LOG_TX_ABORT /\ (a = Undecided \/ a = Voted) /\ b = Aborted) \/
  (log = OB_LOG_TX_CLEAR /\ b = a).

Lemma vote_of_extend h log : h ∈ log_shapes -> h ++ [log] ∈ log_shapes ->
  decided_by log (vote_of h) (vote_of (h ++ [log])).
Proof.
  intros Hh Hx. unfold decided_by. unfold log_shapes in Hh. rewrite !elem_of_cons in Hh.
  destruct Hh as [-> | [-> | [-> | [-> | [-> | [-> | [-> | [-> | []%not_elem_of_nil]]]]]]]];
    apply (bool_decide_pack _) in Hx; destruct log; try done; vm_compute; tauto.
Qed.

(** A step makes at most one log durable. *)
Lemma step_hist root parts S S' : step root parts S S' ->
  (forall i, S'.(hist) i = S.(hist) i) \/
  exists j log, S'.(hist) j = S.(hist) j ++ [log] /\ (forall i, i <> j -> S'.(hist) i = S.(hist) i) /\
                is_Some (S.(nodes) !! j).
Proof.
  assert (forall j (logs : list ObTwoPhaseCommitLogType), is_Some (S.(nodes) !! j) -> length logs <= 1 ->
    (forall i, append_log S.(hist) j logs i = S.(hist) i) \/
    exists k log, append_log S.(hist) j logs k = S.(hist) k ++ [log] /\
      (forall i, i <> k -> append_log S.(hist) j logs i = S.(hist) i) /\ is_Some (S.(nodes) !! k))%nat as Ha.
  { intros j [| log [| ? ?]] Hj Hl; [left | right | cbn in Hl; lia].
    - intros i. unfold append_log. case_decide; [by rewrite app_nil_r | done].
    - exists j, log. unfold append_log. rewrite decide_True by done. split_and!; [done | | done].
      intros i Hn. by rewrite decide_False. }
  intros Hs. destruct Hs; cbn; try (by left).
  - apply Ha; [by eexists | done].
  - apply Ha; [by eexists |]. destruct H1 as [-> | ->]; unfold pending_logs; [cbn; lia |].
    destruct s.(state_log_submitting_); cbn; lia.
Qed.

Lemma votes_prepared S i : is_prepared S i -> ~ is_aborted S i -> votes S i = Voted \/ votes S i = Committed.
Proof.
  intros Hp Ha. unfold votes, vote_of. case_decide; [by right |]. rewrite decide_False by done.
  rewrite decide_True by done. by left.
Qed.

Lemma votes_committed S i : votes S i = Committed -> is_committed S i.
Proof. unfold votes, vote_of. repeat case_decide; done. Qed.

(** C4: The protocol refines atomic commitment.  Read through the logs the
    participants have made durable, every step of the protocol -- a message, a
    callback, a timer, a crash -- is a step of the specification or changes
    nothing: a participant votes once, commits only when everybody has voted to
    commit, and aborts only when nobody has committed. *)
Theorem protocol_refines_atomic_commitment root parts S S' : topology root parts -> reachable root parts S ->
  step root parts S S' ->
  (forall i, votes S' i = votes S i) \/ spec_step parts (votes S) (votes S').
Proof.
  intros T Hr Hs. pose proof (reachable_inv root parts T S Hr) as I.
  assert (sys_inv root parts S') as I' by (eapply step_inv; eauto).
  destruct (step_hist root parts S S' Hs) as [Hh | (j & log & Hj & Ho & [s Hn])].
  { left. intros i. unfold votes. by rewrite Hh. }
  destruct (si_nodes root parts S I j s Hn) as [Hp _].
  assert (forall i, i <> j -> votes S' i = votes S i) as Hv by (intros i Hi; unfold votes; by rewrite Ho).
  pose proof (si_shape root parts S' I' j Hp) as Hx. rewrite Hj in Hx.
  assert (votes S' j = vote_of (S.(hist) j ++ [log])) as Hvj by (unfold votes; by rewrite Hj).
  pose proof (vote_of_extend (S.(hist) j) log (si_shape root parts S I j Hp) Hx) as Hd. rewrite <- Hvj in Hd.
  assert (log ∈ S'.(hist) j) as Hin by (rewrite Hj; apply elem_of_app; right; apply list_elem_of_here).
  change (vote_of (S.(hist) j)) with (votes S j) in Hd.
  destruct Hd as [(El & Ea & Eb) | [(El & Ea & Eb) | [(El & Ea & Eb) | (El & Eb)]]].
  - right. exists j. rewrite Ea, Eb. split_and!; [done | constructor | done].
  - right. exists j. rewrite Ea, Eb. split_and!; [done | | done]. constructor. intros i Hi.
    assert (is_committed S' j) as Hc by (unfold is_committed; rewrite <- El; auto).
    destruct (decide (i = j)) as [-> | Hne]; [left; exact Ea |]. rewrite <- (Hv i Hne).
    apply votes_prepared; [by apply (si_commit root parts S' I' j) |]. intros Ha.
    by apply (committed_excl root parts T S' j i).
  - right. exists j. rewrite Eb. split_and!; [done | | done]. constructor; [done |]. intros i Hi Hc.
    assert (is_aborted S' j) as Ha by (unfold is_aborted; rewrite <- El; auto).
    destruct (decide (i = j)) as [-> | Hne]; [destruct Ea; congruence |]. rewrite <- (Hv i Hne) in Hc.
    by apply (committed_excl root parts T S' i j I' Hi Hp (votes_committed S' i Hc)).
  - left. intros i. destruct (decide (i = j)) as [-> | Hne]; auto.
Qed.

Lemma protocol_refines_atomic_commitment_witness :
  spec_step [1; 2] (votes (outcome_of (take 8 commit_schedule))) (votes (outcome_of (take 9 commit_schedule))).
Proof.
  destruct (protocol_refines_atomic_commitment 1 [1; 2] (outcome_of (take 8 commit_schedule))
    (outcome_of (take 9 commit_schedule)) two_nodes_topology) as [Hx | Hx]; [| | | exact Hx].
  - apply outcome_reachable. by vm_compute; eexists.
  - apply (run_event_step 1 [1; 2] virtuals_ok replayed _ (Durable 1)). by vm_compute.
  - specialize (Hx 1). by vm_compute in Hx.
Defined.
