(* ===== verification/ElectionUtils.v ===== *)
(** * Data of the leader election

    [src/logservice/palf/election]: the member list ([utils/election_member_list]),
    the lease, the counting of answers ([utils/election_utils]) and the messages
    ([message/election_message]); the configuration version of
    [palf/log_meta_info] and the address of [lib/net/ob_addr] they use.

    The majority the proposer computes from the promises of the acceptors is the
    largest time that a majority of the replicas has promised. *)

From Stdlib Require Import ZArith Lia Bool.
From stdpp Require Import base countable numbers option list.
From S2P Require Import Prelude Lsn.
Import AbortMonad.

Local Open Scope Z_scope.

Definition INVALID_VALUE : Z := -1.
Definition MAX_LEASE_TIME : Z := 10 * 1000000.
Definition CACHE_EXPIRATION_TIME : Z := 5 * 1000000.

(** ** Addresses

    An IPv4 address; [reset] leaves the word of the address in place. *)
Module ObAddr.
Record t := mk { ip_ : Z; port_ : Z }.

#[global] Instance eq_dec : EqDecision t.
Proof. solve_decision. Defined.

#[global] Instance countable : Countable t.
Proof. by refine (inj_countable' (fun a => (ip_ a, port_ a)) (fun '(i, p) => mk i p) _); intros []. Defined.

Definition reset (a : t) : t := mk (ip_ a) 0.

Definition is_valid (a : t) : bool := if port_ a <=? 0 then false else negb (ip_ a =? 0).

Definition compare_refactored (a rv : t) : Z :=
  let ipcmp := ip_ a - ip_ rv in
  let ipcmp := if ipcmp =? 0 then port_ a - port_ rv else ipcmp in
  if ipcmp =? 0 then 0 else if 0 <? ipcmp then 1 else -1.

Definition eqb (a rv : t) : bool := compare_refactored a rv =? 0.
Definition ltb (a rv : t) : bool := compare_refactored a rv <? 0.

(** A new address: IPv4, no port. *)
Definition fresh : t := mk 0 0.

Lemma addr_eqb_eq a b : eqb a b = true <-> a = b.
Proof.
  unfold eqb, compare_refactored. destruct a as [i p], b as [j q]; cbn.
  split; [|intros [= -> ->]; rewrite !Z.sub_diag; done].
  destruct (Z.eqb_spec (i - j) 0) as [E|E]; [destruct (Z.eqb_spec (p - q) 0) as [E'|E']|].
  - intros _. f_equal; lia.
  - by case_match.
  - apply Z.eqb_neq in E. rewrite E. by case_match.
Qed.

Lemma eqb_refl a : eqb a a = true.
Proof. by apply addr_eqb_eq. Qed.

Lemma eqb_neq a b : a <> b -> eqb a b = false.
Proof. intros H. apply not_true_is_false. by rewrite addr_eqb_eq. Qed.

Lemma reset_invalid a : is_valid (reset a) = false.
Proof. done. Qed.
End ObAddr.

(** ** Configuration versions *)
Module LogConfigVersion.
Record t := mk { proposal_id_ : Z; config_seq_ : Z }.

#[global] Instance eq_dec : EqDecision t.
Proof. solve_decision. Defined.

Definition fresh : t := mk INVALID_PROPOSAL_ID (-1).
Definition reset (v : t) : t := mk INVALID_PROPOSAL_ID (-1).
Definition is_valid (v : t) : bool := negb (proposal_id_ v =? INVALID_PROPOSAL_ID) && (0 <=? config_seq_ v).
Definition is_initial_version (v : t) : bool := config_seq_ v <=? 0.

Definition generate (proposal_id config_seq : Z) (v : t) : Z * t :=
  if (proposal_id =? INVALID_PROPOSAL_ID) || (config_seq <? 0) then (OB_INVALID_ARGUMENT, v)
  else (OB_SUCCESS, mk proposal_id config_seq).

Definition inc_update_version (proposal_id : Z) (v : t) : Z * t :=
  if (INVALID_PROPOSAL_ID =? proposal_id_ v) || (config_seq_ v <? 0) then (OB_NOT_INIT, v)
  else if (INVALID_PROPOSAL_ID =? proposal_id) || (proposal_id <? proposal_id_ v) then (OB_INVALID_ARGUMENT, v)
  else (OB_SUCCESS, mk proposal_id (config_seq_ v + 1)).

Definition eqb (v w : t) : bool := (proposal_id_ v =? proposal_id_ w) && (config_seq_ v =? config_seq_ w).

Definition gtb (v w : t) : bool :=
  let cmp_ret := (proposal_id_ w <? proposal_id_ v)
                 || ((proposal_id_ v =? proposal_id_ w) && (config_seq_ w <? config_seq_ v)) in
  if is_valid v && is_valid w then cmp_ret else if negb (is_valid v) then false else true.

Definition ltb (v w : t) : bool :=
  let cmp_ret := (proposal_id_ v <? proposal_id_ w)
                 || ((proposal_id_ v =? proposal_id_ w) && (config_seq_ v <? config_seq_ w)) in
  if is_valid v && is_valid w then cmp_ret else if negb (is_valid w) then false else true.

Definition geb (v w : t) : bool := gtb v w || eqb v w.
Definition leb (v w : t) : bool := ltb v w || eqb v w.

(** [max] of [election_utils.h] at this type. *)
Definition max (v w : t) : t := if gtb v w then v else w.

Lemma version_eqb_eq v w : eqb v w = true <-> v = w.
Proof.
  unfold eqb. rewrite andb_true_iff, !Z.eqb_eq. destruct v, w; cbn. split; [intros [-> ->]; done | by intros [= -> ->]].
Qed.

Lemma ltb_irrefl v : ltb v v = false.
Proof. unfold ltb. rewrite !Z.ltb_irrefl, andb_false_r, orb_false_r. by destruct (is_valid v). Qed.

Lemma gtb_irrefl v : gtb v v = false.
Proof. unfold gtb. rewrite !Z.ltb_irrefl, andb_false_r, orb_false_r. by destruct (is_valid v). Qed.

Lemma gtb_ltb v w : gtb v w = ltb w v.
Proof. unfold gtb, ltb. rewrite (Z.eqb_sym (proposal_id_ w)), (andb_comm (is_valid w)). by repeat case_match. Qed.
End LogConfigVersion.

(** ** Member lists *)
Module MemberList.
Record t := mk { addr_list_ : list ObAddr.t; membership_version_ : LogConfigVersion.t; replica_num_ : Z }.

Definition fresh : t := mk [] LogConfigVersion.fresh 0.

Definition is_valid (m : t) : bool :=
  negb (bool_decide (addr_list_ m = [])) && LogConfigVersion.is_valid (membership_version_ m) && (0 <? replica_num_ m).

(** The loops that compare two address lists position by position. *)
Fixpoint same_addrs (l k : list ObAddr.t) : bool :=
  match l, k with
  | [], _ => true
  | a :: l, b :: k => ObAddr.eqb a b && same_addrs l k
  | _ :: _, [] => false
  end.

Definition equal (m rhs : t) : bool :=
  let valid_member_list_count := (if is_valid rhs then 1 else 0) + (if is_valid m then 1 else 0) in
  if valid_member_list_count =? 0 then true
  else if valid_member_list_count =? 2 then
    if LogConfigVersion.eqb (membership_version_ m) (membership_version_ rhs) && (replica_num_ m =? replica_num_ rhs)
    then if Nat.eqb (length (addr_list_ m)) (length (addr_list_ rhs))
         then same_addrs (addr_list_ m) (addr_list_ rhs) else false
    else false
  else false.

Definition only_membership_version_different (m rhs : t) : bool :=
  if equal m rhs then true
  else if negb (replica_num_ m =? replica_num_ rhs) then false
  else if negb (Nat.eqb (length (addr_list_ m)) (length (addr_list_ rhs))) then false
  else same_addrs (addr_list_ m) (addr_list_ rhs).

(** [assign] is the code the assignment of the array returns. *)
Definition assign (assigned : Z) (rhs m : t) : Z * t :=
  if ob_fail assigned then (assigned, m)
  else (assigned, mk (addr_list_ rhs) (membership_version_ rhs) (replica_num_ rhs)).

(** The number of replicas is kept in eight bits. *)
Definition set_new_member_list (assigned : Z) (addr_list : list ObAddr.t) (membership_version : LogConfigVersion.t)
    (replica_num : Z) (m : t) : Z * t :=
  if ob_fail assigned then (assigned, m) else (assigned, mk addr_list membership_version (u8 replica_num)).

Definition set_membership_version (version : LogConfigVersion.t) (m : t) : t :=
  mk (addr_list_ m) version (replica_num_ m).

Lemma same_addrs_eq l k : length l = length k -> same_addrs l k = true -> l = k.
Proof.
  revert k. induction l as [|a l IH]; intros [|b k] Hl; try done. cbn.
  rewrite andb_true_iff, ObAddr.addr_eqb_eq. intros [-> H]. f_equal. apply IH; [by injection Hl|done].
Qed.
End MemberList.

(** ** Leases: [Lease] *)
Module Lease.
Record t := mk { owner_ : ObAddr.t; lease_end_ts_ : Z; ballot_number_ : Z }.

Definition fresh : t := mk ObAddr.fresh INVALID_VALUE INVALID_VALUE.

Definition reset (l : t) : t := mk (ObAddr.reset (owner_ l)) (-1) (ballot_number_ l).

Definition is_empty (l : t) : bool := negb (ObAddr.is_valid (owner_ l)) && (lease_end_ts_ l =? -1).

(** [now] is what [get_monotonic_ts] returns. *)
Definition is_expired (now : Z) (l : t) : bool := lease_end_ts_ l <? now.

(** The update before its assertion. *)
Definition update_from (now : Z) (sender : ObAddr.t) (lease_interval ballot_number : Z) (l : t) : t :=
  mk sender (Z.max (lease_end_ts_ l) (now + lease_interval)) ballot_number.

Definition get_owner_and_ballot (l : t) : ObAddr.t * Z := (owner_ l, ballot_number_ l).
End Lease.

(** ** Messages: [election_message.h]

    The time stamps for diagnosis are left out. *)
Inductive ObRole := INVALID_ROLE | LEADER | FOLLOWER | STANDBY_LEADER | RESTORE_LEADER.

#[global] Instance ObRole_eq_dec : EqDecision ObRole.
Proof. solve_decision. Defined.

Inductive ElectionMsgType := PREPARE_REQUEST | PREPARE_RESPONSE | ACCEPT_REQUEST | ACCEPT_RESPONSE | CHANGE_LEADER | INVALID_TYPE.

Module ElectionMsgBase.
Record t := mk {
  id_ : Z; sender_ : ObAddr.t; receiver_ : ObAddr.t; restart_counter_ : Z; ballot_number_ : Z;
  version_ : Z; msg_type_ : ElectionMsgType }.

(** The constructor; the receiver is set when the message is sent. *)
Definition make (id : Z) (self_addr : ObAddr.t) (restart_counter ballot_number version : Z) (msg_type : ElectionMsgType)
    : t := mk id self_addr ObAddr.fresh restart_counter ballot_number version msg_type.

Definition fresh : t := mk INVALID_VALUE ObAddr.fresh ObAddr.fresh INVALID_VALUE INVALID_VALUE 0 INVALID_TYPE.

Definition reset (m : t) : t :=
  mk (id_ m) (ObAddr.reset (sender_ m)) (ObAddr.reset (receiver_ m)) INVALID_VALUE INVALID_VALUE 0 INVALID_TYPE.

Definition set_receiver (addr : ObAddr.t) (m : t) : t :=
  mk (id_ m) (sender_ m) addr (restart_counter_ m) (ballot_number_ m) (version_ m) (msg_type_ m).

Definition set_ballot (ballot_number : Z) (m : t) : t :=
  mk (id_ m) (sender_ m) (receiver_ m) (restart_counter_ m) ballot_number (version_ m) (msg_type_ m).

Definition is_valid (m : t) : bool :=
  ObAddr.is_valid (sender_ m) && ObAddr.is_valid (receiver_ m) && negb (restart_counter_ m =? INVALID_VALUE)
  && negb (ballot_number_ m =? INVALID_VALUE) && match msg_type_ m with INVALID_TYPE => false | _ => true end.
End ElectionMsgBase.

(** What the messages that are compared by priority have in common. *)
Record priority_view := PriorityView {
  is_buffer_valid_ : bool; inner_priority_seed_ : Z; membership_version_ : LogConfigVersion.t; priority_buffer_ : list Z }.

Module PrepareRequest.
Record t := mk { base : ElectionMsgBase.t; role_ : ObRole; view : priority_view }.

Definition make (id : Z) (self_addr : ObAddr.t) (restart_counter ballot_number version inner_priority_seed : Z)
    (membership_version : LogConfigVersion.t) : t :=
  mk (ElectionMsgBase.make id self_addr restart_counter ballot_number version PREPARE_REQUEST) INVALID_ROLE
    (PriorityView false inner_priority_seed membership_version []).

Definition fresh : t :=
  mk ElectionMsgBase.fresh INVALID_ROLE (PriorityView false (Z.shiftl 1 12) LogConfigVersion.fresh []).

(** [priority]: nothing, or the code and the bytes its [serialize] gives. *)
Definition set (priority : option (Z * list Z)) (role : ObRole) (m : t) : Z * t :=
  match priority with
  | None => (OB_SUCCESS, mk (base m) role (view m))
  | Some (ret, buffer) =>
      (ret, mk (base m) role (PriorityView (if ob_fail ret then is_buffer_valid_ (view m) else true)
                                (inner_priority_seed_ (view m)) (membership_version_ (view m)) buffer))
  end.

Definition reset (m : t) : t := mk (ElectionMsgBase.reset (base m)) (role_ m) (view m).
Definition set_receiver (addr : ObAddr.t) (m : t) : t := mk (ElectionMsgBase.set_receiver addr (base m)) (role_ m) (view m).
End PrepareRequest.

Module PrepareResponse.
Record t := mk { base : ElectionMsgBase.t; accepted_ : bool; lease_ : Lease.t }.

Definition make (self_addr : ObAddr.t) (version : Z) (request : PrepareRequest.t) : t :=
  let r := PrepareRequest.base request in
  mk (ElectionMsgBase.set_receiver (ElectionMsgBase.sender_ r)
        (ElectionMsgBase.make (ElectionMsgBase.id_ r) self_addr (ElectionMsgBase.restart_counter_ r) INVALID_VALUE version
           PREPARE_RESPONSE)) false Lease.fresh.

Definition set_accepted (ballot_number : Z) (lease : Lease.t) (m : t) : t :=
  mk (ElectionMsgBase.set_ballot ballot_number (base m)) true lease.

Definition set_rejected (ballot_number : Z) (m : t) : t :=
  mk (ElectionMsgBase.set_ballot ballot_number (base m)) false (lease_ m).
End PrepareResponse.

Module AcceptRequest.
Record t := mk {
  base : ElectionMsgBase.t; lease_start_ts_on_proposer_ : Z; lease_interval_ : Z;
  membership_version_ : LogConfigVersion.t; flag_not_less_than_4_2_ : bool }.

Definition make (not_less_than_4_2 : bool) (id : Z) (self_addr : ObAddr.t) (restart_counter ballot_number version : Z)
    (lease_start_ts_on_proposer lease_interval : Z) (membership_version : LogConfigVersion.t) : t :=
  mk (ElectionMsgBase.make id self_addr restart_counter ballot_number version ACCEPT_REQUEST)
    lease_start_ts_on_proposer lease_interval membership_version not_less_than_4_2.

Definition set_receiver (addr : ObAddr.t) (m : t) : t :=
  mk (ElectionMsgBase.set_receiver addr (base m)) (lease_start_ts_on_proposer_ m) (lease_interval_ m)
    (membership_version_ m) (flag_not_less_than_4_2_ m).
End AcceptRequest.

Module AcceptResponse.
Record t := mk {
  base : ElectionMsgBase.t; lease_started_ts_on_proposer_ : Z; lease_interval_ : Z; accepted_ : bool;
  responsed_membership_version_ : LogConfigVersion.t; flag_not_less_than_4_2_ : bool; view : priority_view }.

Definition fresh : t :=
  mk ElectionMsgBase.fresh 0 0 false LogConfigVersion.fresh false
    (PriorityView false (Z.shiftl 1 12) LogConfigVersion.fresh []).

Definition make (self_addr : ObAddr.t) (inner_priority_seed : Z) (membership_version : LogConfigVersion.t) (version : Z)
    (request : AcceptRequest.t) : t :=
  let r := AcceptRequest.base request in
  mk (ElectionMsgBase.set_receiver (ElectionMsgBase.sender_ r)
        (ElectionMsgBase.make (ElectionMsgBase.id_ r) self_addr (ElectionMsgBase.restart_counter_ r) INVALID_VALUE version
           ACCEPT_RESPONSE))
    (AcceptRequest.lease_start_ts_on_proposer_ request) (AcceptRequest.lease_interval_ request) false
    (AcceptRequest.membership_version_ request) (AcceptRequest.flag_not_less_than_4_2_ request)
    (PriorityView false inner_priority_seed membership_version []).

Definition set_accepted (ballot_number : Z) (priority : option (Z * list Z)) (m : t) : Z * t :=
  let base := ElectionMsgBase.set_ballot ballot_number (base m) in
  let answer := mk base (lease_started_ts_on_proposer_ m) (lease_interval_ m) true (responsed_membership_version_ m)
                  (flag_not_less_than_4_2_ m) in
  match priority with
  | None => (OB_SUCCESS, answer (view m))
  | Some (ret, buffer) =>
      (ret, answer (PriorityView (if ob_fail ret then is_buffer_valid_ (view m) else true)
                      (inner_priority_seed_ (view m)) (membership_version_ (view m)) buffer))
  end.

Definition set_rejected (ballot_number : Z) (m : t) : t :=
  mk (ElectionMsgBase.set_ballot ballot_number (base m)) (lease_started_ts_on_proposer_ m) (lease_interval_ m) false
    (responsed_membership_version_ m) (flag_not_less_than_4_2_ m) (view m).

Definition reset (m : t) : t :=
  mk (ElectionMsgBase.reset (base m)) (lease_started_ts_on_proposer_ m) (lease_interval_ m) (accepted_ m)
    (responsed_membership_version_ m) (flag_not_less_than_4_2_ m) (view m).
End AcceptResponse.

Module ChangeLeader.
Record t := mk {
  base : ElectionMsgBase.t; switch_source_leader_ballot_ : Z; membership_version_ : LogConfigVersion.t }.

Definition make (id : Z) (self_addr : ObAddr.t) (restart_counter ballot_number version switch_source_leader_ballot : Z)
    (membership_version : LogConfigVersion.t) : t :=
  mk (ElectionMsgBase.make id self_addr restart_counter ballot_number version CHANGE_LEADER)
    switch_source_leader_ballot membership_version.

Definition set_receiver (addr : ObAddr.t) (m : t) : t :=
  mk (ElectionMsgBase.set_receiver addr (base m)) (switch_source_leader_ballot_ m) (membership_version_ m).
End ChangeLeader.

Inductive msg :=
| MsgPrepareRequest (m : PrepareRequest.t)
| MsgPrepareResponse (m : PrepareResponse.t)
| MsgAcceptRequest (m : AcceptRequest.t)
| MsgAcceptResponse (m : AcceptResponse.t)
| MsgChangeLeader (m : ChangeLeader.t).

Definition msg_base (m : msg) : ElectionMsgBase.t :=
  match m with
  | MsgPrepareRequest m => PrepareRequest.base m
  | MsgPrepareResponse m => PrepareResponse.base m
  | MsgAcceptRequest m => AcceptRequest.base m
  | MsgAcceptResponse m => AcceptResponse.base m
  | MsgChangeLeader m => ChangeLeader.base m
  end.

(** ** Counting: the templates of [election_utils.h] *)
Fixpoint count_if {A} (array : list A) (func : A -> bool) : Z :=
  match array with [] => 0 | x :: array => (if func x then 1 else 0) + count_if array func end.

(** The inner loop of [bubble_sort_desc]: [j] comparisons of neighbours from the
    front. *)
Fixpoint bubble_pass (j : nat) (array : list Z) : list Z :=
  match j, array with
  | S j, x :: y :: r => if x <? y then y :: bubble_pass j (x :: r) else x :: bubble_pass j (y :: r)
  | _, _ => array
  end.

(** The outer loop: turn [i] compares [count - i - 1] neighbours. *)
Definition bubble_sort_desc (array : list Z) : list Z :=
  if Nat.leb 2 (length array)
  then foldl (fun a i => bubble_pass (length array - i - 1) a) array (seq 0 (length array - 1)) else array.

(** [pushed] is the code of [push_back]; the access out of an empty array has no
    result. *)
Definition get_sorted_majority_one_desc (pushed : Z) (array : list Z) : option (Z * option Z) :=
  if negb (bool_decide (array = [])) && ob_fail pushed then Some (pushed, None)
  else
    let temp_array := bubble_sort_desc array in
    v ← temp_array !! (Nat.div (length temp_array) 2); Some (OB_SUCCESS, Some v).

(** ** The answers of the members: [MemberListWithStates] *)
Module MemberListWithStates.
Record t := mk {
  member_list_ : MemberList.t;
  prepare_ok_ : list bool;
  accept_ok_promise_not_vote_before_local_ts_ : list Z;
  follower_renew_lease_success_membership_version_ : list LogConfigVersion.t }.

Definition fresh : t := mk MemberList.fresh [] [] [].

Definition addrs (s : t) : list ObAddr.t := MemberList.addr_list_ (member_list_ s).
Definition majority (s : t) : Z := MemberList.replica_num_ (member_list_ s) ÷ 2 + 1.

(** [init_array_] when its [push_back] succeeds. *)
Definition init_array_ {A} (size : Z) (default_value : A) : list A := replicate (Z.to_nat size) default_value.

(** The copy of the states of one old member, at [i], to the place [j] of the new
    list. *)
Definition copy_state (old_data new_data : t) (i j : nat) : option t :=
  p ← prepare_ok_ old_data !! i;
  a ← accept_ok_promise_not_vote_before_local_ts_ old_data !! i;
  f ← follower_renew_lease_success_membership_version_ old_data !! i;
  guard (j < length (prepare_ok_ new_data))%nat;;
  Some (mk (member_list_ new_data) (<[j := p]> (prepare_ok_ new_data))
          (<[j := a]> (accept_ok_promise_not_vote_before_local_ts_ new_data))
          (<[j := f]> (follower_renew_lease_success_membership_version_ new_data))).

(** The loops over both address lists; an access out of range has no result. *)
Definition copy_states (old_data new_data : t) : option t :=
  foldl (fun acc '(i, a) =>
    foldl (fun acc '(j, b) => new_data ← acc; if ObAddr.eqb a b then copy_state old_data new_data i j else Some new_data)
      acc (imap pair (addrs new_data))) (Some new_data) (imap pair (addrs old_data)).

(** [alloc]: the allocation succeeds; [assigned], [init]: the codes of the
    assignment of the list and of the filling of the arrays.  A failed allocation is
    reported as success. *)
Definition set_member_list (alloc : bool) (assigned init : Z) (new_member_list : MemberList.t) (s : t) : option (Z * t) :=
  let old := member_list_ s in
  let only_membership_version_different :=
    (MemberList.replica_num_ old =? MemberList.replica_num_ new_member_list)
    && Nat.eqb (length (MemberList.addr_list_ old)) (length (MemberList.addr_list_ new_member_list))
    && MemberList.same_addrs (MemberList.addr_list_ new_member_list) (MemberList.addr_list_ old) in
  if only_membership_version_different then
    Some (OB_SUCCESS,
      mk (MemberList.set_membership_version (MemberList.membership_version_ new_member_list) old) (prepare_ok_ s)
        (accept_ok_promise_not_vote_before_local_ts_ s) (follower_renew_lease_success_membership_version_ s))
  else if negb alloc then Some (OB_SUCCESS, s)
  else if ob_fail assigned then Some (assigned, s)
  else if ob_fail init then Some (init, s)
  else
    let size := MemberList.replica_num_ new_member_list in
    new_data ← copy_states s (mk new_member_list (init_array_ size false) (init_array_ size 0)
                                 (init_array_ size LogConfigVersion.fresh));
    Some (OB_SUCCESS, new_data).

Definition clear_prepare_and_accept_states (s : t) : t :=
  let size := MemberList.replica_num_ (member_list_ s) in
  mk (member_list_ s) (init_array_ size false) (init_array_ size 0) (follower_renew_lease_success_membership_version_ s).

(** The index, or the number of addresses when the address is not in the list. *)
Fixpoint find_idx (addr : ObAddr.t) (addr_list : list ObAddr.t) : nat :=
  match addr_list with
  | [] => 0
  | a :: addr_list => if ObAddr.eqb a addr then 0%nat else S (find_idx addr addr_list)
  end.

Definition get_server_idx_in_memberlist_ (addr : ObAddr.t) (s : t) : Z * nat :=
  let idx := find_idx addr (addrs s) in
  (if Nat.eqb idx (length (addrs s)) then OB_ENTRY_NOT_EXIST else OB_SUCCESS, idx).

Definition record_prepare_ok (sender : ObAddr.t) (s : t) : option (Z * t) :=
  let '(ret, idx) := get_server_idx_in_memberlist_ sender s in
  if ob_fail ret then Some (ret, s)
  else
    guard (idx < length (prepare_ok_ s))%nat;;
    let s := mk (member_list_ s) (<[idx := true]> (prepare_ok_ s)) (accept_ok_promise_not_vote_before_local_ts_ s)
               (follower_renew_lease_success_membership_version_ s) in
    let ok_count := count_if (prepare_ok_ s) id in
    Some (if ok_count <? majority s then OB_ELECTION_BELOW_MAJORITY
          else if majority s <? ok_count then OB_ELECTION_OVER_MAJORITY else OB_SUCCESS, s).

Definition record_accept_ok (sender : ObAddr.t) (lease_started_ts_on_proposer lease_interval : Z)
    (responsed_membership_version : LogConfigVersion.t) (s : t) : option (Z * t) :=
  let '(ret, idx) := get_server_idx_in_memberlist_ sender s in
  if ob_fail ret then Some (ret, s)
  else
    write_ts ← accept_ok_promise_not_vote_before_local_ts_ s !! idx;
    write_version ← follower_renew_lease_success_membership_version_ s !! idx;
    let write_ts := Z.max write_ts (lease_started_ts_on_proposer + lease_interval) in
    let write_version := if negb (LogConfigVersion.is_valid write_version) then responsed_membership_version
                         else LogConfigVersion.max write_version responsed_membership_version in
    let s := mk (member_list_ s) (prepare_ok_ s) (<[idx := write_ts]> (accept_ok_promise_not_vote_before_local_ts_ s))
               (<[idx := write_version]> (follower_renew_lease_success_membership_version_ s)) in
    let ok_count := count_if (accept_ok_promise_not_vote_before_local_ts_ s) (fun v => negb (v =? 0)) in
    Some (if ok_count <? majority s then OB_ELECTION_BELOW_MAJORITY else OB_SUCCESS, s).

Definition get_majority_promised_not_vote_ts (pushed : Z) (s : t) : option (Z * option Z) :=
  get_sorted_majority_one_desc pushed (accept_ok_promise_not_vote_before_local_ts_ s).

Definition is_synced_with_majority (s : t) : bool :=
  let version := MemberList.membership_version_ (member_list_ s) in
  if negb (LogConfigVersion.is_valid version) then true
  else majority s <=? count_if (follower_renew_lease_success_membership_version_ s) (LogConfigVersion.eqb version).
End MemberListWithStates.

(** ** Lemmas: counting and sorting *)

Lemma count_if_nonneg {A} (l : list A) f : 0 <= count_if l f.
Proof. induction l as [|x l IH]; cbn; [lia|]. destruct (f x); lia. Qed.

Lemma count_if_app {A} (l k : list A) f : count_if (l ++ k) f = count_if l f + count_if k f.
Proof. induction l as [|x l IH]; cbn; [done|]. rewrite IH. lia. Qed.

Lemma count_if_perm {A} (l k : list A) f : l ≡ₚ k -> count_if l f = count_if k f.
Proof. induction 1; cbn; lia. Qed.

Lemma count_if_all {A} (l : list A) f : Forall (fun x => f x = true) l -> count_if l f = Z.of_nat (length l).
Proof. induction 1 as [|x l Hx _ IH]; cbn [count_if length]; [done|]. rewrite Hx, IH. lia. Qed.

Lemma count_if_none {A} (l : list A) f : Forall (fun x => f x = false) l -> count_if l f = 0.
Proof. induction 1 as [|x l Hx _ IH]; cbn; [done|]. by rewrite Hx, IH. Qed.

(** The indices an array counts. *)
Definition indices {A} (l : list A) (f : A -> bool) : list nat :=
  List.filter (fun i => from_option f false (l !! i)) (seq 0 (length l)).

Lemma elem_of_indices {A} (l : list A) f i : i ∈ indices l f <-> exists x, l !! i = Some x /\ f x = true.
Proof.
  unfold indices. rewrite list_elem_of_In, filter_In, <- list_elem_of_In, elem_of_seq. split.
  - intros [_ H]. destruct (l !! i); [by eexists | done].
  - intros (x & Hx & Hf). rewrite Hx. split; [|done]. apply lookup_lt_Some in Hx. lia.
Qed.

Lemma NoDup_indices {A} (l : list A) f : NoDup (indices l f).
Proof. apply NoDup_ListNoDup, List.NoDup_filter, NoDup_ListNoDup, NoDup_seq. Qed.

Lemma count_if_indices {A} (l : list A) f : count_if l f = Z.of_nat (length (indices l f)).
Proof.
  unfold indices. induction l as [|x l IH] using rev_ind; [done|].
  rewrite count_if_app, IH, length_app, Nat.add_1_r, seq_S, List.filter_app, length_app, Nat2Z.inj_add. f_equal.
  - f_equal. f_equal. apply filter_ext_in. intros i Hi. apply list_elem_of_In, elem_of_seq in Hi.
    by rewrite lookup_app_l by lia.
  - cbn. rewrite list_lookup_middle by done. cbn. by destruct (f x).
Qed.

(** Sorting. *)
Lemma bubble_pass_perm j l : bubble_pass j l ≡ₚ l.
Proof.
  revert l. induction j as [|j IH]; intros [|x [|y l]]; try done. cbn [bubble_pass].
  case_match; rewrite IH; [constructor | done].
Qed.

Lemma bubble_pass_app j l r : length l = S j -> bubble_pass j (l ++ r) = bubble_pass j l ++ r.
Proof.
  revert l. induction j as [|j IH]; intros [|x [|y l]] H; try done.
  cbn [bubble_pass app].
  case_match; cbn [app]; f_equal; rewrite <- IH; try done; cbn in *; lia.
Qed.

(** A pass over a list moves a smallest element to its end. *)
Lemma bubble_pass_min j l : length l = S j ->
  exists f m, bubble_pass j l = f ++ [m] /\ Forall (fun x => m <= x) l.
Proof.
  revert l. induction j as [|j IH]; intros [|x [|y l]] H; try done; try (cbn in H; lia).
  - exists [], x. split; [done|]. by repeat constructor.
  - cbn [bubble_pass]. destruct (Z.ltb_spec x y).
    + destruct (IH (x :: l)) as (f & m & -> & Hm); [cbn in *; lia|]. exists (y :: f), m. split; [done|].
      inversion_clear Hm. repeat constructor; [done | lia | done].
    + destruct (IH (y :: l)) as (f & m & -> & Hm); [cbn in *; lia|]. exists (x :: f), m. split; [done|].
      inversion_clear Hm. repeat constructor; [lia | done | done].
Qed.

Definition descending (l : list Z) : Prop := forall i j x y, (i <= j)%nat -> l !! i = Some x -> l !! j = Some y -> y <= x.

Lemma descending_cons m l : descending l -> Forall (fun x => x <= m) l -> descending (m :: l).
Proof.
  intros Hl Hm [|i] [|j] x y Hij Hi Hj; try lia; cbn in *.
  - by simplify_eq.
  - simplify_eq. rewrite Forall_forall in Hm. apply Hm. by eapply list_elem_of_lookup_2.
  - apply (Hl i j); [lia | done | done].
Qed.

(** The turns: the last [length t] elements are in place. *)
Lemma bubble_turns n k f t : n = (length f + length t)%nat -> (k <= length f)%nat -> descending t ->
  (forall x y, x ∈ f -> y ∈ t -> y <= x) ->
  exists f' t', foldl (fun a i => bubble_pass (n - i - 1) a) (f ++ t) (seq (length t) k) = f' ++ t' /\
    f' ++ t' ≡ₚ f ++ t /\ length t' = (length t + k)%nat /\ descending t' /\ (forall x y, x ∈ f' -> y ∈ t' -> y <= x).
Proof.
  revert f t. induction k as [|k IH]; intros f t Hn Hk Ht Hft.
  - exists f, t. rewrite Nat.add_0_r. done.
  - cbn [seq foldl]. rewrite bubble_pass_app by lia.
    destruct (bubble_pass_min (n - length t - 1) f) as (g & m & Eg & Hm); [lia|].
    pose proof (bubble_pass_perm (n - length t - 1) f) as Hp. rewrite Eg in Hp |- *. rewrite <- app_assoc. cbn [app].
    assert (forall x, x ∈ g ++ [m] -> m <= x /\ x ∈ f) as Hx.
    { intros x Hx. rewrite Hp in Hx. split; [|done]. rewrite Forall_forall in Hm. by apply Hm. }
    destruct (IH g (m :: t)) as (f' & t' & E & Hp' & Hl & Hd & Hc).
    + apply Permutation_length in Hp. rewrite length_app in Hp. cbn in *. lia.
    + apply Permutation_length in Hp. rewrite length_app in Hp. cbn in *. lia.
    + apply descending_cons; [done|]. apply Forall_forall. intros y Hy. apply Hft; [|done]. apply Hx, elem_of_app. right. by left.
    + intros x y Hx' [->|Hy]%elem_of_cons; [by apply Hx, elem_of_app; left|].
      apply Hft; [by apply Hx, elem_of_app; left | done].
    + exists f', t'. cbn [length] in E, Hl. rewrite E. split_and!; [done | | lia | done | done].
      rewrite Hp'. change (m :: t) with ([m] ++ t). rewrite app_assoc. by rewrite Hp.
Qed.

Lemma bubble_sort_desc_correct l : bubble_sort_desc l ≡ₚ l /\ descending (bubble_sort_desc l).
Proof.
  unfold bubble_sort_desc. destruct (Nat.leb_spec 2 (length l)) as [Hl|Hl].
  - destruct (bubble_turns (length l) (length l - 1) l []) as (f & t & E & Hp & Ht & Hd & Hc).
    { cbn. lia. } { lia. } { by intros ???? _ Hi. } { intros x y _ Hy. by apply not_elem_of_nil in Hy. }
    rewrite app_nil_r in E, Hp. cbn [length] in E, Ht. rewrite E. split; [done|].
    assert (length f = 1%nat) as Hf by (apply Permutation_length in Hp; rewrite length_app in Hp; lia).
    destruct f as [|m [|]]; try done. apply descending_cons; [done|]. apply Forall_forall. intros x Hx.
    by apply Hc; [left|].
  - split; [done|]. intros i j x y Hij Hi Hj. apply lookup_lt_Some in Hj as Hj'.
    assert (i = 0%nat) as -> by lia. assert (j = 0%nat) as -> by lia. by simplify_eq.
Qed.

(** The element the proposer takes: a majority is not below it, and it is the
    largest of this kind. *)
Lemma sorted_majority pushed l : l <> [] -> ob_succ pushed = true ->
  exists v, get_sorted_majority_one_desc pushed l = Some (OB_SUCCESS, Some v) /\ v ∈ l /\
    Z.of_nat (length l) ÷ 2 + 1 <= count_if l (fun x => v <=? x) /\
    count_if l (fun x => v <? x) <= Z.of_nat (length l) ÷ 2.
Proof.
  intros Hl Hp. destruct (bubble_sort_desc_correct l) as [Hperm Hd]. unfold get_sorted_majority_one_desc, ob_fail.
  unfold ob_succ in Hp. rewrite Hp, andb_false_r. set (t := bubble_sort_desc l) in *.
  pose proof (Permutation_length Hperm) as Hlen.
  assert (0 < length l)%nat as Hpos by (destruct l; [done | cbn; lia]).
  assert (length t / 2 < length t)%nat as Hlt by (apply Nat.div_lt; lia).
  destruct (lookup_lt_is_Some_2 t _ Hlt) as [v Hv]. rewrite Hv. cbn. exists v. split; [done|].
  rewrite <- Hperm at 1. split; [by eapply list_elem_of_lookup_2|].
  rewrite Z.quot_div_nonneg by lia. rewrite <- Hlen. change 2 with (Z.of_nat 2). rewrite <- !Nat2Z.inj_div.
  rewrite <- !(count_if_perm t l) by done. set (h := (length t / 2)%nat) in *.
  assert (forall k f, count_if t f = count_if (take k t) f + count_if (drop k t) f) as Hsplit
    by (intros; by rewrite <- count_if_app, take_drop).
  split; [rewrite (Hsplit (S h)) | rewrite (Hsplit h)].
  - rewrite (count_if_all (take (S h) t)).
    + rewrite length_take. pose proof (count_if_nonneg (drop (S h) t) (fun x => v <=? x)). lia.
    + apply Forall_forall. intros x Hx. apply elem_of_take in Hx as (i & Hi & Hi'). apply Z.leb_le.
      by apply (Hd i h); [lia | |].
  - rewrite (count_if_none (drop h t)).
    + assert (count_if (take h t) (fun x => v <? x) <= Z.of_nat (length (take h t))) as Hc.
      { rewrite count_if_indices. unfold indices. pose proof (filter_length_le (fun i => from_option (fun x => v <? x) false (take h t !! i)) (seq 0 (length (take h t)))) as Hf.
        rewrite length_seq in Hf. lia. }
      rewrite length_take in Hc. lia.
    + apply Forall_forall. intros x Hx. apply list_elem_of_lookup in Hx as (i & Hi). rewrite lookup_drop in Hi.
      apply Z.ltb_ge. by apply (Hd h (h + i)%nat); [lia | |].
Qed.

(** ** Lemmas: majorities *)

Lemma find_idx_lookup addr l : (MemberListWithStates.find_idx addr l < length l)%nat ->
  l !! MemberListWithStates.find_idx addr l = Some addr.
Proof.
  induction l as [|a l IH]; cbn; [lia|]. destruct (ObAddr.eqb a addr) eqn:E; cbn.
  - apply ObAddr.addr_eqb_eq in E. by subst.
  - intros H. apply IH. lia.
Qed.

Lemma find_idx_le addr l : (MemberListWithStates.find_idx addr l <= length l)%nat.
Proof. induction l as [|a l IH]; cbn; [lia|]. destruct (ObAddr.eqb a addr); lia. Qed.

Lemma find_idx_elem addr l : addr ∈ l -> (MemberListWithStates.find_idx addr l < length l)%nat.
Proof.
  induction l as [|a l IH]; cbn; [by intros ?%not_elem_of_nil|]. intros [->|H]%elem_of_cons.
  - rewrite ObAddr.eqb_refl. lia.
  - destruct (ObAddr.eqb a addr); [lia|]. specialize (IH H). lia.
Qed.

(** A quorum of a configuration with [replica_num] replicas. *)
Record quorum (members : list ObAddr.t) (replica_num : Z) (Q : list ObAddr.t) : Prop := {
  quorum_nodup : NoDup Q;
  quorum_members : Q ⊆ members;
  quorum_size : replica_num ÷ 2 + 1 <= Z.of_nat (length Q) }.

Lemma quorum_meet members replica_num Q1 Q2 : Z.of_nat (length members) <= replica_num ->
  quorum members replica_num Q1 -> quorum members replica_num Q2 -> exists a, a ∈ Q1 /\ a ∈ Q2.
Proof.
  intros Hn [N1 M1 S1] [N2 M2 S2].
  destruct (decide (Exists (fun a => a ∈ Q2) Q1)) as [H|H]; [by apply Exists_exists in H|]. exfalso.
  assert (NoDup (Q1 ++ Q2)) as Hnd.
  { apply NoDup_app. split_and!; [done | | done]. intros a H1 H2. apply H, Exists_exists. eauto. }
  assert (length (Q1 ++ Q2) <= length members)%nat as Hl.
  { apply submseteq_length, NoDup_submseteq; [done|]. intros a [Ha|Ha]%elem_of_app; auto. }
  rewrite length_app in Hl. pose proof (Z.quot_rem' replica_num 2). pose proof (Z.rem_bound_pos replica_num 2). lia.
Qed.

(** The members an array counts. *)
Lemma quorum_of_indices {A} members replica_num (l : list A) f (P : ObAddr.t -> Prop) :
  NoDup members -> replica_num ÷ 2 + 1 <= count_if l f ->
  (forall k x, l !! k = Some x -> f x = true -> exists a, members !! k = Some a /\ P a) ->
  exists Q, quorum members replica_num Q /\ forall a, a ∈ Q -> P a.
Proof.
  intros Hm Hc HP. rewrite count_if_indices in Hc.
  assert (forall k, k ∈ indices l f -> exists a, members !! k = Some a /\ P a) as H.
  { intros k (x & Hx & Hf)%elem_of_indices. by apply (HP k x). }
  pose proof (NoDup_indices l f) as Hnd. revert Hc H Hnd. generalize (indices l f) as ks. intros ks Hc H Hnd.
  assert (exists Q, length Q = length ks /\ NoDup Q /\
    (forall a, a ∈ Q -> P a /\ exists k, k ∈ ks /\ members !! k = Some a)) as (Q & Hl & HQ & HQ').
  { clear Hc. induction ks as [|k ks IH]; [exists []; split_and!; [done | by constructor | by intros ? ?%not_elem_of_nil]|].
    apply NoDup_cons in Hnd as [Hk Hnd]. destruct IH as (Q & Hl & HQ & HQ'); [intros; apply H; by right | done |].
    destruct (H k) as (a & Ha & HPa); [by left|]. exists (a :: Q). split_and!; [cbn; by rewrite Hl | |].
    - apply NoDup_cons. split; [|done]. intros (_ & k' & Hk' & Ha')%HQ'.
      by rewrite (NoDup_lookup members k k' a) in Hk.
    - intros a' [->|Ha']%elem_of_cons; [split; [done|]; exists k; split; [by left | done]|].
      destruct (HQ' a' Ha') as (? & k' & ? & ?). split; [done|]. exists k'. split; [by right | done]. }
  exists Q. split.
  - split; [done | | lia]. intros a Ha. destruct (HQ' a Ha) as (_ & k & _ & Hk). by eapply list_elem_of_lookup_2.
  - intros a Ha. by apply HQ'.
Qed.

(** The time a leader takes for its lease is the largest one that a majority of the
    replicas has promised: the sorting and the choice of the middle element give an
    element of the array that more than half of the entries reach and at most half
    exceed. *)
Theorem majority_promise_correct pushed s : MemberListWithStates.accept_ok_promise_not_vote_before_local_ts_ s <> [] ->
  ob_succ pushed = true ->
  let l := MemberListWithStates.accept_ok_promise_not_vote_before_local_ts_ s in
  exists v, MemberListWithStates.get_majority_promised_not_vote_ts pushed s = Some (OB_SUCCESS, Some v) /\ v ∈ l /\
    Z.of_nat (length l) ÷ 2 + 1 <= count_if l (fun x => v <=? x) /\
    count_if l (fun x => v <? x) <= Z.of_nat (length l) ÷ 2 /\
    forall w, w ∈ l -> Z.of_nat (length l) ÷ 2 + 1 <= count_if l (fun x => w <=? x) -> w <= v.
Proof.
  intros Hl Hp l. destruct (sorted_majority pushed l Hl Hp) as (v & E & Hv & Hge & Hgt).
  exists v. split_and!; try done. intros w Hw Hc. destruct (decide (w <= v)) as [|Hn]; [done|]. exfalso.
  assert (count_if l (fun x => w <=? x) <= count_if l (fun x => v <? x)); [|lia].
  clear -Hn. induction l as [|x l IH]; cbn; [lia|].
  destruct (Z.leb_spec w x), (Z.ltb_spec v x); lia.
Qed.

Lemma majority_promise_correct_witness : exists v,
  MemberListWithStates.get_majority_promised_not_vote_ts OB_SUCCESS
    (MemberListWithStates.mk MemberList.fresh [] [3; 9; 0; 7; 5] []) = Some (OB_SUCCESS, Some v) /\ v ∈ [3; 9; 0; 7; 5].
Proof.
  destruct (majority_promise_correct OB_SUCCESS (MemberListWithStates.mk MemberList.fresh [] [3; 9; 0; 7; 5] []))
    as (v & E & Hv & _); [done | done |]. by exists v.
Defined.
