(* ===== verification/Election.v ===== *)
(** * Leader election: proposer and acceptor

    [src/logservice/palf/election/algorithm]: [ElectionProposer],
    [ElectionAcceptor] and [ElectionImpl], which owns one of each.  A call changes
    the node it is made on and leaves the messages it sends in an outbox, each with
    the reading of the monotonic clock it was sent after.  A failed [assert] and a
    call of [abort] end the run ([None]).

    The clocks, the timer, the message service and the priority of the replica are
    parameters ([env]): the monotonic clock advances by any amount between two
    readings, the wall clock gives any value, and the timer tasks are operations
    that may run at any time.  Counters and events for diagnosis are left out. *)

From Stdlib Require Import ZArith Lia Bool.
From stdpp Require Import base countable numbers option list.
From S2P Require Import Prelude ElectionUtils.
Import AbortMonad.

Local Open Scope Z_scope.

Inductive RoleChangeReason :=
| DevoteToBeLeader | ChangeLeaderToBeLeader | LeaseExpiredToRevoke | ChangeLeaderToRevoke | StopToRevoke.

(** What the leader publishes: until when its lease lasts on its own clock, and the
    ballot it was elected with; [seq_] is odd while the two belong together. *)
Module LeaderLeaseAndEpoch.
Record t := mk { lease_ : Z; epoch_ : Z; seq_ : Z }.

Definition fresh : t := mk INVALID_VALUE INVALID_VALUE INVALID_VALUE.
Definition reset (l : t) : t := mk INVALID_VALUE INVALID_VALUE (seq_ l + 1 + 1).
Definition get (l : t) : Z * Z := (lease_ l, epoch_ l).
Definition is_valid (l : t) : bool := negb (lease_ l =? INVALID_VALUE) && negb (epoch_ l =? INVALID_VALUE).
End LeaderLeaseAndEpoch.

(** ** State *)

(** [cached_msg_], [cached_ts_]: [highest_priority_cache_]. *)
Record proposer := Proposer {
  role_ : ObRole;
  ballot_number_ : Z;
  prepare_success_ballot_ : Z;
  switch_source_leader_ballot_ : Z;
  switch_source_leader_addr_ : ObAddr.t;
  restart_counter_ : Z;
  last_do_prepare_ts_ : Z;
  record_lease_interval_ : Z;
  memberlist_with_states_ : MemberListWithStates.t;
  leader_lease_and_epoch_ : LeaderLeaseAndEpoch.t;
  cached_msg_ : AcceptResponse.t;
  cached_ts_ : Z }.

Definition set_role (x : ObRole) (p : proposer) : proposer :=
  Proposer x p.(ballot_number_) p.(prepare_success_ballot_) p.(switch_source_leader_ballot_)
    p.(switch_source_leader_addr_) p.(restart_counter_) p.(last_do_prepare_ts_) p.(record_lease_interval_)
    p.(memberlist_with_states_) p.(leader_lease_and_epoch_) p.(cached_msg_) p.(cached_ts_).
Definition set_ballot_number (x : Z) (p : proposer) : proposer :=
  Proposer p.(role_) x p.(prepare_success_ballot_) p.(switch_source_leader_ballot_)
    p.(switch_source_leader_addr_) p.(restart_counter_) p.(last_do_prepare_ts_) p.(record_lease_interval_)
    p.(memberlist_with_states_) p.(leader_lease_and_epoch_) p.(cached_msg_) p.(cached_ts_).
Definition set_prepare_success_ballot (x : Z) (p : proposer) : proposer :=
  Proposer p.(role_) p.(ballot_number_) x p.(switch_source_leader_ballot_) p.(switch_source_leader_addr_)
    p.(restart_counter_) p.(last_do_prepare_ts_) p.(record_lease_interval_) p.(memberlist_with_states_)
    p.(leader_lease_and_epoch_) p.(cached_msg_) p.(cached_ts_).
Definition set_switch_source_leader_ballot (x : Z) (p : proposer) : proposer :=
  Proposer p.(role_) p.(ballot_number_) p.(prepare_success_ballot_) x p.(switch_source_leader_addr_)
    p.(restart_counter_) p.(last_do_prepare_ts_) p.(record_lease_interval_) p.(memberlist_with_states_)
    p.(leader_lease_and_epoch_) p.(cached_msg_) p.(cached_ts_).
Definition set_switch_source_leader_addr (x : ObAddr.t) (p : proposer) : proposer :=
  Proposer p.(role_) p.(ballot_number_) p.(prepare_success_ballot_) p.(switch_source_leader_ballot_) x
    p.(restart_counter_) p.(last_do_prepare_ts_) p.(record_lease_interval_) p.(memberlist_with_states_)
    p.(leader_lease_and_epoch_) p.(cached_msg_) p.(cached_ts_).
Definition set_restart_counter (x : Z) (p : proposer) : proposer :=
  Proposer p.(role_) p.(ballot_number_) p.(prepare_success_ballot_) p.(switch_source_leader_ballot_)
    p.(switch_source_leader_addr_) x p.(last_do_prepare_ts_) p.(record_lease_interval_)
    p.(memberlist_with_states_) p.(leader_lease_and_epoch_) p.(cached_msg_) p.(cached_ts_).
Definition set_last_do_prepare_ts (x : Z) (p : proposer) : proposer :=
  Proposer p.(role_) p.(ballot_number_) p.(prepare_success_ballot_) p.(switch_source_leader_ballot_)
    p.(switch_source_leader_addr_) p.(restart_counter_) x p.(record_lease_interval_) p.(memberlist_with_states_)
    p.(leader_lease_and_epoch_) p.(cached_msg_) p.(cached_ts_).
Definition set_record_lease_interval (x : Z) (p : proposer) : proposer :=
  Proposer p.(role_) p.(ballot_number_) p.(prepare_success_ballot_) p.(switch_source_leader_ballot_)
    p.(switch_source_leader_addr_) p.(restart_counter_) p.(last_do_prepare_ts_) x p.(memberlist_with_states_)
    p.(leader_lease_and_epoch_) p.(cached_msg_) p.(cached_ts_).
Definition set_memberlist_with_states (x : MemberListWithStates.t) (p : proposer) : proposer :=
  Proposer p.(role_) p.(ballot_number_) p.(prepare_success_ballot_) p.(switch_source_leader_ballot_)
    p.(switch_source_leader_addr_) p.(restart_counter_) p.(last_do_prepare_ts_) p.(record_lease_interval_) x
    p.(leader_lease_and_epoch_) p.(cached_msg_) p.(cached_ts_).
Definition set_leader_lease_and_epoch (x : LeaderLeaseAndEpoch.t) (p : proposer) : proposer :=
  Proposer p.(role_) p.(ballot_number_) p.(prepare_success_ballot_) p.(switch_source_leader_ballot_)
    p.(switch_source_leader_addr_) p.(restart_counter_) p.(last_do_prepare_ts_) p.(record_lease_interval_)
    p.(memberlist_with_states_) x p.(cached_msg_) p.(cached_ts_).
Definition set_cached_msg (x : AcceptResponse.t) (p : proposer) : proposer :=
  Proposer p.(role_) p.(ballot_number_) p.(prepare_success_ballot_) p.(switch_source_leader_ballot_)
    p.(switch_source_leader_addr_) p.(restart_counter_) p.(last_do_prepare_ts_) p.(record_lease_interval_)
    p.(memberlist_with_states_) p.(leader_lease_and_epoch_) x p.(cached_ts_).
Definition set_cached_ts (x : Z) (p : proposer) : proposer :=
  Proposer p.(role_) p.(ballot_number_) p.(prepare_success_ballot_) p.(switch_source_leader_ballot_)
    p.(switch_source_leader_addr_) p.(restart_counter_) p.(last_do_prepare_ts_) p.(record_lease_interval_)
    p.(memberlist_with_states_) p.(leader_lease_and_epoch_) p.(cached_msg_) x.

(** [acceptor_ballot_number_]: its [ballot_number_].  The last two fields are what
    the task of the time window keeps between its runs. *)
Record acceptor := Acceptor {
  acceptor_ballot_number_ : Z;
  ballot_of_time_window_ : Z;
  lease_ : Lease.t;
  highest_priority_prepare_req_ : PrepareRequest.t;
  is_time_window_opened_ : bool;
  last_time_window_open_ts_ : Z;
  last_record_lease_owner : ObAddr.t;
  last_record_lease_valid_state : bool }.

Definition set_acceptor_ballot_number (x : Z) (a : acceptor) : acceptor :=
  Acceptor x a.(ballot_of_time_window_) a.(lease_) a.(highest_priority_prepare_req_) a.(is_time_window_opened_)
    a.(last_time_window_open_ts_) a.(last_record_lease_owner) a.(last_record_lease_valid_state).
Definition set_ballot_of_time_window (x : Z) (a : acceptor) : acceptor :=
  Acceptor a.(acceptor_ballot_number_) x a.(lease_) a.(highest_priority_prepare_req_) a.(is_time_window_opened_)
    a.(last_time_window_open_ts_) a.(last_record_lease_owner) a.(last_record_lease_valid_state).
Definition set_lease (x : Lease.t) (a : acceptor) : acceptor :=
  Acceptor a.(acceptor_ballot_number_) a.(ballot_of_time_window_) x a.(highest_priority_prepare_req_)
    a.(is_time_window_opened_) a.(last_time_window_open_ts_) a.(last_record_lease_owner)
    a.(last_record_lease_valid_state).
Definition set_highest_priority_prepare_req (x : PrepareRequest.t) (a : acceptor) : acceptor :=
  Acceptor a.(acceptor_ballot_number_) a.(ballot_of_time_window_) a.(lease_) x a.(is_time_window_opened_)
    a.(last_time_window_open_ts_) a.(last_record_lease_owner) a.(last_record_lease_valid_state).
Definition set_is_time_window_opened (x : bool) (a : acceptor) : acceptor :=
  Acceptor a.(acceptor_ballot_number_) a.(ballot_of_time_window_) a.(lease_) a.(highest_priority_prepare_req_) x
    a.(last_time_window_open_ts_) a.(last_record_lease_owner) a.(last_record_lease_valid_state).
Definition set_last_time_window_open_ts (x : Z) (a : acceptor) : acceptor :=
  Acceptor a.(acceptor_ballot_number_) a.(ballot_of_time_window_) a.(lease_) a.(highest_priority_prepare_req_)
    a.(is_time_window_opened_) x a.(last_record_lease_owner) a.(last_record_lease_valid_state).
Definition set_last_record_lease_owner (x : ObAddr.t) (a : acceptor) : acceptor :=
  Acceptor a.(acceptor_ballot_number_) a.(ballot_of_time_window_) a.(lease_) a.(highest_priority_prepare_req_)
    a.(is_time_window_opened_) a.(last_time_window_open_ts_) x a.(last_record_lease_valid_state).
Definition set_last_record_lease_valid_state (x : bool) (a : acceptor) : acceptor :=
  Acceptor a.(acceptor_ballot_number_) a.(ballot_of_time_window_) a.(lease_) a.(highest_priority_prepare_req_)
    a.(is_time_window_opened_) a.(last_time_window_open_ts_) a.(last_record_lease_owner) x.

(** [ElectionImpl].  [inner_seed_]: its [inner_priority_seed_]; [priority_]: whether
    a priority is set; [ever_seen_]: the largest cluster version a message had.
    [mono_]: the last reading of the monotonic clock; [calls_] numbers the calls to
    the environment; [outbox_] and [role_changes_] collect the messages sent and the
    calls of the role change callback. *)
Record node := Node {
  proposer_ : proposer;
  acceptor_ : acceptor;
  is_inited_ : bool;
  is_running_ : bool;
  id_ : Z;
  self_addr_ : ObAddr.t;
  inner_seed_ : Z;
  priority_ : bool;
  downgrade_expire_ts_ : Z;
  ever_seen_ : Z;
  mono_ : Z;
  calls_ : nat;
  outbox_ : list (Z * msg);
  role_changes_ : list (ObRole * ObRole * RoleChangeReason) }.

Definition set_proposer (x : proposer) (s : node) : node :=
  Node x s.(acceptor_) s.(is_inited_) s.(is_running_) s.(id_) s.(self_addr_) s.(inner_seed_) s.(priority_)
    s.(downgrade_expire_ts_) s.(ever_seen_) s.(mono_) s.(calls_) s.(outbox_) s.(role_changes_).
Definition set_acceptor (x : acceptor) (s : node) : node :=
  Node s.(proposer_) x s.(is_inited_) s.(is_running_) s.(id_) s.(self_addr_) s.(inner_seed_) s.(priority_)
    s.(downgrade_expire_ts_) s.(ever_seen_) s.(mono_) s.(calls_) s.(outbox_) s.(role_changes_).
Definition set_is_inited (x : bool) (s : node) : node :=
  Node s.(proposer_) s.(acceptor_) x s.(is_running_) s.(id_) s.(self_addr_) s.(inner_seed_) s.(priority_)
    s.(downgrade_expire_ts_) s.(ever_seen_) s.(mono_) s.(calls_) s.(outbox_) s.(role_changes_).
Definition set_is_running (x : bool) (s : node) : node :=
  Node s.(proposer_) s.(acceptor_) s.(is_inited_) x s.(id_) s.(self_addr_) s.(inner_seed_) s.(priority_)
    s.(downgrade_expire_ts_) s.(ever_seen_) s.(mono_) s.(calls_) s.(outbox_) s.(role_changes_).
Definition set_id (x : Z) (s : node) : node :=
  Node s.(proposer_) s.(acceptor_) s.(is_inited_) s.(is_running_) x s.(self_addr_) s.(inner_seed_) s.(priority_)
    s.(downgrade_expire_ts_) s.(ever_seen_) s.(mono_) s.(calls_) s.(outbox_) s.(role_changes_).
Definition set_self_addr (x : ObAddr.t) (s : node) : node :=
  Node s.(proposer_) s.(acceptor_) s.(is_inited_) s.(is_running_) s.(id_) x s.(inner_seed_) s.(priority_)
    s.(downgrade_expire_ts_) s.(ever_seen_) s.(mono_) s.(calls_) s.(outbox_) s.(role_changes_).
Definition set_inner_seed (x : Z) (s : node) : node :=
  Node s.(proposer_) s.(acceptor_) s.(is_inited_) s.(is_running_) s.(id_) s.(self_addr_) x s.(priority_)
    s.(downgrade_expire_ts_) s.(ever_seen_) s.(mono_) s.(calls_) s.(outbox_) s.(role_changes_).
Definition set_priority (x : bool) (s : node) : node :=
  Node s.(proposer_) s.(acceptor_) s.(is_inited_) s.(is_running_) s.(id_) s.(self_addr_) s.(inner_seed_) x
    s.(downgrade_expire_ts_) s.(ever_seen_) s.(mono_) s.(calls_) s.(outbox_) s.(role_changes_).
Definition set_downgrade_expire_ts (x : Z) (s : node) : node :=
  Node s.(proposer_) s.(acceptor_) s.(is_inited_) s.(is_running_) s.(id_) s.(self_addr_) s.(inner_seed_)
    s.(priority_) x s.(ever_seen_) s.(mono_) s.(calls_) s.(outbox_) s.(role_changes_).
Definition set_ever_seen (x : Z) (s : node) : node :=
  Node s.(proposer_) s.(acceptor_) s.(is_inited_) s.(is_running_) s.(id_) s.(self_addr_) s.(inner_seed_)
    s.(priority_) s.(downgrade_expire_ts_) x s.(mono_) s.(calls_) s.(outbox_) s.(role_changes_).
Definition set_mono (x : Z) (s : node) : node :=
  Node s.(proposer_) s.(acceptor_) s.(is_inited_) s.(is_running_) s.(id_) s.(self_addr_) s.(inner_seed_)
    s.(priority_) s.(downgrade_expire_ts_) s.(ever_seen_) x s.(calls_) s.(outbox_) s.(role_changes_).
Definition set_calls (x : nat) (s : node) : node :=
  Node s.(proposer_) s.(acceptor_) s.(is_inited_) s.(is_running_) s.(id_) s.(self_addr_) s.(inner_seed_)
    s.(priority_) s.(downgrade_expire_ts_) s.(ever_seen_) s.(mono_) x s.(outbox_) s.(role_changes_).
Definition set_outbox (x : list (Z * msg)) (s : node) : node :=
  Node s.(proposer_) s.(acceptor_) s.(is_inited_) s.(is_running_) s.(id_) s.(self_addr_) s.(inner_seed_)
    s.(priority_) s.(downgrade_expire_ts_) s.(ever_seen_) s.(mono_) s.(calls_) x s.(role_changes_).
Definition set_role_changes (x : list (ObRole * ObRole * RoleChangeReason)) (s : node) : node :=
  Node s.(proposer_) s.(acceptor_) s.(is_inited_) s.(is_running_) s.(id_) s.(self_addr_) s.(inner_seed_)
    s.(priority_) s.(downgrade_expire_ts_) s.(ever_seen_) s.(mono_) s.(calls_) s.(outbox_) x.

(** ** Environment *)
Record env := Env {
  v_elapse : nat -> nat;
  v_clock : nat -> Z;
  v_send : nat -> Z;
  v_reschedule : Z -> Z;
  v_devote_running : bool;
  v_register : Z;
  v_max_tst : Z;
  v_init_ts : Z;
  v_serialize : Z * list Z;
  v_compare : list Z -> list Z -> Z -> bool -> option Z;
  v_has_fatal_failure : bool;
  v_min_cluster_version : Z;
  v_arbitration_mode : bool;
  v_build_arbitration : bool;
  v_prepare_change_leader_cb : option Z;
  v_alloc : bool;
  v_assigned : Z;
  v_init_array : Z;
  v_pushed : Z
}.

Abbreviation E := (R node).

Definition CLUSTER_VERSION_4_2_0_0 : Z := Z.shiftl 4 32 + Z.shiftl 2 16.
Definition SEED_TEMORARILY_DOWNGRADE_PRIORIY_BIT : Z := Z.shiftl 1 22.

Section election.
Context (v : env).

Definition get_monotonic_ts : E Z := fun s =>
  let ts := s.(mono_) + Z.of_nat (v_elapse v s.(calls_)) in Some (ts, set_calls (S s.(calls_)) (set_mono ts s)).

(** [ObClockGenerator::getClock] and [getRealClock]. *)
Definition getClock : E Z := fun s => Some (v_clock v s.(calls_), set_calls (S s.(calls_)) s).

Definition CALCULATE_TIME_WINDOW_SPAN_TS : Z := 2 * v_max_tst v.
Definition CALCULATE_MAX_ELECT_COST_TIME : Z := 10 * v_max_tst v.
Definition CALCULATE_LEASE_INTERVAL : Z := 4 * v_max_tst v.
Definition CALCULATE_TRIGGER_ELECT_WATER_MARK : Z := Z.min (v_max_tst v) 1000000.

Definition getp {A} (f : proposer -> A) : E A := reads (fun s => f s.(proposer_)).
Definition geta {A} (f : acceptor -> A) : E A := reads (fun s => f s.(acceptor_)).
Definition setp (f : proposer -> proposer) : E () := update (fun s => set_proposer (f s.(proposer_)) s).
Definition seta (f : acceptor -> acceptor) : E () := update (fun s => set_acceptor (f s.(acceptor_)) s).

(** ** Messages and priority: [ElectionImpl] *)

(** A message may have left although the call fails. *)
Definition send_ (m : msg) : E Z := fun s =>
  Some (v_send v s.(calls_), set_calls (S s.(calls_)) (set_outbox (s.(outbox_) ++ [(s.(mono_), m)]) s)).

Definition broadcast_ (m : ObAddr.t -> msg) (list : list ObAddr.t) : E Z := fun s =>
  Some (v_send v s.(calls_),
        set_calls (S s.(calls_)) (set_outbox (s.(outbox_) ++ ((fun addr => (s.(mono_), m addr)) <$> list)) s)).

Definition role_change_cb_ (before after : ObRole) (reason : RoleChangeReason) : E () :=
  update (fun s => set_role_changes (s.(role_changes_) ++ [(before, after, reason)]) s).

Definition get_ls_biggest_min_cluster_version_ever_seen_ (s : node) : Z :=
  if v_arbitration_mode v then if v_build_arbitration v then s.(ever_seen_) else 0
  else Z.max (v_min_cluster_version v) s.(ever_seen_).

Definition generate_inner_priority_seed_ : E Z :=
  ts ← get_monotonic_ts;
  reads (fun s => if ts <? s.(downgrade_expire_ts_)
                  then Z.lor s.(inner_seed_) SEED_TEMORARILY_DOWNGRADE_PRIORIY_BIT else s.(inner_seed_)).

(** [get_priority_], as the result of its [serialize]. *)
Definition get_priority_ (s : node) : option (Z * list Z) := if s.(priority_) then Some (v_serialize v) else None.

Definition get_member_list (s : node) : MemberList.t :=
  MemberListWithStates.member_list_ s.(proposer_).(memberlist_with_states_).
Definition is_member_list_valid_ (s : node) : bool := MemberList.is_valid (get_member_list s).
Definition get_membership_version_ (s : node) : LogConfigVersion.t := MemberList.membership_version_ (get_member_list s).

(** [v_compare]: the comparison of two serialized priorities, nothing when one
    cannot be read or they cannot be compared. *)
Definition is_rhs_message_higher_ (lhs rhs : ElectionMsgBase.t) (lhs_view rhs_view : priority_view)
    (decentralized_voting : bool) (s : node) : bool :=
  let by_ip := decentralized_voting && ObAddr.ltb (ElectionMsgBase.sender_ rhs) (ElectionMsgBase.sender_ lhs) in
  if negb (ElectionMsgBase.is_valid rhs) then false
  else if negb (ElectionMsgBase.is_valid lhs) then true
  else if LogConfigVersion.gtb (membership_version_ lhs_view) (membership_version_ rhs_view) then false
  else if LogConfigVersion.ltb (membership_version_ lhs_view) (membership_version_ rhs_view) then true
  else if inner_priority_seed_ lhs_view <? inner_priority_seed_ rhs_view then false
  else if inner_priority_seed_ rhs_view <? inner_priority_seed_ lhs_view then true
  else if negb (is_buffer_valid_ lhs_view) then if is_buffer_valid_ rhs_view then true else by_ip
  else if negb (is_buffer_valid_ rhs_view) then false
  else
    let compare_version := get_ls_biggest_min_cluster_version_ever_seen_ s in
    if negb s.(priority_) || (compare_version =? 0) then by_ip
    else match v_compare v (priority_buffer_ lhs_view) (priority_buffer_ rhs_view) compare_version decentralized_voting with
         | None => false
         | Some compare_result => if compare_result <? 0 then true else (compare_result =? 0) && by_ip
         end.

(** ** Proposer *)

Definition check_leader : E (bool * Z) :=
  current_ts ← get_monotonic_ts;
  '(lease, exposed_epoch) ← getp (fun p => LeaderLeaseAndEpoch.get p.(leader_lease_and_epoch_));
  mret (current_ts <? lease, exposed_epoch).

Definition is_self_in_memberlist_ (s : node) : bool :=
  existsb (fun addr => ObAddr.eqb addr s.(self_addr_)) (MemberList.addr_list_ (get_member_list s)).

Definition clear_prepare_and_accept_states : E () :=
  setp (fun p => set_memberlist_with_states
                   (MemberListWithStates.clear_prepare_and_accept_states p.(memberlist_with_states_)) p).

Definition advance_ballot_number_and_reset_related_states_ (new_ballot_number : Z) : E () :=
  ballot_number ← getp ballot_number_;
  assert (ballot_number <=? new_ballot_number) ;;
  setp (set_ballot_number new_ballot_number) ;;
  clear_prepare_and_accept_states ;;
  setp (set_switch_source_leader_ballot INVALID_VALUE) ;;
  setp (fun p => set_switch_source_leader_addr (ObAddr.reset p.(switch_source_leader_addr_)) p).

Definition reset_leader_lease : E () :=
  setp (fun p => set_leader_lease_and_epoch (LeaderLeaseAndEpoch.reset p.(leader_lease_and_epoch_)) p).

Definition leader_revoke_if_lease_expired_ (reason : RoleChangeReason) : E bool :=
  role ← getp role_;
  if bool_decide (role = LEADER) then
    '(is_leader, _) ← check_leader;
    if (is_leader : bool) then mret false
    else
      role_change_cb_ LEADER FOLLOWER reason ;;
      setp (set_role FOLLOWER) ;;
      clear_prepare_and_accept_states ;;
      reset_leader_lease ;;
      mret true
  else mret false.

Definition propose : E () :=
  current_ts ← get_monotonic_ts;
  let new_lease_interval := CALCULATE_LEASE_INTERVAL in
  setp (set_record_lease_interval new_lease_interval) ;;
  s ← reads id;
  let accept_req :=
    AcceptRequest.make (negb (v_arbitration_mode v) && (CLUSTER_VERSION_4_2_0_0 <=? v_min_cluster_version v))
      s.(id_) s.(self_addr_) s.(proposer_).(restart_counter_) s.(proposer_).(prepare_success_ballot_)
      (get_ls_biggest_min_cluster_version_ever_seen_ s) current_ts new_lease_interval (get_membership_version_ s) in
  broadcast_ (fun addr => MsgAcceptRequest (AcceptRequest.set_receiver addr accept_req))
    (MemberList.addr_list_ (get_member_list s)) ;;
  mret ().

Definition reset_highest_priority_cache : E () :=
  setp (fun p => set_cached_msg (AcceptResponse.reset p.(cached_msg_)) (set_cached_ts INVALID_VALUE p)).

Definition leader_takeover_if_lease_valid_ (reason : RoleChangeReason) : E bool :=
  role ← getp role_;
  if bool_decide (role = LEADER) then mret false
  else
    '(is_leader, _) ← check_leader;
    if (is_leader : bool) then
      role_change_cb_ FOLLOWER LEADER reason ;;
      reset_highest_priority_cache ;;
      setp (set_role LEADER) ;;
      propose ;;
      mret true
    else mret false.

(** A prepare request with the own ballot and priority, for all members. *)
Definition make_prepare_request (role : ObRole) : E (Z * PrepareRequest.t) :=
  seed ← generate_inner_priority_seed_;
  reads (fun s =>
    PrepareRequest.set (get_priority_ s) role
      (PrepareRequest.make s.(id_) s.(self_addr_) s.(proposer_).(restart_counter_) s.(proposer_).(ballot_number_)
         (get_ls_biggest_min_cluster_version_ever_seen_ s) seed (get_membership_version_ s))).

Definition broadcast_prepare_request (prepare_req : PrepareRequest.t) : E Z :=
  list ← reads (fun s => MemberList.addr_list_ (get_member_list s));
  broadcast_ (fun addr => MsgPrepareRequest (PrepareRequest.set_receiver addr prepare_req)) list.

Definition prepare (role : ObRole) : E () :=
  cur_ts ← getClock;
  s ← reads id;
  if bool_decide (MemberList.addr_list_ (get_member_list s) = []) then mret ()
  else if negb (is_self_in_memberlist_ s) then mret ()
  else if bool_decide (role = FOLLOWER)
          && (cur_ts - s.(proposer_).(last_do_prepare_ts_) <? CALCULATE_MAX_ELECT_COST_TIME ÷ 2) then mret ()
  else
    setp (set_last_do_prepare_ts cur_ts) ;;
    match role with
    | FOLLOWER => advance_ballot_number_and_reset_related_states_ (s.(proposer_).(ballot_number_) + 1)
    | LEADER => mret ()
    | _ => assert false
    end ;;
    '(ret, prepare_req) ← make_prepare_request role;
    if ob_fail ret then mret () else broadcast_prepare_request prepare_req ;; mret ().

(** [ResponseChecker]. *)
Definition check_ballot_and_restart_counter_valid_and_accepted (msg : ElectionMsgBase.t) (is_accepted : bool) : E bool :=
  p ← getp id;
  if negb (ElectionMsgBase.restart_counter_ msg =? p.(restart_counter_)) then
    assert (ElectionMsgBase.restart_counter_ msg <? p.(restart_counter_)) ;; mret false
  else if ElectionMsgBase.ballot_number_ msg <? p.(ballot_number_) then mret false
  else if p.(ballot_number_) <? ElectionMsgBase.ballot_number_ msg then
    assert (negb is_accepted) ;;
    advance_ballot_number_and_reset_related_states_ (ElectionMsgBase.ballot_number_ msg) ;;
    '(is_leader, _) ← check_leader;
    (if (is_leader : bool) then
       ballot_number ← getp ballot_number_;
       advance_ballot_number_and_reset_related_states_ (ballot_number + 1) ;;
       prepare LEADER
     else mret ()) ;;
    mret false
  else mret is_accepted.

(** The result is [need_register_devote_task]. *)
Definition proposer_on_prepare_request (prepare_req : PrepareRequest.t) : E bool :=
  let base := PrepareRequest.base prepare_req in
  s ← reads id;
  let ballot_number := s.(proposer_).(ballot_number_) in
  if ElectionMsgBase.ballot_number_ base <=? ballot_number then
    (if ElectionMsgBase.ballot_number_ base <? ballot_number then
       send_ (MsgPrepareResponse (PrepareResponse.set_rejected ballot_number
         (PrepareResponse.make s.(self_addr_) (get_ls_biggest_min_cluster_version_ever_seen_ s) prepare_req))) ;;
       mret ()
     else mret ()) ;;
    mret false
  else if negb (is_self_in_memberlist_ s) then mret false
  else
    advance_ballot_number_and_reset_related_states_ (ElectionMsgBase.ballot_number_ base) ;;
    match PrepareRequest.role_ prepare_req with
    | FOLLOWER =>
      s ← reads id;
      if bool_decide (MemberList.addr_list_ (get_member_list s) = []) then mret false
      else
        '(ret, prepare_followed_req) ← make_prepare_request s.(proposer_).(role_);
        if ob_fail ret then mret false
        else
          ret ← broadcast_prepare_request prepare_followed_req;
          if ob_fail ret then mret false
          else
            clock ← getClock;
            setp (set_last_do_prepare_ts clock) ;;
            mret true
    | _ => mret false
    end.

(** An operation on the list of members with their answers. *)
Definition on_memberlist {A} (f : MemberListWithStates.t -> option (A * MemberListWithStates.t)) : E A := fun s =>
  '(x, m) ← f s.(proposer_).(memberlist_with_states_);
  Some (x, set_proposer (set_memberlist_with_states m s.(proposer_)) s).

(** The lease of the other side does not stand in the way. *)
Definition lease_permits (s : node) (res_lease : Lease.t) : bool :=
  Lease.is_empty res_lease
  || ObAddr.eqb (Lease.owner_ res_lease) s.(self_addr_)
  || (ObAddr.eqb (Lease.owner_ res_lease) s.(proposer_).(switch_source_leader_addr_)
      && (Lease.ballot_number_ res_lease =? s.(proposer_).(switch_source_leader_ballot_))).

Definition on_prepare_response (prepare_res : PrepareResponse.t) : E () :=
  let base := PrepareResponse.base prepare_res in
  ok ← check_ballot_and_restart_counter_valid_and_accepted base (PrepareResponse.accepted_ prepare_res);
  if negb ok then mret ()
  else
    permitted ← reads (fun s => lease_permits s (PrepareResponse.lease_ prepare_res));
    if negb permitted then mret ()
    else
      ret ← on_memberlist (MemberListWithStates.record_prepare_ok (ElectionMsgBase.sender_ base));
      if ob_fail ret then mret ()
      else
        setp (fun p => set_prepare_success_ballot (Z.max p.(ballot_number_) p.(prepare_success_ballot_)) p) ;;
        propose.

Definition set_lease_and_epoch_if_lease_expired_or_just_set_lease (lease epoch : Z) : E () :=
  let upd f := setp (fun p => set_leader_lease_and_epoch (f p.(leader_lease_and_epoch_)) p) in
  upd (fun l => LeaderLeaseAndEpoch.mk (LeaderLeaseAndEpoch.lease_ l) (LeaderLeaseAndEpoch.epoch_ l)
                  (LeaderLeaseAndEpoch.seq_ l + 1)) ;;
  old_lease ← getp (fun p => LeaderLeaseAndEpoch.lease_ p.(leader_lease_and_epoch_));
  ts ← get_monotonic_ts;
  (if ts <? old_lease then
     upd (fun l => LeaderLeaseAndEpoch.mk lease (LeaderLeaseAndEpoch.epoch_ l) (LeaderLeaseAndEpoch.seq_ l)) ;;
     ts ← get_monotonic_ts;
     if old_lease <=? ts then
       upd (fun l => LeaderLeaseAndEpoch.mk (LeaderLeaseAndEpoch.lease_ l) epoch (LeaderLeaseAndEpoch.seq_ l))
     else mret ()
   else upd (fun l => LeaderLeaseAndEpoch.mk lease epoch (LeaderLeaseAndEpoch.seq_ l))) ;;
  upd (fun l => LeaderLeaseAndEpoch.mk (LeaderLeaseAndEpoch.lease_ l) (LeaderLeaseAndEpoch.epoch_ l)
                  (LeaderLeaseAndEpoch.seq_ l + 1)).

Definition inner_change_leader_to (dst : ObAddr.t) : E () :=
  switch_source_leader_ballot ← getp ballot_number_;
  advance_ballot_number_and_reset_related_states_ (switch_source_leader_ballot + 1) ;;
  reset_leader_lease ;;
  s ← reads id;
  let change_leader_msg :=
    ChangeLeader.make s.(id_) s.(self_addr_) s.(proposer_).(restart_counter_) s.(proposer_).(ballot_number_)
      (get_ls_biggest_min_cluster_version_ever_seen_ s) switch_source_leader_ballot (get_membership_version_ s) in
  leader_revoke_if_lease_expired_ ChangeLeaderToRevoke ;;
  send_ (MsgChangeLeader (ChangeLeader.set_receiver dst change_leader_msg)) ;;
  mret ().

Definition proposer_change_leader_to (dest_addr : ObAddr.t) : E Z :=
  s ← reads id;
  let redirect_addr :=
    if existsb (ObAddr.eqb dest_addr) (MemberList.addr_list_ (get_member_list s)) then dest_addr else s.(self_addr_) in
  '(is_leader, _) ← check_leader;
  if negb is_leader then mret OB_NOT_MASTER else inner_change_leader_to redirect_addr ;; mret OB_SUCCESS.

Definition prepare_change_leader_to_ (dest_addr : ObAddr.t) : E Z :=
  s ← reads id;
  if s.(priority_) && v_has_fatal_failure v then
    proposer_change_leader_to (ElectionMsgBase.sender_ (AcceptResponse.base s.(proposer_).(cached_msg_)))
  else match v_prepare_change_leader_cb v with None => mret OB_SUCCESS | Some ret => mret ret end.

(** [highest_priority_cache_.set] and [check_expired]. *)
Definition set_highest_priority_cache (rhs : AcceptResponse.t) : E () :=
  clock ← getClock;
  setp (fun p => set_cached_msg rhs (set_cached_ts clock p)).

Definition check_cache_expired : E () :=
  cached_ts ← getp cached_ts_;
  if cached_ts =? INVALID_VALUE then mret ()
  else clock ← getClock; if CACHE_EXPIRATION_TIME <? clock - cached_ts then reset_highest_priority_cache else mret ().

(** Step 5 of [on_accept_response]: a follower with a higher priority. *)
Definition check_follower_priority (accept_res : AcceptResponse.t) : E () :=
  seed ← generate_inner_priority_seed_;
  s ← reads id;
  let version := get_ls_biggest_min_cluster_version_ever_seen_ s in
  let mock_request :=
    AcceptRequest.make (negb (v_arbitration_mode v) && (CLUSTER_VERSION_4_2_0_0 <=? v_min_cluster_version v))
      s.(id_) s.(self_addr_) s.(proposer_).(restart_counter_) s.(proposer_).(ballot_number_) version 0
      s.(proposer_).(record_lease_interval_) (get_membership_version_ s) in
  let '(ret, mock_self) :=
    AcceptResponse.set_accepted s.(proposer_).(ballot_number_) (get_priority_ s)
      (AcceptResponse.make s.(self_addr_) seed (get_membership_version_ s) version mock_request) in
  let higher lhs decentralized_voting s :=
    is_rhs_message_higher_ (AcceptResponse.base lhs) (AcceptResponse.base accept_res) (AcceptResponse.view lhs)
      (AcceptResponse.view accept_res) decentralized_voting s in
  if ob_fail ret then mret ()
  else if higher mock_self false s then
    check_cache_expired ;;
    s ← reads id;
    let cached_msg := s.(proposer_).(cached_msg_) in
    if negb (ElectionMsgBase.is_valid (AcceptResponse.base cached_msg)) then set_highest_priority_cache accept_res
    else if higher cached_msg true s then set_highest_priority_cache accept_res
    else if ObAddr.eqb (ElectionMsgBase.sender_ (AcceptResponse.base cached_msg))
                       (ElectionMsgBase.sender_ (AcceptResponse.base accept_res))
    then prepare_change_leader_to_ (ElectionMsgBase.sender_ (AcceptResponse.base cached_msg)) ;; mret ()
    else mret ()
  else mret ().

(** Step 4 of [on_accept_response]: the new lease. *)
Definition renew_leader_lease (new_lease_end : Z) : E () :=
  leader_revoke_if_lease_expired_ LeaseExpiredToRevoke ;;
  '(record_leader_lease_end, _) ← getp (fun p => LeaderLeaseAndEpoch.get p.(leader_lease_and_epoch_));
  (if record_leader_lease_end <? new_lease_end then
     prepare_success_ballot ← getp prepare_success_ballot_;
     set_lease_and_epoch_if_lease_expired_or_just_set_lease new_lease_end prepare_success_ballot
   else mret ()) ;;
  p ← getp id;
  if negb (p.(switch_source_leader_ballot_) =? INVALID_VALUE) then
    if negb (p.(switch_source_leader_ballot_) =? p.(ballot_number_) - 1) then mret ()
    else
      taken ← leader_takeover_if_lease_valid_ ChangeLeaderToBeLeader;
      if (taken : bool) then
        setp (set_switch_source_leader_ballot INVALID_VALUE) ;;
        setp (fun p => set_switch_source_leader_addr (ObAddr.reset p.(switch_source_leader_addr_)) p)
      else mret ()
  else leader_takeover_if_lease_valid_ DevoteToBeLeader ;; mret ().

Definition on_accept_response (accept_res : AcceptResponse.t) : E () :=
  let base := AcceptResponse.base accept_res in
  ok ← check_ballot_and_restart_counter_valid_and_accepted base (AcceptResponse.accepted_ accept_res);
  (if negb ok then mret ()
   else
     ret ← on_memberlist (MemberListWithStates.record_accept_ok (ElectionMsgBase.sender_ base)
                            (AcceptResponse.lease_started_ts_on_proposer_ accept_res)
                            (AcceptResponse.lease_interval_ accept_res)
                            (AcceptResponse.responsed_membership_version_ accept_res));
     if ob_fail ret then mret ()
     else
       '(ret, new_lease_end) ← on_memberlist (fun m =>
         r ← MemberListWithStates.get_majority_promised_not_vote_ts (v_pushed v) m; Some (r, m));
       if ob_fail ret then mret () else renew_leader_lease (default 0 new_lease_end)) ;;
  s ← reads id;
  if bool_decide (s.(proposer_).(role_) = LEADER) && negb (ObAddr.eqb (ElectionMsgBase.sender_ base) s.(self_addr_))
  then check_follower_priority accept_res else mret ().

Definition on_change_leader (change_leader_msg : ChangeLeader.t) : E () :=
  let base := ChangeLeader.base change_leader_msg in
  s ← reads id;
  let accept :=
    if ObAddr.eqb (ElectionMsgBase.sender_ base) s.(self_addr_)
    then ElectionMsgBase.ballot_number_ base =? s.(proposer_).(ballot_number_)
    else s.(proposer_).(ballot_number_) <? ElectionMsgBase.ballot_number_ base in
  if negb accept then mret ()
  else if LogConfigVersion.gtb (ChangeLeader.membership_version_ change_leader_msg) (get_membership_version_ s) then mret ()
  else
    advance_ballot_number_and_reset_related_states_ (ElectionMsgBase.ballot_number_ base) ;;
    setp (set_switch_source_leader_ballot (ChangeLeader.switch_source_leader_ballot_ change_leader_msg)) ;;
    setp (set_switch_source_leader_addr (ElectionMsgBase.sender_ base)) ;;
    prepare LEADER.

Definition reschedule_or_register_prepare_task_after_ (delay_us : Z) : Z :=
  if delay_us <? 0 then OB_INVALID_ARGUMENT
  else if v_devote_running v then v_reschedule v delay_us else v_register v.

(** The task [reschedule_or_register_prepare_task_after_] registers. *)
Definition devote_task : E () :=
  '(is_leader, _) ← check_leader;
  p ← getp id;
  if (is_leader : bool) then
    if p.(prepare_success_ballot_) =? p.(ballot_number_) then mret () else prepare p.(role_)
  else
    (if bool_decide (p.(role_) = LEADER) then setp (set_role FOLLOWER) else mret ()) ;;
    role ← getp role_;
    prepare role.

(** The task [register_renew_lease_task_] registers. *)
Definition renew_lease_task : E () :=
  s ← reads id;
  if negb s.(is_running_) then mret ()
  else match s.(proposer_).(role_) with
       | LEADER =>
         revoked ← leader_revoke_if_lease_expired_ LeaseExpiredToRevoke;
         if (revoked : bool) then mret ()
         else
           p ← getp id;
           if negb (p.(prepare_success_ballot_) =? p.(ballot_number_)) then mret () else propose
       | _ => mret ()
       end.

Definition can_set_memberlist (new_config_version : LogConfigVersion.t) : E Z :=
  s ← reads id;
  let current_member_list := get_member_list s in
  if negb (LogConfigVersion.is_valid new_config_version) then mret OB_INVALID_ARGUMENT
  else if MemberList.is_valid current_member_list then
    if LogConfigVersion.ltb new_config_version (MemberList.membership_version_ current_member_list)
    then mret OB_INVALID_ARGUMENT
    else
      '(is_leader, _) ← check_leader;
      if (is_leader : bool) && negb (MemberListWithStates.is_synced_with_majority s.(proposer_).(memberlist_with_states_))
      then mret OB_OP_NOT_ALLOW else mret OB_SUCCESS
  else mret OB_SUCCESS.

Definition set_member_list (new_member_list : MemberList.t) : E Z :=
  ret ← can_set_memberlist (MemberList.membership_version_ new_member_list);
  if ob_fail ret then mret ret
  else
    old_list ← reads get_member_list;
    ret ← on_memberlist
      (MemberListWithStates.set_member_list (v_alloc v) (v_assigned v) (v_init_array v) new_member_list);
    if ob_fail ret then mret ret
    else
      (if bool_decide (MemberList.addr_list_ old_list = []) && Nat.eqb (length (MemberList.addr_list_ new_member_list)) 1
       then prepare FOLLOWER else mret ()) ;;
      mret ret.

Definition proposer_stop : E () :=
  reset_leader_lease ;; leader_revoke_if_lease_expired_ StopToRevoke ;; mret ().

(** ** Acceptor *)

(** [CHECK_SILENCE]: nothing is answered before the leases of an earlier run have
    ended. *)
Definition check_silence : E bool :=
  if v_init_ts v <? 0 then mret true
  else ts ← get_monotonic_ts; mret (ts <? v_init_ts v + MAX_LEASE_TIME).

Definition reset_time_window_states_ : E () :=
  opened ← geta is_time_window_opened_;
  if (opened : bool) then
    seta (set_is_time_window_opened false) ;;
    seta (fun a => set_highest_priority_prepare_req (PrepareRequest.reset a.(highest_priority_prepare_req_)) a)
  else mret ().

Definition acceptor_advance_ballot_number_and_reset_related_states_ (new_ballot_number : Z) : E () :=
  ballot_number ← geta acceptor_ballot_number_;
  if ballot_number <? new_ballot_number then
    seta (set_acceptor_ballot_number new_ballot_number) ;;
    seta (set_ballot_of_time_window new_ballot_number) ;;
    reset_time_window_states_
  else mret ().

(** [RequestChecker::check_ballot_valid]; [reject] makes the answer to an old
    ballot, from the seed. *)
Definition check_ballot_valid (msg : ElectionMsgBase.t) (reject : Z -> node -> ElectionUtils.msg) : E bool :=
  ballot_number ← geta acceptor_ballot_number_;
  if ElectionMsgBase.ballot_number_ msg <? ballot_number then
    seed ← generate_inner_priority_seed_;
    reject_msg ← reads (reject seed);
    send_ reject_msg ;;
    mret false
  else mret true.

Definition reject_prepare (prepare_req : PrepareRequest.t) (seed : Z) (s : node) : msg :=
  MsgPrepareResponse (PrepareResponse.set_rejected s.(acceptor_).(acceptor_ballot_number_)
    (PrepareResponse.make s.(self_addr_) (get_ls_biggest_min_cluster_version_ever_seen_ s) prepare_req)).

Definition reject_accept (accept_req : AcceptRequest.t) (seed : Z) (s : node) : msg :=
  MsgAcceptResponse (AcceptResponse.set_rejected s.(acceptor_).(acceptor_ballot_number_)
    (AcceptResponse.make s.(self_addr_) seed (get_membership_version_ s) (get_ls_biggest_min_cluster_version_ever_seen_ s)
       accept_req)).

(** The vote for [prepare_req], with the ballot and the lease of the acceptor. *)
Definition send_vote (prepare_req : PrepareRequest.t) : E () :=
  vote ← reads (fun s =>
    PrepareResponse.set_accepted s.(acceptor_).(acceptor_ballot_number_) s.(acceptor_).(lease_)
      (PrepareResponse.make s.(self_addr_) (get_ls_biggest_min_cluster_version_ever_seen_ s) prepare_req));
  send_ (MsgPrepareResponse vote) ;;
  mret ().

(** Step 2 of [on_prepare_request]: the code of the timer. *)
Definition open_time_window (ballot_number : Z) : E Z :=
  seta (set_ballot_of_time_window ballot_number) ;;
  seta (fun a => set_highest_priority_prepare_req (PrepareRequest.reset a.(highest_priority_prepare_req_)) a) ;;
  ts ← get_monotonic_ts;
  lease ← geta lease_;
  timewindow_span ←
    (if negb (Lease.is_expired ts lease)
     then ts ← get_monotonic_ts; mret (Z.max (Lease.lease_end_ts_ lease - ts) (CALCULATE_TIME_WINDOW_SPAN_TS ÷ 2))
     else mret CALCULATE_TIME_WINDOW_SPAN_TS : E Z);
  let ret := v_reschedule v timewindow_span in
  (if ob_fail ret then mret ()
   else
     seta (set_is_time_window_opened true) ;;
     clock ← getClock;
     seta (set_last_time_window_open_ts clock)) ;;
  mret ret.

(** Steps 3 and 4: the request of the window with the highest priority. *)
Definition keep_highest_priority (prepare_req : PrepareRequest.t) : E () :=
  let base := PrepareRequest.base prepare_req in
  let view := PrepareRequest.view prepare_req in
  s ← reads id;
  let a := s.(acceptor_) in
  let highest := a.(highest_priority_prepare_req_) in
  let keep := seta (set_highest_priority_prepare_req prepare_req) in
  if negb (ElectionMsgBase.ballot_number_ base =? a.(ballot_of_time_window_)) then mret ()
  else if negb (ElectionMsgBase.is_valid (PrepareRequest.base highest)) then keep
  else if LogConfigVersion.gtb (membership_version_ view) (membership_version_ (PrepareRequest.view highest)) then keep
  else if LogConfigVersion.ltb (membership_version_ view) (membership_version_ (PrepareRequest.view highest)) then mret ()
  else if is_rhs_message_higher_ (PrepareRequest.base highest) base (PrepareRequest.view highest) view true s then keep
  else mret ().

Definition acceptor_on_prepare_request (prepare_req : PrepareRequest.t) : E () :=
  let base := PrepareRequest.base prepare_req in
  silent ← check_silence;
  s ← reads id;
  if (silent : bool) then mret ()
  else if negb (is_member_list_valid_ s) then mret ()
  else if LogConfigVersion.ltb (membership_version_ (PrepareRequest.view prepare_req)) (get_membership_version_ s)
  then mret ()
  else
    valid ← check_ballot_valid base (reject_prepare prepare_req);
    if negb valid then mret ()
    else if bool_decide (PrepareRequest.role_ prepare_req = LEADER) then
      ballot_number ← geta acceptor_ballot_number_;
      if ElectionMsgBase.ballot_number_ base <=? ballot_number then mret ()
      else
        acceptor_advance_ballot_number_and_reset_related_states_ (ElectionMsgBase.ballot_number_ base) ;;
        send_vote prepare_req
    else
      a ← geta id;
      (if a.(is_time_window_opened_) && (a.(ballot_of_time_window_) <? ElectionMsgBase.ballot_number_ base)
       then reset_time_window_states_ else mret ()) ;;
      a ← geta id;
      ret ← (if negb a.(is_time_window_opened_) && (a.(ballot_of_time_window_) <? ElectionMsgBase.ballot_number_ base)
             then open_time_window (ElectionMsgBase.ballot_number_ base) else mret OB_SUCCESS);
      opened ← geta is_time_window_opened_;
      if ob_succ ret && (opened : bool) then keep_highest_priority prepare_req else mret ().

(** The result is [us_to_expired]. *)
Definition on_accept_request (accept_req : AcceptRequest.t) : E Z :=
  let base := AcceptRequest.base accept_req in
  silent ← check_silence;
  if (silent : bool) then mret 0
  else
    valid ← check_ballot_valid base (reject_accept accept_req);
    if negb valid then mret 0
    else
      ballot_number ← geta acceptor_ballot_number_;
      (if ballot_number <? ElectionMsgBase.ballot_number_ base
       then acceptor_advance_ballot_number_and_reset_related_states_ (ElectionMsgBase.ballot_number_ base)
       else mret ()) ;;
      ts ← get_monotonic_ts;
      lease ← geta lease_;
      assert (Lease.ballot_number_ lease <=? ElectionMsgBase.ballot_number_ base) ;;
      seta (set_lease (Lease.update_from ts (ElectionMsgBase.sender_ base) (AcceptRequest.lease_interval_ accept_req)
                         (ElectionMsgBase.ballot_number_ base) lease)) ;;
      lease ← geta lease_;
      ts ← get_monotonic_ts;
      seed ← generate_inner_priority_seed_;
      '(ret, accept_res_accept) ← reads (fun s =>
        AcceptResponse.set_accepted s.(acceptor_).(acceptor_ballot_number_) (get_priority_ s)
          (AcceptResponse.make s.(self_addr_) seed (get_membership_version_ s)
             (get_ls_biggest_min_cluster_version_ever_seen_ s) accept_req));
      (if ob_fail ret then mret () else send_ (MsgAcceptResponse accept_res_accept) ;; mret ()) ;;
      mret (Lease.lease_end_ts_ lease - ts).

(** The vote when the window closes. *)
Definition close_time_window : E () :=
  a ← geta id;
  let highest := a.(highest_priority_prepare_req_) in
  (if (a.(ballot_of_time_window_) =? ElectionMsgBase.ballot_number_ (PrepareRequest.base highest))
      && (a.(acceptor_ballot_number_) <? a.(ballot_of_time_window_)) then
     seta (set_acceptor_ballot_number a.(ballot_of_time_window_)) ;;
     ts ← get_monotonic_ts;
     (if Lease.is_expired ts a.(lease_) then seta (fun a => set_lease (Lease.reset a.(lease_)) a) else mret ()) ;;
     send_vote highest
   else mret ()) ;;
  seta (set_is_time_window_opened false).

(** The task [ElectionAcceptor::start] registers. *)
Definition time_window_task : E () :=
  ts ← get_monotonic_ts;
  a ← geta id;
  let lease_valid_state := negb (Lease.is_expired ts a.(lease_)) in
  (if negb (eqb a.(last_record_lease_valid_state) lease_valid_state) && negb lease_valid_state
   then seta (fun a => set_lease (Lease.reset a.(lease_)) a) else mret ()) ;;
  seta (fun a => set_last_record_lease_owner (Lease.owner_ a.(lease_)) a) ;;
  (if a.(is_time_window_opened_) then
     if a.(last_record_lease_valid_state) && negb lease_valid_state then close_time_window
     else
       clock ← getClock;
       if CALCULATE_TIME_WINDOW_SPAN_TS <=? clock - a.(last_time_window_open_ts_) then close_time_window else mret ()
   else mret ()) ;;
  seta (set_last_record_lease_valid_state lease_valid_state).

(** ** [ElectionImpl] *)

Definition handle_message_base_ (message_base : ElectionMsgBase.t) : E () :=
  update (fun s => if s.(ever_seen_) <? ElectionMsgBase.version_ message_base
                   then set_ever_seen (ElectionMsgBase.version_ message_base) s else s).

(** [CHECK_ELECTION_INIT] and [CHECK_ELECTION_INIT_AND_START]. *)
Definition check_init (k : E Z) : E Z := s ← reads id; if negb s.(is_inited_) then mret OB_NOT_INIT else k.
Definition check_init_and_start (k : E Z) : E Z :=
  check_init (s ← reads id; if negb s.(is_running_) then mret OB_NOT_RUNNING else k).

Definition handle_prepare_request (msg : PrepareRequest.t) : E Z :=
  handle_message_base_ (PrepareRequest.base msg) ;;
  check_init_and_start (
    s ← reads id;
    need_register_devote_task ←
      (if negb (ObAddr.eqb (ElectionMsgBase.sender_ (PrepareRequest.base msg)) s.(self_addr_))
       then proposer_on_prepare_request msg else mret false);
    acceptor_on_prepare_request msg ;;
    mret (if (need_register_devote_task : bool)
          then reschedule_or_register_prepare_task_after_ CALCULATE_MAX_ELECT_COST_TIME else OB_SUCCESS)).

Definition handle_accept_request (msg : AcceptRequest.t) : E Z :=
  let base := AcceptRequest.base msg in
  handle_message_base_ base ;;
  check_init_and_start (
    ballot_number ← getp ballot_number_;
    (if ballot_number <? ElectionMsgBase.ballot_number_ base
     then advance_ballot_number_and_reset_related_states_ (ElectionMsgBase.ballot_number_ base) else mret ()) ;;
    us_to_expired ← on_accept_request msg;
    mret (if 0 <? us_to_expired
          then if us_to_expired - CALCULATE_TRIGGER_ELECT_WATER_MARK <? 0 then OB_SUCCESS
               else reschedule_or_register_prepare_task_after_ (us_to_expired - CALCULATE_TRIGGER_ELECT_WATER_MARK)
          else OB_SUCCESS)).

Definition handle_prepare_response (msg : PrepareResponse.t) : E Z :=
  handle_message_base_ (PrepareResponse.base msg) ;; check_init_and_start (on_prepare_response msg ;; mret OB_SUCCESS).

Definition handle_accept_response (msg : AcceptResponse.t) : E Z :=
  handle_message_base_ (AcceptResponse.base msg) ;; check_init_and_start (on_accept_response msg ;; mret OB_SUCCESS).

Definition handle_change_leader (msg : ChangeLeader.t) : E Z :=
  handle_message_base_ (ChangeLeader.base msg) ;; check_init_and_start (on_change_leader msg ;; mret OB_SUCCESS).

Definition handle_message (m : msg) : E Z :=
  match m with
  | MsgPrepareRequest m => handle_prepare_request m
  | MsgPrepareResponse m => handle_prepare_response m
  | MsgAcceptRequest m => handle_accept_request m
  | MsgAcceptResponse m => handle_accept_response m
  | MsgChangeLeader m => handle_change_leader m
  end.

Definition set_memberlist (new_memberlist : MemberList.t) : E Z :=
  if negb (MemberList.is_valid new_memberlist) then mret OB_INVALID_ARGUMENT else check_init (set_member_list new_memberlist).

Definition election_can_set_memberlist (new_config_version : LogConfigVersion.t) : E Z :=
  if negb (LogConfigVersion.is_valid new_config_version) then mret OB_INVALID_ARGUMENT
  else check_init (can_set_memberlist new_config_version).

Definition change_leader_to (dest_addr : ObAddr.t) : E Z :=
  if negb (ObAddr.is_valid dest_addr) then mret OB_INVALID_ARGUMENT else check_init (proposer_change_leader_to dest_addr).

(** [set_priority] for a priority that is valid. *)
Definition set_priority_ : E Z :=
  s ← reads id; if s.(priority_) then mret OB_ENTRY_EXIST else update (set_priority true) ;; mret OB_SUCCESS.

Definition reset_priority : E Z := check_init (update (set_priority false) ;; mret OB_SUCCESS).

Definition temporarily_downgrade_protocol_priority (time_us : Z) : E Z :=
  check_init (ts ← get_monotonic_ts; update (set_downgrade_expire_ts (ts + time_us)) ;; mret OB_SUCCESS).

Definition add_inner_priority_seed_bit (new_bit : Z) : E Z :=
  check_init (
    s ← reads id;
    if negb (Z.land s.(inner_seed_) new_bit =? 0) then mret OB_ENTRY_EXIST
    else update (set_inner_seed (Z.lor s.(inner_seed_) new_bit)) ;; mret OB_SUCCESS).

Definition clear_inner_priority_seed_bit (old_bit : Z) : E Z :=
  check_init (
    s ← reads id;
    if Z.lor s.(inner_seed_) old_bit =? 0 then mret OB_ENTRY_NOT_EXIST
    else update (set_inner_seed (Z.land s.(inner_seed_) (u64 (Z.lnot old_bit)))) ;; mret OB_SUCCESS).

Definition set_inner_priority_seed (seed : Z) : E Z := update (set_inner_seed seed) ;; mret OB_SUCCESS.

Definition stop : E () :=
  s ← reads id;
  update (set_priority false) ;;
  if negb s.(is_inited_) || negb s.(is_running_) then mret ()
  else update (set_is_running false) ;; proposer_stop.

Definition get_role : E (ObRole * Z) :=
  '(is_leader, epoch) ← check_leader; mret (if (is_leader : bool) then (LEADER, epoch) else (FOLLOWER, 0)).

(** [addr]: the output argument before the call. *)
Definition get_current_leader_likely (addr : ObAddr.t) : E (ObAddr.t * Z) :=
  '(is_leader, epoch) ← check_leader;
  s ← reads id;
  if (is_leader : bool) then mret (s.(self_addr_), epoch)
  else
    ts ← get_monotonic_ts;
    lease ← geta lease_;
    if negb (Lease.is_expired ts lease) then
      let '(addr, cur_leader_epoch) := Lease.get_owner_and_ballot lease in
      mret (if ObAddr.eqb addr s.(self_addr_) || negb (ObAddr.is_valid addr) then (ObAddr.reset addr, 0)
            else (addr, cur_leader_epoch))
    else mret (ObAddr.reset addr, 0).

(** The codes of the timer when the tasks are registered, [init] the code of the
    list of members. *)
Definition init_and_start (init start_devote start_renew start_window : Z) (ls_id : Z) (self_addr : ObAddr.t)
    (inner_priority_seed restart_counter : Z) : E Z :=
  s ← reads id;
  if s.(is_inited_) then mret OB_INIT_TWICE
  else if ob_fail init then mret init
  else
    setp (set_restart_counter restart_counter) ;;
    update (set_id ls_id) ;; update (set_self_addr self_addr) ;; update (set_inner_seed inner_priority_seed) ;;
    if ob_fail start_devote then mret start_devote
    else if ob_fail start_renew then mret start_renew
    else if ob_fail start_window then mret start_window
    else update (set_is_inited true) ;; update (set_is_running true) ;; mret OB_SUCCESS.
End election.

(** A new object. *)
Definition new_proposer : proposer :=
  Proposer FOLLOWER INVALID_VALUE INVALID_VALUE INVALID_VALUE ObAddr.fresh INVALID_VALUE INVALID_VALUE INVALID_VALUE
    MemberListWithStates.fresh LeaderLeaseAndEpoch.fresh AcceptResponse.fresh INVALID_VALUE.

Definition new_acceptor : acceptor :=
  Acceptor INVALID_VALUE INVALID_VALUE Lease.fresh PrepareRequest.fresh false INVALID_VALUE ObAddr.fresh false.

Definition new_node (mono : Z) : node :=
  Node new_proposer new_acceptor false false 0 ObAddr.fresh 0 false 0 0 mono 0 [] [].
