(* ===== verification/ElectionSystem.v ===== *)
(** * The replicas of a log stream electing a leader

    The nodes of [Election] exchange messages over a network that loses, repeats,
    delays and reorders them.  Every node reads its own monotonic clock; the clocks
    run at the same rate and differ by a constant ([off]).  A node advances by its
    own time: a message is handled at any moment not before it was sent, a task of
    the timer at any moment.

    The configuration -- the members, the number of replicas, the version -- does not
    change, and no node restarts. *)

From Stdlib Require Import ZArith Lia Bool.
From stdpp Require Import base countable numbers option gmap relations list.
From S2P Require Import Prelude ElectionUtils Election.
Import AbortMonad.

Local Open Scope Z_scope.

(** A message with the time it was sent. *)
Record packet := Packet { sent : Z; body : msg }.

Record system := System { nodes : gmap ObAddr.t node; net : list packet }.

(** What can happen on a node. *)
Inductive call :=
| Deliver (m : msg)
| DevoteTask
| RenewLeaseTask
| TimeWindowTask
| ChangeLeaderTo (dest_addr : ObAddr.t)
| SetPriority
| ResetPriority
| Downgrade (time_us : Z)
| AddSeedBit (new_bit : Z)
| ClearSeedBit (old_bit : Z)
| SetSeed (seed : Z)
| GetRole
| GetCurrentLeader (addr : ObAddr.t)
| CanSetMemberlist (new_config_version : LogConfigVersion.t)
| Stop.

Definition run_call (v : env) (c : call) : E () :=
  match c with
  | Deliver m => handle_message v m ;; mret ()
  | DevoteTask => devote_task v
  | RenewLeaseTask => renew_lease_task v
  | TimeWindowTask => time_window_task v
  | ChangeLeaderTo dest_addr => change_leader_to v dest_addr ;; mret ()
  | SetPriority => set_priority_ ;; mret ()
  | ResetPriority => reset_priority ;; mret ()
  | Downgrade time_us => temporarily_downgrade_protocol_priority v time_us ;; mret ()
  | AddSeedBit new_bit => add_inner_priority_seed_bit new_bit ;; mret ()
  | ClearSeedBit old_bit => clear_inner_priority_seed_bit old_bit ;; mret ()
  | SetSeed seed => set_inner_priority_seed seed ;; mret ()
  | GetRole => get_role v ;; mret ()
  | GetCurrentLeader addr => get_current_leader_likely v addr ;; mret ()
  | CanSetMemberlist new_config_version => election_can_set_memberlist v new_config_version ;; mret ()
  | Stop => stop v
  end.

Section system.
Context (off : ObAddr.t -> Z).

(** The time of a node. *)
Definition time_of (i : ObAddr.t) (s : node) : Z := s.(mono_) - off i.

(** The messages a call has sent. *)
Definition sent_by (i : ObAddr.t) (s : node) : list packet := (fun '(ts, m) => Packet (ts - off i) m) <$> s.(outbox_).

Definition after (S : system) (i : ObAddr.t) (s : node) : system :=
  System (<[i := set_outbox [] s]> S.(nodes)) (S.(net) ++ sent_by i s).

(** A message can be handled by its receiver once it has been sent. *)
Definition enabled (S : system) (i : ObAddr.t) (s : node) (c : call) : Prop :=
  match c with
  | Deliver m => exists t, Packet t m ∈ S.(net) /\ ElectionMsgBase.receiver_ (msg_base m) = i /\ t <= time_of i s
  | _ => True
  end.

(** Node [i] waits for [d] and runs a call. *)
Inductive step (S : system) : system -> Prop :=
| step_call i s d v c s' :
    S.(nodes) !! i = Some s -> 0 <= d -> enabled S i (set_mono (s.(mono_) + d) s) c ->
    run_call v c (set_mono (s.(mono_) + d) s) = Some ((), s') -> step S (after S i s').

(** Schedules: the packet a node receives is given by its place in the network. *)
Inductive action :=
| Run (i : ObAddr.t) (d : Z) (c : call)
| Receive (i : ObAddr.t) (d : Z) (k : nat).

Definition perform (v : env) (S : system) (a : action) : option system :=
  let run i d c :=
    s ← S.(nodes) !! i;
    '(_, s') ← run_call v c (set_mono (s.(mono_) + d) s);
    if 0 <=? d then Some (after S i s') else None in
  match a with
  | Run i d (Deliver _) => None
  | Run i d c => run i d c
  | Receive i d k =>
    pk ← S.(net) !! k;
    s ← S.(nodes) !! i;
    if bool_decide (ElectionMsgBase.receiver_ (msg_base pk.(body)) = i) && (pk.(sent) <=? time_of i s + d)
    then run i d (Deliver pk.(body)) else None
  end.

Definition execute (v : env) (schedule : list action) (S : system) : option system :=
  foldl (fun S a => S ← S; perform v S a) (Some S) schedule.

Lemma perform_step v S a S' : perform v S a = Some S' -> step S S'.
Proof.
  assert (forall i s d c, S.(nodes) !! i = Some s -> enabled S i (set_mono (s.(mono_) + d) s) c ->
    ('(_, s') ← run_call v c (set_mono (s.(mono_) + d) s); if 0 <=? d then Some (after S i s') else None) = Some S' ->
    step S S') as H.
  { intros i s d c Hs He. destruct (run_call v c _) as [[[] s']|] eqn:Hc; [|done]. cbn.
    destruct (Z.leb_spec 0 d); [|done]. intros [= <-]. by econstructor. }
  destruct a as [i d c|i d k].
  - unfold perform. destruct (S.(nodes) !! i) as [s|] eqn:Hs; [|by destruct c]. intros Hc.
    apply (H i s d c Hs); [by destruct c | by destruct c].
  - unfold perform. destruct (S.(net) !! k) as [[t m]|] eqn:Hk; [|done]. cbn -[run_call]. destruct (S.(nodes) !! i) as [s|] eqn:Hs; [|done]. cbn -[run_call].
    case_bool_decide as Hi; [|done]. cbn -[run_call]. destruct (Z.leb_spec t (time_of i s + d)) as [Ht|]; [|done].
    apply (H i s d (Deliver m)); [done|]. exists t. split_and!; [by eapply list_elem_of_lookup_2 | done |]. unfold time_of in *. cbn. lia.
Qed.

Lemma execute_app v k k' S : execute v (k ++ k') S = execute v k S ≫= execute v k'.
Proof.
  unfold execute. rewrite foldl_app. destruct (foldl _ (Some S) k) as [S'|]; [done|]. cbn. by induction k'.
Qed.

Lemma execute_steps v schedule S S' : execute v schedule S = Some S' -> rtc step S S'.
Proof.
  unfold execute. revert S. induction schedule as [|a schedule IH]; intros S; cbn; [by intros [= <-]|].
  destruct (perform v S a) as [S1|] eqn:Ha.
  - intros H. eapply rtc_l; [by eapply perform_step | by apply IH].
  - intros H. exfalso. clear -H. by induction schedule.
Qed.

(** A node that was started with the configuration. *)
Definition member_states (ml : MemberList.t) : MemberListWithStates.t :=
  let size := MemberList.replica_num_ ml in
  MemberListWithStates.mk ml (MemberListWithStates.init_array_ size false) (MemberListWithStates.init_array_ size 0)
    (MemberListWithStates.init_array_ size LogConfigVersion.fresh).

Definition started (ml : MemberList.t) (i : ObAddr.t) (s : node) : Prop :=
  s.(proposer_) = set_restart_counter s.(proposer_).(restart_counter_)
                    (set_memberlist_with_states (member_states ml) new_proposer) /\
  s.(acceptor_) = new_acceptor /\ s.(self_addr_) = i /\ s.(outbox_) = [] /\ 0 <= s.(mono_).

Record configuration (ml : MemberList.t) : Prop := {
  conf_nodup : NoDup (MemberList.addr_list_ ml);
  conf_valid : Forall (fun a => ObAddr.is_valid a = true) (MemberList.addr_list_ ml);
  conf_size : Z.of_nat (length (MemberList.addr_list_ ml)) <= MemberList.replica_num_ ml }.

Definition initial (ml : MemberList.t) (S : system) : Prop :=
  S.(net) = [] /\
  forall i s, S.(nodes) !! i = Some s -> i ∈ MemberList.addr_list_ ml /\ started ml i s.

Inductive reachable (ml : MemberList.t) : system -> Prop :=
| reachable_initial S : initial ml S -> reachable ml S
| reachable_step S S' : reachable ml S -> step S S' -> reachable ml S'.

Lemma reachable_steps ml S S' : reachable ml S -> rtc step S S' -> reachable ml S'.
Proof. intros HS. induction 1 as [|S S1 S' Hst _ IH]; [done|]. by apply IH, (reachable_step ml S). Qed.
End system.

(** A node that has been initialized and given the configuration is started. *)
Lemma start_up v mono ls_id i seed restart_counter ml r s1 r2 s2 :
  0 <= mono -> MemberList.is_valid ml = true -> (length (MemberList.addr_list_ ml) <> 1)%nat -> 0 < MemberList.replica_num_ ml ->
  v_alloc v = true -> v_assigned v = OB_SUCCESS -> v_init_array v = OB_SUCCESS ->
  init_and_start OB_SUCCESS OB_SUCCESS OB_SUCCESS OB_SUCCESS ls_id i seed restart_counter (new_node mono) = Some (r, s1) ->
  set_memberlist v ml s1 = Some (r2, s2) ->
  r2 = OB_SUCCESS /\ started ml i s2 /\ s2.(proposer_).(restart_counter_) = restart_counter.
Proof.
  intros Hm Hv H1 Hn Ha Has Hi [= _ <-] Hset.
  eapply (runs_Some _ (fun r2 s2 => r2 = OB_SUCCESS /\ started ml i s2 /\ s2.(proposer_).(restart_counter_) = restart_counter))
    in Hset; [exact Hset|]. clear Hset r2 s2. unfold set_memberlist. rewrite Hv. cbn [negb].
  apply andb_true_iff in Hv as [[_ Hv]%andb_true_iff _]. apply runs_bind, runs_reads, runs_bind.
  unfold can_set_memberlist. apply runs_bind, runs_reads. cbn zeta. rewrite Hv. cbn [negb]. apply runs_ret.
  change (ob_fail OB_SUCCESS) with false. apply runs_bind, runs_reads, runs_bind.
  unfold runs, on_memberlist, MemberListWithStates.set_member_list. cbn -[Nat.eqb Z.eqb ob_fail].
  rewrite (proj2 (Z.eqb_neq 0 _)) by lia. rewrite Ha, Has, Hi. change (ob_fail OB_SUCCESS) with false. cbn -[Nat.eqb].
  apply Nat.eqb_neq in H1. by rewrite H1.
Qed.
