(* ===== verification/ElectionInv.v ===== *)
(** * The invariant of an electing node

    What a node knows and what it has told others, over the messages that were sent:
    an acceptor promises every ballot to one proposer, and remembers the lease of the
    last accept request until it ends; a proposer only asks for a lease after a
    quorum has promised it the ballot, and only holds one a quorum has granted. *)

From Stdlib Require Import ZArith Lia Bool.
From stdpp Require Import base countable numbers option gmap relations list.
From S2P Require Import Prelude ElectionUtils Election ElectionSystem.
Import AbortMonad.

Local Open Scope Z_scope.

Abbreviation sender m := (ElectionMsgBase.sender_ (msg_base m)).
Abbreviation ballot m := (ElectionMsgBase.ballot_number_ (msg_base m)).

(** ** What the messages say *)
Section evidence.
Context (off : ObAddr.t -> Z) (ml : MemberList.t).
Implicit Types N K : list packet.

Abbreviation members := (MemberList.addr_list_ ml).
Abbreviation is_quorum := (quorum (MemberList.addr_list_ ml) (MemberList.replica_num_ ml)).

(** [a] has voted for [q] in ballot [b] at time [u], with the lease [l]. *)
Definition promised N (a q : ObAddr.t) (b : Z) (l : Lease.t) (u : Z) : Prop :=
  exists m, Packet u (MsgPrepareResponse m) ∈ N /\ PrepareResponse.accepted_ m = true /\
    ElectionMsgBase.sender_ (PrepareResponse.base m) = a /\ ElectionMsgBase.receiver_ (PrepareResponse.base m) = q /\
    ElectionMsgBase.ballot_number_ (PrepareResponse.base m) = b /\ PrepareResponse.lease_ m = l.

(** [a] has granted [p] a lease in ballot [b] at time [r]: for [d] from [st] on the clock of [p]. *)
Definition granted N (a p : ObAddr.t) (b st d r : Z) : Prop :=
  exists m, Packet r (MsgAcceptResponse m) ∈ N /\ AcceptResponse.accepted_ m = true /\
    ElectionMsgBase.sender_ (AcceptResponse.base m) = a /\ ElectionMsgBase.receiver_ (AcceptResponse.base m) = p /\
    ElectionMsgBase.ballot_number_ (AcceptResponse.base m) = b /\
    AcceptResponse.lease_started_ts_on_proposer_ m = st /\ AcceptResponse.lease_interval_ m = d.

(** [p] has asked for that lease at time [w]. *)
Definition requested N (p : ObAddr.t) (b st d w : Z) : Prop :=
  exists m, Packet w (MsgAcceptRequest m) ∈ N /\
    ElectionMsgBase.sender_ (AcceptRequest.base m) = p /\ ElectionMsgBase.ballot_number_ (AcceptRequest.base m) = b /\
    AcceptRequest.lease_start_ts_on_proposer_ m = st /\ AcceptRequest.lease_interval_ m = d.

(** [p] has asked for votes in ballot [b]. *)
Definition asked N (p : ObAddr.t) (b : Z) : Prop :=
  exists m w, Packet w (MsgPrepareRequest m) ∈ N /\
    ElectionMsgBase.sender_ (PrepareRequest.base m) = p /\ ElectionMsgBase.ballot_number_ (PrepareRequest.base m) = b.

(** [x] has given up its leadership up to ballot [b] at time [c]. *)
Definition resigned N (x : ObAddr.t) (b c : Z) : Prop :=
  exists m, Packet c (MsgChangeLeader m) ∈ N /\
    ElectionMsgBase.sender_ (ChangeLeader.base m) = x /\ ChangeLeader.switch_source_leader_ballot_ m = b.

(** The lease of a vote does not keep [q] from leading at time [w]. *)
Definition permits N (q : ObAddr.t) (l : Lease.t) (w : Z) : Prop :=
  Lease.is_empty l = true \/ Lease.owner_ l = q \/
  exists c, resigned N (Lease.owner_ l) (Lease.ballot_number_ l) c /\ c <= w.

(** A quorum has voted for [q] in ballot [b] by time [w]. *)
Definition won N (q : ObAddr.t) (b w : Z) : Prop :=
  exists Q, is_quorum Q /\ forall a, a ∈ Q -> exists l u, promised N a q b l u /\ u <= w /\ permits N q l w.

(** A quorum has granted [p] leases in ballot [b] that last to [e] on its clock. *)
Definition leased N (p : ObAddr.t) (b e : Z) : Prop :=
  exists Q, is_quorum Q /\ forall a, a ∈ Q -> exists st d r, granted N a p b st d r /\ e <= st + d.

(** [p] has held a lease without a break since it got it in ballot [e]: the last one was
    granted in ballot [b] and lasts to [E].  Every renewal was won before the lease
    before it had ended. *)
Inductive held N (p : ObAddr.t) (e : Z) : Z -> Z -> Prop :=
| held_first E : leased N p e E -> held N p e e E
| held_next b E b' E' T :
    held N p e b E -> b <= b' -> T < E - off p -> won N p b' T -> leased N p b' E' -> held N p e b' E'.

Lemma promised_mono N K a q b l u : N ⊆ K -> promised N a q b l u -> promised K a q b l u.
Proof. intros H (m & Hm & R). exists m. auto. Qed.
Lemma granted_mono N K a p b st d r : N ⊆ K -> granted N a p b st d r -> granted K a p b st d r.
Proof. intros H (m & Hm & R). exists m. auto. Qed.
Lemma requested_mono N K p b st d w : N ⊆ K -> requested N p b st d w -> requested K p b st d w.
Proof. intros H (m & Hm & R). exists m. auto. Qed.
Lemma asked_mono N K p b : N ⊆ K -> asked N p b -> asked K p b.
Proof. intros H (m & w & Hm & R). exists m, w. auto. Qed.
Lemma resigned_mono N K x b c : N ⊆ K -> resigned N x b c -> resigned K x b c.
Proof. intros H (m & Hm & R). exists m. auto. Qed.

Lemma permits_mono N K q l w w' : N ⊆ K -> w <= w' -> permits N q l w -> permits K q l w'.
Proof.
  intros H Hw [E|[E|(c & Hr & Hc)]]; [by left | by right; left | right; right].
  exists c. split; [by eapply resigned_mono | lia].
Qed.

Lemma won_mono N K q b w w' : N ⊆ K -> w <= w' -> won N q b w -> won K q b w'.
Proof.
  intros H Hw (Q & HQ & Ha). exists Q. split; [done|]. intros a Hin. destruct (Ha a Hin) as (l & u & Hp & Hu & Hl).
  exists l, u. split_and!; [by eapply promised_mono | lia | by eapply permits_mono].
Qed.

Lemma leased_mono N K p b e e' : N ⊆ K -> e' <= e -> leased N p b e -> leased K p b e'.
Proof.
  intros H He (Q & HQ & Ha). exists Q. split; [done|]. intros a Hin. destruct (Ha a Hin) as (st & d & r & Hg & Hd).
  exists st, d, r. split; [by eapply granted_mono | lia].
Qed.

Lemma held_mono N K p e b E : N ⊆ K -> held N p e b E -> held K p e b E.
Proof.
  intros H. induction 1 as [E Hl|b E b' E' T _ IH Hb HT Hw Hl].
  - apply held_first. by eapply leased_mono.
  - eapply held_next; [exact IH | done | done | by eapply won_mono | by eapply leased_mono].
Qed.

Lemma held_leased N p e b E : held N p e b E -> e <= b /\ leased N p b E /\ exists E0, leased N p e E0.
Proof.
  induction 1 as [E Hl|b E b' E' T _ IH Hb HT Hw Hl]; [split_and!; [lia | done | by exists E]|].
  destruct IH as (He & _ & HE). split_and!; [lia | done | done].
Qed.
End evidence.

(** ** The invariant *)
Section invariant.
Context (off : ObAddr.t -> Z) (ml : MemberList.t) (restarts : ObAddr.t -> Z).
Implicit Types N K : list packet.

Abbreviation members := (MemberList.addr_list_ ml).
Abbreviation size := (Z.to_nat (MemberList.replica_num_ ml)).

(** A lease that is not empty has an owner. *)
Definition lease_wf (l : Lease.t) : Prop := ObAddr.is_valid (Lease.owner_ l) = true \/ Lease.lease_end_ts_ l = -1.

(** Until [e] the acceptor remembers that it granted a lease in ballot [b]. *)
Definition protects (i : ObAddr.t) (s : node) (e b : Z) : Prop :=
  let l := s.(acceptor_).(lease_) in
  e < time_of off i s \/
  (ObAddr.is_valid (Lease.owner_ l) = true /\ e <= Lease.lease_end_ts_ l - off i /\ b <= Lease.ballot_number_ l).

(** The messages of [i] carry the number of the run of the proposer they belong to. *)
Definition counter_ok (i : ObAddr.t) (m : msg) : Prop :=
  ElectionMsgBase.restart_counter_ (msg_base m) =
    match m with
    | MsgPrepareResponse _ | MsgAcceptResponse _ => restarts (ElectionMsgBase.receiver_ (msg_base m))
    | _ => restarts i
    end.

Record node_inv (i : ObAddr.t) (N : list packet) (s : node) : Prop := {
  ni_self : s.(self_addr_) = i;
  ni_time : 0 <= s.(mono_);
  ni_member : i ∈ members;
  ni_restart : s.(proposer_).(restart_counter_) = restarts i;
  ni_ml : MemberListWithStates.member_list_ s.(proposer_).(memberlist_with_states_) = ml;
  ni_prepare_len : length (MemberListWithStates.prepare_ok_ s.(proposer_).(memberlist_with_states_)) = size;
  ni_accept_len :
    length (MemberListWithStates.accept_ok_promise_not_vote_before_local_ts_ s.(proposer_).(memberlist_with_states_)) = size;
  ni_follower_len :
    length (MemberListWithStates.follower_renew_lease_success_membership_version_ s.(proposer_).(memberlist_with_states_))
    = size;
  ni_outbox : Forall (fun x => sender x.2 = i) s.(outbox_);
  ni_counter : forall t m, Packet t m ∈ N -> sender m = i -> counter_ok i m;
  (* acceptor *)
  ni_accepted : -1 <= s.(acceptor_).(acceptor_ballot_number_);
  ni_granted : forall p b st d r, granted N i p b st d r ->
    b <= s.(acceptor_).(acceptor_ballot_number_) /\ r <= time_of off i s /\ protects i s (st - off p + d) b /\
    exists w, requested N p b st d w /\ w <= r;
  ni_promised : forall q b l u, promised N i q b l u ->
    b <= s.(acceptor_).(acceptor_ballot_number_) /\ u <= time_of off i s /\ lease_wf l /\
    Lease.ballot_number_ l < b /\ asked N q b /\
    (ObAddr.is_valid (Lease.owner_ l) = true ->
     exists st d w, requested N (Lease.owner_ l) (Lease.ballot_number_ l) st d w /\ w <= u);
  ni_remembered : forall q b l u p b' st d r, promised N i q b l u -> granted N i p b' st d r -> b' < b ->
    r <= u /\
    (st - off p + d < u \/ (ObAddr.is_valid (Lease.owner_ l) = true /\ b' <= Lease.ballot_number_ l));
  ni_one_vote : forall q q' b l l' u u', promised N i q b l u -> promised N i q' b l' u' -> q = q';
  ni_lease_wf : lease_wf s.(acceptor_).(lease_);
  ni_lease_ballot : Lease.ballot_number_ s.(acceptor_).(lease_) <= s.(acceptor_).(acceptor_ballot_number_);
  ni_lease : ObAddr.is_valid (Lease.owner_ s.(acceptor_).(lease_)) = true ->
    exists st d w, requested N (Lease.owner_ s.(acceptor_).(lease_)) (Lease.ballot_number_ s.(acceptor_).(lease_)) st d w /\
      w <= time_of off i s;
  ni_highest : let r := PrepareRequest.base s.(acceptor_).(highest_priority_prepare_req_) in
    ElectionMsgBase.ballot_number_ r <> -1 ->
    asked N (ElectionMsgBase.sender_ r) (ElectionMsgBase.ballot_number_ r) /\
    ElectionMsgBase.restart_counter_ r = restarts (ElectionMsgBase.sender_ r);
  (* proposer *)
  ni_role : s.(proposer_).(role_) = LEADER \/ s.(proposer_).(role_) = FOLLOWER;
  ni_asked : forall b, asked N i b -> b <= s.(proposer_).(ballot_number_);
  ni_requested : forall b st d w, requested N i b st d w ->
    b <= s.(proposer_).(prepare_success_ballot_) /\ st - off i <= w /\ w <= time_of off i s /\ won ml N i b w;
  ni_resigned : forall b c, resigned N i b c -> b < s.(proposer_).(ballot_number_);
  ni_prepare_ok : forall k,
    MemberListWithStates.prepare_ok_ s.(proposer_).(memberlist_with_states_) !! k = Some true ->
    exists a, members !! k = Some a /\ exists l u, promised N a i s.(proposer_).(ballot_number_) l u /\
      u <= time_of off i s /\ permits N i l (time_of off i s);
  ni_success : s.(proposer_).(prepare_success_ballot_) <= s.(proposer_).(ballot_number_);
  ni_won : s.(proposer_).(role_) = LEADER ->
    won ml N i s.(proposer_).(prepare_success_ballot_) (time_of off i s);
  ni_accept_ok : forall k ts,
    MemberListWithStates.accept_ok_promise_not_vote_before_local_ts_ s.(proposer_).(memberlist_with_states_) !! k = Some ts ->
    0 < ts -> exists a, members !! k = Some a /\ exists st d r, granted N a i s.(proposer_).(ballot_number_) st d r /\
      ts <= st + d;
  ni_leader : let l := s.(proposer_).(leader_lease_and_epoch_) in
    0 < LeaderLeaseAndEpoch.lease_ l ->
    (exists b, b <= s.(proposer_).(prepare_success_ballot_) /\
       held off ml N i (LeaderLeaseAndEpoch.epoch_ l) b (LeaderLeaseAndEpoch.lease_ l)) /\
    forall b' c, resigned N i b' c -> b' < LeaderLeaseAndEpoch.epoch_ l;
  ni_switch : ObAddr.is_valid s.(proposer_).(switch_source_leader_addr_) = true ->
    exists c, resigned N s.(proposer_).(switch_source_leader_addr_) s.(proposer_).(switch_source_leader_ballot_) c /\
      c <= time_of off i s
}.

(** A message that node [i] may handle. *)
Definition msg_ok (i : ObAddr.t) (N : list packet) (now : Z) (m : msg) : Prop :=
  sender m ∈ members /\
  match m with
  | MsgPrepareRequest r =>
    asked N (sender m) (ballot m) /\ ElectionMsgBase.restart_counter_ (PrepareRequest.base r) = restarts (sender m)
  | MsgPrepareResponse r =>
    ElectionMsgBase.restart_counter_ (PrepareResponse.base r) = restarts i /\
    (PrepareResponse.accepted_ r = true ->
     asked N i (ballot m) /\ lease_wf (PrepareResponse.lease_ r) /\
     exists u, promised N (sender m) i (ballot m) (PrepareResponse.lease_ r) u /\ u <= now)
  | MsgAcceptRequest r =>
    ElectionMsgBase.restart_counter_ (AcceptRequest.base r) = restarts (sender m) /\
    exists w, requested N (sender m) (ballot m) (AcceptRequest.lease_start_ts_on_proposer_ r)
                (AcceptRequest.lease_interval_ r) w /\
      AcceptRequest.lease_start_ts_on_proposer_ r - off (sender m) <= w /\ w <= now
  | MsgAcceptResponse r =>
    ElectionMsgBase.restart_counter_ (AcceptResponse.base r) = restarts i /\
    (AcceptResponse.accepted_ r = true ->
     exists t w, granted N (sender m) i (ballot m) (AcceptResponse.lease_started_ts_on_proposer_ r)
                   (AcceptResponse.lease_interval_ r) t /\
       requested N i (ballot m) (AcceptResponse.lease_started_ts_on_proposer_ r) (AcceptResponse.lease_interval_ r) w)
  | MsgChangeLeader r => exists c, resigned N (sender m) (ChangeLeader.switch_source_leader_ballot_ r) c /\ c <= now
  end.

(** *** Steps that leave what matters alone *)
Definition core (s : node) :=
  (s.(self_addr_),
   (s.(acceptor_).(acceptor_ballot_number_), s.(acceptor_).(lease_), s.(acceptor_).(highest_priority_prepare_req_)),
   (s.(proposer_).(role_), s.(proposer_).(restart_counter_), s.(proposer_).(memberlist_with_states_),
    s.(proposer_).(ballot_number_), s.(proposer_).(prepare_success_ballot_), s.(proposer_).(switch_source_leader_ballot_),
    s.(proposer_).(switch_source_leader_addr_), s.(proposer_).(leader_lease_and_epoch_))).

Record frame (s s' : node) : Prop := {
  frame_core : core s' = core s;
  frame_time : s.(mono_) <= s'.(mono_);
  frame_outbox : s'.(outbox_) = s.(outbox_) }.

Lemma frame_refl s : frame s s.
Proof. by constructor. Qed.

Lemma frame_trans s1 s2 s3 : frame s1 s2 -> frame s2 s3 -> frame s1 s3.
Proof. intros [C1 T1 O1] [C2 T2 O2]. constructor; [congruence | lia | congruence]. Qed.

(** Evidence survives when messages are added and time passes. *)
Ltac ev :=
  solve [ first [eapply promised_mono | eapply granted_mono | eapply requested_mono | eapply asked_mono
                | eapply resigned_mono | eapply permits_mono | eapply won_mono | eapply leased_mono];
          [ | .. | eauto]; solve [eassumption | lia] ].

Lemma sub_app N K : N ⊆ N ++ K.
Proof. intros x Hx. apply elem_of_app. by left. Qed.

(** What a node may say: the messages [K], after [N], in the state [s]. *)
Record news (i : ObAddr.t) (N K : list packet) (s : node) : Prop := {
  nw_sender : forall t m, Packet t m ∈ K -> sender m = i -> counter_ok i m;
  nw_granted : forall p b st d r, granted K i p b st d r ->
    b <= s.(acceptor_).(acceptor_ballot_number_) /\ r <= time_of off i s /\ protects i s (st - off p + d) b /\
    (exists w, requested N p b st d w /\ w <= r) /\ forall q b' l u, promised (N ++ K) i q b' l u -> b' <= b;
  nw_promised : forall q b l u, promised K i q b l u ->
    b <= s.(acceptor_).(acceptor_ballot_number_) /\ u <= time_of off i s /\ lease_wf l /\
    Lease.ballot_number_ l < b /\ asked N q b /\
    (ObAddr.is_valid (Lease.owner_ l) = true ->
     exists st d w, requested N (Lease.owner_ l) (Lease.ballot_number_ l) st d w /\ w <= u) /\
    (forall p b' st d r, granted N i p b' st d r -> b' < b ->
     r <= u /\
     (st - off p + d < u \/ (ObAddr.is_valid (Lease.owner_ l) = true /\ b' <= Lease.ballot_number_ l))) /\
    forall q' l' u', promised (N ++ K) i q' b l' u' -> q' = q;
  nw_asked : forall b, asked K i b -> b <= s.(proposer_).(ballot_number_);
  nw_requested : forall b st d w, requested K i b st d w ->
    b <= s.(proposer_).(prepare_success_ballot_) /\ st - off i <= w /\ w <= time_of off i s /\ won ml N i b w;
  nw_resigned : forall b c, resigned K i b c ->
    b < s.(proposer_).(ballot_number_) /\ LeaderLeaseAndEpoch.lease_ s.(proposer_).(leader_lease_and_epoch_) <= 0 }.

(** Evidence comes from the old messages or the new ones. *)
Lemma promised_app N K a q b l u : promised (N ++ K) a q b l u -> promised N a q b l u \/ promised K a q b l u.
Proof. intros (m & [Hm|Hm]%elem_of_app & R); [left | right]; by exists m. Qed.
Lemma granted_app N K a p b st d r : granted (N ++ K) a p b st d r -> granted N a p b st d r \/ granted K a p b st d r.
Proof. intros (m & [Hm|Hm]%elem_of_app & R); [left | right]; by exists m. Qed.
Lemma requested_app N K p b st d w : requested (N ++ K) p b st d w -> requested N p b st d w \/ requested K p b st d w.
Proof. intros (m & [Hm|Hm]%elem_of_app & R); [left | right]; by exists m. Qed.
Lemma asked_app N K p b : asked (N ++ K) p b -> asked N p b \/ asked K p b.
Proof. intros (m & w & [Hm|Hm]%elem_of_app & R); [left | right]; by exists m, w. Qed.
Lemma resigned_app N K x b c : resigned (N ++ K) x b c -> resigned N x b c \/ resigned K x b c.
Proof. intros (m & [Hm|Hm]%elem_of_app & R); [left | right]; by exists m. Qed.

(** The invariant survives the passing of time and what the node says. *)
Lemma inv_news i N K s s' : node_inv i N s -> news i N K s -> core s' = core s -> s.(mono_) <= s'.(mono_) ->
  Forall (fun x => sender x.2 = i) s'.(outbox_) -> node_inv i (N ++ K) s'.
Proof.
  intros I W C T Hout. pose proof (sub_app N K) as Hsub.
  assert (time_of off i s <= time_of off i s') as Ht by (unfold time_of; lia).
  assert (forall e b, protects i s e b -> protects i s' e b) as Hprot.
  { unfold core in C. injection C as E1 E2 E3 E4 E5 E6 E7 E8 E9 E10 E11 E12.
    unfold protects. rewrite E3. intros e b [He|Hp]; [left; lia | by right]. }
  unfold core in C. injection C as E1 E2 E3 E4 E5 E6 E7 E8 E9 E10 E11 E12.
  destruct I, W. constructor; rewrite ?E1, ?E2, ?E3, ?E4, ?E5, ?E6, ?E7, ?E8, ?E9, ?E10, ?E11, ?E12; try done.
  - lia.
  - intros t m [Hm|Hm]%elem_of_app Hs; [eauto|]. by apply (nw_sender0 t).
  - intros p b st d r [Hg|Hg]%granted_app.
    + destruct (ni_granted0 _ _ _ _ _ Hg) as (Hb & Hr & Hp & w & Hw & Hwr).
      split_and!; [done | lia | auto | exists w; split; [ev | done]].
    + destruct (nw_granted0 _ _ _ _ _ Hg) as (Hb & Hr & Hp & (w & Hw & Hwr) & _).
      split_and!; [done | lia | auto | exists w; split; [ev | done]].
  - intros q b l u [Hp|Hp]%promised_app.
    + destruct (ni_promised0 _ _ _ _ Hp) as (Hb & Hu & Hl & Hlb & Ha & Ho).
      split_and!; try done; [lia | ev |]. intros Hv. destruct (Ho Hv) as (st & d & w & Hw & Hwu).
      exists st, d, w. split; [ev | done].
    + destruct (nw_promised0 _ _ _ _ Hp) as (Hb & Hu & Hl & Hlb & Ha & Ho & _).
      split_and!; try done; [lia | ev |]. intros Hv. destruct (Ho Hv) as (st & d & w & Hw & Hwu).
      exists st, d, w. split; [ev | done].
  - intros q b l u p b' st d r Hp [Hg|Hg]%granted_app Hb.
    + apply promised_app in Hp as [Hp|Hp]; [eauto|].
      destruct (nw_promised0 _ _ _ _ Hp) as (_ & _ & _ & _ & _ & _ & H & _). eauto.
    + destruct (nw_granted0 _ _ _ _ _ Hg) as (_ & _ & _ & _ & H). specialize (H _ _ _ _ Hp). lia.
  - intros q q' b l l' u u' Hp Hp'. pose proof Hp as [Hq|Hq]%promised_app.
    + pose proof Hp' as [Hq'|Hq']%promised_app; [eauto|].
      destruct (nw_promised0 _ _ _ _ Hq') as (_ & _ & _ & _ & _ & _ & _ & H). eauto.
    + destruct (nw_promised0 _ _ _ _ Hq) as (_ & _ & _ & _ & _ & _ & _ & H). symmetry. eauto.
  - intros Hv. destruct (ni_lease0 Hv) as (st & d & w & Hw & Hwu). exists st, d, w. split; [ev | lia].
  - cbn zeta. intros Hb. destruct (ni_highest0 Hb) as (Ha & Hr). split; [ev | done].
  - intros b [Ha|Ha]%asked_app; auto.
  - intros b st d w [Hr|Hr]%requested_app.
    + destruct (ni_requested0 _ _ _ _ Hr) as (Hb & Hw & Hwt & Hwon). split_and!; try done; [lia | ev].
    + destruct (nw_requested0 _ _ _ _ Hr) as (Hb & Hw & Hwt & Hwon). split_and!; try done; [lia | ev].
  - intros b c [Hr|Hr]%resigned_app; [eauto | by apply nw_resigned0 in Hr as [? _]].
  - intros k Hk. destruct (ni_prepare_ok0 k Hk) as (a & Ha & l & u & Hp & Hu & Hl).
    exists a. split; [done|]. exists l, u. split_and!; [ev | lia | ev].
  - intros Hr. ev.
  - intros k ts Hk Hts. destruct (ni_accept_ok0 k ts Hk Hts) as (a & Ha & st & d & r & Hg & Hd).
    exists a. split; [done|]. exists st, d, r. split; [ev | done].
  - cbn zeta. intros Hl. destruct (ni_leader0 Hl) as ((b & Hb & He) & Hre). split.
    + exists b. split; [done|]. by eapply held_mono.
    + intros b' c [Hr|Hr]%resigned_app; [eauto|]. apply nw_resigned0 in Hr as [_ Hr]. lia.
  - intros Hv. destruct (ni_switch0 Hv) as (c & Hc & Hct). exists c. split; [ev | lia].
Qed.

(** Messages that promise nothing. *)
Definition quiet (i : ObAddr.t) (s : node) (pk : packet) : Prop :=
  sender pk.(body) = i /\ counter_ok i pk.(body) /\
  match pk.(body) with
  | MsgPrepareRequest r => ballot pk.(body) <= s.(proposer_).(ballot_number_)
  | MsgPrepareResponse r => PrepareResponse.accepted_ r = false
  | MsgAcceptResponse r => AcceptResponse.accepted_ r = false
  | _ => False
  end.

Lemma quiet_news i N K s : Forall (quiet i s) K -> news i N K s.
Proof.
  rewrite Forall_forall. intros HK. constructor.
  - intros t m Hm. by destruct (HK _ Hm) as (_ & Hc & _).
  - intros p b st d r (m & Hm & Ha & _). destruct (HK _ Hm) as (_ & _ & E). cbn in E. congruence.
  - intros q b l u (m & Hm & Ha & _). destruct (HK _ Hm) as (_ & _ & E). cbn in E. congruence.
  - intros b (m & w & Hm & _ & Hb). destruct (HK _ Hm) as (_ & _ & E). cbn in E. lia.
  - intros b st d w (m & Hm & _). by destruct (HK _ Hm) as (_ & _ & E).
  - intros b c (m & Hm & _). by destruct (HK _ Hm) as (_ & _ & E).
Qed.

(** What others say. *)
Lemma others_news i N K s : (forall t m, Packet t m ∈ K -> sender m <> i) -> news i N K s.
Proof.
  intros HK. constructor.
  - intros t m Hm Hs. by apply HK in Hm.
  - intros p b st d r (m & Hm & _ & Hs & _). by apply HK in Hm.
  - intros q b l u (m & Hm & _ & Hs & _). by apply HK in Hm.
  - intros b (m & w & Hm & Hs & _). by apply HK in Hm.
  - intros b st d w (m & Hm & Hs & _). by apply HK in Hm.
  - intros b c (m & Hm & Hs & _). by apply HK in Hm.
Qed.
End invariant.
