(* ===== verification/ElectionSteps.v ===== *)
(** * Every call keeps the invariant

    The operations of [Election] under the invariant of [ElectionInv]: each keeps
    it, and none of their assertions fails. *)

From Stdlib Require Import ZArith Lia Bool.
From stdpp Require Import base countable numbers option gmap relations list.
From S2P Require Import Prelude ElectionUtils Election ElectionSystem ElectionInv.
Import AbortMonad.

Local Open Scope Z_scope.

(** ** Frames *)

Section frames.
Context (s s' : node) (F : frame s s').

Local Ltac component := destruct F as [C _ _]; unfold core in C; congruence.

Lemma frame_self : s'.(self_addr_) = s.(self_addr_). Proof. component. Qed.
Lemma frame_accepted : s'.(acceptor_).(acceptor_ballot_number_) = s.(acceptor_).(acceptor_ballot_number_).
Proof. component. Qed.
Lemma frame_lease : s'.(acceptor_).(lease_) = s.(acceptor_).(lease_). Proof. component. Qed.
Lemma frame_role : s'.(proposer_).(role_) = s.(proposer_).(role_). Proof. component. Qed.
Lemma frame_restart : s'.(proposer_).(restart_counter_) = s.(proposer_).(restart_counter_). Proof. component. Qed.
Lemma frame_members : s'.(proposer_).(memberlist_with_states_) = s.(proposer_).(memberlist_with_states_).
Proof. component. Qed.
Lemma frame_ballot : s'.(proposer_).(ballot_number_) = s.(proposer_).(ballot_number_). Proof. component. Qed.
Lemma frame_success : s'.(proposer_).(prepare_success_ballot_) = s.(proposer_).(prepare_success_ballot_).
Proof. component. Qed.
Lemma frame_leader : s'.(proposer_).(leader_lease_and_epoch_) = s.(proposer_).(leader_lease_and_epoch_).
Proof. component. Qed.
End frames.

(** The calls that only read. *)
Section readers.
Context (v : env).

Lemma runs_ts (Q : Z -> node -> Prop) s :
  (forall s', frame s s' -> Q s'.(mono_) s') -> runs (get_monotonic_ts v) Q s.
Proof.
  intros H. set (ts := s.(mono_) + Z.of_nat (v_elapse v s.(calls_))).
  apply (H (set_calls (S s.(calls_)) (set_mono ts s))). constructor; cbn; [done | lia | done].
Qed.

Lemma runs_clock (Q : Z -> node -> Prop) s :
  (forall x s', frame s s' -> Q x s') -> runs (getClock v) Q s.
Proof. intros H. by apply (H _ (set_calls (S s.(calls_)) s)). Qed.

Lemma runs_check_leader (Q : bool * Z -> node -> Prop) s :
  (forall b s', frame s s' -> Q (b, LeaderLeaseAndEpoch.epoch_ s.(proposer_).(leader_lease_and_epoch_)) s') ->
  runs (check_leader v) Q s.
Proof.
  intros H. unfold check_leader. apply runs_bind, runs_ts. intros s' F. apply runs_bind, runs_reads. cbn.
  rewrite (frame_leader _ _ F). by apply H.
Qed.

Lemma runs_seed (Q : Z -> node -> Prop) s :
  (forall x s', frame s s' -> Q x s') -> runs (generate_inner_priority_seed_ v) Q s.
Proof. intros H. apply runs_bind, runs_ts. intros s' F. by apply runs_reads, H. Qed.

Lemma runs_silence (Q : bool -> node -> Prop) s :
  (forall x s', frame s s' -> Q x s') -> runs (check_silence v) Q s.
Proof.
  intros H. unfold check_silence. case_match; [by apply runs_ret, H, frame_refl|].
  apply runs_bind, runs_ts. intros s' F. by apply runs_ret, H.
Qed.

(** The request a proposer makes. *)
Lemma runs_make_prepare_request role (Q : Z * PrepareRequest.t -> node -> Prop) s :
  (forall ret r s', frame s s' ->
     ElectionMsgBase.sender_ (PrepareRequest.base r) = s.(self_addr_) ->
     ElectionMsgBase.restart_counter_ (PrepareRequest.base r) = s.(proposer_).(restart_counter_) ->
     ElectionMsgBase.ballot_number_ (PrepareRequest.base r) = s.(proposer_).(ballot_number_) -> Q (ret, r) s') ->
  runs (make_prepare_request v role) Q s.
Proof.
  intros H. apply runs_bind, runs_seed. intros x s' F. apply runs_reads.
  rewrite (frame_self _ _ F), (frame_restart _ _ F), (frame_ballot _ _ F).
  unfold PrepareRequest.set. destruct (get_priority_ v s') as [[ret buffer]|]; by apply H.
Qed.
End readers.

(** ** The invariant of a node in the middle of a call *)
Section steps.
Context (v : env) (off : ObAddr.t -> Z) (ml : MemberList.t) (restarts : ObAddr.t -> Z) (i : ObAddr.t) (N0 : list packet).
Hypothesis conf : configuration ml.

Abbreviation members := (MemberList.addr_list_ ml).

(** What was sent before the call and by it. *)
Definition told (s : node) : list packet := N0 ++ sent_by off i s.

Abbreviation J s := (node_inv off ml restarts i (told s) s).

Lemma told_frame s s' : frame s s' -> told s' = told s.
Proof. intros F. unfold told, sent_by. by rewrite (frame_outbox _ _ F). Qed.

Lemma frame_now s s' : frame s s' -> time_of off i s <= time_of off i s'.
Proof. intros [_ T _]. unfold time_of. lia. Qed.

Lemma J_frame s s' : frame s s' -> J s -> J s'.
Proof.
  intros F I. rewrite (told_frame _ _ F), <- (app_nil_r (told s)).
  apply (inv_news off ml restarts i _ _ s); [done | by apply quiet_news | apply F | apply F |].
  rewrite (frame_outbox _ _ F). apply I.
Qed.

Lemma N0_told s : N0 ⊆ told s.
Proof. apply sub_app. Qed.

(** Messages are added to what was told. *)
Lemma told_app s s' K : s'.(outbox_) = s.(outbox_) ++ K ->
  told s' = told s ++ ((fun '(ts, m) => Packet (ts - off i) m) <$> K).
Proof. intros E. unfold told, sent_by. by rewrite E, fmap_app, app_assoc. Qed.

(** A node says something. *)
Lemma J_news s s' K : J s -> core s' = core s -> s.(mono_) <= s'.(mono_) -> s'.(outbox_) = s.(outbox_) ++ K ->
  Forall (fun x => sender x.2 = i) K ->
  news off ml restarts i (told s) ((fun '(ts, m) => Packet (ts - off i) m) <$> K) s -> J s'.
Proof.
  intros I C T E Hs HK. rewrite (told_app s s' K E). apply (inv_news off ml restarts i _ _ s); try done.
  rewrite E. apply Forall_app. split; [apply I | done].
Qed.

Lemma runs_send m s (Q : Z -> node -> Prop) :
  J s -> sender m = i -> news off ml restarts i (told s) [Packet (time_of off i s) m] s ->
  (forall x s', J s' -> core s' = core s -> Q x s') -> runs (send_ v m) Q s.
Proof.
  intros I Hs W HQ. apply HQ; [|done]. by eapply (J_news s _ [_]); [| | cbn; lia | | apply Forall_singleton |].
Qed.

Lemma runs_send_quiet m s (Q : Z -> node -> Prop) : J s -> quiet restarts i s (Packet (s.(mono_) - off i) m) ->
  (forall x s', J s' -> core s' = core s -> Q x s') -> runs (send_ v m) Q s.
Proof.
  intros I HK HQ. apply runs_send; [done | apply HK | by apply quiet_news, Forall_singleton | done].
Qed.

(** ** Proposer *)

(** Fields that say nothing, and the list of members. *)
Ltac open I := destruct I; constructor; cbn in *; try done.

Lemma J_follower s : J s -> J (set_proposer (set_role FOLLOWER s.(proposer_)) s).
Proof. intros I. open I. by right. Qed.

Lemma J_leader s : J s -> won ml (told s) i s.(proposer_).(prepare_success_ballot_) (time_of off i s) ->
  J (set_proposer (set_role LEADER s.(proposer_)) s).
Proof. intros I. open I. by left. Qed.

Lemma J_clear s : J s ->
  J (set_proposer (set_memberlist_with_states
       (MemberListWithStates.clear_prepare_and_accept_states s.(proposer_).(memberlist_with_states_)) s.(proposer_)) s).
Proof.
  intros I. open I; unfold MemberListWithStates.init_array_; rewrite ?length_replicate, ?ni_ml; try done.
  - intros k Hk. by apply lookup_replicate in Hk as [? _].
  - intros k ts Hk Hts. apply lookup_replicate in Hk as [-> _]. lia.
Qed.

Lemma J_ballot s n : J s -> s.(proposer_).(ballot_number_) <= n ->
  J (set_proposer
       (set_switch_source_leader_addr (ObAddr.reset s.(proposer_).(switch_source_leader_addr_))
         (set_switch_source_leader_ballot INVALID_VALUE
           (set_memberlist_with_states
             (MemberListWithStates.clear_prepare_and_accept_states s.(proposer_).(memberlist_with_states_))
             (set_ballot_number n s.(proposer_))))) s).
Proof.
  intros I Hn. apply J_clear in I. open I.
  - intros b Hb. etrans; [by apply ni_asked | done].
  - intros b c Hb. eapply Z.lt_le_trans; [by eapply ni_resigned | done].
  - intros k Hk. by apply lookup_replicate in Hk as [? _].
  - lia.
  - intros k ts Hk Hts. apply lookup_replicate in Hk as [-> _]. lia.
Qed.

Lemma J_reset_lease s : J s ->
  J (set_proposer (set_leader_lease_and_epoch (LeaderLeaseAndEpoch.reset s.(proposer_).(leader_lease_and_epoch_))
                     s.(proposer_)) s).
Proof. intros I. open I. Qed.

Lemma J_switch_reset s : J s ->
  J (set_proposer
       (set_switch_source_leader_addr (ObAddr.reset s.(proposer_).(switch_source_leader_addr_))
         (set_switch_source_leader_ballot INVALID_VALUE s.(proposer_))) s).
Proof. intros I. open I. Qed.

Lemma J_switch s x b c : J s -> resigned (told s) x b c -> c <= time_of off i s ->
  J (set_proposer (set_switch_source_leader_addr x (set_switch_source_leader_ballot b s.(proposer_))) s).
Proof. intros I Hr Hc. open I. by exists c. Qed.

Lemma J_success s : J s -> won ml (told s) i s.(proposer_).(ballot_number_) (time_of off i s) ->
  J (set_proposer (set_prepare_success_ballot
       (Z.max s.(proposer_).(ballot_number_) s.(proposer_).(prepare_success_ballot_)) s.(proposer_)) s).
Proof.
  intros I Hw. open I.
  - intros b st d w Hr. destruct (ni_requested _ _ _ _ Hr) as (Hb & R). split; [lia | done].
  - lia.
  - intros _. by replace (Z.max _ _) with (ballot_number_ (proposer_ s)) by lia.
  - intros Hl. destruct (ni_leader Hl) as ((b & Hb & R) & He). split; [|done]. exists b. split; [lia | exact R].
Qed.

Lemma J_lease s l : J s ->
  (0 < LeaderLeaseAndEpoch.lease_ l ->
   (exists b, b <= s.(proposer_).(prepare_success_ballot_) /\
      held off ml (told s) i (LeaderLeaseAndEpoch.epoch_ l) b (LeaderLeaseAndEpoch.lease_ l)) /\
   forall b' c, resigned (told s) i b' c -> b' < LeaderLeaseAndEpoch.epoch_ l) ->
  J (set_proposer (set_leader_lease_and_epoch l s.(proposer_)) s).
Proof. intros I Hl. open I. Qed.

(** The answers of the members. *)
Lemma J_prepare_ok s k a l u : J s -> members !! k = Some a ->
  promised (told s) a i s.(proposer_).(ballot_number_) l u -> u <= time_of off i s ->
  permits (told s) i l (time_of off i s) ->
  let m := s.(proposer_).(memberlist_with_states_) in
  J (set_proposer (set_memberlist_with_states
       (MemberListWithStates.mk (MemberListWithStates.member_list_ m) (<[k := true]> (MemberListWithStates.prepare_ok_ m))
          (MemberListWithStates.accept_ok_promise_not_vote_before_local_ts_ m)
          (MemberListWithStates.follower_renew_lease_success_membership_version_ m)) s.(proposer_)) s).
Proof.
  intros I Hk Hp Hu Hl m. open I; [by rewrite length_insert|].
  intros k' [(-> & _ & _)|[_ Hk']]%list_lookup_insert_Some; [|by apply ni_prepare_ok].
  exists a. split; [done|]. by exists l, u.
Qed.

Lemma J_accept_ok s k a st d r old version : J s -> members !! k = Some a ->
  granted (told s) a i s.(proposer_).(ballot_number_) st d r ->
  let m := s.(proposer_).(memberlist_with_states_) in
  MemberListWithStates.accept_ok_promise_not_vote_before_local_ts_ m !! k = Some old ->
  J (set_proposer (set_memberlist_with_states
       (MemberListWithStates.mk (MemberListWithStates.member_list_ m) (MemberListWithStates.prepare_ok_ m)
          (<[k := Z.max old (st + d)]> (MemberListWithStates.accept_ok_promise_not_vote_before_local_ts_ m))
          (<[k := version]> (MemberListWithStates.follower_renew_lease_success_membership_version_ m))) s.(proposer_)) s).
Proof.
  intros I Hk Hg m Ho. open I; rewrite ?length_insert; try done.
  intros k' ts [(-> & <- & _)|[_ Hk']]%list_lookup_insert_Some Hts; [|by apply ni_accept_ok].
  destruct (Z.max_spec old (st + d)) as [[_ E]|[_ E]]; rewrite E in *; [|by apply ni_accept_ok].
  exists a. split; [done|]. by exists st, d, r.
Qed.

(** Messages of the proposer. *)
Lemma runs_requests st d (f : ObAddr.t -> AcceptRequest.t) l s (Q : Z -> node -> Prop) :
  J s -> won ml (told s) i s.(proposer_).(prepare_success_ballot_) (time_of off i s) -> st <= s.(mono_) ->
  (forall a, ElectionMsgBase.sender_ (AcceptRequest.base (f a)) = i /\
     ElectionMsgBase.restart_counter_ (AcceptRequest.base (f a)) = restarts i /\
     ElectionMsgBase.ballot_number_ (AcceptRequest.base (f a)) = s.(proposer_).(prepare_success_ballot_) /\
     AcceptRequest.lease_start_ts_on_proposer_ (f a) = st /\ AcceptRequest.lease_interval_ (f a) = d) ->
  (forall x s', J s' -> core s' = core s -> Q x s') -> runs (broadcast_ v (fun a => MsgAcceptRequest (f a)) l) Q s.
Proof.
  intros I Hw Hst Hf HQ. apply HQ; [|done]. eapply J_news; [done | done | cbn; lia | done | |].
  { apply Forall_fmap, Forall_forall. intros a _. apply Hf. }
  rewrite <- list_fmap_compose.
  assert (forall t m, Packet t m ∈ (fun a => Packet (mono_ s - off i) (MsgAcceptRequest (f a))) <$> l ->
            exists a, t = time_of off i s /\ m = MsgAcceptRequest (f a)) as Hin.
  { intros t m (a & [= -> ->] & _)%list_elem_of_fmap. by exists a. }
  constructor.
  - intros t m (a & _ & ->)%Hin. intros _. by destruct (Hf a) as (_ & Hr & _).
  - by intros p b st' d' r (m & (a & _ & [=])%Hin & _).
  - by intros q b l' u (m & (a & _ & [=])%Hin & _).
  - by intros b (m & w & (a & _ & [=])%Hin & _).
  - intros b st' d' w (m & (a & -> & [= ->])%Hin & _ & <- & <- & <-).
    destruct (Hf a) as (_ & _ & -> & -> & _). split_and!; [done | unfold time_of; lia | done | done].
  - by intros b c (m & (a & _ & [=])%Hin & _).
Qed.

Lemma runs_resign m s (Q : Z -> node -> Prop) :
  J s -> ElectionMsgBase.sender_ (ChangeLeader.base m) = i ->
  ElectionMsgBase.restart_counter_ (ChangeLeader.base m) = restarts i ->
  ChangeLeader.switch_source_leader_ballot_ m < s.(proposer_).(ballot_number_) ->
  LeaderLeaseAndEpoch.lease_ s.(proposer_).(leader_lease_and_epoch_) <= 0 ->
  (forall x s', J s' -> Q x s') -> runs (send_ v (MsgChangeLeader m)) Q s.
Proof.
  intros I Hs Hr Hb Hl HQ. apply runs_send; [done | done | | by auto].
  assert (forall t x, Packet t x ∈ [Packet (time_of off i s) (MsgChangeLeader m)] -> x = MsgChangeLeader m) as Hin.
  { by intros t x [= -> ->]%list_elem_of_singleton. }
  constructor.
  - by intros t x ->%Hin.
  - by intros p b st d r (x & [=]%Hin & _).
  - by intros q b l u (x & [=]%Hin & _).
  - by intros b (x & w & [=]%Hin & _).
  - by intros b st d w (x & [=]%Hin & _).
  - by intros b c (x & [= ->]%Hin & _ & <-).
Qed.

(** Operations of the proposer. *)
Lemma runs_advance n s (Q : () -> node -> Prop) : J s -> s.(proposer_).(ballot_number_) <= n ->
  (forall s', J s' -> s'.(proposer_).(ballot_number_) = n -> s'.(mono_) = s.(mono_) -> Q () s') ->
  runs (advance_ballot_number_and_reset_related_states_ n) Q s.
Proof.
  intros I Hn HQ. apply runs_bind, runs_reads, runs_bind, runs_assert; [by apply Z.leb_le|].
  do 3 (apply runs_bind, runs_update). apply runs_update. apply HQ; [|done|done]. by apply (J_ballot s n).
Qed.

Lemma runs_reset_lease s (Q : () -> node -> Prop) : J s ->
  (forall s', J s' -> s'.(proposer_).(ballot_number_) = s.(proposer_).(ballot_number_) ->
     LeaderLeaseAndEpoch.lease_ s'.(proposer_).(leader_lease_and_epoch_) = -1 -> Q () s') ->
  runs reset_leader_lease Q s.
Proof. intros I HQ. apply runs_update, HQ; [by apply J_reset_lease | done | done]. Qed.

Lemma runs_revoke reason s (Q : bool -> node -> Prop) : J s ->
  (forall x s', J s' -> s'.(proposer_).(ballot_number_) = s.(proposer_).(ballot_number_) ->
     s'.(proposer_).(prepare_success_ballot_) = s.(proposer_).(prepare_success_ballot_) -> told s' = told s ->
     s.(mono_) <= s'.(mono_) ->
     (x = false -> s'.(proposer_).(role_) = s.(proposer_).(role_)) ->
     (LeaderLeaseAndEpoch.lease_ s.(proposer_).(leader_lease_and_epoch_) <= 0 ->
      LeaderLeaseAndEpoch.lease_ s'.(proposer_).(leader_lease_and_epoch_) <= 0) -> Q x s') ->
  runs (leader_revoke_if_lease_expired_ v reason) Q s.
Proof.
  intros I HQ. apply runs_bind, runs_reads. case_bool_decide as Hr; [|by apply runs_ret, HQ].
  apply runs_bind, runs_check_leader. intros b s' F. pose proof (J_frame _ _ F I) as I'.
  pose proof (frame_ballot _ _ F). pose proof (frame_success _ _ F). pose proof (told_frame _ _ F).
  pose proof (frame_role _ _ F). destruct b.
  - apply runs_ret, HQ; try done; [apply F|]. by rewrite (frame_leader _ _ F).
  - do 4 (apply runs_bind, runs_update). apply runs_ret, HQ; try done; [|apply F].
    apply (J_reset_lease (set_proposer _ (set_proposer _ (set_role_changes _ s')))), J_clear, J_follower.
    eapply J_frame; [|exact I']. by constructor.
Qed.

Lemma runs_propose s (Q : () -> node -> Prop) : J s ->
  won ml (told s) i s.(proposer_).(prepare_success_ballot_) (time_of off i s) ->
  (forall s', J s' -> Q () s') -> runs (propose v) Q s.
Proof.
  intros I Hw HQ. apply runs_bind, runs_ts. intros s1 F. apply runs_bind, runs_update, runs_bind, runs_reads, runs_bind.
  assert (frame s (set_proposer (set_record_lease_interval (CALCULATE_LEASE_INTERVAL v) (proposer_ s1)) s1)) as F'.
  { eapply frame_trans; [done | by constructor]. }
  revert F'. set (s2 := set_proposer _ s1). intros F'. pose proof (J_frame _ _ F' I) as I2.
  apply (runs_requests s1.(mono_) (CALCULATE_LEASE_INTERVAL v)); [done | | done | |].
  - rewrite (told_frame _ _ F'), (frame_success _ _ F'). eapply won_mono; [done | by apply frame_now | done].
  - intros a. split_and!; try done; apply I2.
  - intros x s' I' _. by apply runs_ret, HQ.
Qed.

Lemma runs_takeover reason s (Q : bool -> node -> Prop) : J s ->
  won ml (told s) i s.(proposer_).(prepare_success_ballot_) (time_of off i s) ->
  (forall x s', J s' -> Q x s') -> runs (leader_takeover_if_lease_valid_ v reason) Q s.
Proof.
  intros I Hw HQ. apply runs_bind, runs_reads. case_bool_decide as Hr; [by apply runs_ret, HQ|].
  apply runs_bind, runs_check_leader. intros b s1 F. pose proof (J_frame _ _ F I) as I1.
  destruct b; [|by apply runs_ret, HQ]. do 3 (apply runs_bind, runs_update).
  assert (forall t, frame s t -> won ml (told t) i t.(proposer_).(prepare_success_ballot_) (time_of off i t)) as Hwon.
  { intros t Ft. rewrite (told_frame _ _ Ft), (frame_success _ _ Ft). eapply won_mono; [done | by apply frame_now | done]. }
  apply runs_bind, runs_propose.
  - eapply (J_leader (set_proposer _ (set_role_changes _ s1))); [eapply J_frame; [|exact I1]; by constructor|].
    by apply (Hwon s1).
  - by apply (Hwon s1).
  - intros s' I'. by apply runs_ret, HQ.
Qed.

Lemma runs_broadcast_prepare r s (Q : Z -> node -> Prop) : J s ->
  ElectionMsgBase.sender_ (PrepareRequest.base r) = i ->
  ElectionMsgBase.restart_counter_ (PrepareRequest.base r) = restarts i ->
  ElectionMsgBase.ballot_number_ (PrepareRequest.base r) <= s.(proposer_).(ballot_number_) ->
  (forall x s', J s' -> Q x s') -> runs (broadcast_prepare_request v r) Q s.
Proof.
  intros I Hs Hr Hb HQ. apply runs_bind, runs_reads. apply HQ.
  eapply J_news; [done | done | cbn; lia | done | by apply Forall_fmap, Forall_forall |].
  apply quiet_news, Forall_fmap, Forall_fmap, Forall_forall. done.
Qed.

(** A request with the own ballot, to all. *)
Lemma runs_ask {A} role (k : Z -> PrepareRequest.t -> E A) s (Q : A -> node -> Prop) : J s ->
  (forall ret r s', J s' -> ElectionMsgBase.sender_ (PrepareRequest.base r) = i ->
     ElectionMsgBase.restart_counter_ (PrepareRequest.base r) = restarts i ->
     ElectionMsgBase.ballot_number_ (PrepareRequest.base r) <= s'.(proposer_).(ballot_number_) -> runs (k ret r) Q s') ->
  runs ('(ret, r) ← make_prepare_request v role; k ret r) Q s.
Proof.
  intros I Hk. apply runs_bind, runs_make_prepare_request. intros ret r s' F Hs Hr Hb. apply Hk.
  - by apply (J_frame s).
  - rewrite Hs. apply I.
  - rewrite Hr. apply I.
  - rewrite Hb, (frame_ballot _ _ F). lia.
Qed.

Lemma runs_prepare role s (Q : () -> node -> Prop) : J s -> role = LEADER \/ role = FOLLOWER ->
  (forall s', J s' -> Q () s') -> runs (prepare v role) Q s.
Proof.
  intros I Hrole HQ. apply runs_bind, runs_clock. intros cur_ts s1 F. pose proof (J_frame _ _ F I) as I1.
  apply runs_bind, runs_reads. do 3 (case_match; [by apply runs_ret, HQ|]).
  apply runs_bind, runs_update. set (s2 := set_proposer _ s1).
  assert (J s2) as I2 by (eapply J_frame; [|exact I1]; by constructor).
  assert (forall s', J s' -> runs ('(ret, prepare_req) ← make_prepare_request v role;
            if ob_fail ret then mret () else broadcast_prepare_request v prepare_req ;; mret ()) Q s') as Hk.
  { intros s' I'. apply (runs_ask role (fun ret r => if ob_fail ret then mret () else broadcast_prepare_request v r ;; mret ()));
      [done|]. intros ret r s3 I3 Hs Hr Hb.
    case_match; [by apply runs_ret, HQ|]. apply runs_bind, runs_broadcast_prepare; auto. }
  apply runs_bind. destruct Hrole as [-> | ->]; [by apply runs_ret, Hk|].
  apply runs_advance; [done | cbn; lia | auto].
Qed.

Lemma runs_check_ballot m accepted s (Q : bool -> node -> Prop) : J s ->
  ElectionMsgBase.restart_counter_ m = restarts i ->
  (accepted = true -> ElectionMsgBase.ballot_number_ m <= s.(proposer_).(ballot_number_)) ->
  (forall s', J s' -> Q false s') ->
  (accepted = true -> ElectionMsgBase.ballot_number_ m = s.(proposer_).(ballot_number_) -> Q true s) ->
  runs (check_ballot_and_restart_counter_valid_and_accepted v m accepted) Q s.
Proof.
  intros I Hr Hb HQ HQ'. apply runs_bind, runs_reads. cbn.
  rewrite Hr, (ni_restart _ _ _ _ _ _ I), Z.eqb_refl. cbn.
  case_match; [by apply runs_ret, HQ|]. destruct (Z.ltb_spec (ballot_number_ (proposer_ s)) (ElectionMsgBase.ballot_number_ m)).
  - apply runs_bind, runs_assert; [destruct accepted; [|done]; specialize (Hb eq_refl); lia|].
    apply runs_bind, runs_advance; [done | lia|]. intros s1 I1 _ _. apply runs_bind, runs_check_leader.
    intros b s2 F. pose proof (J_frame _ _ F I1) as I2. apply runs_bind.
    destruct b; [|by apply runs_ret, runs_ret, HQ].
    apply runs_bind, runs_reads, runs_bind, runs_advance; [done | lia|]. intros s3 I3 _ _.
    apply runs_prepare; [done | by left |]. intros s4 I4. by apply runs_ret, HQ.
  - apply runs_ret. destruct accepted; [apply HQ'; [done | lia] | by apply HQ].
Qed.

Lemma runs_proposer_on_prepare_request r s (Q : bool -> node -> Prop) : J s ->
  ElectionMsgBase.restart_counter_ (PrepareRequest.base r) = restarts (ElectionMsgBase.sender_ (PrepareRequest.base r)) ->
  (forall x s', J s' -> Q x s') -> runs (proposer_on_prepare_request v r) Q s.
Proof.
  intros I Hr HQ. apply runs_bind, runs_reads. cbn zeta.
  destruct (Z.leb_spec (ElectionMsgBase.ballot_number_ (PrepareRequest.base r)) (ballot_number_ (proposer_ (id s)))).
  - apply runs_bind. case_match; [|by apply runs_ret, runs_ret, HQ]. apply runs_bind, runs_send_quiet; [done | |].
    + split_and!; try done. apply I.
    + intros x s' I' _. by apply runs_ret, runs_ret, HQ.
  - case_match; [by apply runs_ret, HQ|]. apply runs_bind, runs_advance; [done | cbn in *; lia|]. intros s1 I1 _ _.
    case_match; try by apply runs_ret, HQ. apply runs_bind, runs_reads. case_match; [by apply runs_ret, HQ|].
    eapply (runs_ask _ (fun ret r => if ob_fail ret then mret false else
      ret ← broadcast_prepare_request v r; if ob_fail ret then mret false else
      clock ← getClock v; setp (set_last_do_prepare_ts clock) ;; mret true)); [done|].
    intros ret r' s2 I2 Hs' Hr' Hb'. case_match; [by apply runs_ret, HQ|].
    apply runs_bind, runs_broadcast_prepare; try done. intros x s3 I3. case_match; [by apply runs_ret, HQ|].
    apply runs_bind, runs_clock. intros clock s4 F. apply runs_bind, runs_update, runs_ret, HQ.
    apply (J_frame s3); [|done]. eapply frame_trans; [done | by constructor].
Qed.

(** A quorum of votes. *)
Lemma won_of_prepare_ok s : J s ->
  let m := s.(proposer_).(memberlist_with_states_) in
  MemberListWithStates.majority m <= count_if (MemberListWithStates.prepare_ok_ m) id ->
  won ml (told s) i s.(proposer_).(ballot_number_) (time_of off i s).
Proof.
  intros I m Hc. unfold MemberListWithStates.majority in Hc. unfold m in Hc. rewrite (ni_ml _ _ _ _ _ _ I) in Hc.
  eapply quorum_of_indices; [apply conf | exact Hc |]. intros k [] Hk Hf; [|done].
  by apply (ni_prepare_ok _ _ _ _ _ _ I).
Qed.

Lemma runs_record_prepare_ok a l u s (Q : Z -> node -> Prop) : J s -> a ∈ members ->
  promised (told s) a i s.(proposer_).(ballot_number_) l u -> u <= time_of off i s ->
  permits (told s) i l (time_of off i s) ->
  (forall ret s', J s' -> (ob_fail ret = false ->
     won ml (told s') i s'.(proposer_).(ballot_number_) (time_of off i s')) -> Q ret s') ->
  runs (on_memberlist (MemberListWithStates.record_prepare_ok a)) Q s.
Proof.
  intros I Ha Hp Hu Hl HQ. unfold on_memberlist, runs, MemberListWithStates.record_prepare_ok.
  set (m := memberlist_with_states_ (proposer_ s)).
  assert (MemberListWithStates.addrs m = members) as Em
    by (unfold MemberListWithStates.addrs, m; by rewrite (ni_ml _ _ _ _ _ _ I)).
  unfold MemberListWithStates.get_server_idx_in_memberlist_. rewrite Em.
  pose proof (find_idx_elem _ _ Ha) as Hlt. pose proof (find_idx_lookup _ _ Hlt) as Hk.
  set (idx := MemberListWithStates.find_idx a members) in *.
  rewrite (proj2 (Nat.eqb_neq _ _)) by lia. change (ob_fail OB_SUCCESS) with false. cbn iota.
  case_guard as Hg.
  2: { destruct Hg. rewrite (ni_prepare_len _ _ _ _ _ _ I : length (MemberListWithStates.prepare_ok_ m) = _).
       pose proof (conf_size _ conf). lia. }
  cbn. apply HQ; [by apply (J_prepare_ok s idx a l u)|]. intros Hret.
  apply won_of_prepare_ok; [by apply (J_prepare_ok s idx a l u)|]. cbn.
  destruct (Z.ltb_spec (count_if (<[idx:=true]> (MemberListWithStates.prepare_ok_ m)) id)
              (MemberListWithStates.majority
                 (MemberListWithStates.mk (MemberListWithStates.member_list_ m)
                    (<[idx:=true]> (MemberListWithStates.prepare_ok_ m))
                    (MemberListWithStates.accept_ok_promise_not_vote_before_local_ts_ m)
                    (MemberListWithStates.follower_renew_lease_success_membership_version_ m)))); [done | done].
Qed.

Lemma permits_of_lease s l : J s -> lease_wf l -> lease_permits s l = true -> permits (told s) i l (time_of off i s).
Proof.
  intros I Hwf H. unfold lease_permits in H. apply orb_true_iff in H as [[H|H]%orb_true_iff|[Ha Hb]%andb_true_iff].
  - by left.
  - right; left. apply ObAddr.addr_eqb_eq in H. rewrite H. apply I.
  - apply ObAddr.addr_eqb_eq in Ha. apply Z.eqb_eq in Hb. destruct Hwf as [Hv|He].
    + right; right. rewrite Ha, Hb. apply (ni_switch _ _ _ _ _ _ I). by rewrite <- Ha.
    + destruct (ObAddr.is_valid (Lease.owner_ l)) eqn:Ho.
      * right; right. rewrite Ha, Hb. apply (ni_switch _ _ _ _ _ _ I). by rewrite <- Ha.
      * left. unfold Lease.is_empty. by rewrite Ho, He.
Qed.

Lemma runs_on_prepare_response r s (Q : () -> node -> Prop) : J s ->
  msg_ok off ml restarts i N0 (time_of off i s) (MsgPrepareResponse r) ->
  (forall s', J s' -> Q () s') -> runs (on_prepare_response v r) Q s.
Proof.
  intros I (Hm & Hr & Hacc) HQ. cbn in *. apply runs_bind, runs_check_ballot; [done | done | | |].
  - intros Ha. apply (ni_asked _ _ _ _ _ _ I). destruct (Hacc Ha) as (Hask & _).
    eapply asked_mono; [apply N0_told | done].
  - intros s' I'. by apply runs_ret, HQ.
  - intros Ha Hb. destruct (Hacc Ha) as (_ & Hwf & u & Hp & Hu). apply runs_bind, runs_reads. cbn.
    destruct (lease_permits s _) eqn:Hl; [|by apply runs_ret, HQ]. cbn.
    apply runs_bind. eapply runs_record_prepare_ok; [done | done | | done | by apply permits_of_lease |].
    + rewrite <- Hb. eapply promised_mono; [apply N0_told | done].
    + intros ret s1 I1 Hw. case_match; [by apply runs_ret, HQ|]. specialize (Hw eq_refl).
      apply runs_bind, runs_update. apply runs_propose; [by apply J_success | | done]. cbn.
      pose proof (ni_success _ _ _ _ _ _ I1). by rewrite Z.max_l.
Qed.

(** *** The lease of the leader *)

(** What was told, the ballots and the time do not go back. *)
Record keeps (s s' : node) : Prop := {
  keeps_ballot : s'.(proposer_).(ballot_number_) = s.(proposer_).(ballot_number_);
  keeps_success : s'.(proposer_).(prepare_success_ballot_) = s.(proposer_).(prepare_success_ballot_);
  keeps_told : told s' = told s;
  keeps_time : s.(mono_) <= s'.(mono_) }.

Lemma keeps_trans s1 s2 s3 : keeps s1 s2 -> keeps s2 s3 -> keeps s1 s3.
Proof. intros [] []. constructor; [congruence | congruence | congruence | lia]. Qed.

Lemma keeps_refl s : keeps s s.
Proof. by constructor. Qed.

Lemma keeps_frame s s' : frame s s' -> keeps s s'.
Proof.
  intros F. constructor; [by apply frame_ballot | by apply frame_success | by apply told_frame | apply F].
Qed.

Lemma keeps_won s s' : keeps s s' -> won ml (told s) i s.(proposer_).(prepare_success_ballot_) (time_of off i s) ->
  won ml (told s') i s'.(proposer_).(prepare_success_ballot_) (time_of off i s').
Proof.
  intros [_ Es Et Hm] Hw. rewrite Et, Es. eapply won_mono; [done | | done]. unfold time_of. lia.
Qed.

(** The lease has been held since the ballot of the epoch, which was not given up. *)
Definition backed (s : node) (l : LeaderLeaseAndEpoch.t) : Prop :=
  0 < LeaderLeaseAndEpoch.lease_ l ->
  (exists b, b <= s.(proposer_).(prepare_success_ballot_) /\
     held off ml (told s) i (LeaderLeaseAndEpoch.epoch_ l) b (LeaderLeaseAndEpoch.lease_ l)) /\
  forall b' c, resigned (told s) i b' c -> b' < LeaderLeaseAndEpoch.epoch_ l.

Lemma J_backed s : J s -> backed s s.(proposer_).(leader_lease_and_epoch_).
Proof. intros I. exact (ni_leader _ _ _ _ _ _ I). Qed.

Lemma keeps_backed s s' l : keeps s s' -> backed s l -> backed s' l.
Proof. intros [_ Es Et _] H. unfold backed. by rewrite Es, Et. Qed.

Lemma runs_set_leader (f : LeaderLeaseAndEpoch.t -> LeaderLeaseAndEpoch.t) s (Q : () -> node -> Prop) : J s ->
  backed s (f s.(proposer_).(leader_lease_and_epoch_)) ->
  (forall s', J s' -> keeps s s' ->
     s'.(proposer_).(leader_lease_and_epoch_) = f s.(proposer_).(leader_lease_and_epoch_) -> Q () s') ->
  runs (setp (fun p => set_leader_lease_and_epoch (f p.(leader_lease_and_epoch_)) p)) Q s.
Proof. intros I Hl HQ. apply runs_update, HQ; [by apply J_lease | by constructor | done]. Qed.

(** The ballot of the proposer gives the lease. *)
Definition earned (s : node) (lease : Z) : Prop :=
  0 < lease -> leased ml (told s) i s.(proposer_).(prepare_success_ballot_) lease /\
    forall b c, resigned (told s) i b c -> b < s.(proposer_).(prepare_success_ballot_).

Lemma keeps_earned s s' lease : keeps s s' -> earned s lease -> earned s' lease.
Proof. intros [_ Es Et _] H. unfold earned. by rewrite Es, Et. Qed.

(** A lease that has not ended is renewed. *)
Lemma backed_next lease s : J s ->
  let l := s.(proposer_).(leader_lease_and_epoch_) in
  s.(mono_) < LeaderLeaseAndEpoch.lease_ l ->
  won ml (told s) i s.(proposer_).(prepare_success_ballot_) (time_of off i s) -> earned s lease ->
  backed s (LeaderLeaseAndEpoch.mk lease (LeaderLeaseAndEpoch.epoch_ l) (LeaderLeaseAndEpoch.seq_ l)).
Proof.
  intros I l Hm Hw Hl Hpos. pose proof (ni_time _ _ _ _ _ _ I). pose proof (ni_success _ _ _ _ _ _ I).
  destruct (J_backed s I) as ((b & Hb & Hh) & Hr); [unfold l in Hm; lia|]. destruct (Hl Hpos) as [Hg Hr'].
  split; [|done]. exists s.(proposer_).(prepare_success_ballot_). split; [done|].
  eapply held_next; [exact Hh | | | exact Hw | exact Hg].
  - done.
  - unfold time_of. fold l. lia.
Qed.

Definition bump (l : LeaderLeaseAndEpoch.t) : LeaderLeaseAndEpoch.t :=
  LeaderLeaseAndEpoch.mk (LeaderLeaseAndEpoch.lease_ l) (LeaderLeaseAndEpoch.epoch_ l) (LeaderLeaseAndEpoch.seq_ l + 1).

Lemma runs_set_lease_and_epoch lease s (Q : () -> node -> Prop) : J s -> earned s lease ->
  won ml (told s) i s.(proposer_).(prepare_success_ballot_) (time_of off i s) ->
  (forall s', J s' -> keeps s s' -> Q () s') ->
  runs (set_lease_and_epoch_if_lease_expired_or_just_set_lease v lease s.(proposer_).(prepare_success_ballot_)) Q s.
Proof.
  intros I Hl Hw HQ. set (epoch := prepare_success_ballot_ (proposer_ s)).
  assert (forall t seq, J t -> keeps s t -> backed t (LeaderLeaseAndEpoch.mk lease epoch seq)) as Hfull.
  { intros t seq It K Hpos. destruct (keeps_earned _ _ _ K Hl Hpos) as [Hg Hr]. rewrite (keeps_success _ _ K) in *.
    split; [|done]. exists epoch. split; [|by apply held_first]. unfold epoch. by rewrite <- (keeps_success _ _ K). }
  unfold set_lease_and_epoch_if_lease_expired_or_just_set_lease. cbn zeta.
  assert (forall t, J t -> keeps s t -> runs (setp (fun p => set_leader_lease_and_epoch
            (bump p.(leader_lease_and_epoch_)) p)) Q t) as Hlast.
  { intros t It K. apply (runs_set_leader bump);
      [done | by apply J_backed|]. intros t' It' K' _. apply HQ; [done | by eapply keeps_trans]. }
  apply runs_bind, (runs_set_leader bump);
    [done | by apply J_backed|]. intros s1 I1 K1 E1.
  apply runs_bind, runs_reads, runs_bind, runs_ts. intros s2 F2. pose proof (J_frame _ _ F2 I1) as I2.
  pose proof (keeps_trans _ _ _ K1 (keeps_frame _ _ F2)) as K2. rewrite E1. cbn. apply runs_bind.
  destruct (Z.ltb_spec (mono_ s2) (LeaderLeaseAndEpoch.lease_ (leader_lease_and_epoch_ (proposer_ s)))) as [Hold|_].
  - apply runs_bind, (runs_set_leader (fun l => LeaderLeaseAndEpoch.mk lease (LeaderLeaseAndEpoch.epoch_ l) (LeaderLeaseAndEpoch.seq_ l))); [done | |].
    { refine (backed_next lease s2 I2 _ _ _); [| |by eapply keeps_earned].
      - rewrite (frame_leader _ _ F2), E1. done.
      - by eapply keeps_won. }
    intros s3 I3 K3 E3. apply runs_bind, runs_ts. intros s4 F4. pose proof (J_frame _ _ F4 I3) as I4.
    pose proof (keeps_trans _ _ _ K2 (keeps_trans _ _ _ K3 (keeps_frame _ _ F4))) as K4.
    case_match; [|by apply runs_ret, Hlast].
    apply (runs_set_leader (fun l => LeaderLeaseAndEpoch.mk (LeaderLeaseAndEpoch.lease_ l) epoch (LeaderLeaseAndEpoch.seq_ l))); [done | |].
    + rewrite (frame_leader _ _ F4), E3. by apply Hfull.
    + intros s5 I5 K5 _. apply Hlast; [done | by eapply keeps_trans].
  - apply (runs_set_leader (fun l => LeaderLeaseAndEpoch.mk lease epoch (LeaderLeaseAndEpoch.seq_ l))); [done | by apply Hfull|].
    intros s3 I3 K3 _. apply Hlast; [done | by eapply keeps_trans].
Qed.

Lemma runs_renew_leader_lease lease s (Q : () -> node -> Prop) : J s -> earned s lease ->
  won ml (told s) i s.(proposer_).(prepare_success_ballot_) (time_of off i s) ->
  (forall s', J s' -> Q () s') -> runs (renew_leader_lease v lease) Q s.
Proof.
  intros I Hl Hw HQ. apply runs_bind, runs_revoke; [done|]. intros x s1 I1 Eb Es Et Hm _ _.
  assert (keeps s s1) as K1 by done.
  apply runs_bind, runs_reads, runs_bind. cbn.
  assert (forall s2, J s2 -> keeps s s2 -> runs (p ← getp id;
    if negb (p.(switch_source_leader_ballot_) =? INVALID_VALUE) then
      if negb (p.(switch_source_leader_ballot_) =? p.(ballot_number_) - 1) then mret ()
      else
        taken ← leader_takeover_if_lease_valid_ v ChangeLeaderToBeLeader;
        if (taken : bool) then
          setp (set_switch_source_leader_ballot INVALID_VALUE) ;;
          setp (fun p => set_switch_source_leader_addr (ObAddr.reset p.(switch_source_leader_addr_)) p)
        else mret ()
    else leader_takeover_if_lease_valid_ v DevoteToBeLeader ;; mret ()) Q s2) as Hk.
  { intros s2 I2 K2. pose proof (keeps_won _ _ K2 Hw) as Hw2. apply runs_bind, runs_reads. case_match.
    - case_match; [by apply runs_ret, HQ|]. apply runs_bind, runs_takeover; [done | done |]. intros taken s3 I3.
      destruct taken; [|by apply runs_ret, HQ]. apply runs_bind, runs_update, runs_update, HQ.
      by apply (J_switch_reset s3).
    - apply runs_bind, runs_takeover; [done | done |]. intros taken s3 I3. by apply runs_ret, HQ. }
  case_match; [|by apply runs_ret, Hk]. apply runs_bind, runs_reads, runs_set_lease_and_epoch; [done | | |].
  - by eapply keeps_earned.
  - by eapply keeps_won.
  - intros s2 I2 K2. apply Hk; [done | by eapply keeps_trans].
Qed.

Lemma runs_record_accept_ok a st d r version s (Q : Z -> node -> Prop) : J s -> a ∈ members ->
  granted (told s) a i s.(proposer_).(ballot_number_) st d r ->
  (forall ret s', J s' -> keeps s s' -> Q ret s') ->
  runs (on_memberlist (MemberListWithStates.record_accept_ok a st d version)) Q s.
Proof.
  intros I Ha Hg HQ. unfold on_memberlist, runs, MemberListWithStates.record_accept_ok.
  set (m := memberlist_with_states_ (proposer_ s)).
  assert (MemberListWithStates.addrs m = members) as Em
    by (unfold MemberListWithStates.addrs, m; by rewrite (ni_ml _ _ _ _ _ _ I)).
  unfold MemberListWithStates.get_server_idx_in_memberlist_. rewrite Em.
  pose proof (find_idx_elem _ _ Ha) as Hlt. pose proof (find_idx_lookup _ _ Hlt) as Hk.
  set (idx := MemberListWithStates.find_idx a members) in *.
  rewrite (proj2 (Nat.eqb_neq _ _)) by lia. change (ob_fail OB_SUCCESS) with false. cbn iota.
  pose proof (conf_size _ conf).
  destruct (lookup_lt_is_Some_2 (MemberListWithStates.accept_ok_promise_not_vote_before_local_ts_ m) idx) as [old Ho].
  { rewrite (ni_accept_len _ _ _ _ _ _ I : length (_ m) = _). lia. }
  destruct (lookup_lt_is_Some_2 (MemberListWithStates.follower_renew_lease_success_membership_version_ m) idx) as [f Hf].
  { rewrite (ni_follower_len _ _ _ _ _ _ I : length (_ m) = _). lia. }
  rewrite Ho, Hf. cbn. apply HQ; [by apply (J_accept_ok s idx a st d r old) | by constructor].
Qed.

(** The majority of the promises is a lease. *)
Lemma leased_of_accept_ok s w : J s -> 0 < w ->
  let l := MemberListWithStates.accept_ok_promise_not_vote_before_local_ts_ s.(proposer_).(memberlist_with_states_) in
  Z.of_nat (length l) ÷ 2 + 1 <= count_if l (fun x => w <=? x) ->
  leased ml (told s) i s.(proposer_).(ballot_number_) w.
Proof.
  intros I Hw l Hc. unfold l in Hc at 1. rewrite (ni_accept_len _ _ _ _ _ _ I) in Hc.
  pose proof (conf_size _ conf). rewrite Z2Nat.id in Hc by lia.
  eapply quorum_of_indices; [apply conf | exact Hc |]. intros k x Hk Hx%Z.leb_le.
  destruct (ni_accept_ok _ _ _ _ _ _ I k x Hk) as (a & Ha & st & d & r & Hg & Hd); [lia|].
  exists a. split; [done|]. exists st, d, r. split; [done | lia].
Qed.

Lemma runs_majority s (Q : Z * option Z -> node -> Prop) : J s ->
  (forall ret x s', J s' -> keeps s s' ->
     (ob_fail ret = false -> 0 < default 0 x -> leased ml (told s') i s'.(proposer_).(ballot_number_) (default 0 x)) ->
     Q (ret, x) s') ->
  runs (on_memberlist (fun m => r ← MemberListWithStates.get_majority_promised_not_vote_ts (v_pushed v) m; Some (r, m))) Q s.
Proof.
  intros I HQ. unfold runs, on_memberlist, MemberListWithStates.get_majority_promised_not_vote_ts.
  set (m := memberlist_with_states_ (proposer_ s)).
  set (l := MemberListWithStates.accept_ok_promise_not_vote_before_local_ts_ m).
  assert (J (set_proposer (set_memberlist_with_states m (proposer_ s)) s)) as I'
    by (eapply J_frame; [|exact I]; by constructor).
  assert (l <> []) as Hl.
  { pose proof (ni_accept_len _ _ _ _ _ _ I : length l = _) as Hlen. pose proof (conf_size _ conf).
    pose proof (ni_member _ _ _ _ _ _ I) as Hi. intros E. rewrite E in Hlen. cbn in Hlen.
    apply list_elem_of_lookup in Hi as (k & Hk%lookup_lt_Some). lia. }
  destruct (ob_fail (v_pushed v)) eqn:Hp.
  - unfold get_sorted_majority_one_desc. rewrite bool_decide_eq_false_2, Hp by done. cbn.
    apply HQ; [done | by constructor | by intros [=]].
  - destruct (sorted_majority (v_pushed v) l Hl) as (w & E & _ & Hc & _).
    { unfold ob_fail in Hp. unfold ob_succ. by apply negb_false_iff. }
    rewrite E. cbn. apply HQ; [done | by constructor |]. intros _ Hpos. by apply (leased_of_accept_ok _ w I').
Qed.

Lemma runs_inner_change_leader_to dst s (Q : () -> node -> Prop) : J s ->
  (forall s', J s' -> Q () s') -> runs (inner_change_leader_to v dst) Q s.
Proof.
  intros I HQ. apply runs_bind, runs_reads, runs_bind, runs_advance; [done | lia|]. intros s1 I1 Eb _.
  apply runs_bind, runs_reset_lease; [done|]. intros s2 I2 Eb2 El2. apply runs_bind, runs_reads. cbn zeta.
  apply runs_bind, runs_revoke; [done|]. intros x s3 I3 Eb3 _ _ _ _ Hl.
  apply runs_bind, runs_resign; [done | apply I2 | apply I2 | cbn; lia | lia |].
  intros y s4 I4. by apply runs_ret, HQ.
Qed.

Lemma runs_change_leader_to dst s (Q : Z -> node -> Prop) : J s ->
  (forall x s', J s' -> Q x s') -> runs (proposer_change_leader_to v dst) Q s.
Proof.
  intros I HQ. apply runs_bind, runs_reads, runs_bind, runs_check_leader. intros b s1 F.
  pose proof (J_frame _ _ F I) as I1. destruct b; [|by apply runs_ret, HQ].
  apply runs_bind, runs_inner_change_leader_to; [done|]. intros s2 I2. by apply runs_ret, HQ.
Qed.

Lemma runs_check_cache_expired s (Q : () -> node -> Prop) : J s ->
  (forall s', J s' -> Q () s') -> runs (check_cache_expired v) Q s.
Proof.
  intros I HQ. apply runs_bind, runs_reads. case_match; [by apply runs_ret, HQ|].
  apply runs_bind, runs_clock. intros c s1 F. pose proof (J_frame _ _ F I) as I1.
  case_match; [|by apply runs_ret, HQ]. apply runs_update, HQ. eapply J_frame; [|exact I1]. by constructor.
Qed.

Lemma runs_set_cache r s (Q : () -> node -> Prop) : J s ->
  (forall s', J s' -> Q () s') -> runs (set_highest_priority_cache v r) Q s.
Proof.
  intros I HQ. apply runs_bind, runs_clock. intros c s1 F. apply runs_update, HQ.
  apply (J_frame s); [|done]. eapply frame_trans; [done | by constructor].
Qed.

Lemma runs_check_follower_priority r s (Q : () -> node -> Prop) : J s ->
  (forall s', J s' -> Q () s') -> runs (check_follower_priority v r) Q s.
Proof.
  intros I HQ. apply runs_bind, runs_seed. intros seed s1 F. pose proof (J_frame _ _ F I) as I1.
  apply runs_bind, runs_reads. cbn zeta. case_match. case_match; [by apply runs_ret, HQ|].
  case_match; [|by apply runs_ret, HQ]. apply runs_bind, runs_check_cache_expired; [done|]. intros s2 I2.
  apply runs_bind, runs_reads. cbn zeta. do 2 (case_match; [by apply runs_set_cache|]).
  case_match; [|by apply runs_ret, HQ]. apply runs_bind, runs_bind, runs_reads. case_match.
  - apply runs_change_leader_to; [done|]. intros x s3 I3. by apply runs_ret, HQ.
  - case_match; by apply runs_ret, runs_ret, HQ.
Qed.

Lemma runs_on_accept_response r s (Q : () -> node -> Prop) : J s ->
  msg_ok off ml restarts i N0 (time_of off i s) (MsgAcceptResponse r) ->
  (forall s', J s' -> Q () s') -> runs (on_accept_response v r) Q s.
Proof.
  intros I (Hm & Hr & Hacc) HQ. cbn in *.
  assert (forall s', J s' -> runs (s ← reads id;
    if bool_decide (s.(proposer_).(role_) = LEADER)
       && negb (ObAddr.eqb (ElectionMsgBase.sender_ (AcceptResponse.base r)) s.(self_addr_))
    then check_follower_priority v r else mret ()) Q s') as Hk.
  { intros s' I'. apply runs_bind, runs_reads. case_match; [by apply runs_check_follower_priority | by apply runs_ret, HQ]. }
  assert (AcceptResponse.accepted_ r = true -> exists t w,
    granted (told s) (ElectionMsgBase.sender_ (AcceptResponse.base r)) i
      (ElectionMsgBase.ballot_number_ (AcceptResponse.base r)) (AcceptResponse.lease_started_ts_on_proposer_ r)
      (AcceptResponse.lease_interval_ r) t /\
    requested (told s) i (ElectionMsgBase.ballot_number_ (AcceptResponse.base r))
      (AcceptResponse.lease_started_ts_on_proposer_ r) (AcceptResponse.lease_interval_ r) w) as Hacc'.
  { intros Ha. destruct (Hacc Ha) as (t & w & Hg & Hq). exists t, w.
    split; [eapply granted_mono | eapply requested_mono]; (apply N0_told || done). }
  clear Hacc. pose proof (ni_success _ _ _ _ _ _ I) as Hsucc. apply runs_bind, runs_check_ballot; [done | done | | |].
  - intros Ha. destruct (Hacc' Ha) as (t & w & _ & Hq). apply (ni_requested _ _ _ _ _ _ I) in Hq as (Hb & _). lia.
  - intros s' I'. by apply runs_bind, runs_ret, Hk.
  - intros Ha Hb. destruct (Hacc' Ha) as (t & w & Hg & Hq). rewrite Hb in *.
    apply (ni_requested _ _ _ _ _ _ I) in Hq as (Hle & _ & Hwt & Hwon).
    assert (s.(proposer_).(prepare_success_ballot_) = s.(proposer_).(ballot_number_)) as Es by lia.
    assert (won ml (told s) i s.(proposer_).(prepare_success_ballot_) (time_of off i s)) as Hw
      by (rewrite Es; by eapply won_mono).
    apply runs_bind. cbn. apply runs_bind. eapply runs_record_accept_ok; [done | done | exact Hg |]. intros ret s1 I1 K1.
    case_match; [by apply runs_ret, Hk|]. apply runs_bind, runs_majority; [done|].
    intros ret' x s2 I2 K2 Hl. pose proof (keeps_trans _ _ _ K1 K2) as K. case_match; [by apply runs_ret, Hk|].
    apply runs_renew_leader_lease; [done | | by apply (keeps_won s) | exact Hk]. intros Hpos.
    rewrite (keeps_success _ _ K), Es, <- (keeps_ballot _ _ K). split; [by apply Hl|]. apply I2.
Qed.

Lemma runs_on_change_leader r s (Q : () -> node -> Prop) : J s ->
  msg_ok off ml restarts i N0 (time_of off i s) (MsgChangeLeader r) ->
  (forall s', J s' -> Q () s') -> runs (on_change_leader v r) Q s.
Proof.
  intros I (Hm & c & Hr & Hc) HQ. cbn in *. apply runs_bind, runs_reads. cbn zeta.
  destruct (negb _) eqn:Ha; [by apply runs_ret, HQ|]. destruct (LogConfigVersion.gtb _ _); [by apply runs_ret, HQ|].
  apply runs_bind, runs_advance; [done | |].
  { apply negb_false_iff in Ha. unfold id in Ha. case_match; [apply Z.eqb_eq in Ha | apply Z.ltb_lt in Ha]; lia. }
  intros s1 I1 _ Et. apply runs_bind, runs_update, runs_bind, runs_update. apply runs_prepare; [|by left|done].
  apply (J_switch s1 _ _ c); [done | | unfold time_of in *; lia]. eapply resigned_mono; [apply N0_told | done].
Qed.

Lemma runs_devote_task s (Q : () -> node -> Prop) : J s -> (forall s', J s' -> Q () s') -> runs (devote_task v) Q s.
Proof.
  intros I HQ. apply runs_bind, runs_check_leader. intros b s1 F. pose proof (J_frame _ _ F I) as I1.
  apply runs_bind, runs_reads. destruct b.
  - case_match; [by apply runs_ret, HQ|]. apply runs_prepare; [done | | done]. exact (ni_role _ _ _ _ _ _ I1).
  - apply runs_bind. case_bool_decide.
    + apply runs_update, runs_bind, runs_reads, runs_prepare; [by apply J_follower | by right | done].
    + apply runs_ret, runs_bind, runs_reads, runs_prepare; [done | | done]. exact (ni_role _ _ _ _ _ _ I1).
Qed.

Lemma runs_renew_lease_task s (Q : () -> node -> Prop) : J s ->
  (forall s', J s' -> Q () s') -> runs (renew_lease_task v) Q s.
Proof.
  intros I HQ. apply runs_bind, runs_reads. case_match; [by apply runs_ret, HQ|].
  destruct (role_ _) eqn:Hr; try by apply runs_ret, HQ. apply runs_bind, runs_revoke; [done|].
  intros b s1 I1 _ _ _ _ Er _. destruct b; [by apply runs_ret, HQ|]. apply runs_bind, runs_reads.
  case_match; [by apply runs_ret, HQ|]. apply runs_propose; [done | | done].
  apply (ni_won _ _ _ _ _ _ I1). by rewrite Er.
Qed.

Lemma runs_can_set_memberlist version s (Q : Z -> node -> Prop) : J s ->
  (forall x s', J s' -> Q x s') -> runs (can_set_memberlist v version) Q s.
Proof.
  intros I HQ. apply runs_bind, runs_reads. cbn zeta. case_match; [by apply runs_ret, HQ|].
  case_match; [|by apply runs_ret, HQ]. case_match; [by apply runs_ret, HQ|].
  apply runs_bind, runs_check_leader. intros b s1 F. pose proof (J_frame _ _ F I) as I1. case_match; by apply runs_ret, HQ.
Qed.

Lemma runs_proposer_stop s (Q : () -> node -> Prop) : J s ->
  (forall s', J s' -> Q () s') -> runs (proposer_stop v) Q s.
Proof.
  intros I HQ. apply runs_bind, runs_reset_lease; [done|]. intros s1 I1 _ _. apply runs_bind, runs_revoke; [done|].
  intros x s2 I2 _ _ _ _ _ _. by apply runs_ret, HQ.
Qed.

(** ** Acceptor *)

Lemma J_accepted s n : J s -> s.(acceptor_).(acceptor_ballot_number_) <= n ->
  J (set_acceptor (set_acceptor_ballot_number n s.(acceptor_)) s).
Proof.
  intros I Hn. open I; try lia.
  - intros p b st d r Hg. destruct (ni_granted _ _ _ _ _ Hg) as (Hb & R). split; [lia | exact R].
  - intros q b l u Hp. destruct (ni_promised _ _ _ _ Hp) as (Hb & R). split; [lia | exact R].
Qed.

(** A lease that has ended is forgotten. *)
Lemma J_lease_reset s : J s -> Lease.lease_end_ts_ s.(acceptor_).(lease_) < s.(mono_) ->
  J (set_acceptor (set_lease (Lease.reset s.(acceptor_).(lease_)) s.(acceptor_)) s).
Proof.
  intros I Hx. open I; [|by right].
  intros p b st d r Hg. destruct (ni_granted _ _ _ _ _ Hg) as (Hb & Hr & Hp & R). split_and!; [done | done | | exact R].
  left. destruct Hp as [Hp|(_ & Hp & _)]; [exact Hp | unfold time_of; cbn; lia].
Qed.

Lemma J_lease_update s p b st d w : J s -> p ∈ members -> s.(acceptor_).(acceptor_ballot_number_) = b ->
  requested (told s) p b st d w -> w <= time_of off i s ->
  J (set_acceptor (set_lease (Lease.update_from s.(mono_) p d b s.(acceptor_).(lease_)) s.(acceptor_)) s).
Proof.
  intros I Hp Hb Hr Hw.
  assert (ObAddr.is_valid p = true) as Hv.
  { pose proof (conf_valid _ conf) as Hc. rewrite Forall_forall in Hc. auto. }
  open I; [|by left|lia|].
  - intros q b' st' d' r Hg. destruct (ni_granted _ _ _ _ _ Hg) as (Hb' & Hr' & Hq & R). split_and!; [done | done | | exact R].
    destruct Hq as [Hq|(_ & Hq & _)]; [by left|]. right. cbn. split_and!; [done | lia | lia].
  - intros _. by exists st, d, w.
Qed.

Lemma J_highest s r : J s ->
  (ElectionMsgBase.ballot_number_ (PrepareRequest.base r) <> -1 ->
   asked (told s) (ElectionMsgBase.sender_ (PrepareRequest.base r)) (ElectionMsgBase.ballot_number_ (PrepareRequest.base r)) /\
   ElectionMsgBase.restart_counter_ (PrepareRequest.base r) = restarts (ElectionMsgBase.sender_ (PrepareRequest.base r))) ->
  J (set_acceptor (set_highest_priority_prepare_req r s.(acceptor_)) s).
Proof. intros I H. open I. Qed.

(** What an acceptor has promised stays, while it does not say more. *)
Record akeeps (s s' : node) : Prop := {
  akeeps_ballot : s'.(acceptor_).(acceptor_ballot_number_) = s.(acceptor_).(acceptor_ballot_number_);
  akeeps_lease : s'.(acceptor_).(lease_) = s.(acceptor_).(lease_);
  akeeps_told : told s' = told s;
  akeeps_time : s.(mono_) <= s'.(mono_) }.

Lemma akeeps_frame s s' : frame s s' -> akeeps s s'.
Proof.
  intros F. constructor; [by apply frame_accepted | by apply frame_lease | by apply told_frame | apply F].
Qed.

Lemma akeeps_trans s1 s2 s3 : akeeps s1 s2 -> akeeps s2 s3 -> akeeps s1 s3.
Proof. intros [] []. constructor; [congruence | congruence | congruence | lia]. Qed.

Lemma runs_reset_time_window s (Q : () -> node -> Prop) : J s ->
  (forall s', J s' -> akeeps s s' -> Q () s') -> runs reset_time_window_states_ Q s.
Proof.
  intros I HQ. apply runs_bind, runs_reads. case_match; [|by apply runs_ret, HQ].
  apply runs_bind, runs_update, runs_update, HQ; [|by constructor].
  apply (J_highest (set_acceptor _ s)); [|by intros []]. eapply J_frame; [|exact I]. by constructor.
Qed.

(** Nothing was promised in a ballot that has not been reached. *)
Definition unpromised (s : node) (b : Z) : Prop :=
  (forall q l u, ~ promised (told s) i q b l u) /\ Lease.ballot_number_ s.(acceptor_).(lease_) < b.

Lemma unpromised_above s b : J s -> s.(acceptor_).(acceptor_ballot_number_) < b -> unpromised s b.
Proof.
  intros I Hb. split.
  - intros q l u Hp. apply (ni_promised _ _ _ _ _ _ I) in Hp as (? & _). lia.
  - pose proof (ni_lease_ballot _ _ _ _ _ _ I). lia.
Qed.

Lemma unpromised_keeps s s' b : told s' = told s ->
  Lease.ballot_number_ s'.(acceptor_).(lease_) = Lease.ballot_number_ s.(acceptor_).(lease_) ->
  unpromised s b -> unpromised s' b.
Proof. intros Et El [H1 H2]. split; [by rewrite Et | by rewrite El]. Qed.

Lemma runs_acceptor_advance n s (Q : () -> node -> Prop) : J s -> s.(acceptor_).(acceptor_ballot_number_) < n ->
  (forall s', J s' -> s'.(acceptor_).(acceptor_ballot_number_) = n -> unpromised s' n ->
     s.(mono_) <= s'.(mono_) -> Q () s') ->
  runs (acceptor_advance_ballot_number_and_reset_related_states_ n) Q s.
Proof.
  intros I Hn HQ. pose proof (unpromised_above _ _ I Hn) as Hu. apply runs_bind, runs_reads.
  rewrite (proj2 (Z.ltb_lt _ _)) by lia. apply runs_bind, runs_update, runs_bind, runs_update.
  apply runs_reset_time_window.
  - eapply (J_frame (set_acceptor (set_acceptor_ballot_number n (acceptor_ s)) s)); [by constructor|].
    apply J_accepted; [done | lia].
  - intros s' I' [Eb El Et Em]. apply HQ; [done | done | | done].
    apply (unpromised_keeps s); [done | by rewrite El | done].
Qed.

Lemma runs_send_vote r s (Q : () -> node -> Prop) : J s ->
  let b := s.(acceptor_).(acceptor_ballot_number_) in
  asked (told s) (ElectionMsgBase.sender_ (PrepareRequest.base r)) b ->
  ElectionMsgBase.restart_counter_ (PrepareRequest.base r) = restarts (ElectionMsgBase.sender_ (PrepareRequest.base r)) ->
  unpromised s b -> (forall s', J s' -> Q () s') -> runs (send_vote v r) Q s.
Proof.
  intros I b Ha Hr [Hu Hl] HQ. apply runs_bind, runs_reads, runs_bind.
  set (m := PrepareResponse.set_accepted _ _ _).
  assert (forall t x, Packet t x ∈ [Packet (time_of off i s) (MsgPrepareResponse m)] ->
            t = time_of off i s /\ x = MsgPrepareResponse m) as Hin.
  { by intros t x [= -> ->]%list_elem_of_singleton. }
  apply runs_send; [done | apply I | | intros x s' I' _; by apply runs_ret, HQ]. constructor.
  - by intros t x [_ ->]%Hin.
  - by intros p b' st d r' (x & [_ [=]]%Hin & _).
  - intros q b' l u (x & [-> [= ->]]%Hin & _ & _ & <- & <- & <-). cbn. split_and!; try done.
    + exact (ni_lease_wf _ _ _ _ _ _ I).
    + exact (ni_lease _ _ _ _ _ _ I).
    + intros p b' st d r' Hg Hb'. destruct (ni_granted _ _ _ _ _ _ I _ _ _ _ _ Hg) as (_ & Hr' & [He|(Hv & _ & Hb)] & _); auto.
    + intros q' l' u' [Hp|(x & [_ [= ->]]%Hin & _ & _ & <- & _)]%promised_app; [|done]. by destruct (Hu q' l' u').
  - by intros b' (x & w & [_ [=]]%Hin & _).
  - by intros b' st d w (x & [_ [=]]%Hin & _).
  - by intros b' c (x & [_ [=]]%Hin & _).
Qed.

Lemma runs_check_ballot_valid m reject s (Q : bool -> node -> Prop) : J s ->
  (forall seed s', frame s s' -> quiet restarts i s' (Packet (s'.(mono_) - off i) (reject seed s'))) ->
  (forall s', J s' -> Q false s') ->
  (s.(acceptor_).(acceptor_ballot_number_) <= ElectionMsgBase.ballot_number_ m -> Q true s) ->
  runs (check_ballot_valid v m reject) Q s.
Proof.
  intros I Hreject HQ HQ'. apply runs_bind, runs_reads.
  destruct (Z.ltb_spec (ElectionMsgBase.ballot_number_ m) (acceptor_ballot_number_ (acceptor_ s))).
  - apply runs_bind, runs_seed. intros seed s1 F. apply runs_bind, runs_reads, runs_bind, runs_send_quiet.
    + by apply (J_frame s).
    + by apply Hreject.
    + intros x s2 I2 _. by apply runs_ret, HQ.
  - by apply runs_ret, HQ'.
Qed.

Lemma runs_open_time_window b s (Q : Z -> node -> Prop) : J s ->
  (forall x s', J s' -> Q x s') -> runs (open_time_window v b) Q s.
Proof.
  intros I HQ. apply runs_bind, runs_update, runs_bind, runs_update. set (s1 := set_acceptor _ (set_acceptor _ s)).
  assert (J s1) as I1.
  { apply (J_highest (set_acceptor _ s)); [|by intros []]. eapply J_frame; [|exact I]. by constructor. }
  apply runs_bind, runs_ts. intros s2 F2. pose proof (J_frame _ _ F2 I1) as I2. apply runs_bind, runs_reads, runs_bind.
  assert (forall span s3, J s3 -> runs (
    (if ob_fail (v_reschedule v span) then mret ()
     else
       seta (set_is_time_window_opened true) ;;
       clock ← getClock v;
       seta (set_last_time_window_open_ts clock)) ;;
    mret (v_reschedule v span)) Q s3) as Hk.
  { intros span s3 I3. apply runs_bind. case_match; [by apply runs_ret, runs_ret, HQ|].
    apply runs_bind, runs_update, runs_bind, runs_clock. intros c s4 F4. apply runs_update, runs_ret, HQ.
    apply (J_frame s3); [|done]. eapply frame_trans; [eapply frame_trans; [|exact F4]|]; by constructor. }
  case_match.
  - apply runs_bind, runs_ts. intros s3 F3. apply runs_ret, Hk. by apply (J_frame s2).
  - by apply runs_ret, Hk.
Qed.

Lemma runs_keep_highest r s (Q : () -> node -> Prop) : J s ->
  asked N0 (ElectionMsgBase.sender_ (PrepareRequest.base r)) (ElectionMsgBase.ballot_number_ (PrepareRequest.base r)) ->
  ElectionMsgBase.restart_counter_ (PrepareRequest.base r) = restarts (ElectionMsgBase.sender_ (PrepareRequest.base r)) ->
  (forall s', J s' -> Q () s') -> runs (keep_highest_priority v r) Q s.
Proof.
  intros I Ha Hr HQ. apply runs_bind, runs_reads. cbn zeta.
  assert (runs (seta (set_highest_priority_prepare_req r)) Q s) as Hkeep.
  { apply runs_update, HQ. apply J_highest; [done|]. intros _. split; [|done]. eapply asked_mono; [apply N0_told | done]. }
  apply runs_if; intros _; [by apply runs_ret, HQ|]. do 2 (apply runs_if; intros _; [exact Hkeep|]).
  apply runs_if; intros _; [by apply runs_ret, HQ|]. apply runs_if; intros _; [exact Hkeep | by apply runs_ret, HQ].
Qed.

Lemma runs_acceptor_on_prepare_request r s (Q : () -> node -> Prop) : J s ->
  asked N0 (ElectionMsgBase.sender_ (PrepareRequest.base r)) (ElectionMsgBase.ballot_number_ (PrepareRequest.base r)) ->
  ElectionMsgBase.restart_counter_ (PrepareRequest.base r) = restarts (ElectionMsgBase.sender_ (PrepareRequest.base r)) ->
  (forall s', J s' -> Q () s') -> runs (acceptor_on_prepare_request v r) Q s.
Proof.
  intros I Ha Hr HQ. apply runs_bind, runs_silence. intros silent s1 F. pose proof (J_frame _ _ F I) as I1.
  apply runs_bind, runs_reads. cbn zeta. do 3 (case_match; [by apply runs_ret, HQ|]).
  apply runs_bind, runs_check_ballot_valid; [done | | |].
  - intros seed s' F'. split_and!; try done. cbn. rewrite (frame_self _ _ F'). apply I1.
  - intros s' I'. by apply runs_ret, HQ.
  - intros Hb. cbn. case_bool_decide.
    + apply runs_bind, runs_reads. destruct (Z.leb_spec (ElectionMsgBase.ballot_number_ (PrepareRequest.base r))
        (acceptor_ballot_number_ (acceptor_ s1))); [by apply runs_ret, HQ|].
      apply runs_bind, runs_acceptor_advance; [done | lia|]. intros s2 I2 Eb Hu _.
      apply runs_send_vote; [done | | done | by rewrite Eb | done].
      rewrite Eb. eapply asked_mono; [apply N0_told | done].
    + apply runs_bind, runs_reads, runs_bind.
      assert (forall s2, J s2 -> runs (a ← geta id;
        ret ← (if negb a.(is_time_window_opened_)
                  && (a.(ballot_of_time_window_) <? ElectionMsgBase.ballot_number_ (PrepareRequest.base r))
               then open_time_window v (ElectionMsgBase.ballot_number_ (PrepareRequest.base r)) else mret OB_SUCCESS);
        opened ← geta is_time_window_opened_;
        if ob_succ ret && (opened : bool) then keep_highest_priority v r else mret ()) Q s2) as Hk.
      { intros s2 I2. apply runs_bind, runs_reads, runs_bind.
        assert (forall ret s3, J s3 -> runs (opened ← geta is_time_window_opened_;
          if ob_succ ret && (opened : bool) then keep_highest_priority v r else mret ()) Q s3) as Hk.
        { intros ret s3 I3. apply runs_bind, runs_reads. case_match; [by apply runs_keep_highest | by apply runs_ret, HQ]. }
        case_match; [by apply runs_open_time_window | by apply runs_ret, Hk]. }
      case_match; [|by apply runs_ret, Hk]. apply runs_reset_time_window; [done | auto].
Qed.

Lemma runs_close_time_window s (Q : () -> node -> Prop) : J s ->
  (forall s', J s' -> Q () s') -> runs (close_time_window v) Q s.
Proof.
  intros I HQ. apply runs_bind, runs_reads, runs_bind.
  assert (forall s', J s' -> runs (seta (set_is_time_window_opened false)) Q s') as Hk.
  { intros s' I'. apply runs_update, HQ. eapply J_frame; [|exact I']. by constructor. }
  case_match eqn:Hc; [|by apply runs_ret, Hk]. apply andb_true_iff in Hc as [Eb%Z.eqb_eq Hlt%Z.ltb_lt]. unfold id in *.
  set (b := ballot_of_time_window_ (acceptor_ s)) in *.
  pose proof (unpromised_above _ _ I Hlt) as Hu. pose proof (ni_accepted _ _ _ _ _ _ I).
  destruct (ni_highest _ _ _ _ _ _ I) as [Ha Hr]; [lia|]. rewrite <- Eb in Ha.
  apply runs_bind, runs_update. set (s1 := set_acceptor _ s).
  assert (J s1) as I1 by (apply J_accepted; [done | lia]). apply runs_bind, runs_ts. intros s2 F2.
  pose proof (J_frame _ _ F2 I1) as I2. pose proof (told_frame _ _ F2) as Et. pose proof (frame_lease _ _ F2) as El.
  pose proof (frame_accepted _ _ F2) as Ea. apply runs_bind.
  destruct (Lease.is_expired _ _) eqn:Hx.
  - apply runs_update, runs_send_vote; [| | done | |done].
    + apply J_lease_reset; [done|]. rewrite El. by apply Z.ltb_lt.
    + change (asked (told s2) (ElectionMsgBase.sender_ (PrepareRequest.base (highest_priority_prepare_req_ (acceptor_ s))))
                (acceptor_ballot_number_ (acceptor_ s2))). by rewrite Ea, Et.
    + cbn. rewrite Ea. apply (unpromised_keeps s); [exact Et | cbn; by rewrite El | done].
  - apply runs_ret, runs_send_vote; [done | by rewrite Ea, Et | done | | done].
    rewrite Ea. apply (unpromised_keeps s); [exact Et | by rewrite El | done].
Qed.

Lemma runs_time_window_task s (Q : () -> node -> Prop) : J s ->
  (forall s', J s' -> Q () s') -> runs (time_window_task v) Q s.
Proof.
  intros I HQ. apply runs_bind, runs_ts. intros s1 F. pose proof (J_frame _ _ F I) as I1.
  apply runs_bind, runs_reads. cbn zeta. unfold id. set (valid := negb (Lease.is_expired _ _)). apply runs_bind.
  assert (forall s2, J s2 -> runs (seta (set_last_record_lease_valid_state valid)) Q s2) as Hlast.
  { intros s2 I2. apply runs_update, HQ. eapply J_frame; [|exact I2]. by constructor. }
  assert (forall s2, J s2 -> runs (
    seta (fun a => set_last_record_lease_owner (Lease.owner_ a.(lease_)) a) ;;
    (if (acceptor_ s1).(is_time_window_opened_) then
       if (acceptor_ s1).(last_record_lease_valid_state) && negb valid then close_time_window v
       else
         clock ← getClock v;
         if CALCULATE_TIME_WINDOW_SPAN_TS v <=? clock - (acceptor_ s1).(last_time_window_open_ts_)
         then close_time_window v else mret ()
     else mret ()) ;;
    seta (set_last_record_lease_valid_state valid)) Q s2) as Hk.
  { intros s2 I2. apply runs_bind, runs_update, runs_bind. set (s3 := set_acceptor _ s2).
    assert (J s3) as I3 by (eapply J_frame; [|exact I2]; by constructor).
    case_match; [|by apply runs_ret, Hlast]. case_match; [by apply runs_close_time_window|].
    apply runs_bind, runs_clock. intros c s4 F4. pose proof (J_frame _ _ F4 I3).
    case_match; [by apply runs_close_time_window | by apply runs_ret, Hlast]. }
  destruct (negb (eqb _ valid) && negb valid) eqn:Hc; [|by apply runs_ret, Hk].
  apply runs_update, Hk. apply J_lease_reset; [done|].
  apply andb_true_iff in Hc as [_ Hx]. apply Z.ltb_lt. unfold valid in Hx. by rewrite negb_involutive in Hx.
Qed.

(** The answer that grants the lease. *)
Lemma runs_send_grant m s p b st d w (Q : Z -> node -> Prop) : J s ->
  s.(acceptor_).(acceptor_ballot_number_) = b -> Lease.owner_ s.(acceptor_).(lease_) = p -> p ∈ members ->
  Lease.ballot_number_ s.(acceptor_).(lease_) = b ->
  st - off p + d <= Lease.lease_end_ts_ s.(acceptor_).(lease_) - off i -> requested (told s) p b st d w -> w <= time_of off i s ->
  ElectionMsgBase.sender_ (AcceptResponse.base m) = i -> ElectionMsgBase.receiver_ (AcceptResponse.base m) = p ->
  ElectionMsgBase.restart_counter_ (AcceptResponse.base m) = restarts p ->
  ElectionMsgBase.ballot_number_ (AcceptResponse.base m) = b ->
  AcceptResponse.lease_started_ts_on_proposer_ m = st -> AcceptResponse.lease_interval_ m = d ->
  (forall x s', J s' -> Q x s') -> runs (send_ v (MsgAcceptResponse m)) Q s.
Proof.
  intros I Ea Eo Hp Eb He Hr Hw Ms Mr Mc Mb Mst Md HQ.
  assert (ObAddr.is_valid p = true) as Hv.
  { pose proof (conf_valid _ conf) as Hc. rewrite Forall_forall in Hc. auto. }
  assert (forall t x, Packet t x ∈ [Packet (time_of off i s) (MsgAcceptResponse m)] ->
            t = time_of off i s /\ x = MsgAcceptResponse m) as Hin.
  { by intros t x [= -> ->]%list_elem_of_singleton. }
  apply runs_send; [done | done | | intros x s' I' _; by apply HQ]. constructor.
  - intros t x [_ ->]%Hin _. unfold counter_ok. cbn. by rewrite Mr.
  - intros p' b' st' d' r (x & [-> [= ->]]%Hin & _ & _ & <- & <- & <- & <-). rewrite Mr, Mb, Mst, Md. split_and!.
    + lia.
    + done.
    + right. by rewrite Eo, Eb.
    + by exists w.
    + intros q b' l u [Hq|(x & [_ [=]]%Hin & _)]%promised_app. apply (ni_promised _ _ _ _ _ _ I) in Hq as (? & _). lia.
  - by intros q b' l u (x & [_ [=]]%Hin & _).
  - by intros b' (x & w' & [_ [=]]%Hin & _).
  - by intros b' st' d' w' (x & [_ [=]]%Hin & _).
  - by intros b' c (x & [_ [=]]%Hin & _).
Qed.

Lemma set_accepted_fields b priority m ret m' : AcceptResponse.set_accepted b priority m = (ret, m') ->
  AcceptResponse.base m' = ElectionMsgBase.set_ballot b (AcceptResponse.base m) /\
  AcceptResponse.lease_started_ts_on_proposer_ m' = AcceptResponse.lease_started_ts_on_proposer_ m /\
  AcceptResponse.lease_interval_ m' = AcceptResponse.lease_interval_ m.
Proof. unfold AcceptResponse.set_accepted. destruct priority as [[c buffer]|]; by intros [= _ <-]. Qed.

(** From the update of the lease on. *)
Lemma runs_grant r b w s (Q : Z -> node -> Prop) : J s ->
  let base := AcceptRequest.base r in
  let p := ElectionMsgBase.sender_ base in
  ElectionMsgBase.ballot_number_ base = b -> s.(acceptor_).(acceptor_ballot_number_) = b -> p ∈ members ->
  ElectionMsgBase.restart_counter_ base = restarts p ->
  requested (told s) p b (AcceptRequest.lease_start_ts_on_proposer_ r) (AcceptRequest.lease_interval_ r) w ->
  AcceptRequest.lease_start_ts_on_proposer_ r - off p <= w -> w <= time_of off i s ->
  (forall x s', J s' -> Q x s') ->
  runs (ts ← get_monotonic_ts v;
    lease ← geta lease_;
    assert (Lease.ballot_number_ lease <=? ElectionMsgBase.ballot_number_ base) ;;
    seta (set_lease (Lease.update_from ts (ElectionMsgBase.sender_ base) (AcceptRequest.lease_interval_ r)
                       (ElectionMsgBase.ballot_number_ base) lease)) ;;
    lease ← geta lease_;
    ts ← get_monotonic_ts v;
    seed ← generate_inner_priority_seed_ v;
    '(ret, accept_res_accept) ← reads (fun s =>
      AcceptResponse.set_accepted s.(acceptor_).(acceptor_ballot_number_) (get_priority_ v s)
        (AcceptResponse.make s.(self_addr_) seed (get_membership_version_ s)
           (get_ls_biggest_min_cluster_version_ever_seen_ v s) r));
    (if ob_fail ret then mret () else send_ v (MsgAcceptResponse accept_res_accept) ;; mret ()) ;;
    mret (Lease.lease_end_ts_ lease - ts)) Q s.
Proof.
  intros I base p Eb Ea Hp Hc Hr Hst Hw HQ. apply runs_bind, runs_ts. intros s1 F1. pose proof (J_frame _ _ F1 I) as I1.
  pose proof (frame_now _ _ F1) as Hm1. pose proof (frame_accepted _ _ F1) as Ea1. rewrite <- (told_frame _ _ F1) in Hr.
  apply runs_bind, runs_reads, runs_bind, runs_assert.
  { apply Z.leb_le. pose proof (ni_lease_ballot _ _ _ _ _ _ I1). lia. }
  apply runs_bind, runs_update. set (s2 := set_acceptor _ s1).
  assert (J s2) as I2.
  { apply (J_lease_update s1 _ _ (AcceptRequest.lease_start_ts_on_proposer_ r) _ w); [done | done | lia | | lia].
    by rewrite Eb. }
  apply runs_bind, runs_reads, runs_bind, runs_ts. intros s3 F3. apply runs_bind, runs_seed. intros seed s4 F4.
  pose proof (frame_trans _ _ _ F3 F4) as F. pose proof (J_frame _ _ F I2) as I4.
  apply runs_bind, runs_reads. destruct (AcceptResponse.set_accepted _ _ _) as [ret m] eqn:Em. apply runs_bind.
  case_match; [by apply runs_ret, runs_ret, HQ|]. apply set_accepted_fields in Em as (Mb & Mst & Md).
  pose proof (frame_lease _ _ F) as El. pose proof (frame_accepted _ _ F) as Ea4. apply runs_bind.
  eapply (runs_send_grant m s4 p b _ _ w); rewrite ?Mb, ?El, ?Ea4; try done.
  - cbn. lia.
  - cbn. unfold time_of in *. lia.
  - by rewrite (told_frame _ _ F).
  - pose proof (frame_now _ _ F) as Hm. change (time_of off i s2) with (time_of off i s1) in Hm. lia.
  - cbn. rewrite (frame_self _ _ F). apply I1.
  - cbn. rewrite Ea1. done.
  - intros x s5 I5. by apply runs_ret, runs_ret, HQ.
Qed.

Lemma runs_on_accept_request r s (Q : Z -> node -> Prop) : J s ->
  msg_ok off ml restarts i N0 (time_of off i s) (MsgAcceptRequest r) ->
  (forall x s', J s' -> Q x s') -> runs (on_accept_request v r) Q s.
Proof.
  intros I (Hm & Hc & w & Hr & Hst & Hw) HQ. cbn in *. apply runs_bind, runs_silence. intros silent s1 F.
  pose proof (J_frame _ _ F I) as I1. pose proof (frame_now _ _ F) as Ht. destruct silent; [by apply runs_ret, HQ|].
  apply runs_bind, runs_check_ballot_valid; [done | | |].
  - intros seed s' F'. split_and!; try done. cbn. rewrite (frame_self _ _ F'). apply I1.
  - intros s' I'. by apply runs_ret, HQ.
  - intros Hb. cbn. apply runs_bind, runs_reads, runs_bind.
    destruct (Z.ltb_spec (acceptor_ballot_number_ (acceptor_ s1)) (ElectionMsgBase.ballot_number_ (AcceptRequest.base r))).
    + apply runs_acceptor_advance; [done | done|]. intros s2 I2 Eb _ Ht2.
      apply (runs_grant r (ElectionMsgBase.ballot_number_ (AcceptRequest.base r)) w); try done; [|unfold time_of in *; lia]. eapply requested_mono; [apply N0_told | done].
    + apply runs_ret. apply (runs_grant r (ElectionMsgBase.ballot_number_ (AcceptRequest.base r)) w); try done; [lia | | lia]. eapply requested_mono; [apply N0_told | done].
Qed.

(** ** Calls *)
Lemma runs_check_init_and_start (k : E Z) s (Q : Z -> node -> Prop) :
  runs k Q s -> (forall x, Q x s) -> runs (check_init_and_start k) Q s.
Proof.
  intros Hk HQ. apply runs_bind, runs_reads. case_match; [by apply runs_ret|].
  apply runs_bind, runs_reads. case_match; [by apply runs_ret | done].
Qed.

Lemma runs_handle_message m s (Q : Z -> node -> Prop) : J s ->
  msg_ok off ml restarts i N0 (time_of off i s) m ->
  (forall x s', J s' -> Q x s') -> runs (handle_message v m) Q s.
Proof.
  intros I Hm HQ.
  assert (forall b (k : E Z), (forall s', J s' -> mono_ s' = mono_ s -> runs k Q s') ->
            runs (handle_message_base_ b ;; check_init_and_start k) Q s) as Hk.
  { intros b k Hk. apply runs_bind, runs_update.
    set (s1 := if ever_seen_ s <? ElectionMsgBase.version_ b then set_ever_seen (ElectionMsgBase.version_ b) s else s).
    assert (frame s s1 /\ mono_ s1 = mono_ s) as [F E] by (unfold s1; case_match; split; try done; by constructor).
    pose proof (J_frame _ _ F I) as I1. apply runs_check_init_and_start; auto. }
  destruct m as [r|r|r|r|r]; apply Hk; intros s1 I1 E; (assert (time_of off i s1 = time_of off i s) as Et
    by (unfold time_of; lia)); rewrite <- Et in Hm; clear Et Hk.
  - destruct Hm as (_ & Ha & Hr). cbn in *. apply runs_bind, runs_reads, runs_bind.
    assert (forall b s2, J s2 -> runs (acceptor_on_prepare_request v r ;;
      mret (if (b : bool) then reschedule_or_register_prepare_task_after_ v (CALCULATE_MAX_ELECT_COST_TIME v)
            else OB_SUCCESS)) Q s2) as Hk.
    { intros b s2 I2. apply runs_bind, runs_acceptor_on_prepare_request; try done. intros s3 I3. by apply runs_ret, HQ. }
    case_match; [by apply runs_proposer_on_prepare_request; auto | by apply runs_ret, (Hk false)].
  - apply runs_bind, runs_on_prepare_response; [done | done |]. intros s2 I2. by apply runs_ret, HQ.
  - apply runs_bind, runs_reads, runs_bind. case_match eqn:Hb.
    + apply runs_advance; [done | apply Z.ltb_lt in Hb; lia|]. intros s2 I2 _ E2. apply runs_bind, runs_on_accept_request;
        [done | unfold time_of in *; by rewrite E2 |]. intros x s3 I3. by apply runs_ret, HQ.
    + apply runs_ret, runs_bind, runs_on_accept_request; [done | done |]. intros x s3 I3. by apply runs_ret, HQ.
  - apply runs_bind, runs_on_accept_response; [done | done |]. intros s2 I2. by apply runs_ret, HQ.
  - apply runs_bind, runs_on_change_leader; [done | done |]. intros s2 I2. by apply runs_ret, HQ.
Qed.

Lemma runs_check_init (k : E Z) s (Q : Z -> node -> Prop) :
  runs k Q s -> (forall x, Q x s) -> runs (check_init k) Q s.
Proof. intros Hk HQ. apply runs_bind, runs_reads. case_match; [by apply runs_ret | done]. Qed.

(** Every call keeps the invariant, and does not abort. *)
Lemma runs_call c s : J s -> (forall m, c = Deliver m -> msg_ok off ml restarts i N0 (time_of off i s) m) ->
  runs (run_call v c) (fun _ s' => J s') s.
Proof.
  intros I Hm.
  assert (forall (f : node -> node) (Q : () -> node -> Prop), (forall s, frame s (f s)) ->
            (forall s', J s' -> Q () s') -> forall s', J s' -> runs (update f) Q s') as Hup.
  { intros f Q F HQ s' I'. apply runs_update, HQ. by apply (J_frame s'). }
  destruct c as [m| | | |dst| | |us|bit|bit|seed| |addr|ver|]; unfold run_call.
  - apply runs_bind, runs_handle_message; auto.
  - by apply runs_devote_task.
  - by apply runs_renew_lease_task.
  - by apply runs_time_window_task.
  - apply runs_bind. unfold change_leader_to. case_match; [done|]. apply runs_check_init; [|done].
    by apply runs_change_leader_to.
  - apply runs_bind, runs_bind, runs_reads. case_match; [done|]. apply runs_bind, Hup; [by constructor | done | done].
  - apply runs_bind, runs_check_init; [|done]. apply runs_bind, Hup; [by constructor | done | done].
  - apply runs_bind, runs_check_init; [|done]. apply runs_bind, runs_ts. intros s1 F.
    apply runs_bind, Hup; [by constructor | done | by apply (J_frame s)].
  - apply runs_bind, runs_check_init; [|done]. apply runs_bind, runs_reads. case_match; [done|].
    apply runs_bind, Hup; [by constructor | done | done].
  - apply runs_bind, runs_check_init; [|done]. apply runs_bind, runs_reads. case_match; [done|].
    apply runs_bind, Hup; [by constructor | done | done].
  - apply runs_bind, runs_bind, Hup; [by constructor | done | done].
  - apply runs_bind, runs_bind, runs_check_leader. intros b s1 F. by apply (J_frame s).
  - apply runs_bind, runs_bind, runs_check_leader. intros b s1 F. pose proof (J_frame _ _ F I) as I1.
    apply runs_bind, runs_reads. destruct b; [done|]. apply runs_bind, runs_ts. intros s2 F2.
    pose proof (J_frame _ _ F2 I1). apply runs_bind, runs_reads. case_match; done.
  - apply runs_bind. unfold election_can_set_memberlist. case_match; [done|]. apply runs_check_init; [|done].
    by apply runs_can_set_memberlist.
  - apply runs_bind, runs_reads, runs_bind, Hup; [by constructor | | done]. intros s1 I1. case_match; [done|].
    apply runs_bind, Hup; [by constructor | | done]. intros s2 I2. by apply runs_proposer_stop.
Qed.
End steps.
