(* ===== verification/ElectionSafety.v ===== *)
(** * At most one leader

    The invariant of [ElectionInv] for all nodes of a system, and what follows from
    it: two nodes never hold the lease at the same time, and a later leader has a
    larger epoch. *)

From Stdlib Require Import ZArith Lia Bool.
From stdpp Require Import base countable numbers option gmap relations list.
From S2P Require Import Prelude ElectionUtils Election ElectionSystem ElectionInv ElectionSteps.
Import AbortMonad.

Local Open Scope Z_scope.

Section safety.
Context (off : ObAddr.t -> Z) (ml : MemberList.t).
Hypothesis conf : configuration ml.

Abbreviation members := (MemberList.addr_list_ ml).

Record system_inv (restarts : ObAddr.t -> Z) (S : system) : Prop := {
  si_nodes : forall j s, S.(nodes) !! j = Some s -> node_inv off ml restarts j S.(net) s /\ s.(outbox_) = [];
  si_net : forall t m, Packet t m ∈ S.(net) -> exists s, S.(nodes) !! sender m = Some s }.

(** ** The invariant holds *)

Lemma started_inv restarts i s : i ∈ members -> started ml i s -> restarts i = s.(proposer_).(restart_counter_) ->
  node_inv off ml restarts i [] s.
Proof.
  intros Hi (Hp & Ha & Hs & Ho & Hm) Hr.
  assert (forall x, x ∈ ([] : list packet) -> False) as Hnil by (by intros x Hx%not_elem_of_nil).
  constructor; rewrite ?Ha, ?Hs, ?Ho; try done; try (rewrite Hp; cbn; unfold MemberListWithStates.init_array_; by rewrite ?length_replicate).
  - by intros t m Hx%Hnil.
  - by intros p b st d r (m & Hx%Hnil & _).
  - by intros q b l u (m & Hx%Hnil & _).
  - by intros q b l u p b' st d r (m & Hx%Hnil & _).
  - by intros q q' b l l' u u' (m & Hx%Hnil & _).
  - by right.
  - rewrite Hp. by right.
  - by intros b (m & w & Hx%Hnil & _).
  - by intros b st d w (m & Hx%Hnil & _).
  - by intros b c (m & Hx%Hnil & _).
  - rewrite Hp. intros k Hk. by apply lookup_replicate in Hk as [? _].
  - rewrite Hp. intros k ts Hk Hts. apply lookup_replicate in Hk as [-> _]. lia.
Qed.

Lemma election_initial_inv S : initial ml S -> exists restarts, system_inv restarts S.
Proof.
  intros [Hn Hs].
  exists (fun i => from_option (fun s => s.(proposer_).(restart_counter_)) 0 (S.(nodes) !! i)).
  constructor; rewrite Hn; [|by intros t m ?%not_elem_of_nil].
  intros j s Hj. destruct (Hs j s Hj) as [Hm Hst]. split; [|apply Hst]. apply started_inv; [done | done |]. by rewrite Hj.
Qed.

(** Messages from the network may be handled. *)
Lemma net_msg_ok restarts S i t m now : system_inv restarts S -> Packet t m ∈ S.(net) ->
  ElectionMsgBase.receiver_ (msg_base m) = i -> t <= now -> msg_ok off ml restarts i S.(net) now m.
Proof.
  intros [Hnodes Hnet] Hm Hi Ht. destruct (Hnet _ _ Hm) as [s Hs]. destruct (Hnodes _ _ Hs) as [I _].
  pose proof (ni_counter _ _ _ _ _ _ I t m Hm eq_refl) as Hc. split; [apply I|].
  destruct m as [r|r|r|r|r]; unfold counter_ok in Hc; cbn in *; rewrite ?Hi in Hc.
  - split; [by exists r, t | done].
  - split; [done|]. intros Ha.
    assert (promised S.(net) (ElectionMsgBase.sender_ (PrepareResponse.base r)) i
              (ElectionMsgBase.ballot_number_ (PrepareResponse.base r)) (PrepareResponse.lease_ r) t) as Hp by (by exists r).
    destruct (ni_promised _ _ _ _ _ _ I _ _ _ _ Hp) as (_ & _ & Hwf & _ & Hask & _). eauto.
  - split; [done|]. exists t.
    assert (requested S.(net) (ElectionMsgBase.sender_ (AcceptRequest.base r))
              (ElectionMsgBase.ballot_number_ (AcceptRequest.base r)) (AcceptRequest.lease_start_ts_on_proposer_ r)
              (AcceptRequest.lease_interval_ r) t) as Hr by (by exists r).
    by destruct (ni_requested _ _ _ _ _ _ I _ _ _ _ Hr) as (_ & Hst & _).
  - split; [done|]. intros Ha.
    assert (granted S.(net) (ElectionMsgBase.sender_ (AcceptResponse.base r)) i
              (ElectionMsgBase.ballot_number_ (AcceptResponse.base r)) (AcceptResponse.lease_started_ts_on_proposer_ r)
              (AcceptResponse.lease_interval_ r) t) as Hg by (by exists r).
    destruct (ni_granted _ _ _ _ _ _ I _ _ _ _ _ Hg) as (_ & _ & _ & w & Hw & _). eauto.
  - exists t. split; [by exists r | done].
Qed.

(** A call on one node: it ends, and the invariant holds after it. *)
Lemma election_call_inv restarts S i s d v c : system_inv restarts S -> S.(nodes) !! i = Some s -> 0 <= d ->
  enabled off S i (set_mono (s.(mono_) + d) s) c ->
  runs (run_call v c) (fun _ s' => system_inv restarts (after off S i s')) (set_mono (s.(mono_) + d) s).
Proof.
  intros HS Hs Hd He. destruct (si_nodes _ _ HS _ _ Hs) as [I Ho].
  assert (frame s (set_mono (s.(mono_) + d) s)) as F by (constructor; cbn; [done | lia | done]).
  eapply runs_mono; [apply (runs_call v off ml restarts i S.(net) conf c)|].
  - eapply J_frame; [exact F|]. unfold told, sent_by. by rewrite Ho, app_nil_r.
  - intros m ->. destruct He as (t & Hm & Hi & Ht). by eapply net_msg_ok.
  - intros [] s' I'. constructor.
    + intros j sj. cbn. intros [[<- <-]|[Hij Hj]]%lookup_insert_Some.
      * split; [|done]. destruct I'. by constructor.
      * destruct (si_nodes _ _ HS _ _ Hj) as [Ij Hoj]. split; [|done].
        eapply inv_news; [exact Ij | apply others_news | done | done | by rewrite Hoj].
        intros t m ([ts m'] & [= -> ->] & Hin)%list_elem_of_fmap. pose proof (ni_outbox _ _ _ _ _ _ I') as Hout.
        rewrite Forall_forall in Hout. specialize (Hout _ Hin). cbn in Hout. rewrite Hout. done.
    + intros t m [Hm|Hm]%elem_of_app.
      * destruct (si_net _ _ HS _ _ Hm) as [sj Hj]. cbn. destruct (decide (i = sender m)) as [->|Hne];
          [rewrite lookup_insert_eq | rewrite lookup_insert_ne by done]; eauto.
      * apply list_elem_of_fmap in Hm as ([ts m'] & [= -> ->] & Hin). pose proof (ni_outbox _ _ _ _ _ _ I') as Hout.
        rewrite Forall_forall in Hout. specialize (Hout _ Hin). cbn in Hout. rewrite Hout. cbn. rewrite lookup_insert_eq. eauto.
Qed.

Lemma election_step_inv restarts S S' : system_inv restarts S -> step off S S' -> system_inv restarts S'.
Proof. intros HS [i s d v c s' Hs Hd He Hc]. eapply runs_Some in Hc; [exact Hc | by apply election_call_inv]. Qed.

Lemma election_reachable_inv S : reachable off ml S -> exists restarts, system_inv restarts S.
Proof. induction 1 as [S H|S S' _ [restarts IH] Hst]; [by apply election_initial_inv | exists restarts; by eapply election_step_inv]. Qed.

(** ** Ballots and leases *)
Section ballots.
Context (restarts : ObAddr.t -> Z) (S : system).
Hypothesis HS : system_inv restarts S.

Abbreviation N := S.(net).

Lemma speaker_inv t m : Packet t m ∈ N -> exists s, S.(nodes) !! sender m = Some s /\ node_inv off ml restarts (sender m) N s.
Proof. intros Hm. destruct (si_net _ _ HS _ _ Hm) as [s Hs]. exists s. split; [done|]. by apply (si_nodes _ _ HS). Qed.

Lemma promised_inv a q b l u : promised N a q b l u -> exists s, node_inv off ml restarts a N s.
Proof. intros (m & Hm & _ & <- & _). destruct (speaker_inv _ _ Hm) as (s & _ & I). by exists s. Qed.

Lemma granted_requested a p b st d r : granted N a p b st d r -> exists w, requested N p b st d w /\ w <= r.
Proof.
  intros Hg. pose proof Hg as (m & Hm & _ & <- & _). destruct (speaker_inv _ _ Hm) as (s & _ & I).
  by destruct (ni_granted _ _ _ _ _ _ I _ _ _ _ _ Hg) as (_ & _ & _ & Hw).
Qed.

Lemma requested_won p b st d w : requested N p b st d w ->
  won ml N p b w /\ exists s, S.(nodes) !! p = Some s /\ w <= time_of off p s.
Proof.
  intros Hr. pose proof Hr as (m & Hm & <- & _). destruct (speaker_inv _ _ Hm) as (s & Hs & I).
  destruct (ni_requested _ _ _ _ _ _ I _ _ _ _ Hr) as (_ & _ & Hw & Hwon). eauto.
Qed.

Lemma quorums_meet Q1 Q2 : quorum members (MemberList.replica_num_ ml) Q1 -> quorum members (MemberList.replica_num_ ml) Q2 ->
  exists a, a ∈ Q1 /\ a ∈ Q2.
Proof. apply quorum_meet, conf. Qed.

(** A ballot has one winner. *)
Lemma won_unique p q b w w' : won ml N p b w -> won ml N q b w' -> p = q.
Proof.
  intros (Q1 & HQ1 & H1) (Q2 & HQ2 & H2). destruct (quorums_meet Q1 Q2) as (a & Ha1 & Ha2); [done | done |].
  destruct (H1 a Ha1) as (l & u & Hp & _). destruct (H2 a Ha2) as (l' & u' & Hp' & _).
  destruct (promised_inv _ _ _ _ _ Hp) as (s & I). by eapply (ni_one_vote _ _ _ _ _ _ I).
Qed.

(** A lease was asked for. *)
Lemma leased_requested p b E : leased ml N p b E -> exists st d w, requested N p b st d w.
Proof.
  intros (Q & HQ & H). destruct (quorums_meet Q Q) as (a & Ha & _); [done | done |].
  destruct (H a Ha) as (st & d & r & Hg & _). destruct (granted_requested _ _ _ _ _ _ Hg) as (w & Hw & _). eauto.
Qed.

Lemma leased_won p b E : leased ml N p b E -> exists w, won ml N p b w.
Proof. intros (st & d & w & Hr)%leased_requested. apply requested_won in Hr as [Hw _]. eauto. Qed.

(** Whoever asks for a lease in a later ballot does so when the earlier leases of
    others have ended or were given up. *)
Lemma later_request p b E : leased ml N p b E -> forall b' q st d w, b < b' -> q <> p -> requested N q b' st d w ->
  E - off p < w \/ exists B c, resigned N p B c /\ b <= B /\ c <= w.
Proof.
  intros Hl b'. remember (Z.to_nat (b' - b)) as n eqn:En. revert b' En.
  induction (lt_wf n) as [n _ IH]. intros b' -> q st d w Hb Hq Hr.
  assert (forall x b1 st1 d1 w1, b <= b1 < b' -> x <> p -> requested N x b1 st1 d1 w1 -> w1 <= w ->
            E - off p < w \/ exists B c, resigned N p B c /\ b <= B /\ c <= w) as Hearlier.
  { intros x b1 st1 d1 w1 Hb1 Hx Hr1 Hw1. destruct (decide (b1 = b)) as [->|Hne].
    - destruct Hx. destruct (leased_won _ _ _ Hl) as [w2 Hw2]. destruct (requested_won _ _ _ _ _ Hr1) as [Hw3 _].
      by eapply won_unique.
    - destruct (IH (Z.to_nat (b1 - b))) with b1 x st1 d1 w1 as [He|(B & c & Hc & HB & Hcw)]; [lia | done | lia | done | done | |].
      + left. lia.
      + right. exists B, c. split_and!; [done | done | lia]. }
  destruct (requested_won _ _ _ _ _ Hr) as [(Q1 & HQ1 & H1) _]. pose proof Hl as (Q2 & HQ2 & H2).
  destruct (quorums_meet Q1 Q2) as (a & Ha1 & Ha2); [done | done |].
  destruct (H1 a Ha1) as (l & u & Hp & Hu & Hperm). destruct (H2 a Ha2) as (st0 & d0 & r & Hg & He).
  destruct (promised_inv _ _ _ _ _ Hp) as (s & I).
  destruct (ni_remembered _ _ _ _ _ _ I _ _ _ _ _ _ _ _ _ Hp Hg Hb) as (_ & [Hend|(Hv & Hlb)]); [left; lia|].
  destruct (ni_promised _ _ _ _ _ _ I _ _ _ _ Hp) as (_ & _ & _ & Hlb' & _ & Hown).
  destruct (Hown Hv) as (st1 & d1 & w1 & Hr1 & Hw1). destruct Hperm as [Hem|[Eq|(c & Hc & Hcw)]].
  - unfold Lease.is_empty in Hem. by rewrite Hv in Hem.
  - apply (Hearlier (Lease.owner_ l) (Lease.ballot_number_ l) st1 d1 w1); [lia | by rewrite Eq | exact Hr1 | lia].
  - destruct (decide (Lease.owner_ l = p)) as [Eo|Hne].
    + right. rewrite Eo in Hc. by exists (Lease.ballot_number_ l), c.
    + apply (Hearlier (Lease.owner_ l) (Lease.ballot_number_ l) st1 d1 w1); [lia | exact Hne | exact Hr1 | lia].
Qed.

(** While a node has held the lease without a break, nobody else had one. *)
Lemma held_alone p e b E : held off ml N p e b E -> (forall B c, resigned N p B c -> B < e) ->
  forall q x E', q <> p -> e <= x <= b -> leased ml N q x E' -> False.
Proof.
  intros Hh Hres q x E' Hq Hx Hl.
  induction Hh as [E Hle|b E b' E'' T Hh IH Hb HT Hw Hle].
  - assert (x = e) as -> by lia. destruct Hq. destruct (leased_won _ _ _ Hl), (leased_won _ _ _ Hle). by eapply won_unique.
  - destruct (decide (x <= b)) as [|Hxb]; [apply IH; lia|]. destruct (decide (x = b')) as [->|Hne].
    { destruct Hq. destruct (leased_won _ _ _ Hl). by eapply won_unique. }
    destruct (held_leased _ _ _ _ _ _ _ Hh) as (Heb & Hlb & _). pose proof Hw as (Q1 & HQ1 & H1).
    destruct Hl as (Q2 & HQ2 & H2). destruct (quorums_meet Q1 Q2) as (a & Ha1 & Ha2); [done | done |].
    destruct (H1 a Ha1) as (l & u & Hp & Hu & _). destruct (H2 a Ha2) as (st & d & r & Hg & _).
    destruct (promised_inv _ _ _ _ _ Hp) as (s & I).
    destruct (ni_remembered _ _ _ _ _ _ I _ _ _ _ _ _ _ _ _ Hp Hg) as (Hru & _); [lia|].
    destruct (granted_requested _ _ _ _ _ _ Hg) as (w & Hr & Hwr).
    destruct (later_request _ _ _ Hlb x q st d w) as [He|(B & c & Hc & HB & _)]; [lia | done | done | lia |].
    specialize (Hres _ _ Hc). lia.
Qed.
End ballots.

(** ** Leaders *)

(** A call of [check_leader] at time [t] says that [i] is the leader, with epoch [e]. *)
Definition leads (t : Z) (i : ObAddr.t) (s : node) (e : Z) : Prop :=
  time_of off i s <= t /\ exists v s', check_leader v (set_mono (t + off i) s) = Some ((true, e), s').

Lemma leads_lease t i s e : leads t i s e ->
  let l := s.(proposer_).(leader_lease_and_epoch_) in
  time_of off i s <= t /\ t + off i < LeaderLeaseAndEpoch.lease_ l /\ e = LeaderLeaseAndEpoch.epoch_ l.
Proof.
  intros (Ht & v & s' & H). injection H as Hb He _. apply Z.ltb_lt in Hb. split_and!; [done | lia | done].
Qed.

Lemma leads_held restarts S t i s e : system_inv restarts S -> S.(nodes) !! i = Some s -> leads t i s e ->
  exists b E, t < E - off i /\ held off ml S.(net) i e b E /\ (forall B c, resigned S.(net) i B c -> B < e) /\
    time_of off i s <= t.
Proof.
  intros HS Hs (Ht & Hl & ->)%leads_lease. destruct (si_nodes _ _ HS _ _ Hs) as [I _].
  pose proof (ni_time _ _ _ _ _ _ I). destruct (ni_leader _ _ _ _ _ _ I) as ((b & _ & Hh) & Hr); [unfold time_of in Ht; lia|].
  eexists b, _. split_and!; [|exact Hh|exact Hr|done]. lia.
Qed.

Lemma steps_inv restarts S S' : system_inv restarts S -> rtc (step off) S S' -> system_inv restarts S'.
Proof. intros HS. induction 1 as [|S S1 S' Hst _ IH]; [done | by apply IH, (election_step_inv _ S)]. Qed.

Lemma steps_net S S' : rtc (step off) S S' -> S.(net) ⊆ S'.(net).
Proof.
  induction 1 as [|S S1 S' [i s d v c s' Hs Hd He Hc] _ IH]; [done|]. etrans; [|exact IH]. apply sub_app.
Qed.

(** Two nodes, one of which has the lease in a state and the other in a later one. *)
Lemma epochs_differ restarts S S' i j si sj t t' e e' : system_inv restarts S -> rtc (step off) S S' ->
  S.(nodes) !! i = Some si -> S'.(nodes) !! j = Some sj -> leads t i si e -> leads t' j sj e' -> t <= t' -> i <> j -> e < e'.
Proof.
  intros HS Hsteps Hi Hj Hli Hlj Ht Hij. pose proof (steps_inv _ _ _ HS Hsteps) as HS'.
  destruct (leads_held _ _ _ _ _ _ HS Hi Hli) as (b & E & _ & Hh & _ & Hti).
  destruct (leads_held _ _ _ _ _ _ HS' Hj Hlj) as (b' & E' & HE' & Hh' & Hr' & _).
  destruct (held_leased _ _ _ _ _ _ _ Hh) as (_ & _ & E0 & Hl).
  assert (leased ml S'.(net) i e E0) as Hl' by (eapply leased_mono; [by apply steps_net | done | exact Hl]).
  destruct (decide (e < e')) as [|Hge]; [done|]. exfalso. destruct (decide (e <= b')) as [Hle|Hgt].
  - eapply (held_alone _ _ HS'); [exact Hh' | exact Hr' | exact Hij | | exact Hl']. lia.
  - destruct (leased_requested _ _ HS _ _ _ Hl) as (st & d & w & Hr).
    destruct (requested_won _ _ HS _ _ _ _ _ Hr) as (_ & s & Hs & Hw). simplify_eq.
    destruct (held_leased _ _ _ _ _ _ _ Hh') as (Heb & Hlb & _).
    destruct (later_request _ _ HS' _ _ _ Hlb e i st d w) as [Hlt|(B & c & Hc & HB & _)]; [lia | done | | lia |].
    + eapply requested_mono; [by apply steps_net | exact Hr].
    + specialize (Hr' _ _ Hc). lia.
Qed.

(** C2: in every reachable state at most one replica is the leader at any time: two
    replicas on which a call of [check_leader] at time [t] says yes are the same. *)
Theorem one_leader S t i j si sj ei ej : reachable off ml S ->
  S.(nodes) !! i = Some si -> S.(nodes) !! j = Some sj -> leads t i si ei -> leads t j sj ej -> i = j.
Proof.
  intros [restarts HS]%election_reachable_inv Hi Hj Hli Hlj. destruct (decide (i = j)) as [|Hij]; [done|]. exfalso.
  pose proof (epochs_differ _ S S i j _ _ _ _ _ _ HS (rtc_refl _ _) Hi Hj Hli Hlj (Z.le_refl t) Hij).
  assert (ej < ei) as Hlt; [|lia].
  eapply (epochs_differ _ S S j i); [done | by apply rtc_refl | done | done | done | done | lia | done].
Qed.

(** C6: epochs grow: when another replica is the leader at a later time, its epoch is
    larger than the epoch of every leader before it. *)
Theorem later_leader_has_larger_epoch S S' t t' i j si sj ei ej : reachable off ml S -> rtc (step off) S S' ->
  S.(nodes) !! i = Some si -> S'.(nodes) !! j = Some sj -> leads t i si ei -> leads t' j sj ej -> t <= t' -> i <> j -> ei < ej.
Proof. intros [restarts HS]%election_reachable_inv. by apply (epochs_differ restarts). Qed.

(** C11: no assertion of the election fails: every call on a node of a reachable state ends. *)
Theorem no_assertion_fails S i s d v c : reachable off ml S -> S.(nodes) !! i = Some s -> 0 <= d ->
  enabled off S i (set_mono (s.(mono_) + d) s) c ->
  exists s', run_call v c (set_mono (s.(mono_) + d) s) = Some ((), s').
Proof.
  intros [restarts HS]%election_reachable_inv Hs Hd He. pose proof (election_call_inv restarts S i s d v c HS Hs Hd He) as H.
  unfold runs in H. destruct (run_call v c _) as [[[] s']|]; [by exists s' | done].
Qed.

(** C19: the state of every node of a reachable system is well formed: the arrays have
    one place for every replica of the configuration, the node is a leader or a
    follower, a ballot it has won is not above its ballot, the ballot of the lease its
    acceptor has granted not above the ballot it has promised. *)
Theorem node_state_well_formed S i s : reachable off ml S -> S.(nodes) !! i = Some s ->
  let p := s.(proposer_) in
  let m := p.(memberlist_with_states_) in
  let size := Z.to_nat (MemberList.replica_num_ ml) in
  s.(self_addr_) = i /\ i ∈ members /\ MemberListWithStates.member_list_ m = ml /\
  length (MemberListWithStates.prepare_ok_ m) = size /\
  length (MemberListWithStates.accept_ok_promise_not_vote_before_local_ts_ m) = size /\
  length (MemberListWithStates.follower_renew_lease_success_membership_version_ m) = size /\
  (p.(role_) = LEADER \/ p.(role_) = FOLLOWER) /\ p.(prepare_success_ballot_) <= p.(ballot_number_) /\
  -1 <= s.(acceptor_).(acceptor_ballot_number_) /\
  Lease.ballot_number_ s.(acceptor_).(lease_) <= s.(acceptor_).(acceptor_ballot_number_).
Proof.
  intros [restarts HS]%election_reachable_inv Hs. destruct (si_nodes _ _ HS _ _ Hs) as [I _]. by destruct I.
Qed.
End safety.

(** ** A cluster of three

    [A] is elected; when its lease has ended, [B]. *)
Module Cluster.
Definition A : ObAddr.t := ObAddr.mk 1 1.
Definition B : ObAddr.t := ObAddr.mk 2 1.
Definition C : ObAddr.t := ObAddr.mk 3 1.
Definition ml : MemberList.t := MemberList.mk [A; B; C] (LogConfigVersion.mk 1 1) 3.
Definition off (a : ObAddr.t) : Z := 1000 * ObAddr.ip_ a.

Definition v : env :=
  Env (fun _ => 1%nat) (fun k => 10000000 * Z.of_nat k) (fun _ => OB_SUCCESS) (fun _ => OB_SUCCESS) true OB_SUCCESS
    1000000 0 (OB_SUCCESS, []) (fun _ _ _ _ => None) false 0 false false None true OB_SUCCESS OB_SUCCESS OB_SUCCESS.

Definition member (a : ObAddr.t) : node :=
  set_self_addr a (set_is_inited true (set_is_running true
    (set_proposer (set_restart_counter 1 (set_memberlist_with_states (member_states ml) new_proposer)) (new_node (off a))))).

Definition start : system := System (list_to_map ((fun a => (a, member a)) <$> [A; B; C])) [].

Definition elect_A : list action :=
  [Run A 20000000 DevoteTask; Receive A 100 0; Receive B 20001000 1; Run A 3000000 TimeWindowTask;
   Run B 3000000 TimeWindowTask; Receive A 2000 6; Receive A 1000 7; Receive A 100 8; Receive B 10000 9;
   Receive A 10000 11; Receive A 1000 12].

Definition elect_B : list action :=
  [Run B 30000000 DevoteTask; Receive B 100 17; Receive C 53020000 18; Run B 3000000 TimeWindowTask;
   Run C 3000000 TimeWindowTask; Receive B 30000 22; Receive B 1000 23; Receive B 100 25; Receive C 200000 26;
   Receive B 200000 27; Receive B 1000 28].

Lemma conf : configuration ml.
Proof.
  constructor; [|by repeat constructor|done]. by apply (bool_decide_unpack _).
Qed.

Lemma start_reachable : reachable off ml start.
Proof.
  apply reachable_initial. split; [done|]. intros i s Hi.
  apply elem_of_list_to_map_2, list_elem_of_fmap in Hi as (a & [= -> ->] & Ha). split; [done|].
  split_and!; try done. cbn. unfold off. repeat (apply elem_of_cons in Ha as [->|Ha]; [done|]). by apply not_elem_of_nil in Ha.
Qed.

(** [i] is the leader at time [t], with epoch [e], after the schedule. *)
Definition leader_after (schedule : list action) (S : system) (t : Z) (i : ObAddr.t) (e : Z) : bool :=
  match execute off v schedule S ≫= (fun S => S.(nodes) !! i) with
  | Some s => let l := s.(proposer_).(leader_lease_and_epoch_) in
      (time_of off i s <=? t) && (t + off i + 1 <? LeaderLeaseAndEpoch.lease_ l) && (LeaderLeaseAndEpoch.epoch_ l =? e)
  | None => false
  end.

Lemma leader_after_leads schedule S t i e : leader_after schedule S t i e = true ->
  exists S' s, rtc (step off) S S' /\ execute off v schedule S = Some S' /\ S'.(nodes) !! i = Some s /\ leads off t i s e.
Proof.
  unfold leader_after. destruct (execute off v schedule S) as [S'|] eqn:Hx; [|done]. cbn.
  destruct (S'.(nodes) !! i) as [s|] eqn:Hs; [|done].
  intros [[Ht%Z.leb_le Hl]%andb_true_iff <-%Z.eqb_eq]%andb_true_iff. exists S', s.
  split_and!; [by eapply execute_steps | done | done |]. split; [done|].
  exists v, (set_calls (Datatypes.S s.(calls_)) (set_mono (t + off i + 1) s)).
  change (check_leader v (set_mono (t + off i) s)) with
    (Some ((t + off i + 1 <? LeaderLeaseAndEpoch.lease_ s.(proposer_).(leader_lease_and_epoch_),
            LeaderLeaseAndEpoch.epoch_ s.(proposer_).(leader_lease_and_epoch_)),
           set_calls (Datatypes.S s.(calls_)) (set_mono (t + off i + 1) s))). by rewrite Hl.
Qed.
End Cluster.

Import Cluster.

Lemma one_leader_witness : exists S s,
  reachable off ml S /\ S.(nodes) !! A = Some s /\ leads off 23100000 A s 0 /\ A = A.
Proof.
  destruct (leader_after_leads elect_A start 23100000 A 0) as (S & s & Hst & _ & Hs & Hl); [by vm_compute|].
  pose proof (reachable_steps _ _ _ _ start_reachable Hst) as HS. exists S, s. split_and!; [done | done | done |].
  exact (one_leader off ml conf S 23100000 A A s s 0 0 HS Hs Hs Hl Hl).
Defined.

Lemma later_leader_has_larger_epoch_witness : exists S S' s s',
  reachable off ml S /\ rtc (step off) S S' /\ leads off 23100000 A s 0 /\ leads off 56300000 B s' 1 /\ 0 < 1.
Proof.
  destruct (leader_after_leads elect_A start 23100000 A 0) as (S & s & Hst & Hx & Hs & Hl); [by vm_compute|].
  destruct (leader_after_leads elect_B S 56300000 B 1) as (S' & s' & Hst' & _ & Hs' & Hl').
  { assert (leader_after (elect_A ++ elect_B) start 56300000 B 1 = true) as H by (by vm_compute).
    unfold leader_after in *. by rewrite execute_app, Hx in H. }
  pose proof (reachable_steps _ _ _ _ start_reachable Hst) as HS. exists S, S', s, s'. split_and!; [done | done | done | done |].
  exact (later_leader_has_larger_epoch off ml conf S S' 23100000 56300000 A B s s' 0 1 HS Hst' Hs Hs' Hl Hl'
           ltac:(done) ltac:(done)).
Defined.

Lemma no_assertion_fails_witness : exists s', run_call v DevoteTask (set_mono (off A + 20000000) (member A)) = Some ((), s').
Proof.
  apply (no_assertion_fails off ml conf start A (member A) 20000000 v DevoteTask start_reachable); done.
Defined.

Lemma node_state_well_formed_witness : exists S s, S.(nodes) !! A = Some s /\
  s.(proposer_).(prepare_success_ballot_) <= s.(proposer_).(ballot_number_).
Proof.
  destruct (leader_after_leads elect_A start 23100000 A 0) as (S & s & Hst & _ & Hs & Hl); [by vm_compute|].
  pose proof (reachable_steps _ _ _ _ start_reachable Hst) as HS. exists S, s. split; [done|].
  apply (node_state_well_formed off ml conf S A s HS Hs).
Defined.
