(* ===== verification/ElectionProgress.v ===== *)
(** * A leader takes office

    What a candidate waits for: when the answers of a majority are in, the call that
    handles the last of them makes it the leader. *)

From Stdlib Require Import ZArith Lia Bool.
From stdpp Require Import base countable numbers option gmap relations list.
From S2P Require Import Prelude ElectionUtils Election ElectionSystem ElectionInv ElectionSteps ElectionSafety.
Import AbortMonad.

Import Cluster.

Local Open Scope Z_scope.

(** ** Calls that end and do not take back a change of role *)
Definition advances {A} (m : E A) : Prop := forall s, runs m (fun _ s' => s.(role_changes_) `prefix_of` s'.(role_changes_)) s.

Lemma advances_quiet {A} (m : E A) :
  (forall s, exists x s', m s = Some (x, s') /\ role_changes_ s' = role_changes_ s) -> advances m.
Proof. intros H s. unfold runs. destruct (H s) as (x & s' & -> & ->). done. Qed.

Lemma advances_ret {A} (x : A) : advances (mret x).
Proof. intros s. by apply runs_ret. Qed.

Lemma advances_reads {A} (f : node -> A) : advances (reads f).
Proof. intros s. by apply runs_reads. Qed.

Lemma advances_update f : (forall s, role_changes_ (f s) = role_changes_ s) -> advances (update f).
Proof. intros H s. apply runs_update. by rewrite H. Qed.

Lemma advances_bind {A B} (m : E A) (f : A -> E B) : advances m -> (forall x, advances (f x)) -> advances (m ≫= f).
Proof.
  intros Hm Hf s. apply runs_bind. eapply runs_mono; [apply Hm|]. intros x s1 H1. cbn in H1.
  eapply runs_mono; [apply Hf|]. intros y s2 H2. by etrans.
Qed.

Lemma advances_getp {A} (f : proposer -> A) : advances (getp f).
Proof. apply advances_reads. Qed.

Lemma advances_setp f : advances (setp f).
Proof. by apply advances_update. Qed.

Lemma advances_callback before after reason : advances (role_change_cb_ before after reason).
Proof. intros s. apply runs_update. by apply prefix_app_r. Qed.

Section advances.
Context (v : env).

Lemma advances_ts : advances (get_monotonic_ts v).
Proof. apply advances_quiet. eauto. Qed.

Lemma advances_clock : advances (getClock v).
Proof. apply advances_quiet. eauto. Qed.

Lemma advances_send m : advances (send_ v m).
Proof. apply advances_quiet. eauto. Qed.
End advances.

Create HintDb advances.
#[local] Hint Resolve advances_ret advances_reads advances_bind advances_getp advances_setp advances_callback
  advances_ts advances_clock advances_send : advances.

(** Every step of a call. *)
Ltac advances :=
  repeat first
    [ progress intros
    | solve [auto 1 with advances nocore]
    | apply advances_bind
    | match goal with |- advances (match ?x with _ => _ end) => destruct x end
    | progress cbn zeta ].

Section progress.
Context (v : env).

Lemma advances_check_leader : advances (check_leader v).
Proof. unfold check_leader. advances. Qed.

Lemma advances_revoke reason : advances (leader_revoke_if_lease_expired_ v reason).
Proof.
  pose proof advances_check_leader. unfold leader_revoke_if_lease_expired_, clear_prepare_and_accept_states, reset_leader_lease.
  advances.
Qed.

(** The rest of a call from the state it has reached. *)
Lemma advances_from {A} (m : E A) s s1 : advances m -> role_changes_ s1 = role_changes_ s ->
  runs m (fun _ s' => s.(role_changes_) `prefix_of` s'.(role_changes_)) s1.
Proof. intros Hm <-. apply Hm. Qed.

Lemma advances_inner_change_leader_to dst : advances (inner_change_leader_to v dst).
Proof.
  intros s. pose proof (advances_revoke ChangeLeaderToRevoke). unfold inner_change_leader_to.
  apply runs_bind, runs_reads, runs_bind. unfold advance_ballot_number_and_reset_related_states_.
  apply runs_bind, runs_reads, runs_bind, runs_assert; [apply Z.leb_le; lia|].
  do 3 (apply runs_bind, runs_update). apply runs_update.
  apply advances_from; [|done]. unfold reset_leader_lease. advances.
Qed.

Lemma advances_check_cache : advances (check_cache_expired v).
Proof. unfold check_cache_expired, reset_highest_priority_cache. advances. Qed.

Lemma advances_check_follower_priority r : advances (check_follower_priority v r).
Proof.
  pose proof advances_check_cache. pose proof advances_check_leader. pose proof advances_inner_change_leader_to.
  unfold check_follower_priority, generate_inner_priority_seed_, set_highest_priority_cache, prepare_change_leader_to_,
    proposer_change_leader_to. advances.
Qed.

Lemma advances_propose : advances (propose v).
Proof.
  assert (forall f l, advances (broadcast_ v f l)) by (intros f l; apply advances_quiet; eauto).
  unfold propose. advances.
Qed.

(** The callback of the change has run. *)
Definition took_office (s : node) : Prop := exists reason, (FOLLOWER, LEADER, reason) ∈ s.(role_changes_).

Lemma took_office_prefix s s' : s.(role_changes_) `prefix_of` s'.(role_changes_) -> took_office s -> took_office s'.
Proof. intros [k E] [reason H]. exists reason. rewrite E. apply elem_of_app. by left. Qed.

Lemma advances_took_office {A} (m : E A) s : advances m -> took_office s -> runs m (fun _ s' => took_office s') s.
Proof. intros Hm Hs. eapply runs_mono; [apply Hm|]. cbn. intros x s' H. by eapply took_office_prefix. Qed.

(** The clock advances by at most [D] between two readings. *)
Context (D : Z) (elapsed : forall k, Z.of_nat (v_elapse v k) <= D).

Lemma runs_ts_bound (Q : Z -> node -> Prop) s :
  (forall s', s.(mono_) <= s'.(mono_) <= s.(mono_) + D -> s'.(proposer_) = s.(proposer_) ->
     s'.(role_changes_) = s.(role_changes_) -> Q s'.(mono_) s') -> runs (get_monotonic_ts v) Q s.
Proof.
  intros H. set (ts := s.(mono_) + Z.of_nat (v_elapse v s.(calls_))). pose proof (elapsed s.(calls_)).
  apply (H (set_calls (S s.(calls_)) (set_mono ts s))); [|done|done]. cbn. unfold ts. lia.
Qed.

Lemma runs_takeover_office reason s (Q : bool -> node -> Prop) : s.(proposer_).(role_) <> LEADER ->
  s.(mono_) + D < LeaderLeaseAndEpoch.lease_ s.(proposer_).(leader_lease_and_epoch_) ->
  (forall x s', took_office s' -> Q x s') -> runs (leader_takeover_if_lease_valid_ v reason) Q s.
Proof.
  intros Hr Hl HQ. unfold leader_takeover_if_lease_valid_. apply runs_bind, runs_reads.
  rewrite bool_decide_eq_false_2 by done. apply runs_bind. unfold check_leader. apply runs_bind, runs_ts_bound.
  intros s1 Hm Hp _. apply runs_bind, runs_reads. cbn. rewrite Hp, (proj2 (Z.ltb_lt _ _)) by lia.
  apply runs_bind, runs_update. eapply runs_mono; [apply advances_took_office|].
  - unfold reset_highest_priority_cache. pose proof advances_propose. advances.
  - exists reason. cbn. apply elem_of_app. right. by left.
  - intros x s' H. by apply HQ.
Qed.

(** A lease of a candidate that had none. *)
Lemma runs_set_lease_office lease epoch s (Q : () -> node -> Prop) :
  (forall s', s.(mono_) <= s'.(mono_) <= s.(mono_) + 2 * D ->
     s'.(proposer_).(role_) = s.(proposer_).(role_) ->
     s'.(proposer_).(ballot_number_) = s.(proposer_).(ballot_number_) ->
     s'.(proposer_).(switch_source_leader_ballot_) = s.(proposer_).(switch_source_leader_ballot_) ->
     LeaderLeaseAndEpoch.lease_ s'.(proposer_).(leader_lease_and_epoch_) = lease -> Q () s') ->
  runs (set_lease_and_epoch_if_lease_expired_or_just_set_lease v lease epoch) Q s.
Proof.
  intros HQ. pose proof (elapsed 0). unfold set_lease_and_epoch_if_lease_expired_or_just_set_lease. cbn zeta.
  apply runs_bind, runs_update, runs_bind, runs_reads, runs_bind, runs_ts_bound. intros s1 Hm1 Hp1 _. cbn in Hm1, Hp1.
  apply runs_bind, runs_if; intros _.
  - apply runs_bind, runs_update, runs_bind, runs_ts_bound. intros s2 Hm2 Hp2 _. cbn in Hm2, Hp2.
    apply runs_if; intros _; [apply runs_update, runs_update | apply runs_ret, runs_update]; apply HQ; cbn;
      rewrite ?Hp2, ?Hp1; try done; lia.
  - apply runs_update, runs_update. apply HQ; cbn; rewrite ?Hp1; try done; lia.
Qed.

Lemma runs_renew_office lease s (Q : () -> node -> Prop) : s.(proposer_).(role_) = FOLLOWER ->
  LeaderLeaseAndEpoch.lease_ s.(proposer_).(leader_lease_and_epoch_) < lease -> s.(mono_) + 3 * D < lease ->
  (s.(proposer_).(switch_source_leader_ballot_) = INVALID_VALUE \/
   s.(proposer_).(switch_source_leader_ballot_) = s.(proposer_).(ballot_number_) - 1) ->
  (forall s', took_office s' -> Q () s') -> runs (renew_leader_lease v lease) Q s.
Proof.
  intros Hr Hl Hm Hsw HQ. unfold renew_leader_lease, leader_revoke_if_lease_expired_. apply runs_bind, runs_bind, runs_reads.
  rewrite Hr, bool_decide_eq_false_2 by done. apply runs_ret, runs_bind, runs_reads. cbn.
  apply runs_bind. rewrite (proj2 (Z.ltb_lt _ _)) by lia. apply runs_bind, runs_reads, runs_set_lease_office.
  intros s1 Hm1 Hr1 Hb1 Hs1 Hl1. apply runs_bind, runs_reads. unfold id. rewrite Hb1, Hs1.
  assert (forall reason (Q : bool -> node -> Prop), (forall x s', took_office s' -> Q x s') ->
            runs (leader_takeover_if_lease_valid_ v reason) Q s1) as Hto.
  { intros reason Q' HQ'. apply runs_takeover_office; [by rewrite Hr1, Hr | rewrite Hl1; lia | done]. }
  destruct (Z.eqb_spec (switch_source_leader_ballot_ (proposer_ s)) INVALID_VALUE); cbn.
  - apply runs_bind, Hto. intros x s2 H2. by apply runs_ret, HQ.
  - destruct Hsw as [|Hsw]; [done|]. rewrite Hsw, Z.eqb_refl. cbn. apply runs_bind, Hto. intros x s2 H2.
    destruct x; [|by apply runs_ret, HQ]. apply runs_bind, runs_update, runs_update, HQ. done.
Qed.
End progress.


Module LastAnswer.
(** [A] has asked for a lease in ballot 0 and granted it itself. *)
Definition request : AcceptRequest.t :=
  AcceptRequest.set_receiver B (AcceptRequest.make false 0 A 1 0 0 23000000 4000000 (MemberList.membership_version_ ml)).
Definition response : AcceptResponse.t :=
  (AcceptResponse.set_accepted 0 None (AcceptResponse.make B 0 (MemberList.membership_version_ ml) 0 request)).2.
Definition states (l : list Z) : MemberListWithStates.t :=
  MemberListWithStates.mk ml [true; true; false] l (replicate 3 LogConfigVersion.fresh).
Definition candidate : node :=
  let s := member A in
  set_mono 23010000 (set_proposer (set_prepare_success_ballot 0 (set_ballot_number 0
    (set_memberlist_with_states (states [27000000; 0; 0]) s.(proposer_)))) s).
Definition complete : MemberListWithStates.t :=
  MemberListWithStates.mk ml [true; true; false] [27000000; 27000000; 0]
    [LogConfigVersion.fresh; MemberList.membership_version_ ml; LogConfigVersion.fresh].
End LastAnswer.

