(* ===== verification/LeaderLeaseThreads.v ===== *)
(** * The published lease under threads

    [ElectionProposer::LeaderLeaseAndEpoch] one memory access at a time: the thread
    that holds the lock of the election writes the lease and the epoch
    ([set_lease_and_epoch_if_lease_expired_or_just_set_lease], [reset]) while others
    read them without a lock ([get]).  Accesses of one word are atomic and ordered by
    the barriers of the source; the clock gives any reading. *)

From Stdlib Require Import ZArith Lia Bool.
From stdpp Require Import base countable numbers option gmap relations list.
From S2P Require Import Prelude ElectionUtils Election.

Local Open Scope Z_scope.

Abbreviation shared := LeaderLeaseAndEpoch.t.

Definition set_lease_word (x : Z) (m : shared) : shared :=
  LeaderLeaseAndEpoch.mk x (LeaderLeaseAndEpoch.epoch_ m) (LeaderLeaseAndEpoch.seq_ m).
Definition set_epoch_word (x : Z) (m : shared) : shared :=
  LeaderLeaseAndEpoch.mk (LeaderLeaseAndEpoch.lease_ m) x (LeaderLeaseAndEpoch.seq_ m).
Definition inc_seq (m : shared) : shared :=
  LeaderLeaseAndEpoch.mk (LeaderLeaseAndEpoch.lease_ m) (LeaderLeaseAndEpoch.epoch_ m) (LeaderLeaseAndEpoch.seq_ m + 1).

(** ** The writer

    Where it is: the access it makes next.  [lease] and [epoch] are the arguments. *)
Inductive writer :=
| Idle
| ReadOldLease (lease epoch : Z)
| ReadClock (lease epoch old_lease : Z)
| JustSetLease (lease epoch old_lease : Z)
| ReadClockAgain (epoch old_lease : Z)
| SetLease (lease epoch : Z)
| SetEpoch (epoch : Z)
| ResetLease
| Finish.

(** One access, with [ts] the reading of the clock; [Idle] starts what [start] says. *)
Inductive start := StartSet (lease epoch : Z) | StartReset.

Definition write_turn (what : start) (ts : Z) (w : writer) (m : shared) : writer * shared :=
  match w with
  | Idle => match what with
            | StartSet lease epoch => (ReadOldLease lease epoch, inc_seq m)
            | StartReset => (ResetLease, inc_seq m)
            end
  | ReadOldLease lease epoch => (ReadClock lease epoch (LeaderLeaseAndEpoch.lease_ m), m)
  | ReadClock lease epoch old_lease =>
    (if ts <? old_lease then JustSetLease lease epoch old_lease else SetLease lease epoch, m)
  | JustSetLease lease epoch old_lease => (ReadClockAgain epoch old_lease, set_lease_word lease m)
  | ReadClockAgain epoch old_lease => (if old_lease <=? ts then SetEpoch epoch else Finish, m)
  | SetLease lease epoch => (SetEpoch epoch, set_lease_word lease m)
  | SetEpoch epoch => (Finish, set_epoch_word epoch m)
  | ResetLease => (SetEpoch INVALID_VALUE, set_lease_word INVALID_VALUE m)
  | Finish => (Idle, inc_seq m)
  end.

(** ** A reader *)
Inductive reader :=
| ReadSeq
| ReadLease (seq : Z)
| ReadEpoch (seq lease : Z)
| CheckSeq (seq lease epoch : Z)
| Returned (lease epoch : Z).

Definition seq_odd (seq : Z) : bool := negb (Z.land seq 1 =? 0).

(** [lease0], [epoch0]: what the output arguments hold before; the loop returns only
    after it has assigned them. *)
Definition read_turn (lease0 epoch0 : Z) (m : shared) (r : reader) : reader :=
  match r with
  | ReadSeq => let seq := LeaderLeaseAndEpoch.seq_ m in
               if seq_odd seq then ReadLease seq else CheckSeq seq lease0 epoch0
  | ReadLease seq => ReadEpoch seq (LeaderLeaseAndEpoch.lease_ m)
  | ReadEpoch seq lease => CheckSeq seq lease (LeaderLeaseAndEpoch.epoch_ m)
  | CheckSeq seq lease epoch =>
    if negb (seq =? LeaderLeaseAndEpoch.seq_ m) || negb (seq_odd seq) then ReadSeq else Returned lease epoch
  | Returned lease epoch => Returned lease epoch
  end.

(** ** Threads *)
Record threads := Threads { memory : shared; the_writer : writer; readers : gmap nat reader }.

Inductive turn : threads -> threads -> Prop :=
| turn_write m w rs what ts w' m' : write_turn what ts w m = (w', m') -> turn (Threads m w rs) (Threads m' w' rs)
| turn_read m w rs k r lease0 epoch0 : rs !! k = Some r ->
    turn (Threads m w rs) (Threads m w (<[k := read_turn lease0 epoch0 m r]> rs))
| turn_call m w rs k : rs !! k = None -> turn (Threads m w rs) (Threads m w (<[k := ReadSeq]> rs)).

Definition threads_initial : threads := Threads LeaderLeaseAndEpoch.fresh Idle ∅.

(** ** Invariant *)

Lemma seq_odd_spec z : seq_odd z = Z.odd z.
Proof. unfold seq_odd. change 1 with (Z.ones 1). rewrite Z.land_ones, Zmod_odd by done. by destruct (Z.odd z). Qed.

Lemma seq_odd_succ z : seq_odd (z + 1) = negb (seq_odd z).
Proof. rewrite !seq_odd_spec, Z.add_1_r, Z.odd_succ. by rewrite <- Z.negb_odd. Qed.

Definition is_idle (w : writer) : bool := match w with Idle => true | _ => false end.

(** What a reader has read is what is there, if the number has not changed since. *)
Definition reader_ok (m : shared) (r : reader) : Prop :=
  let current seq := seq = LeaderLeaseAndEpoch.seq_ m /\ seq_odd seq = true in
  match r with
  | ReadLease seq => seq <= LeaderLeaseAndEpoch.seq_ m
  | ReadEpoch seq lease => seq <= LeaderLeaseAndEpoch.seq_ m /\ (current seq -> lease = LeaderLeaseAndEpoch.lease_ m)
  | CheckSeq seq lease epoch =>
    seq <= LeaderLeaseAndEpoch.seq_ m /\ (current seq -> (lease, epoch) = LeaderLeaseAndEpoch.get m)
  | _ => True
  end.

Record threads_inv (T : threads) : Prop := {
  ti_idle : seq_odd (LeaderLeaseAndEpoch.seq_ T.(memory)) = is_idle T.(the_writer);
  ti_readers : map_Forall (fun _ r => reader_ok T.(memory) r) T.(readers) }.

Lemma write_turn_inv what ts w m w' m' r : write_turn what ts w m = (w', m') ->
  seq_odd (LeaderLeaseAndEpoch.seq_ m) = is_idle w -> reader_ok m r ->
  seq_odd (LeaderLeaseAndEpoch.seq_ m') = is_idle w' /\ reader_ok m' r.
Proof.
  intros E Hs Hr.
  destruct w; cbn in E; repeat case_match; simplify_eq; cbn -[seq_odd] in *; rewrite ?seq_odd_succ, ?Hs; cbn;
    (split; [done|]); destruct r; cbn -[seq_odd] in *; try done; try lia;
    repeat match goal with H : _ /\ _ |- _ => destruct H end; (split; [lia|]); intros [-> Ho]; try lia; congruence.
Qed.

Lemma read_turn_inv lease0 epoch0 m r : reader_ok m r -> reader_ok m (read_turn lease0 epoch0 m r).
Proof.
  intros Hr. destruct r as [|seq|seq lease|seq lease epoch|lease epoch]; cbn -[seq_odd] in *.
  - destruct (seq_odd _) eqn:Ho; cbn -[seq_odd]; [lia|]. split; [lia|]. intros [_ H]. congruence.
  - split; [done|]. done.
  - destruct Hr as [Hle Hr]. split; [done|]. intros H. by rewrite (Hr H).
  - by case_match.
  - done.
Qed.

Lemma turn_inv T T' : threads_inv T -> turn T T' -> threads_inv T'.
Proof.
  intros [Hi Hr] Ht. destruct Ht as [m w rs what ts w' m' E|m w rs k r lease0 epoch0 Hk|m w rs k Hk]; cbn in *.
  - assert (forall r, reader_ok m r -> seq_odd (LeaderLeaseAndEpoch.seq_ m') = is_idle w' /\ reader_ok m' r) as H
      by (intros r Hrok; by eapply write_turn_inv).
    constructor; cbn; [by destruct (H ReadSeq)|]. intros k r Hk. apply H. by apply (Hr k).
  - constructor; cbn; [done|]. apply map_Forall_insert_2; [|done]. apply read_turn_inv. by apply (Hr k).
  - constructor; cbn; [done|]. by apply map_Forall_insert_2.
Qed.

Lemma threads_reachable_inv T : rtc turn threads_initial T -> threads_inv T.
Proof.
  intros H. assert (threads_inv threads_initial) as I0 by (constructor; [done | apply map_Forall_empty]).
  induction H as [|T T1 T' Ht _ IH]; [done|]. apply IH. by eapply turn_inv.
Qed.

(** ** A read is consistent *)

(** C17: a reader that runs while the lease is written and reset returns the lease and
    the epoch that belong together: the pair that is published, by a writer that has
    finished, at the moment it checks the number again. *)
Theorem published_pair_not_torn m w rs k r lease0 epoch0 lease epoch :
  rtc turn threads_initial (Threads m w rs) -> rs !! k = Some r -> (forall l e, r <> Returned l e) ->
  read_turn lease0 epoch0 m r = Returned lease epoch ->
  w = Idle /\ (lease, epoch) = LeaderLeaseAndEpoch.get m.
Proof.
  intros [Hi Hr]%threads_reachable_inv Hk Hn Hret. specialize (Hr k r Hk). cbn in Hi, Hr.
  destruct r as [|seq|seq l|seq l e|l e]; cbn -[seq_odd] in *; try done; [by case_match | |by destruct (Hn l e)].
  destruct (Z.eqb_spec seq (LeaderLeaseAndEpoch.seq_ m)) as [E|]; [|done]. destruct (seq_odd seq) eqn:Ho; [|done].
  cbn in Hret. simplify_eq. split; [by destruct w; rewrite Ho in Hi|]. by apply Hr.
Qed.

Lemma published_pair_not_torn_witness :
  let m := LeaderLeaseAndEpoch.mk 100 7 1 in
  rtc turn threads_initial (Threads m Idle {[0%nat := CheckSeq 1 100 7]}) /\ (100, 7) = LeaderLeaseAndEpoch.get m.
Proof.
  intros m.
  assert (rtc turn threads_initial (Threads m Idle {[0%nat := CheckSeq 1 100 7]})) as H.
  { do 6 (eapply rtc_l; [by eapply (turn_write _ _ _ (StartSet 100 7) 50)|]).
    eapply rtc_l; [by apply (turn_call _ _ _ 0)|].
    do 3 (eapply rtc_l; [by eapply (turn_read _ _ _ 0 _ 0 0); rewrite lookup_insert_eq|]).
    rewrite !insert_insert_eq. apply rtc_refl. }
  split; [exact H|].
  apply (published_pair_not_torn m Idle {[0%nat := CheckSeq 1 100 7]} 0 (CheckSeq 1 100 7) 0 0 100 7 H); done.
Defined.

(** Without writers a reader returns after at most five more accesses. *)
Lemma get_returns m seq lease epoch lease0 epoch0 : seq_odd (LeaderLeaseAndEpoch.seq_ m) = true ->
  let turns n := Nat.iter n (read_turn lease0 epoch0 m) in
  let answer := Returned (LeaderLeaseAndEpoch.lease_ m) (LeaderLeaseAndEpoch.epoch_ m) in
  turns 4%nat ReadSeq = answer /\
  (turns 1%nat (CheckSeq seq lease epoch) = ReadSeq \/ turns 1%nat (CheckSeq seq lease epoch) = Returned lease epoch).
Proof.
  intros Ho turns answer. unfold turns. cbn -[seq_odd]. rewrite Ho. cbn -[seq_odd]. rewrite Z.eqb_refl, Ho. split; [done|].
  case_match; auto.
Qed.
