(* ===== verification/TableLockCommon.v ===== *)
(** * Table locks: modes, identities and records

    [src/storage/tablelock/ob_table_lock_common.h] and [.cpp], and the sequence numbers
    of [src/storage/tx/ob_tx_seq.h].  The lock modes with their compatibility matrix,
    what is locked, who locks, and the record of one lock or unlock operation. *)

From Stdlib Require Import ZArith Lia Bool.
From stdpp Require Import base countable numbers option list.
From S2P Require Import Prelude Serialization Scn.

Local Open Scope Z_scope.

(** ** Sequence numbers of a transaction

    A word of 64 bits; the format of version 4.3 has a branch in the low 15 bits, the
    number above it, and bit 62 set.  The older format is a number of 62 bits. *)
Module TxSEQ.
Abbreviation t := Z.

Definition n_format_ (raw : t) : bool := Z.testbit raw 62.
Definition branch_ (raw : t) : Z := Z.land raw (Z.ones 15).
Definition seq_ (raw : t) : Z := Z.land (Z.shiftr raw 15) (Z.ones 47).
Definition seq_v0_ (raw : t) : Z := Z.land raw (Z.ones 62).

Definition is_valid (raw : t) : bool := 0 <? raw.
Definition get_seq (raw : t) : Z := if n_format_ raw then seq_ raw else seq_v0_ raw.
Definition get_branch (raw : t) : Z := if n_format_ raw then branch_ raw else 0.
Definition set_branch (branch : Z) (raw : t) : t := Z.lor (Z.ldiff raw (Z.ones 15)) (Z.land branch (Z.ones 15)).

Definition gtb (a b : t) : bool := if n_format_ a then seq_ b <? seq_ a else seq_v0_ b <? seq_v0_ a.
Definition geb (a b : t) : bool := gtb a b || (if n_format_ a then seq_ a =? seq_ b else seq_v0_ a =? seq_v0_ b).
Definition ltb (a b : t) : bool := gtb b a.
Definition leb (a b : t) : bool := geb b a.
Definition eqb (a b : t) : bool := a =? b.

(** The constructors: [seq] and [branch] of the new format, a number of the old one. *)
Definition make (seq branch : Z) : t := Z.lor (Z.shiftl 1 62) (Z.lor (Z.shiftl (Z.land seq (Z.ones 47)) 15) (Z.land branch (Z.ones 15))).
Definition mk_v0 (seq : Z) : t := seq.
End TxSEQ.

(** ** Lock modes *)

Abbreviation ObTableLockMode := Z.

Definition TABLE_LOCK_MODE_COUNT : Z := 5.
Definition NO_LOCK : ObTableLockMode := 0x0.
Definition ROW_SHARE : ObTableLockMode := 0x8.
Definition ROW_EXCLUSIVE : ObTableLockMode := 0x4.
Definition SHARE : ObTableLockMode := 0x2.
Definition SHARE_ROW_EXCLUSIVE : ObTableLockMode := 0x6.
Definition EXCLUSIVE : ObTableLockMode := 0x1.
Definition MAX_LOCK_MODE : ObTableLockMode := 0xf.

Definition compatibility_matrix : list Z := [0x0; 0xa; 0xc; 0xe].

Definition get_lock_mode_from_oracle_mode (oracle_lock_mode : Z) : ObTableLockMode :=
  if oracle_lock_mode =? 1 then NO_LOCK
  else if oracle_lock_mode =? 2 then ROW_SHARE
  else if oracle_lock_mode =? 3 then ROW_EXCLUSIVE
  else if oracle_lock_mode =? 4 then SHARE
  else if oracle_lock_mode =? 5 then SHARE_ROW_EXCLUSIVE
  else if oracle_lock_mode =? 6 then EXCLUSIVE
  else MAX_LOCK_MODE.

Definition is_lock_mode_valid (lock_mode : ObTableLockMode) : bool := lock_mode <? MAX_LOCK_MODE.

Definition get_index_by_lock_mode (lock_mode : ObTableLockMode) : Z :=
  if is_lock_mode_valid lock_mode then Z.shiftr lock_mode 1 else -1.

Definition get_lock_mode_by_index (index : Z) : ObTableLockMode :=
  if (0 <=? index) && (index <? TABLE_LOCK_MODE_COUNT) then
    if index =? 0 then EXCLUSIVE else u8 (Z.shiftl index 1)
  else MAX_LOCK_MODE.

(** The loop of [request_lock], one bit of [curr_lock] a turn: eight turns are enough
    for a byte.  The result is [compat] and [conflict_modes]; [None] for an access
    outside of the matrix. *)
Fixpoint request_lock_loop (fuel : nat) (curr_lock new_lock index compat conflict_modes : Z) : outcome (Z * Z) :=
  match fuel with
  | O => Some (compat, conflict_modes)
  | S fuel =>
    if (0 <? curr_lock) && (0 <? compat) then
      if negb (Z.land curr_lock 1 =? 0) then
        row ← compatibility_matrix !! Z.to_nat index;
        request_lock_loop fuel (Z.shiftr curr_lock 1) new_lock (index + 1) (Z.land compat row)
          (if negb (new_lock =? Z.land row new_lock) then Z.lor conflict_modes (Z.shiftl 1 index) else conflict_modes)
      else request_lock_loop fuel (Z.shiftr curr_lock 1) new_lock (index + 1) compat conflict_modes
    else Some (compat, conflict_modes)
  end.

(** [conflict_modes] is an output argument that keeps its value for an invalid mode. *)
Definition request_lock (curr_lock new_lock : ObTableLockMode) (conflict_modes : Z) : outcome (bool * Z) :=
  if negb (is_lock_mode_valid curr_lock) || negb (is_lock_mode_valid new_lock) then Some (false, conflict_modes)
  else
    '(compat, conflict_modes) ← request_lock_loop 8 curr_lock new_lock 0 0xf 0;
    Some (new_lock =? Z.land compat new_lock, conflict_modes).

(** ** Kinds and status of an operation *)

Inductive ObTableLockOpType :=
| UNKNOWN_TYPE | IN_TRANS_DML_LOCK | OUT_TRANS_LOCK | OUT_TRANS_UNLOCK | IN_TRANS_COMMON_LOCK | MAX_VALID_LOCK_OP_TYPE.

#[export] Instance ObTableLockOpType_eq_dec : EqDecision ObTableLockOpType.
Proof. solve_decision. Defined.

Inductive ObTableLockOpStatus := UNKNOWN_STATUS | LOCK_OP_DOING | LOCK_OP_COMPLETE.

#[export] Instance ObTableLockOpStatus_eq_dec : EqDecision ObTableLockOpStatus.
Proof. solve_decision. Defined.

Definition is_op_type_valid (type : ObTableLockOpType) : bool :=
  match type with UNKNOWN_TYPE | MAX_VALID_LOCK_OP_TYPE => false | _ => true end.
Definition is_out_trans_op_type (type : ObTableLockOpType) : bool :=
  match type with OUT_TRANS_LOCK | OUT_TRANS_UNLOCK => true | _ => false end.
Definition is_in_trans_common_lock_op_type (type : ObTableLockOpType) : bool :=
  match type with IN_TRANS_COMMON_LOCK => true | _ => false end.
Definition is_in_trans_dml_lock_op_type (type : ObTableLockOpType) : bool :=
  match type with IN_TRANS_DML_LOCK => true | _ => false end.
Definition is_op_status_valid (status : ObTableLockOpStatus) : bool :=
  match status with UNKNOWN_STATUS => false | _ => true end.

(** ** What is locked *)

Inductive ObLockOBJType :=
| OBJ_TYPE_INVALID | OBJ_TYPE_TABLE | OBJ_TYPE_TABLET | OBJ_TYPE_COMMON_OBJ | OBJ_TYPE_LS | OBJ_TYPE_TENANT
| OBJ_TYPE_EXTERNAL_TABLE_REFRESH | OBJ_TYPE_ONLINE_DDL_TABLE | OBJ_TYPE_ONLINE_DDL_TABLET | OBJ_TYPE_DATABASE_NAME
| OBJ_TYPE_OBJECT_NAME | OBJ_TYPE_DBMS_LOCK | OBJ_TYPE_MATERIALIZED_VIEW | OBJ_TYPE_MYSQL_LOCK_FUNC | OBJ_TYPE_MAX.

#[export] Instance ObLockOBJType_eq_dec : EqDecision ObLockOBJType.
Proof. solve_decision. Defined.

Definition obj_type_number (t : ObLockOBJType) : Z :=
  match t with
  | OBJ_TYPE_INVALID => 0 | OBJ_TYPE_TABLE => 1 | OBJ_TYPE_TABLET => 2 | OBJ_TYPE_COMMON_OBJ => 3 | OBJ_TYPE_LS => 4
  | OBJ_TYPE_TENANT => 5 | OBJ_TYPE_EXTERNAL_TABLE_REFRESH => 6 | OBJ_TYPE_ONLINE_DDL_TABLE => 7
  | OBJ_TYPE_ONLINE_DDL_TABLET => 8 | OBJ_TYPE_DATABASE_NAME => 9 | OBJ_TYPE_OBJECT_NAME => 10
  | OBJ_TYPE_DBMS_LOCK => 11 | OBJ_TYPE_MATERIALIZED_VIEW => 12 | OBJ_TYPE_MYSQL_LOCK_FUNC => 13 | OBJ_TYPE_MAX => 14
  end.

Definition obj_type_of_number (n : Z) : option ObLockOBJType :=
  match n with
  | 0 => Some OBJ_TYPE_INVALID | 1 => Some OBJ_TYPE_TABLE | 2 => Some OBJ_TYPE_TABLET | 3 => Some OBJ_TYPE_COMMON_OBJ
  | 4 => Some OBJ_TYPE_LS | 5 => Some OBJ_TYPE_TENANT | 6 => Some OBJ_TYPE_EXTERNAL_TABLE_REFRESH
  | 7 => Some OBJ_TYPE_ONLINE_DDL_TABLE | 8 => Some OBJ_TYPE_ONLINE_DDL_TABLET | 9 => Some OBJ_TYPE_DATABASE_NAME
  | 10 => Some OBJ_TYPE_OBJECT_NAME | 11 => Some OBJ_TYPE_DBMS_LOCK | 12 => Some OBJ_TYPE_MATERIALIZED_VIEW
  | 13 => Some OBJ_TYPE_MYSQL_LOCK_FUNC | 14 => Some OBJ_TYPE_MAX | _ => None
  end.

#[export] Instance ObLockOBJType_countable : Countable ObLockOBJType.
Proof. apply (inj_countable obj_type_number obj_type_of_number). by intros []. Defined.

Definition is_lock_obj_type_valid (type : ObLockOBJType) : bool :=
  (obj_type_number OBJ_TYPE_INVALID <? obj_type_number type) && (obj_type_number type <? obj_type_number OBJ_TYPE_MAX).
Definition is_tablet_obj_type (type : ObLockOBJType) : bool := bool_decide (type = OBJ_TYPE_TABLET).

Definition OB_INVALID_ID : Z := UINT64_MAX.
Definition is_valid_id (id : Z) : bool := negb (OB_INVALID_ID =? id).

(** [ObTabletID]: a number, zero when invalid. *)
Definition INVALID_TABLET_ID : Z := 0.
Definition tablet_id_is_valid (id : Z) : bool := negb (id =? INVALID_TABLET_ID).

(** [hash_value_] caches a hash of the other fields and is left out. *)
Module LockID.
Record t := mk { obj_type_ : ObLockOBJType; obj_id_ : Z }.

#[global] Instance t_eq_dec : EqDecision t.
Proof. solve_decision. Defined.

#[global] Instance t_countable : Countable t.
Proof. apply (inj_countable' (fun i => (obj_type_ i, obj_id_ i)) (fun p => mk p.1 p.2)). by intros []. Defined.

Definition fresh : t := mk OBJ_TYPE_INVALID OB_INVALID_ID.
Definition reset (i : t) : t := fresh.
Definition is_valid (i : t) : bool := is_valid_id (obj_id_ i) && is_lock_obj_type_valid (obj_type_ i).

Definition compare (i other : t) : Z :=
  if obj_type_number (obj_type_ other) <? obj_type_number (obj_type_ i) then 1
  else if obj_type_number (obj_type_ i) <? obj_type_number (obj_type_ other) then -1
  else if obj_id_ other <? obj_id_ i then 1
  else if obj_id_ i <? obj_id_ other then -1
  else 0.

Definition eqb (i other : t) : bool := 0 =? compare i other.
Definition ltb (i other : t) : bool := -1 =? compare i other.
Definition is_tablet_lock (i : t) : bool := is_tablet_obj_type (obj_type_ i).

Definition set (type : ObLockOBJType) (obj_id : Z) (i : t) : Z * t :=
  if negb (is_lock_obj_type_valid type) || negb (is_valid_id obj_id) then (OB_INVALID_ARGUMENT, i)
  else (OB_SUCCESS, mk type obj_id).

Definition convert_to (tablet_id : Z) (i : t) : Z * Z :=
  if negb (is_tablet_lock i) || negb (tablet_id_is_valid (obj_id_ i)) then (OB_INVALID_ARGUMENT, tablet_id)
  else (OB_SUCCESS, obj_id_ i).

(** [get_lock_id] for an object, a table and a tablet. *)
Definition get_lock_id (obj_type : ObLockOBJType) (obj_id : Z) (lock_id : t) : Z * t :=
  if negb (is_lock_obj_type_valid obj_type) || negb (is_valid_id obj_id) then (OB_INVALID_ARGUMENT, lock_id)
  else set obj_type obj_id lock_id.
Definition get_table_lock_id (table_id : Z) (lock_id : t) : Z * t :=
  if negb (is_valid_id table_id) then (OB_INVALID_ARGUMENT, lock_id) else set OBJ_TYPE_TABLE table_id lock_id.
Definition get_tablet_lock_id (tablet : Z) (lock_id : t) : Z * t :=
  if negb (tablet_id_is_valid tablet) then (OB_INVALID_ARGUMENT, lock_id) else set OBJ_TYPE_TABLET tablet lock_id.

Lemma lock_id_eqb_eq i j : eqb i j = true <-> i = j.
Proof.
  unfold eqb, compare. destruct i as [ti oi], j as [tj oj]; cbn. split.
  - repeat case_match; try done. intros _. f_equal; [|lia].
    assert (obj_type_number ti = obj_type_number tj) as Et by lia. by destruct ti, tj.
  - intros [= -> ->]. by rewrite !Z.ltb_irrefl.
Qed.
End LockID.

(** ** Who locks

    A word of 64 bits; its fields [id_ : 54], [type_ : 8], [reserved_ : 1] and
    [valid_flag_ : 1] are signed. *)
Inductive ObLockOwnerType := DEFAULT_OWNER_TYPE | SESS_ID_OWNER_TYPE | MAX_OWNER_TYPE | INVALID_OWNER_TYPE.

Definition owner_type_number (type : ObLockOwnerType) : Z :=
  match type with DEFAULT_OWNER_TYPE => 0 | SESS_ID_OWNER_TYPE => 1 | MAX_OWNER_TYPE => 2 | INVALID_OWNER_TYPE => 255 end.

Definition is_lock_owner_type_valid (type : ObLockOwnerType) : bool :=
  owner_type_number type <? owner_type_number MAX_OWNER_TYPE.

Module LockOwnerID.
Abbreviation t := Z.

Definition INVALID_ID : Z := -1.
Definition INVALID_RAW_OWNER_ID : Z := Z.shiftl 1 54 - 1.
Definition CLIENT_SESS_CREATE_TS_BIT : Z := 22.
Definition CLIENT_SESS_CREATE_TS_MASK : Z := Z.shiftl 1 CLIENT_SESS_CREATE_TS_BIT - 1.
Definition CLIENT_SESS_ID_BIT : Z := 32.
Definition CLIENT_SESS_ID_MASK : Z := Z.shiftl 1 CLIENT_SESS_ID_BIT - 1.
Definition MAX_VALID_RAW_OWNER_ID : Z := INVALID_RAW_OWNER_ID - 1.

(** The fields, and assignments to them. *)
Definition id_ (pack : t) : Z := to_s 54 pack.
Definition type_ (pack : t) : Z := to_s 8 (Z.shiftr pack 54).
Definition set_id (x : Z) (pack : t) : t := Z.lor (Z.shiftl (Z.shiftr pack 54) 54) (to_u 54 x).
Definition set_type (x : Z) (pack : t) : t :=
  Z.lor (Z.shiftl (Z.shiftr pack 62) 62) (Z.lor (Z.shiftl (to_u 8 x) 54) (to_u 54 pack)).

Definition fresh : t := INVALID_ID.
Definition default_owner : t := 0.
Definition is_session_id_owner (pack : t) : bool := type_ pack =? owner_type_number SESS_ID_OWNER_TYPE.

Definition is_valid (pack : t) : bool :=
  negb (INVALID_ID =? pack) && negb (owner_type_number INVALID_OWNER_TYPE =? type_ pack)
  && negb (INVALID_RAW_OWNER_ID =? id_ pack).

Definition convert_from_value (owner_type : ObLockOwnerType) (raw_owner_id : Z) (pack : t) : Z * t :=
  if negb (is_lock_owner_type_valid owner_type) || (MAX_VALID_RAW_OWNER_ID <? raw_owner_id)
  then (OB_INVALID_ARGUMENT, pack)
  else (OB_SUCCESS, set_id raw_owner_id (set_type (owner_type_number owner_type) 0)).

Definition convert_from_client_sessid (client_sessid client_sess_create_ts : Z) (pack : t) : Z * t :=
  let client_unique_id := Z.land client_sess_create_ts CLIENT_SESS_CREATE_TS_MASK in
  (OB_SUCCESS,
   set_id (Z.lor client_sessid (Z.shiftl client_unique_id CLIENT_SESS_ID_BIT))
     (set_type (owner_type_number SESS_ID_OWNER_TYPE) 0)).

Definition convert_to_sessid (sessid : Z) (pack : t) : Z * Z :=
  if negb (type_ pack =? owner_type_number SESS_ID_OWNER_TYPE) then (OB_NOT_SUPPORTED, sessid)
  else (OB_SUCCESS, u32 (Z.land (id_ pack) CLIENT_SESS_ID_MASK)).
End LockOwnerID.

(** ** The record of an operation *)

(** [ObTransID]: a number, positive when valid. *)
Abbreviation ObTransID := Z.
Definition trans_id_is_valid (tx_id : ObTransID) : bool := 0 <? tx_id.

Module LockOp.
Record t := mk {
  lock_id_ : LockID.t;
  lock_mode_ : ObTableLockMode;
  owner_id_ : LockOwnerID.t;
  create_trans_id_ : ObTransID;
  op_type_ : ObTableLockOpType;
  lock_op_status_ : ObTableLockOpStatus;
  lock_seq_no_ : TxSEQ.t;
  commit_version_ : SCN;
  commit_scn_ : SCN;
  create_timestamp_ : Z;
  create_schema_version_ : Z }.

#[global] Instance t_eq_dec : EqDecision t.
Proof. solve_decision. Defined.

Definition fresh : t :=
  mk LockID.fresh NO_LOCK LockOwnerID.default_owner 0 UNKNOWN_TYPE UNKNOWN_STATUS 0 OB_INVALID_SCN_VAL OB_INVALID_SCN_VAL 0 (-1).

Definition set (lock_id : LockID.t) (lock_mode : ObTableLockMode) (owner_id : LockOwnerID.t) (trans_id : ObTransID)
    (type : ObTableLockOpType) (lock_op_status : ObTableLockOpStatus) (seq_no : TxSEQ.t)
    (create_timestamp create_schema_version : Z) (op : t) : t :=
  mk lock_id lock_mode owner_id trans_id type lock_op_status
    (if negb (TxSEQ.get_branch seq_no =? 0) then TxSEQ.set_branch 0 seq_no else seq_no)
    (commit_version_ op) (commit_scn_ op) create_timestamp create_schema_version.

(** The constructor with arguments. *)
Definition make (lock_id : LockID.t) (lock_mode : ObTableLockMode) (owner_id : LockOwnerID.t) (trans_id : ObTransID)
    (op_type : ObTableLockOpType) (lock_op_status : ObTableLockOpStatus) (seq_no : TxSEQ.t)
    (create_timestamp create_schema_version : Z) : t :=
  set lock_id lock_mode owner_id trans_id op_type lock_op_status (TxSEQ.set_branch 0 seq_no)
    create_timestamp create_schema_version fresh.

Definition set_status (status : ObTableLockOpStatus) (commit_version commit_scn : SCN) (op : t) : t :=
  mk (lock_id_ op) (lock_mode_ op) (owner_id_ op) (create_trans_id_ op) (op_type_ op) status (lock_seq_no_ op)
    commit_version commit_scn (create_timestamp_ op) (create_schema_version_ op).

Definition set_create_timestamp (x : Z) (op : t) : t :=
  mk (lock_id_ op) (lock_mode_ op) (owner_id_ op) (create_trans_id_ op) (op_type_ op) (lock_op_status_ op) (lock_seq_no_ op)
    (commit_version_ op) (commit_scn_ op) x (create_schema_version_ op).

Definition is_out_trans_lock_op (op : t) : bool := is_out_trans_op_type (op_type_ op).
Definition need_register_callback (op : t) : bool := negb (is_out_trans_op_type (op_type_ op)).
Definition need_multi_source_data (op : t) : bool := is_out_trans_op_type (op_type_ op).
Definition is_need_record_lock_mode_ (op : t) : bool :=
  (lock_mode_ op =? SHARE) || (lock_mode_ op =? SHARE_ROW_EXCLUSIVE) || (lock_mode_ op =? EXCLUSIVE).
Definition need_record_lock_op (op : t) : bool :=
  is_out_trans_op_type (op_type_ op) || is_need_record_lock_mode_ op || is_in_trans_common_lock_op_type (op_type_ op).
Definition is_dml_lock_op (op : t) : bool := is_in_trans_dml_lock_op_type (op_type_ op).
Definition need_wakeup_waiter (op : t) : bool :=
  is_out_trans_op_type (op_type_ op) || is_in_trans_common_lock_op_type (op_type_ op).
Definition is_tablet_lock (tablet_id : Z) (op : t) : bool :=
  LockID.is_tablet_lock (lock_id_ op) && (LockID.obj_id_ (lock_id_ op) =? tablet_id).

Definition is_valid (op : t) : bool :=
  if is_out_trans_lock_op op && (LockOwnerID.id_ (owner_id_ op) =? 0) then false
  else LockID.is_valid (lock_id_ op) && is_lock_mode_valid (lock_mode_ op) && trans_id_is_valid (create_trans_id_ op)
       && is_op_type_valid (op_type_ op) && negb (bool_decide (lock_op_status_ op = UNKNOWN_STATUS)).

Definition need_replay_or_recover (op other : t) : bool :=
  negb (TxSEQ.eqb (lock_seq_no_ op) (lock_seq_no_ other) && LockID.eqb (lock_id_ op) (lock_id_ other)
        && (create_trans_id_ op =? create_trans_id_ other) && (owner_id_ op =? owner_id_ other)
        && (lock_mode_ op =? lock_mode_ other) && bool_decide (op_type_ op = op_type_ other)).
End LockOp.

Definition is_need_retry_unlock_error (err : Z) : bool :=
  (err =? OB_OBJ_LOCK_NOT_COMPLETED) || (err =? OB_OBJ_UNLOCK_CONFLICT).

Definition MIN_DEADLOCK_AVOID_TIMEOUT_US : Z := 60 * 1000 * 1000.
Definition is_deadlock_avoid_enabled (is_from_sql : bool) (timeout_us : Z) : bool :=
  negb is_from_sql && (MIN_DEADLOCK_AVOID_TIMEOUT_US <=? timeout_us).

(** [ObTxIDSet]: a hash set of sixteen places that remembers the order of insertion. *)
Abbreviation ObTxIDSet := (list ObTransID).
Definition TX_ID_SET_SIZE : Z := 16.
Definition set_refactored (key : ObTransID) (s : ObTxIDSet) : Z * ObTxIDSet :=
  if bool_decide (key ∈ s) then (OB_HASH_EXIST, s)
  else if Z.of_nat (length s) =? TX_ID_SET_SIZE then (OB_HASH_FULL, s)
  else (OB_SUCCESS, s ++ [key]).

(** ** The matrix of the modes

    The comment at the head of [ob_table_lock_common.h], row by row. *)
Definition table_modes : list ObTableLockMode := [EXCLUSIVE; SHARE; ROW_EXCLUSIVE; SHARE_ROW_EXCLUSIVE; ROW_SHARE].

Definition compatible (a b : ObTableLockMode) : bool :=
  if a =? ROW_SHARE then negb (b =? EXCLUSIVE)
  else if a =? ROW_EXCLUSIVE then (b =? ROW_SHARE) || (b =? ROW_EXCLUSIVE)
  else if a =? SHARE then (b =? ROW_SHARE) || (b =? SHARE)
  else if a =? SHARE_ROW_EXCLUSIVE then b =? ROW_SHARE
  else false.

(** Case analysis on the five modes. *)
Ltac mode_cases H := repeat (apply elem_of_cons in H as [->|H]); [..|by apply not_elem_of_nil in H].

(** A mode is one of the five. *)
Ltac in_modes := solve [repeat constructor].

Lemma compatible_sym a b : a ∈ table_modes -> b ∈ table_modes -> compatible a b = compatible b a.
Proof. intros Ha Hb. mode_cases Ha; mode_cases Hb; done. Qed.

Lemma mode_index m : m ∈ table_modes ->
  is_lock_mode_valid m = true /\ 0 <= get_index_by_lock_mode m < TABLE_LOCK_MODE_COUNT /\
  get_lock_mode_by_index (get_index_by_lock_mode m) = m.
Proof. intros H. mode_cases H; done. Qed.

Lemma mode_index_inj m m' : m ∈ table_modes -> m' ∈ table_modes ->
  get_index_by_lock_mode m = get_index_by_lock_mode m' -> m = m'.
Proof.
  intros H H' E. destruct (mode_index m H) as (_ & _ & <-), (mode_index m' H') as (_ & _ & <-). by rewrite E.
Qed.

(** The request for a mode against modes that are held together. *)
Definition modes_or (held : list ObTableLockMode) : Z := foldr Z.lor 0 held.

Lemma request_lock_step c m n b x : 0 <= c < 16 -> m ∈ table_modes -> n ∈ table_modes ->
  request_lock c n 0 = Some (b, x) ->
  exists y, request_lock (Z.lor m c) n 0 = Some (b && compatible n m, y) /\ 0 <= Z.lor m c < 16.
Proof.
  intros Hc Hm Hn E. assert (c ∈ Z.of_nat <$> seq 0 16) as Hin.
  { apply list_elem_of_fmap. exists (Z.to_nat c). split; [lia|]. apply elem_of_seq. lia. }
  clear Hc. mode_cases Hm; mode_cases Hn; cbn in Hin; mode_cases Hin;
    vm_compute in E; simplify_eq; (eexists; split; [by vm_compute | by vm_compute]).
Qed.

Lemma request_lock_spec held n : Forall (.∈ table_modes) held -> n ∈ table_modes ->
  exists conflict_modes, request_lock (modes_or held) n 0 = Some (forallb (compatible n) held, conflict_modes) /\
    0 <= modes_or held < 16.
Proof.
  intros Hh Hn. induction Hh as [|m held Hm Hh (x & E & Hb)]; cbn.
  - exists 0. split; [|done]. by mode_cases Hn.
  - destruct (request_lock_step _ _ _ _ _ Hb Hm Hn E) as (y & Hy & Hb'). exists y. split; [|done].
    fold (modes_or held). by rewrite Hy, andb_comm.
Qed.

(** [request_lock] decides the compatibility matrix of the comment at the head of the
    header: against modes that are held together, passed as their union, a mode is
    granted exactly when it is compatible with each of them. *)
Theorem request_lock_matrix (held : list ObTableLockMode) (new_lock : ObTableLockMode) :
  Forall (.∈ table_modes) held -> new_lock ∈ table_modes ->
  exists conflict_modes, request_lock (modes_or held) new_lock 0 = Some (forallb (compatible new_lock) held, conflict_modes).
Proof. intros Hh Hn. destruct (request_lock_spec held new_lock Hh Hn) as (x & E & _). by exists x. Qed.

Lemma request_lock_matrix_witness : exists conflict_modes,
  request_lock (modes_or [ROW_SHARE; SHARE]) ROW_EXCLUSIVE 0 = Some (false, conflict_modes).
Proof. apply (request_lock_matrix [ROW_SHARE; SHARE] ROW_EXCLUSIVE); [repeat constructor | in_modes]. Defined.

(** ** Owners *)

Section owner.
Context (sess ts : Z).
Hypothesis (Hs : 0 <= sess < 2 ^ 32) (Ht : 0 <= ts).

Local Abbreviation unique := (ts mod 2 ^ 22).

Lemma owner_pack p : LockOwnerID.convert_from_client_sessid sess ts p = (OB_SUCCESS, sess + 2 ^ 32 * unique + 2 ^ 54).
Proof.
  unfold LockOwnerID.convert_from_client_sessid. f_equal. unfold LockOwnerID.set_id.
  change (LockOwnerID.set_type (owner_type_number SESS_ID_OWNER_TYPE) 0) with (2 ^ 54).
  change (Z.shiftl (Z.shiftr (2 ^ 54) 54) 54) with (Z.shiftl 1 54).
  change LockOwnerID.CLIENT_SESS_CREATE_TS_MASK with (Z.ones 22). change LockOwnerID.CLIENT_SESS_ID_BIT with 32.
  rewrite Z.land_ones by lia. assert (0 <= unique < 2 ^ 22) as Hu by (apply Z.mod_pos_bound; lia).
  rewrite <- add_low_high by lia. rewrite to_u_id by (unfold is_u; lia). rewrite Z.lor_comm, <- add_low_high by lia. lia.
Qed.

Lemma owner_type : LockOwnerID.type_ (sess + 2 ^ 32 * unique + 2 ^ 54) = owner_type_number SESS_ID_OWNER_TYPE.
Proof.
  assert (0 <= unique < 2 ^ 22) as Hu by (apply Z.mod_pos_bound; lia). unfold LockOwnerID.type_.
  rewrite Z.shiftr_div_pow2 by lia. replace ((sess + 2 ^ 32 * unique + 2 ^ 54) / 2 ^ 54) with 1; [done|].
  apply (Z.div_unique _ _ _ (sess + 2 ^ 32 * unique)); lia.
Qed.

Lemma owner_sess : u32 (Z.land (LockOwnerID.id_ (sess + 2 ^ 32 * unique + 2 ^ 54)) LockOwnerID.CLIENT_SESS_ID_MASK) = sess.
Proof.
  change LockOwnerID.CLIENT_SESS_ID_MASK with (Z.ones 32). rewrite Z.land_ones by lia. unfold LockOwnerID.id_, to_s, to_u.
  rewrite Z.mod_mod by lia. set (x := sess + 2 ^ 32 * unique + 2 ^ 54). change (2 ^ (54 - 1)) with (2 ^ 32 * 2 ^ 21).
  rewrite <- (Z_mod_plus_full ((x + 2 ^ 32 * 2 ^ 21) mod 2 ^ 54 - 2 ^ 32 * 2 ^ 21) (2 ^ 21) (2 ^ 32)).
  replace ((x + 2 ^ 32 * 2 ^ 21) mod 2 ^ 54 - 2 ^ 32 * 2 ^ 21 + 2 ^ 21 * 2 ^ 32) with ((x + 2 ^ 32 * 2 ^ 21) mod 2 ^ 54) by lia.
  rewrite (Z.mod_mod_divide _ (2 ^ 54) (2 ^ 32)) by (exists (2 ^ 22); done). subst x.
  replace (sess + 2 ^ 32 * unique + 2 ^ 54 + 2 ^ 32 * 2 ^ 21) with (sess + (unique + 2 ^ 22 + 2 ^ 21) * 2 ^ 32) by lia.
  rewrite Z_mod_plus_full. by apply Z.mod_small.
Qed.
End owner.

(** The owner of a lock that a session takes identifies the session: the session
    number is read back from it, and two sessions have the same owner only if number and
    creation time, in its low 22 bits, are the same. *)
Theorem session_owner_round_trip (sess ts sess' ts' x p : Z) : 0 <= sess < 2 ^ 32 -> 0 <= ts -> 0 <= sess' < 2 ^ 32 -> 0 <= ts' ->
  let owner := (LockOwnerID.convert_from_client_sessid sess ts p).2 in
  LockOwnerID.convert_to_sessid x owner = (OB_SUCCESS, sess) /\
  (owner = (LockOwnerID.convert_from_client_sessid sess' ts' p).2 -> sess = sess' /\ ts mod 2 ^ 22 = ts' mod 2 ^ 22).
Proof.
  intros Hs Ht Hs' Ht'. cbv zeta. rewrite !owner_pack by done. cbn [snd]. split.
  - unfold LockOwnerID.convert_to_sessid. rewrite owner_type, owner_sess by done. done.
  - assert (0 <= ts mod 2 ^ 22 < 2 ^ 22) by (apply Z.mod_pos_bound; lia).
    assert (0 <= ts' mod 2 ^ 22 < 2 ^ 22) by (apply Z.mod_pos_bound; lia). lia.
Qed.

Lemma session_owner_round_trip_witness :
  LockOwnerID.convert_to_sessid 0 (LockOwnerID.convert_from_client_sessid (2 ^ 32 - 1) (2 ^ 40 - 1) 0).2 = (OB_SUCCESS, 2 ^ 32 - 1).
Proof. apply (session_owner_round_trip (2 ^ 32 - 1) (2 ^ 40 - 1) 0 0 0 0); lia. Defined.

(** [is_valid] of an owner rejects the constant -1 only.  The members [type_] and [id_]
    are signed bit fields, so the comparisons with 255 and with 2^54 - 1 are always
    true, also for an owner whose type is [INVALID_OWNER_TYPE]. *)
Theorem owner_is_valid_checks_one_value (pack : Z) :
  LockOwnerID.is_valid pack = negb (LockOwnerID.INVALID_ID =? pack) /\
  LockOwnerID.is_valid (LockOwnerID.set_type (owner_type_number INVALID_OWNER_TYPE) 0) = true.
Proof.
  split; [|done]. unfold LockOwnerID.is_valid.
  assert ((owner_type_number INVALID_OWNER_TYPE =? LockOwnerID.type_ pack) = false) as ->.
  { apply Z.eqb_neq. pose proof (to_s_range 8 (Z.shiftr pack 54)) as H. unfold is_s in H. cbn in *. unfold LockOwnerID.type_. lia. }
  assert ((LockOwnerID.INVALID_RAW_OWNER_ID =? LockOwnerID.id_ pack) = false) as ->.
  { apply Z.eqb_neq. pose proof (to_s_range 54 pack) as H. unfold is_s in H. change LockOwnerID.INVALID_RAW_OWNER_ID with (2 ^ 54 - 1).
    unfold LockOwnerID.id_. cbn in *. lia. }
  by rewrite !andb_true_r.
Qed.
