(* ===== verification/ObjLock.v ===== *)
(** * The locks of one object

    [ObOBJLock] of [src/storage/tablelock/ob_obj_lock.cpp]: for every lock mode the list
    of the operations that are recorded, and two counters for the row locks of DML
    statements, which are not.  A method is a computation on the object that may fault
    (an index outside of [map_]); allocations that can fail are arguments. *)

From Stdlib Require Import ZArith Lia Bool.
From stdpp Require Import base countable numbers option list.
From S2P Require Import Prelude Serialization Scn TableLockCommon.
Import AbortMonad.

Local Open Scope Z_scope.

Abbreviation op_list := (list LockOp.t).

(** [wakeups_]: the objects whose waiters [ObLockWaitMgr] was told to wake up. *)
Record obj_lock := ObjLock {
  is_deleted_ : bool;
  map_ : list (option op_list);
  row_share_ : Z;
  row_exclusive_ : Z;
  obj_lock_id_ : LockID.t;
  wakeups_ : list LockID.t }.

Definition new_obj_lock (lock_id : LockID.t) : obj_lock :=
  ObjLock false (replicate (Z.to_nat TABLE_LOCK_MODE_COUNT) None) 0 0 lock_id [].

Definition set_is_deleted (x : bool) (s : obj_lock) : obj_lock :=
  ObjLock x s.(map_) s.(row_share_) s.(row_exclusive_) s.(obj_lock_id_) s.(wakeups_).
Definition set_map (x : list (option op_list)) (s : obj_lock) : obj_lock :=
  ObjLock s.(is_deleted_) x s.(row_share_) s.(row_exclusive_) s.(obj_lock_id_) s.(wakeups_).
Definition set_row_share (x : Z) (s : obj_lock) : obj_lock :=
  ObjLock s.(is_deleted_) s.(map_) x s.(row_exclusive_) s.(obj_lock_id_) s.(wakeups_).
Definition set_row_exclusive (x : Z) (s : obj_lock) : obj_lock :=
  ObjLock s.(is_deleted_) s.(map_) s.(row_share_) x s.(obj_lock_id_) s.(wakeups_).
Definition set_wakeups (x : list LockID.t) (s : obj_lock) : obj_lock :=
  ObjLock s.(is_deleted_) s.(map_) s.(row_share_) s.(row_exclusive_) s.(obj_lock_id_) x.

Abbreviation OL := (R obj_lock).

(** [map_[i]]. *)
Definition slot (i : Z) : OL (option op_list) :=
  fun s => if i <? 0 then None else l ← s.(map_) !! Z.to_nat i; Some (l, s).
Definition set_slot (i : Z) (l : option op_list) : OL () :=
  fun s => if (i <? 0) || (Z.of_nat (length s.(map_)) <=? i) then None
           else Some ((), set_map (<[Z.to_nat i := l]> s.(map_)) s).

(** What the allocator answers during the call: for a list, and for a node. *)
Record memory := Memory { list_ok : bool; node_ok : bool }.

(** [ObLockParam]: the members the object uses. *)
Record lock_param := LockParam { is_try_lock_ : bool; is_deadlock_avoid_enabled_ : bool; expired_time_ : Z }.

(** ** Counters *)
Definition lock_row_share_ : OL () := update (fun s => set_row_share (s.(row_share_) + 1) s).
Definition unlock_row_share_ : OL () := update (fun s => set_row_share (s.(row_share_) - 1) s).
Definition lock_row_exclusive_ : OL () := update (fun s => set_row_exclusive (s.(row_exclusive_) + 1) s).
Definition unlock_row_exclusive_ : OL () := update (fun s => set_row_exclusive (s.(row_exclusive_) - 1) s).

(** The branch on the mode of an operation that is not recorded. *)
Definition lock_row_ (mode : ObTableLockMode) : OL () :=
  if mode =? ROW_EXCLUSIVE then lock_row_exclusive_ else if mode =? ROW_SHARE then lock_row_share_ else mret ().
Definition unlock_row_ (mode : ObTableLockMode) : OL () :=
  if mode =? ROW_EXCLUSIVE then unlock_row_exclusive_ else if mode =? ROW_SHARE then unlock_row_share_ else mret ().

(** ** Lists *)
Definition is_complete_outtrans_lock (op : LockOp.t) : bool :=
  bool_decide (LockOp.op_type_ op = OUT_TRANS_LOCK) && bool_decide (LockOp.lock_op_status_ op = LOCK_OP_COMPLETE).
Definition is_complete_outtrans_unlock (op : LockOp.t) : bool :=
  bool_decide (LockOp.op_type_ op = OUT_TRANS_UNLOCK) && bool_decide (LockOp.lock_op_status_ op = LOCK_OP_COMPLETE).

Definition get_or_create_op_list (mem : memory) (mode : ObTableLockMode) : OL Z :=
  if negb (is_lock_mode_valid mode) then mret OB_INVALID_ARGUMENT
  else
    let map_index := get_index_by_lock_mode mode in
    if map_index <? 0 then mret OB_ERR_UNEXPECTED
    else
      op_list ← slot map_index;
      match op_list with
      | Some _ => mret OB_SUCCESS
      | None => if mem.(list_ok) then set_slot map_index (Some []) ;; mret OB_SUCCESS
                else mret OB_ALLOCATE_MEMORY_FAILED
      end.

Definition get_op_list (mode : ObTableLockMode) : OL (Z * option op_list) :=
  if negb (is_lock_mode_valid mode) then mret (OB_INVALID_ARGUMENT, None)
  else
    let map_index := get_index_by_lock_mode mode in
    if map_index <? 0 then mret (OB_ERR_UNEXPECTED, None)
    else op_list ← slot map_index; mret (OB_SUCCESS, op_list).

(** [op_list] is the list of [mode]. *)
Definition drop_op_list_if_empty_ (mode : ObTableLockMode) : OL () :=
  if negb (is_lock_mode_valid mode) then mret ()
  else
    let map_index := get_index_by_lock_mode mode in
    if map_index <? 0 then mret ()
    else
      op_list ← slot map_index;
      match op_list with Some [] => set_slot map_index None | _ => mret () end.

(** Append a node to the list of [mode]. *)
Definition add_last (mode : ObTableLockMode) (op : LockOp.t) : OL () :=
  let map_index := get_index_by_lock_mode mode in
  op_list ← slot map_index;
  l ← lift op_list;
  set_slot map_index (Some (l ++ [op])).

(** A new node is allocated, initialised with the operation and appended.  The cleanup
    at the end of the callers needs the node: when it was not allocated, the list that
    was just created stays. *)
Definition add_node (mem : memory) (op : LockOp.t) (drop_list : bool) : OL Z :=
  if negb mem.(node_ok) then mret OB_ALLOCATE_MEMORY_FAILED
  else if negb (LockOp.is_valid op) then
    (if drop_list then drop_op_list_if_empty_ (LockOp.lock_mode_ op) else mret ()) ;; mret OB_INVALID_ARGUMENT
  else add_last (LockOp.lock_mode_ op) op ;; mret OB_SUCCESS.

Definition check_need_recover_ (lock_op : LockOp.t) (l : op_list) : bool :=
  forallb (fun curr => LockOp.need_replay_or_recover curr lock_op) l.

Definition same_op (lock_op curr : LockOp.t) : bool :=
  (LockOp.create_trans_id_ curr =? LockOp.create_trans_id_ lock_op)
  && (LockOp.owner_id_ curr =? LockOp.owner_id_ lock_op)
  && bool_decide (LockOp.op_type_ curr = LockOp.op_type_ lock_op).

Definition delete_lock_op_from_list_ (lock_op : LockOp.t) : OL () :=
  let map_index := get_index_by_lock_mode (LockOp.lock_mode_ lock_op) in
  op_list ← slot map_index;
  match op_list with
  | Some l => if negb (LockOp.is_valid lock_op) then mret ()
              else set_slot map_index (Some (filter (fun curr => same_op lock_op curr = false) l))
  | None => mret ()
  end.

Definition wakeup_waiters_ (lock_op : LockOp.t) : OL () :=
  if negb (LockOp.need_wakeup_waiter lock_op) then mret ()
  else update (fun s => set_wakeups (s.(wakeups_) ++ [LockOp.lock_id_ lock_op]) s).

(** ** May an operation be recorded? *)

(** One turn of [check_op_allow_lock_from_list_]: the return code and [need_break]. *)
Definition allow_lock_turn (lock_op curr : LockOp.t) (ret : Z) : Z * bool :=
  match LockOp.op_type_ lock_op with
  | IN_TRANS_DML_LOCK | IN_TRANS_COMMON_LOCK =>
    if (LockOp.create_trans_id_ curr =? LockOp.create_trans_id_ lock_op)
       && (bool_decide (LockOp.op_type_ curr = IN_TRANS_DML_LOCK) || bool_decide (LockOp.op_type_ curr = IN_TRANS_COMMON_LOCK))
    then
      if bool_decide (LockID.obj_type_ (LockOp.lock_id_ curr) = OBJ_TYPE_DBMS_LOCK) then (OB_OBJ_LOCK_EXIST, false)
      else if negb (bool_decide (LockOp.lock_op_status_ curr = LOCK_OP_DOING)) then (OB_ERR_UNEXPECTED, true)
      else (ret, false)
    else (ret, false)
  | OUT_TRANS_LOCK =>
    if LockOp.owner_id_ curr =? LockOp.owner_id_ lock_op then
      match LockOp.op_type_ curr with
      | OUT_TRANS_LOCK =>
        match LockOp.lock_op_status_ curr with
        | LOCK_OP_DOING => (OB_TRY_LOCK_ROW_CONFLICT, true)
        | LOCK_OP_COMPLETE => (OB_OBJ_LOCK_EXIST, false)
        | _ => (OB_ERR_UNEXPECTED, true)
        end
      | OUT_TRANS_UNLOCK => (OB_TRY_LOCK_ROW_CONFLICT, true)
      | IN_TRANS_COMMON_LOCK =>
        if LockOp.create_trans_id_ curr =? LockOp.create_trans_id_ lock_op then (ret, false) else (OB_ERR_UNEXPECTED, true)
      | _ => (OB_ERR_UNEXPECTED, true)
      end
    else (ret, false)
  | _ => (OB_ERR_UNEXPECTED, true)
  end.

Fixpoint check_op_allow_lock_from_list_ (lock_op : LockOp.t) (l : op_list) (ret : Z) : Z :=
  match l with
  | [] => ret
  | curr :: l =>
    let '(ret, need_break) := allow_lock_turn lock_op curr ret in
    if need_break then ret else check_op_allow_lock_from_list_ lock_op l ret
  end.

Definition check_op_allow_lock_ (lock_op : LockOp.t) : OL Z :=
  if negb (LockOp.is_valid lock_op) then mret OB_INVALID_ARGUMENT
  else
    let map_index := get_index_by_lock_mode (LockOp.lock_mode_ lock_op) in
    if map_index <? 0 then mret OB_ERR_UNEXPECTED
    else
      op_list ← slot map_index;
      mret (from_option (fun l => check_op_allow_lock_from_list_ lock_op l OB_SUCCESS) OB_SUCCESS op_list).

(** One turn of [check_op_allow_unlock_from_list_] for a node of the same owner. *)
Definition allow_unlock_turn (curr : LockOp.t) : Z :=
  match LockOp.lock_op_status_ curr with
  | LOCK_OP_DOING =>
    match LockOp.op_type_ curr with
    | OUT_TRANS_LOCK => OB_OBJ_LOCK_NOT_COMPLETED
    | OUT_TRANS_UNLOCK => OB_OBJ_UNLOCK_CONFLICT
    | _ => OB_ERR_UNEXPECTED
    end
  | LOCK_OP_COMPLETE =>
    match LockOp.op_type_ curr with
    | OUT_TRANS_UNLOCK => OB_OBJ_LOCK_NOT_EXIST
    | OUT_TRANS_LOCK => OB_SUCCESS
    | _ => OB_ERR_UNEXPECTED
    end
  | _ => OB_ERR_UNEXPECTED
  end.

Fixpoint allow_unlock_loop (lock_op : LockOp.t) (l : op_list) (lock_exist : bool) : Z * bool :=
  match l with
  | [] => (OB_SUCCESS, lock_exist)
  | curr :: l =>
    if LockOp.owner_id_ curr =? LockOp.owner_id_ lock_op then
      let ret := allow_unlock_turn curr in
      if ob_fail ret then (ret, true) else allow_unlock_loop lock_op l true
    else allow_unlock_loop lock_op l lock_exist
  end.

Definition check_op_allow_unlock_from_list_ (lock_op : LockOp.t) (l : op_list) : Z :=
  if negb (bool_decide (LockOp.op_type_ lock_op = OUT_TRANS_UNLOCK)) then OB_ERR_UNEXPECTED
  else
    let '(ret, lock_exist) := allow_unlock_loop lock_op l false in
    if ob_succ ret && negb lock_exist then OB_OBJ_LOCK_NOT_EXIST else ret.

Definition check_allow_unlock_ (unlock_op : LockOp.t) : OL Z :=
  if negb (is_lock_mode_valid (LockOp.lock_mode_ unlock_op)) then mret OB_INVALID_ARGUMENT
  else
    let map_index := get_index_by_lock_mode (LockOp.lock_mode_ unlock_op) in
    if map_index <? 0 then mret OB_ERR_UNEXPECTED
    else
      op_list ← slot map_index;
      mret (from_option (check_op_allow_unlock_from_list_ unlock_op) OB_OBJ_LOCK_NOT_EXIST op_list).

(** ** Conflicts with other transactions

    [lock_mode_cnt_in_same_trans]: for every mode the number of operations of the
    transaction on this object. *)

(** Counts are [int]: the difference and the sum are truncated to 32 bits. *)
Definition get_exist_lock_mode_cnt_without_curr_trans_ (lock_mode : ObTableLockMode) (in_same_trans : list Z) : OL Z :=
  if is_lock_mode_valid lock_mode then
    let index := get_index_by_lock_mode lock_mode in
    op_list ← slot index;
    in_trans ← lift (in_same_trans !! Z.to_nat index);
    let total_lock_mode_cnt := from_option (fun l => Z.of_nat (length l)) 0 op_list in
    let cnt := s32 (total_lock_mode_cnt - in_trans) in
    s ← reads id;
    if lock_mode =? ROW_SHARE then mret (s32 (cnt + s.(row_share_)))
    else if lock_mode =? ROW_EXCLUSIVE then mret (s32 (cnt + s.(row_exclusive_)))
    else if (lock_mode =? SHARE) || (lock_mode =? SHARE_ROW_EXCLUSIVE) || (lock_mode =? EXCLUSIVE) then mret cnt
    else mret (-1)
  else mret (-1).

(** The checks of [get_exist_lock_mode_without_curr_trans]: [rs], [rx], [sh], [srx], [x]
    count the operations of other transactions, the primed ones those of this one. *)
Definition lock_mode_counts_unexpected (rs rx sh srx x rs' rx' sh' srx' x' : Z) : bool :=
  (rs <? 0) || (rx <? 0) || (sh <? 0) || (srx <? 0) || (x <? 0)
  || ((0 <? rs') && (0 <? x))
  || ((0 <? rx') && ((0 <? sh) || (0 <? srx) || negb (x =? 0)))
  || ((0 <? sh') && ((0 <? rx) || (0 <? srx) || (0 <? x)))
  || ((0 <? srx') && ((0 <? rx) || (0 <? sh) || (0 <? srx) || (0 <? x)))
  || ((0 <? x') && ((0 <? rs) || (0 <? rx) || (0 <? sh) || (0 <? srx) || (0 <? x))).

Definition lock_mode_or (rs rx sh srx x : Z) : ObTableLockMode :=
  let bit (n : Z) (mode : ObTableLockMode) := if n =? 0 then 0 else mode in
  Z.lor (Z.lor (Z.lor (Z.lor (Z.lor 0 (bit rs ROW_SHARE)) (bit rx ROW_EXCLUSIVE)) (bit sh SHARE))
    (bit srx SHARE_ROW_EXCLUSIVE)) (bit x EXCLUSIVE).

Definition get_exist_lock_mode_without_curr_trans (in_same_trans : list Z) : OL (Z * ObTableLockMode) :=
  let own mode := lift (in_same_trans !! Z.to_nat (get_index_by_lock_mode mode)) in
  rs ← get_exist_lock_mode_cnt_without_curr_trans_ ROW_SHARE in_same_trans;
  rx ← get_exist_lock_mode_cnt_without_curr_trans_ ROW_EXCLUSIVE in_same_trans;
  sh ← get_exist_lock_mode_cnt_without_curr_trans_ SHARE in_same_trans;
  srx ← get_exist_lock_mode_cnt_without_curr_trans_ SHARE_ROW_EXCLUSIVE in_same_trans;
  x ← get_exist_lock_mode_cnt_without_curr_trans_ EXCLUSIVE in_same_trans;
  rs' ← own ROW_SHARE; rx' ← own ROW_EXCLUSIVE; sh' ← own SHARE; srx' ← own SHARE_ROW_EXCLUSIVE; x' ← own EXCLUSIVE;
  if lock_mode_counts_unexpected rs rx sh srx x rs' rx' sh' srx' x' then mret (OB_ERR_UNEXPECTED, 0)
  else mret (OB_SUCCESS, lock_mode_or rs rx sh srx x).

(** The transactions of a list: the return code and the set. *)
Fixpoint get_tx_id_set_from_list_ (myself_tx : ObTransID) (include_finish_tx : bool) (l : op_list) (tx_id_set : ObTxIDSet) :
    Z * ObTxIDSet :=
  match l with
  | [] => (OB_SUCCESS, tx_id_set)
  | curr :: l =>
    if (include_finish_tx || bool_decide (LockOp.lock_op_status_ curr = LOCK_OP_DOING))
       && negb (myself_tx =? LockOp.create_trans_id_ curr) then
      let '(ret, tx_id_set) := set_refactored (LockOp.create_trans_id_ curr) tx_id_set in
      let ret := if ret =? OB_HASH_EXIST then OB_SUCCESS else ret in
      if ob_succ ret then get_tx_id_set_from_list_ myself_tx include_finish_tx l tx_id_set else (ret, tx_id_set)
    else get_tx_id_set_from_list_ myself_tx include_finish_tx l tx_id_set
  end.

Definition need_check_curr_list (i lock_modes : Z) : bool :=
  let curr_mode := get_lock_mode_by_index i in Z.land curr_mode lock_modes =? curr_mode.

Fixpoint get_tx_id_set_loop (myself_tx : ObTransID) (lock_modes : Z) (include_finish_tx : bool) (i : Z)
    (lists : list (option op_list)) (tx_id_set : ObTxIDSet) : Z * ObTxIDSet :=
  match lists with
  | [] => (OB_SUCCESS, tx_id_set)
  | op_list :: lists =>
    let '(ret, tx_id_set) :=
      match op_list with
      | Some l => if need_check_curr_list i lock_modes
                  then get_tx_id_set_from_list_ myself_tx include_finish_tx l tx_id_set else (OB_SUCCESS, tx_id_set)
      | None => (OB_SUCCESS, tx_id_set)
      end in
    if ob_succ ret then get_tx_id_set_loop myself_tx lock_modes include_finish_tx (i + 1) lists tx_id_set
    else (ret, tx_id_set)
  end.

Definition get_tx_id_set_ (myself_tx : ObTransID) (lock_modes : Z) (include_finish_tx : bool) (tx_id_set : ObTxIDSet) :
    OL (Z * ObTxIDSet) :=
  reads (fun s => get_tx_id_set_loop myself_tx lock_modes include_finish_tx 0 s.(map_) tx_id_set).

(** The conflict is with a lock of a DML statement. *)
Definition conflict_with_dml (conflict_modes : Z) (s : obj_lock) : bool :=
  (negb (Z.land conflict_modes ROW_SHARE =? 0) && negb (s.(row_share_) =? 0))
  || (negb (Z.land conflict_modes ROW_EXCLUSIVE =? 0) && negb (s.(row_exclusive_) =? 0)).

(** The request against the modes of other transactions: the return code and
    [conflict_modes]. *)
Definition check_lock_modes (lock_op : LockOp.t) (in_same_trans : list Z) : OL (Z * Z) :=
  '(ret, curr_lock_mode) ← get_exist_lock_mode_without_curr_trans in_same_trans;
  if ob_fail ret then mret (ret, 0)
  else
    '(allowed, conflict_modes) ← lift (request_lock curr_lock_mode (LockOp.lock_mode_ lock_op) 0);
    mret (if (allowed : bool) then OB_SUCCESS else OB_TRY_LOCK_ROW_CONFLICT, conflict_modes).

(** What is reported of a conflict. *)
Definition report_conflict (lock_op : LockOp.t) (ret conflict_modes : Z) (conflict_with_dml_lock : bool)
    (include_finish_tx only_check_dml_lock : bool) : OL (Z * ObTxIDSet * bool) :=
  conflict_tx_set ←
    (if (ret =? OB_TRY_LOCK_ROW_CONFLICT) && negb (conflict_modes =? 0) then
       '(_, s) ← get_tx_id_set_ (LockOp.create_trans_id_ lock_op) conflict_modes include_finish_tx []; mret s
     else mret []);
  s ← reads id;
  let ret := if (ret =? OB_TRY_LOCK_ROW_CONFLICT) && only_check_dml_lock
             then (if conflict_with_dml conflict_modes s then OB_TRY_LOCK_ROW_CONFLICT else OB_SUCCESS) else ret in
  mret (ret, conflict_tx_set,
        if ret =? OB_TRY_LOCK_ROW_CONFLICT then conflict_with_dml conflict_modes s else conflict_with_dml_lock).

(** The return code, the transactions in conflict, and [conflict_with_dml_lock]. *)
Definition check_allow_lock_ (lock_op : LockOp.t) (in_same_trans : list Z) (conflict_with_dml_lock : bool)
    (include_finish_tx only_check_dml_lock : bool) : OL (Z * ObTxIDSet * bool) :=
  ret ← (if LockOp.need_record_lock_op lock_op then check_op_allow_lock_ lock_op else mret OB_SUCCESS);
  '(ret, conflict_modes) ← (if ob_fail ret then mret (ret, 0) else check_lock_modes lock_op in_same_trans);
  report_conflict lock_op ret conflict_modes conflict_with_dml_lock include_finish_tx only_check_dml_lock.

Definition check_allow_lock (lock_op : LockOp.t) (in_same_trans : list Z) (conflict_tx_set : ObTxIDSet)
    (conflict_with_dml_lock include_finish_tx only_check_dml_lock : bool) : OL (Z * ObTxIDSet * bool) :=
  if negb (LockOp.is_valid lock_op) then mret (OB_INVALID_ARGUMENT, conflict_tx_set, conflict_with_dml_lock)
  else check_allow_lock_ lock_op in_same_trans conflict_with_dml_lock include_finish_tx only_check_dml_lock.

(** ** Lock and unlock *)

Definition slow_lock (mem : memory) (param : lock_param) (lock_op : LockOp.t) (in_same_trans : list Z)
    (conflict_tx_set : ObTxIDSet) : OL (Z * ObTxIDSet) :=
  deleted ← reads is_deleted_;
  if deleted : bool then mret (OB_EAGAIN, conflict_tx_set)
  else
    '(ret, conflict_tx_set, conflict_with_dml_lock) ← check_allow_lock_ lock_op in_same_trans false true false;
    ret ← (if ob_fail ret then mret ret
           else
             ret ← get_or_create_op_list mem (LockOp.lock_mode_ lock_op);
             if ob_fail ret then mret ret else add_node mem lock_op true);
    mret (if (ret =? OB_TRY_LOCK_ROW_CONFLICT) && negb param.(is_try_lock_)
             && (negb (LockOp.is_dml_lock_op lock_op) && conflict_with_dml_lock && param.(is_deadlock_avoid_enabled_))
          then OB_TRANS_KILLED else ret, conflict_tx_set).

Definition try_fast_lock_ (lock_op : LockOp.t) (in_same_trans : list Z) (conflict_tx_set : ObTxIDSet) : OL (Z * ObTxIDSet) :=
  deleted ← reads is_deleted_;
  if deleted : bool then mret (OB_EAGAIN, conflict_tx_set)
  else if LockOp.need_record_lock_op lock_op then mret (OB_ERR_UNEXPECTED, conflict_tx_set)
  else
    '(ret, conflict_tx_set, _) ← check_allow_lock_ lock_op in_same_trans false true false;
    if ob_fail ret then mret (ret, conflict_tx_set)
    else lock_row_ (LockOp.lock_mode_ lock_op) ;; mret (OB_SUCCESS, conflict_tx_set).

Definition fast_lock (lock_op : LockOp.t) (in_same_trans : list Z) (conflict_tx_set : ObTxIDSet) : OL (Z * ObTxIDSet) :=
  try_fast_lock_ lock_op in_same_trans conflict_tx_set.

Definition lock (mem : memory) (param : lock_param) (lock_op : LockOp.t) (in_same_trans : list Z)
    (conflict_tx_set : ObTxIDSet) : OL (Z * ObTxIDSet) :=
  if negb (LockOp.is_valid lock_op) then mret (OB_INVALID_ARGUMENT, conflict_tx_set)
  else if negb (LockOp.need_record_lock_op lock_op) then fast_lock lock_op in_same_trans conflict_tx_set
  else slow_lock mem param lock_op in_same_trans conflict_tx_set.

Definition unlock_ (mem : memory) (unlock_op : LockOp.t) : OL Z :=
  ret ← check_allow_unlock_ unlock_op;
  if ob_fail ret then mret ret
  else
    '(ret, op_list) ← get_op_list (LockOp.lock_mode_ unlock_op);
    if ob_fail ret then mret ret
    else match op_list with
         | None => mret OB_OBJ_LOCK_NOT_EXIST
         | Some _ => add_node mem unlock_op false
         end.

(** [now]: the clock. *)
Definition unlock (mem : memory) (unlock_op : LockOp.t) (is_try_lock : bool) (expired_time now : Z) : OL Z :=
  if negb (LockOp.is_valid unlock_op) then mret OB_INVALID_ARGUMENT
  else if negb (LockOp.need_record_lock_op unlock_op) then mret OB_ERR_UNEXPECTED
  else if negb is_try_lock && (expired_time <=? now) then mret OB_TIMEOUT
  else
    deleted ← reads is_deleted_;
    if deleted : bool then mret OB_EAGAIN else unlock_ mem unlock_op.

Definition remove_lock_op (lock_op : LockOp.t) : OL () :=
  if negb (LockOp.is_valid lock_op) then mret ()
  else if negb (LockOp.need_record_lock_op lock_op) then unlock_row_ (LockOp.lock_mode_ lock_op)
  else
    let map_index := get_index_by_lock_mode (LockOp.lock_mode_ lock_op) in
    if map_index <? 0 then mret ()
    else
      delete_lock_op_from_list_ lock_op ;;
      drop_op_list_if_empty_ (LockOp.lock_mode_ lock_op) ;;
      wakeup_waiters_ lock_op.

(** ** Compaction: a completed unlock goes together with its lock *)

(** The loop that looks for the two nodes: the places of the last completed lock and
    unlock of the owner before both are found. *)
Fixpoint find_pair (unlock_op : LockOp.t) (l : op_list) (i : nat) (lock_ptr unlock_ptr : option nat) :
    option nat * option nat :=
  match l with
  | [] => (lock_ptr, unlock_ptr)
  | curr :: l =>
    if (LockOp.owner_id_ curr =? LockOp.owner_id_ unlock_op) && (LockOp.lock_mode_ curr =? LockOp.lock_mode_ unlock_op) then
      let lock_ptr := if is_complete_outtrans_lock curr then Some i else lock_ptr in
      let unlock_ptr := if negb (is_complete_outtrans_lock curr) && is_complete_outtrans_unlock curr then Some i else unlock_ptr in
      match lock_ptr, unlock_ptr with
      | Some _, Some _ => (lock_ptr, unlock_ptr)
      | _, _ => find_pair unlock_op l (S i) lock_ptr unlock_ptr
      end
    else find_pair unlock_op l (S i) lock_ptr unlock_ptr
  end.

(** The place of node [j] after node [i] has been removed. *)
Definition shifted (i : option nat) (j : nat) : nat :=
  match i with Some i => if decide (i < j)%nat then (j - 1)%nat else j | None => j end.

(** The list without the nodes, and [is_compact]. *)
Definition compact_pair (unlock_op : LockOp.t) (is_force : bool) (l : op_list) : op_list * bool :=
  let '(lock_ptr, unlock_ptr) := find_pair unlock_op l 0 None None in
  let is_compact := bool_decide (is_Some lock_ptr) in
  let l := from_option (fun i => delete i l) l lock_ptr in
  match unlock_ptr with
  | Some j => if is_compact || is_force then (delete (shifted lock_ptr j) l, true) else (l, is_compact)
  | None => (l, is_compact)
  end.

(** [compact_tablelock_] for one unlock: the return code and [is_compact]. *)
Definition compact_tablelock_op_ (unlock_op : LockOp.t) (map_index : Z) (is_compact is_force : bool) : OL (Z * bool) :=
  op_list ← slot map_index;
  match op_list with
  | Some l =>
    if negb (LockOp.is_valid unlock_op) then mret (OB_INVALID_ARGUMENT, is_compact)
    else
      let '(l, is_compact) := compact_pair unlock_op is_force l in
      set_slot map_index (Some l) ;; mret (OB_SUCCESS, is_compact)
  | None => mret (OB_INVALID_ARGUMENT, is_compact)
  end.

Definition get_first_complete_unlock_op_ (l : op_list) : option LockOp.t :=
  snd <$> list_find (fun op => is_complete_outtrans_unlock op = true) l.

(** The loop over one list; every turn but the last removes a node, so there are at most
    as many as nodes and one.  [found] is the last unlock that was taken. *)
Fixpoint compact_list_loop (fuel : nat) (map_index : Z) (is_force tmp_is_compact is_compact : bool)
    (found : option LockOp.t) : OL (Z * bool * option LockOp.t) :=
  match fuel with
  | O => lift None
  | S fuel =>
    if negb tmp_is_compact then mret (OB_SUCCESS, is_compact, found)
    else
      op_list ← slot map_index;
      match op_list ≫= get_first_complete_unlock_op_ with
      | None => mret (OB_OBJ_LOCK_NOT_EXIST, is_compact, found)
      | Some unlock_op =>
        '(ret, tmp_is_compact) ← compact_tablelock_op_ unlock_op map_index tmp_is_compact is_force;
        if ob_fail ret then mret (ret, is_compact, Some unlock_op)
        else compact_list_loop fuel map_index is_force tmp_is_compact (if tmp_is_compact : bool then true else is_compact)
               (Some unlock_op)
      end
  end.

Definition compact_tablelock_list_ (map_index : Z) (is_force : bool) : OL (Z * bool) :=
  op_list ← slot map_index;
  match op_list with
  | None => mret (OB_SUCCESS, false)
  | Some l =>
    '(ret, is_compact, found) ← compact_list_loop (S (length l)) map_index is_force true false None;
    (match found with
     | Some unlock_op => if LockOp.is_valid unlock_op then drop_op_list_if_empty_ (LockOp.lock_mode_ unlock_op) else mret ()
     | None => mret ()
     end) ;;
    mret (if ret =? OB_OBJ_LOCK_NOT_EXIST then OB_SUCCESS else ret, is_compact)
  end.

(** All lists, from index [i]. *)
Fixpoint compact_lists_loop (n : nat) (i : Z) (is_force is_compact : bool) : OL (Z * bool) :=
  match n with
  | O => mret (OB_SUCCESS, is_compact)
  | S n =>
    '(ret, tmp_is_compact) ← compact_tablelock_list_ i is_force;
    if ob_fail ret then mret (ret, is_compact)
    else compact_lists_loop n (i + 1) is_force (if tmp_is_compact : bool then true else is_compact)
  end.

Definition compact_tablelock (is_force : bool) : OL (Z * bool) :=
  compact_lists_loop (Z.to_nat TABLE_LOCK_MODE_COUNT) 0 is_force false.

(** ** End of a transaction *)

(** The first operation of the transaction, owner and kind gets the status; [None] when
    there is none. *)
Fixpoint update_lock_status_ (lock_op : LockOp.t) (commit_version commit_scn : SCN) (status : ObTableLockOpStatus)
    (l : op_list) : option op_list :=
  match l with
  | [] => None
  | curr :: l =>
    if same_op lock_op curr then Some (LockOp.set_status status commit_version commit_scn curr :: l)
    else cons curr <$> update_lock_status_ lock_op commit_version commit_scn status l
  end.

Definition is_committed_unlock (lock_op : LockOp.t) (status : ObTableLockOpStatus) : bool :=
  bool_decide (LockOp.op_type_ lock_op = OUT_TRANS_UNLOCK) && bool_decide (status = LOCK_OP_COMPLETE).

(** The list of the mode is searched and changed. *)
Definition set_op_status (lock_op : LockOp.t) (commit_version commit_scn : SCN) (status : ObTableLockOpStatus) : OL Z :=
  deleted ← reads is_deleted_;
  if deleted : bool then mret OB_ERR_UNEXPECTED
  else
    '(ret, op_list) ← get_op_list (LockOp.lock_mode_ lock_op);
    if ob_fail ret then mret ret
    else match op_list ≫= update_lock_status_ lock_op commit_version commit_scn status with
         | Some l => set_slot (get_index_by_lock_mode (LockOp.lock_mode_ lock_op)) (Some l) ;; mret OB_SUCCESS
         | None => mret OB_OBJ_LOCK_NOT_EXIST
         end.

(** The list of a committed unlock is compacted. *)
Definition compact_unlocked (lock_op : LockOp.t) : OL () :=
  deleted ← reads is_deleted_;
  if deleted : bool then mret ()
  else
    '(tmp_ret, _) ← get_op_list (LockOp.lock_mode_ lock_op);
    if ob_fail tmp_ret then mret ()
    else
      '(tmp_ret, _) ← compact_tablelock_op_ lock_op (get_index_by_lock_mode (LockOp.lock_mode_ lock_op)) true false;
      if ob_fail tmp_ret then mret () else drop_op_list_if_empty_ (LockOp.lock_mode_ lock_op).

Definition update_lock_status (lock_op : LockOp.t) (commit_version commit_scn : SCN) (status : ObTableLockOpStatus) : OL Z :=
  if negb (LockOp.is_valid lock_op) then mret OB_INVALID_ARGUMENT
  else if negb (LockOp.need_record_lock_op lock_op) then mret OB_SUCCESS
  else
    ret ← set_op_status lock_op commit_version commit_scn status;
    (if ob_succ ret && is_committed_unlock lock_op status then compact_unlocked lock_op ;; wakeup_waiters_ lock_op
     else mret ()) ;;
    mret ret.

(** ** Recovery and replay *)

Definition recover_ (mem : memory) (lock_op : LockOp.t) : OL Z :=
  if negb (LockOp.need_record_lock_op lock_op) then lock_row_ (LockOp.lock_mode_ lock_op) ;; mret OB_SUCCESS
  else
    ret ← get_or_create_op_list mem (LockOp.lock_mode_ lock_op);
    if ob_fail ret then mret ret
    else
      op_list ← slot (get_index_by_lock_mode (LockOp.lock_mode_ lock_op));
      l ← lift op_list;
      if negb (check_need_recover_ lock_op l) then mret OB_SUCCESS else add_node mem lock_op true.

Definition recover_lock (mem : memory) (lock_op : LockOp.t) : OL Z :=
  if negb (LockOp.is_valid lock_op) then mret OB_INVALID_ARGUMENT
  else
    deleted ← reads is_deleted_;
    if deleted : bool then mret OB_EAGAIN else recover_ mem lock_op.

(** ** The rest *)

Definition obj_lock_reset (s : obj_lock) : obj_lock :=
  set_map (replicate (Z.to_nat TABLE_LOCK_MODE_COUNT) None) (set_row_exclusive 0 (set_row_share 0 s)).

Definition size_without_lock (s : obj_lock) : Z :=
  Z.of_nat (length (filter is_Some s.(map_)))
  + (if s.(row_share_) =? 0 then 0 else 1) + (if s.(row_exclusive_) =? 0 then 0 else 1).

(** The operations in the order of the lists. *)
Definition all_ops (s : obj_lock) : op_list := concat (default [] <$> s.(map_)).

Definition min_rec_scn_turn (flushed_scn : SCN) (op : LockOp.t) (min_rec_scn : SCN) : SCN :=
  if bool_decide (LockOp.op_type_ op = OUT_TRANS_LOCK) && bool_decide (LockOp.lock_op_status_ op = LOCK_OP_COMPLETE)
     && scn_gt (LockOp.commit_scn_ op) flushed_scn && scn_lt (LockOp.commit_scn_ op) min_rec_scn
  then LockOp.commit_scn_ op else min_rec_scn.

Definition get_min_ddl_lock_committed_scn (flushed_scn : SCN) (s : obj_lock) : SCN :=
  foldl (fun min_rec_scn op => min_rec_scn_turn flushed_scn op min_rec_scn) max_scn (all_ops s).

(** [push]: what [push_back] returns for an array of this size. *)
Fixpoint store_info_loop (push : nat -> Z) (freeze_scn : SCN) (l : op_list) (store_arr : op_list) : Z * op_list :=
  match l with
  | [] => (OB_SUCCESS, store_arr)
  | curr :: l =>
    if scn_le (LockOp.commit_scn_ curr) freeze_scn && (is_complete_outtrans_lock curr || is_complete_outtrans_unlock curr) then
      let ret := push (length store_arr) in
      if ob_fail ret then (ret, store_arr) else store_info_loop push freeze_scn l (store_arr ++ [curr])
    else store_info_loop push freeze_scn l store_arr
  end.

Definition get_table_lock_store_info (push : nat -> Z) (freeze_scn : SCN) (store_arr : op_list) (s : obj_lock) : Z * op_list :=
  store_info_loop push freeze_scn (all_ops s) store_arr.
