(* ===== verification/LockTable.v ===== *)
(** * The table of object locks and the lock memtable

    [ObOBJLockMap] of [src/storage/tablelock/ob_obj_lock.cpp] and the parts of
    [ObLockMemtable] of [ob_lock_memtable.cpp] that work on it.  The [ObOBJLock]s are
    kept in a store by address: a thread may hold a reference to one that was removed
    from the map.  Reference counts only decide when memory is returned and are left
    out; the buckets of the hash map are. *)

From Stdlib Require Import ZArith Lia Bool.
From stdpp Require Import base countable numbers option gmap list.
From S2P Require Import Prelude Serialization Scn TableLockCommon ObjLock.
Import AbortMonad.

Local Open Scope Z_scope.

Record lock_table := LockTable {
  objs_ : gmap nat obj_lock;
  lock_map_ : gmap LockID.t nat;
  map_inited_ : bool;
  memtable_inited_ : bool;
  freeze_scn_ : SCN;
  flushed_scn_ : SCN;
  rec_scn_ : SCN;
  pre_rec_scn_ : SCN;
  max_committed_scn_ : SCN;
  is_frozen_ : bool }.

Definition new_lock_memtable : lock_table :=
  LockTable ∅ ∅ false false min_scn min_scn max_scn max_scn OB_INVALID_SCN_VAL false.

Definition set_objs (x : gmap nat obj_lock) (s : lock_table) : lock_table :=
  LockTable x s.(lock_map_) s.(map_inited_) s.(memtable_inited_) s.(freeze_scn_) s.(flushed_scn_) s.(rec_scn_)
    s.(pre_rec_scn_) s.(max_committed_scn_) s.(is_frozen_).
Definition set_lock_map (x : gmap LockID.t nat) (s : lock_table) : lock_table :=
  LockTable s.(objs_) x s.(map_inited_) s.(memtable_inited_) s.(freeze_scn_) s.(flushed_scn_) s.(rec_scn_)
    s.(pre_rec_scn_) s.(max_committed_scn_) s.(is_frozen_).
Definition set_inited (x y : bool) (s : lock_table) : lock_table :=
  LockTable s.(objs_) s.(lock_map_) x y s.(freeze_scn_) s.(flushed_scn_) s.(rec_scn_)
    s.(pre_rec_scn_) s.(max_committed_scn_) s.(is_frozen_).
Definition set_scns (freeze flushed rec pre_rec max_committed : SCN) (frozen : bool) (s : lock_table) : lock_table :=
  LockTable s.(objs_) s.(lock_map_) s.(map_inited_) s.(memtable_inited_) freeze flushed rec pre_rec max_committed frozen.

Abbreviation LT := (R lock_table).

(** Run a method of the object at an address. *)
Definition at_obj {A} (a : nat) (m : OL A) : LT A :=
  fun s => o ← s.(objs_) !! a; '(x, o) ← m o; Some (x, set_objs (<[a := o]> s.(objs_)) s).

(** ** [ObOBJLockMap] *)

Definition map_init (ret : Z) : LT Z :=
  inited ← reads map_inited_;
  if inited : bool then mret OB_INIT_TWICE
  else if ob_fail ret then mret ret else update (fun s => set_inited true s.(memtable_inited_) s) ;; mret OB_SUCCESS.

Definition map_reset : LT () :=
  inited ← reads map_inited_;
  if negb inited then mret ()
  else update (fun s => set_inited false s.(memtable_inited_) (set_lock_map ∅ (set_objs (obj_lock_reset <$> s.(objs_)) s))).

(** [alloc]: the allocation of an [ObOBJLock] succeeds.  An insertion that meets the
    object of another thread is tried again and finds it. *)
Definition get_or_create_obj_lock_with_ref_ (alloc : bool) (lock_id : LockID.t) : LT (Z * option nat) :=
  s ← reads id;
  if negb s.(map_inited_) then mret (OB_NOT_INIT, None)
  else match s.(lock_map_) !! lock_id with
       | Some a => mret (OB_SUCCESS, Some a)
       | None =>
         if negb alloc then mret (OB_ALLOCATE_MEMORY_FAILED, None)
         else
           let a := fresh (dom s.(objs_)) in
           update (set_lock_map (<[lock_id := a]> s.(lock_map_))) ;;
           update (set_objs (<[a := new_obj_lock lock_id]> s.(objs_))) ;;
           mret (OB_SUCCESS, Some a)
       end.

Definition get_obj_lock_with_ref_ (lock_id : LockID.t) : LT (Z * option nat) :=
  s ← reads id;
  if negb s.(map_inited_) then mret (OB_NOT_INIT, None)
  else match s.(lock_map_) !! lock_id with
       | Some a => mret (OB_SUCCESS, Some a)
       | None => mret (OB_OBJ_LOCK_NOT_EXIST, None)
       end.

(** [do { turn } while (ret == OB_EAGAIN)], for at most [fuel] turns. *)
Fixpoint retry_eagain {A} (fuel : nat) (turn : LT (Z * A)) : LT (Z * A) :=
  match fuel with
  | O => fun _ => None
  | S fuel => '(ret, x) ← turn; if ret =? OB_EAGAIN then retry_eagain fuel turn else mret (ret, x)
  end.

Definition map_lock_turn (mem : memory) (alloc : bool) (param : lock_param) (lock_op : LockOp.t) (in_same_trans : list Z)
    (conflict_tx_set : ObTxIDSet) : LT (Z * ObTxIDSet) :=
  '(ret, obj) ← get_or_create_obj_lock_with_ref_ alloc (LockOp.lock_id_ lock_op);
  match obj with
  | Some a => if ob_fail ret then mret (ret, conflict_tx_set)
              else at_obj a (lock mem param lock_op in_same_trans conflict_tx_set)
  | None => mret (ret, conflict_tx_set)
  end.

Definition map_lock (fuel : nat) (mem : memory) (alloc : bool) (param : lock_param) (lock_op : LockOp.t)
    (in_same_trans : list Z) (conflict_tx_set : ObTxIDSet) : LT (Z * ObTxIDSet) :=
  inited ← reads map_inited_;
  if negb inited then mret (OB_NOT_INIT, conflict_tx_set)
  else if negb (LockOp.is_valid lock_op) then mret (OB_INVALID_ARGUMENT, conflict_tx_set)
  else retry_eagain fuel (map_lock_turn mem alloc param lock_op in_same_trans conflict_tx_set).

Definition map_unlock_turn (mem : memory) (unlock_op : LockOp.t) (is_try_lock : bool) (expired_time now : Z) : LT (Z * ()) :=
  '(ret, obj) ← get_obj_lock_with_ref_ (LockOp.lock_id_ unlock_op);
  match obj with
  | Some a => ret ← at_obj a (unlock mem unlock_op is_try_lock expired_time now); mret (ret, ())
  | None => mret (ret, ())
  end.

Definition map_unlock (fuel : nat) (mem : memory) (unlock_op : LockOp.t) (is_try_lock : bool) (expired_time now : Z) : LT Z :=
  inited ← reads map_inited_;
  if negb inited then mret OB_NOT_INIT
  else if negb (LockOp.is_valid unlock_op) then mret OB_INVALID_ARGUMENT
  else '(ret, _) ← retry_eagain fuel (map_unlock_turn mem unlock_op is_try_lock expired_time now); mret ret.

Definition map_recover_turn (mem : memory) (alloc : bool) (lock_op : LockOp.t) : LT (Z * ()) :=
  '(ret, obj) ← get_or_create_obj_lock_with_ref_ alloc (LockOp.lock_id_ lock_op);
  match obj with
  | Some a => ret ← at_obj a (recover_lock mem lock_op); mret (ret, ())
  | None => mret (ret, ())
  end.

Definition map_recover_obj_lock (fuel : nat) (mem : memory) (alloc : bool) (lock_op : LockOp.t) : LT Z :=
  inited ← reads map_inited_;
  if negb inited then mret OB_NOT_INIT
  else if negb (LockOp.is_valid lock_op) then mret OB_INVALID_ARGUMENT
  else '(ret, _) ← retry_eagain fuel (map_recover_turn mem alloc lock_op); mret ret.

Definition map_remove_lock_record (lock_op : LockOp.t) : LT () :=
  s ← reads id;
  if negb s.(map_inited_) then mret ()
  else if negb (LockOp.is_valid lock_op) then mret ()
  else match s.(lock_map_) !! LockOp.lock_id_ lock_op with
       | Some a => at_obj a (remove_lock_op lock_op)
       | None => mret ()
       end.

(** All locks of the object are given up. *)
Definition map_remove_lock (lock_id : LockID.t) : LT Z :=
  inited ← reads map_inited_;
  if negb inited then mret OB_NOT_INIT
  else if negb (LockID.is_valid lock_id) then mret OB_INVALID_ARGUMENT
  else
    '(ret, obj) ← get_obj_lock_with_ref_ lock_id;
    match obj with
    | Some a => at_obj a (update (fun o => obj_lock_reset (set_is_deleted true o))) ;;
                update (fun s => set_lock_map (delete lock_id s.(lock_map_)) s) ;; mret OB_SUCCESS
    | None => mret (if ret =? OB_OBJ_LOCK_NOT_EXIST then OB_SUCCESS else ret)
    end.

Definition map_update_lock_status (lock_op : LockOp.t) (commit_version commit_scn : SCN) (status : ObTableLockOpStatus) : LT Z :=
  inited ← reads map_inited_;
  if negb inited then mret OB_NOT_INIT
  else if negb (LockOp.is_valid lock_op) then mret OB_INVALID_ARGUMENT
  else
    '(ret, obj) ← get_obj_lock_with_ref_ (LockOp.lock_id_ lock_op);
    match obj with
    | Some a => at_obj a (update_lock_status lock_op commit_version commit_scn status)
    | None => mret ret
    end.

Definition map_check_allow_lock (lock_op : LockOp.t) (in_same_trans : list Z) (conflict_tx_set : ObTxIDSet)
    (include_finish_tx only_check_dml_lock : bool) : LT (Z * ObTxIDSet) :=
  inited ← reads map_inited_;
  if negb inited then mret (OB_NOT_INIT, conflict_tx_set)
  else if negb (LockOp.is_valid lock_op) then mret (OB_INVALID_ARGUMENT, conflict_tx_set)
  else
    '(ret, obj) ← get_obj_lock_with_ref_ (LockOp.lock_id_ lock_op);
    match obj with
    | Some a =>
      '(ret, conflict_tx_set, _) ←
        at_obj a (check_allow_lock lock_op in_same_trans conflict_tx_set false include_finish_tx only_check_dml_lock);
      mret (ret, conflict_tx_set)
    | None => mret (if ret =? OB_OBJ_LOCK_NOT_EXIST then OB_SUCCESS else ret, conflict_tx_set)
    end.

(** [a]: the object that the caller has a reference to. *)
Definition drop_obj_lock_if_empty_ (lock_id : LockID.t) (a : nat) : LT () :=
  if negb (LockID.is_valid lock_id) then mret ()
  else
    is_empty ← at_obj a (reads (fun o => size_without_lock o =? 0));
    if negb is_empty then mret ()
    else
      drop ← at_obj a (reads (fun o => (size_without_lock o =? 0) && negb o.(is_deleted_)));
      if negb drop then mret ()
      else
        at_obj a (update (set_is_deleted true)) ;;
        '(ret, recheck) ← get_obj_lock_with_ref_ lock_id;
        match recheck with
        | Some b => if bool_decide (a = b) then update (fun s => set_lock_map (delete lock_id s.(lock_map_)) s) else mret ()
        | None => mret ()
        end.

(** The identities come from [get_lock_id_iter]; one that is gone is skipped. *)
Fixpoint check_and_clear_loop (force_compact : bool) (ids : list LockID.t) : LT Z :=
  match ids with
  | [] => mret OB_SUCCESS
  | lock_id :: ids =>
    '(ret, obj) ← get_obj_lock_with_ref_ lock_id;
    match obj with
    | Some a => at_obj a (compact_tablelock force_compact) ;; drop_obj_lock_if_empty_ lock_id a ;;
                check_and_clear_loop force_compact ids
    | None => if ret =? OB_OBJ_LOCK_NOT_EXIST then check_and_clear_loop force_compact ids else mret ret
    end
  end.

(** [iter_ret], [ids]: what [get_lock_id_iter] returns. *)
Definition map_check_and_clear_obj_lock (iter_ret : Z) (ids : list LockID.t) (force_compact : bool) : LT Z :=
  if ob_fail iter_ret then mret iter_ret else check_and_clear_loop force_compact ids.

(** ** [ObLockMemtable] *)

Definition memtable_remove_lock_record (op_info : LockOp.t) : LT () :=
  inited ← reads memtable_inited_;
  if negb inited then mret ()
  else if negb (LockOp.is_valid op_info) then mret () else map_remove_lock_record op_info.

Definition memtable_recover_obj_lock (fuel : nat) (mem : memory) (alloc : bool) (op_info : LockOp.t) : LT Z :=
  inited ← reads memtable_inited_;
  if negb inited then mret OB_NOT_INIT
  else if negb (LockOp.is_valid op_info) then mret OB_INVALID_ARGUMENT
  else map_recover_obj_lock fuel mem alloc op_info.

Definition remove_tablet_lock (tablet_id : Z) : LT Z :=
  inited ← reads memtable_inited_;
  if negb inited then mret OB_NOT_INIT
  else if negb (tablet_id_is_valid tablet_id) then mret OB_INVALID_ARGUMENT
  else
    let '(ret, lock_id) := LockID.get_tablet_lock_id tablet_id LockID.fresh in
    if ob_fail ret then mret ret else map_remove_lock lock_id.

Definition check_and_clear_obj_lock (iter_ret : Z) (ids : list LockID.t) (force_compact : bool) : LT Z :=
  inited ← reads memtable_inited_;
  if negb inited then mret OB_NOT_INIT else map_check_and_clear_obj_lock iter_ret ids force_compact.

(** [dec_update] and [inc_update] of a timestamp that nobody else writes meanwhile. *)
Definition scn_dec_update (ref val : SCN) : LT SCN := fun s => '(_, val) ← dec_update [] val ref; Some (val, s).
Definition scn_inc_update (ref val : SCN) : LT SCN := fun s => '(_, val) ← inc_update [] val ref; Some (val, s).

(** The checkpoint of a committed operation. *)
Definition note_commit_scn (commit_scn : SCN) : LT () :=
  s ← reads id;
  (if scn_le commit_scn s.(freeze_scn_) then
     pre_rec ← scn_dec_update commit_scn s.(pre_rec_scn_);
     update (fun s => set_scns s.(freeze_scn_) s.(flushed_scn_) s.(rec_scn_) pre_rec s.(max_committed_scn_) s.(is_frozen_) s)
   else
     rec ← scn_dec_update commit_scn s.(rec_scn_);
     update (fun s => set_scns s.(freeze_scn_) s.(flushed_scn_) rec s.(pre_rec_scn_) s.(max_committed_scn_) s.(is_frozen_) s)) ;;
  s ← reads id;
  max_committed ← scn_inc_update commit_scn s.(max_committed_scn_);
  update (fun s => set_scns s.(freeze_scn_) s.(flushed_scn_) s.(rec_scn_) s.(pre_rec_scn_) max_committed s.(is_frozen_) s).

Definition memtable_update_lock_status (op_info : LockOp.t) (commit_version commit_scn : SCN) (status : ObTableLockOpStatus) : LT Z :=
  s ← reads id;
  if negb s.(memtable_inited_) then mret OB_NOT_INIT
  else if negb (LockOp.is_valid op_info) || negb (is_op_status_valid status) then mret OB_INVALID_ARGUMENT
  else if LockOp.is_out_trans_lock_op op_info && scn_le commit_scn s.(flushed_scn_) then mret OB_SUCCESS
  else
    ret ← map_update_lock_status op_info commit_version commit_scn status;
    if ob_fail ret then mret ret
    else if (bool_decide (LockOp.op_type_ op_info = OUT_TRANS_LOCK) || bool_decide (LockOp.op_type_ op_info = OUT_TRANS_UNLOCK))
            && bool_decide (status = LOCK_OP_COMPLETE)
    then note_commit_scn commit_scn ;; mret ret
    else mret ret.

Definition get_rec_scn (s : lock_table) : SCN :=
  if is_max s.(pre_rec_scn_) then s.(rec_scn_) else min s.(pre_rec_scn_) s.(rec_scn_).

Definition is_active_memtable (s : lock_table) : bool := negb s.(is_frozen_).

Definition on_memtable_flushed : LT Z :=
  s ← reads id;
  let newer := scn_gt s.(freeze_scn_) s.(flushed_scn_) in
  update (fun s => set_scns s.(freeze_scn_) (if newer then s.(freeze_scn_) else s.(flushed_scn_)) s.(rec_scn_)
                     (set_max s.(pre_rec_scn_)) s.(max_committed_scn_) false s) ;;
  mret (if newer then OB_SUCCESS else OB_ERR_UNEXPECTED).

(** The freeze, under the lock. *)
Definition freeze_ (recycle_scn : SCN) : LT () :=
  s ← reads id;
  if scn_ge (get_rec_scn s) recycle_scn then mret ()
  else if is_active_memtable s then
    freeze ← scn_inc_update s.(max_committed_scn_) s.(freeze_scn_);
    update (fun s => set_scns freeze s.(flushed_scn_) s.(rec_scn_) s.(pre_rec_scn_) s.(max_committed_scn_) s.(is_frozen_) s) ;;
    if scn_ge s.(flushed_scn_) freeze then mret ()
    else update (fun s => set_scns s.(freeze_scn_) s.(flushed_scn_) (set_max s.(rec_scn_)) s.(rec_scn_)
                            (reset s.(max_committed_scn_)) true s)
  else mret ().

(** [callbacked]: what [get_max_consequent_callbacked_scn] returns; [schedule]: whether the
    merge is scheduled.  The second result: the merge was scheduled. *)
Definition flush (recycle_scn : SCN) (need_freeze : bool) (callbacked : Z * SCN) (schedule : Z) : LT (Z * bool) :=
  (if need_freeze then freeze_ recycle_scn else mret ()) ;;
  s ← reads id;
  if negb s.(is_frozen_) then mret (OB_SUCCESS, false)
  else
    let '(ret, max_consequent_callbacked_scn) := callbacked in
    if ob_fail ret then mret (ret, false)
    else if scn_lt max_consequent_callbacked_scn s.(freeze_scn_) then mret (OB_SUCCESS, false)
    else mret (schedule, ob_succ schedule).

Definition memtable_reset : LT () :=
  update (fun s => set_scns s.(freeze_scn_) s.(flushed_scn_) (set_max s.(rec_scn_)) (set_max s.(pre_rec_scn_))
                     (reset s.(max_committed_scn_)) s.(is_frozen_) s) ;;
  map_reset ;;
  update (fun s => set_inited s.(map_inited_) false
                     (set_scns (reset s.(freeze_scn_)) (reset s.(flushed_scn_)) s.(rec_scn_) s.(pre_rec_scn_)
                        s.(max_committed_scn_) false s)).

(** [args_ok]: the arguments are valid; [table_ret], [map_ret]: what the base class and
    the hash map return. *)
Definition memtable_init (args_ok : bool) (table_ret map_ret : Z) : LT Z :=
  inited ← reads memtable_inited_;
  if inited : bool then mret OB_INIT_TWICE
  else if negb args_ok then mret OB_INVALID_ARGUMENT
  else
    ret ← (if ob_fail table_ret then mret table_ret else map_init map_ret);
    if ob_fail ret then memtable_reset ;; mret ret
    else update (fun s => set_inited s.(map_inited_) true s) ;; mret OB_SUCCESS.
