(* ===== verification/LockDump.v ===== *)
(** * The lock table on disk

    A flush writes the completed locks of [ObLockMemtable] to an sstable; a log stream
    that comes online reads them back.  The serialized form of [ObTableLockOp]
    ([ob_table_lock_common.cpp], [ob_trans_define.cpp], [ob_tx_seq.h]), the scan iterator
    that a minor merge reads ([ob_table_lock_iterator.cpp]), and [restore_lock_table_] of
    [ob_lock_table.cpp]. *)

From Stdlib Require Import ZArith Lia Bool.
From stdpp Require Import base countable numbers option gmap list.
From S2P Require Import Prelude Serialization UnifySerialize Scn TableLockCommon ObjLock LockTable.
Import AbortMonad.

Local Open Scope Z_scope.

(** ** The serialized form

    The members of enumerations are numbers here: what is read need not be one of the
    constructors. *)
Record raw_id := RawID { raw_obj_type : Z; raw_obj_id : Z }.

Record raw_op := RawOp {
  raw_lock_id : raw_id;
  raw_lock_mode : Z;
  raw_owner_id : Z;
  raw_trans_id : Z;
  raw_op_type : Z;
  raw_op_status : Z;
  raw_seq_no : Z;
  raw_commit_version : SCN;
  raw_commit_scn : SCN;
  raw_create_timestamp : Z;
  raw_create_schema_version : Z }.

(** The checks of [buf] and its length at the start of a [serialize] and [deserialize]. *)
Definition with_buf {A} (buf : buffer) (len : Z) (refused : Z -> A) (m : outcome A) : outcome A :=
  match buf with
  | None => Some (refused OB_INVALID_ARGUMENT)
  | Some _ => if len <=? 0 then Some (refused OB_INVALID_ARGUMENT) else m
  end.

Definition lock_id_serialize (buf : buffer) (buf_len pos : Z) (i : raw_id) : outcome (Z * buffer * Z) :=
  with_buf buf buf_len (fun ret => (ret, buf, pos))
    ('(ret, buf, pos) ← encode_i8 buf buf_len pos i.(raw_obj_type);
     if ob_fail ret then Some (ret, buf, pos) else encode_i64 buf buf_len pos (s64 i.(raw_obj_id))).

Definition lock_id_deserialize : reader raw_id := fun buf data_len pos i =>
  with_buf buf data_len (fun ret => (ret, pos, i))
    ('(ret, pos, obj_type) ← decode_i8 buf data_len pos i.(raw_obj_type);
     if ob_fail ret then Some (ret, pos, RawID obj_type i.(raw_obj_id))
     else
       '(ret, pos, obj_id) ← decode_i64 buf data_len pos (s64 i.(raw_obj_id));
       Some (ret, pos, RawID obj_type (u64 obj_id))).

Definition lock_id_serialize_size (i : raw_id) : Z := encoded_length_i8 i.(raw_obj_type) + encoded_length_i64 (s64 i.(raw_obj_id)).

Definition owner_serialize (buf : buffer) (buf_len pos pack : Z) : outcome (Z * buffer * Z) :=
  with_buf buf buf_len (fun ret => (ret, buf, pos)) (encode_vi64 buf buf_len pos pack).

Definition owner_deserialize : reader Z := fun buf data_len pos pack =>
  with_buf buf data_len (fun ret => (ret, pos, pack)) (decode_vi64 buf data_len pos pack).

Definition owner_serialize_size (pack : Z) : Z := encoded_length_vi64 pack.

Definition tx_seq_serialize : buffer -> Z -> Z -> Z -> outcome (Z * buffer * Z) := encode_vi64.
Definition tx_seq_deserialize : reader Z := decode_vi64.
Definition tx_seq_serialize_size : Z -> Z := encoded_length_vi64.

(** ** Their laws *)

Lemma with_buf_ok {A} bytes len (refused : Z -> A) m : 0 < len -> with_buf (Some bytes) len refused m = m.
Proof. intros H. unfold with_buf. by destruct (Z.leb_spec len 0); [lia|]. Qed.

Program Definition lock_id_wire : wire raw_id := {|
  w_dom i := is_s 8 i.(raw_obj_type) /\ is_u 64 i.(raw_obj_id);
  w_len := lock_id_serialize_size; w_bytes i := [i.(raw_obj_type)] ++ be_bytes 8 (s64 i.(raw_obj_id));
  w_enc := lock_id_serialize; w_dec := lock_id_deserialize |}.
Next Obligation. done. Qed.
Next Obligation. intros i _. cbn -[be_bytes]. by rewrite length_be_bytes. Qed.
Next Obligation.
  intros i bytes buf_len pos [H1 H2] Hpos Hlen Hsp. unfold lock_id_serialize. change (lock_id_serialize_size i) with 9 in *. rewrite with_buf_ok by lia.
  pose proof (@c_enc_ok _ codec_i8 i.(raw_obj_type) bytes buf_len pos H1) as E. cbn [c_len c_enc c_bytes codec_i8] in E. unfold encoded_length_i8 in E.
  rewrite E by lia. clear E. cbn [mbind option_bind]. change (ob_fail OB_SUCCESS) with false. cbv iota.
  pose proof (@c_enc_ok _ codec_i64 (s64 i.(raw_obj_id)) (written bytes pos [raw_obj_type i]) buf_len (pos + 1)) as E.
  cbn [c_len c_enc c_bytes c_dom codec_i64] in E. unfold encoded_length_i64 in E.
  rewrite E; [|by apply to_s_range | lia | rewrite length_written; cbn; lia | lia].
  rewrite (written_cons bytes pos (raw_obj_type i)) by (rewrite ?length_be_bytes; lia). do 2 f_equal. lia.
Qed.
Next Obligation.
  intros i bytes data_len pos old [H1 H2] Hat Hl _. unfold lock_id_deserialize. change (lock_id_serialize_size i) with 9 in *.
  rewrite fmap_app in Hat. apply bytes_at_app in Hat as [Hat1 Hat2]. cbn [length fmap list_fmap] in Hat2. change (Z.of_nat 1) with 1 in Hat2.
  rewrite with_buf_ok by (destruct Hat1; lia).
  pose proof (@c_dec_ok _ codec_i8 i.(raw_obj_type) bytes data_len pos (raw_obj_type old) H1) as E. cbn [c_len c_dec c_bytes codec_i8] in E. unfold encoded_length_i8 in E.
  rewrite E by (done || lia). clear E. cbn [mbind option_bind]. change (ob_fail OB_SUCCESS) with false. cbv iota.
  pose proof (@c_dec_ok _ codec_i64 (s64 i.(raw_obj_id)) bytes data_len (pos + 1) (s64 (raw_obj_id old))) as E.
  cbn [c_len c_dec c_bytes c_dom codec_i64] in E. unfold encoded_length_i64 in E.
  rewrite E; [|by apply to_s_range | done | lia]. cbn [mbind option_bind]. rewrite to_u_to_s by done. do 2 f_equal; [f_equal; lia | by destruct i].
Qed.

Program Definition owner_wire : wire Z := {|
  w_dom := is_s 64; w_len := owner_serialize_size; w_bytes := c_bytes (Codec := codec_vi64); w_enc := owner_serialize; w_dec := owner_deserialize |}.
Next Obligation. intros v _. pose proof (encoded_length_vi64_bounds v). unfold owner_serialize_size. lia. Qed.
Next Obligation. intros v Hv. by apply (@c_len_bytes _ codec_vi64). Qed.
Next Obligation.
  intros v bytes buf_len pos Hv Hpos Hlen Hsp. pose proof (encoded_length_vi64_bounds v). unfold owner_serialize, owner_serialize_size in *.
  rewrite with_buf_ok by lia. by apply (@c_enc_ok _ codec_vi64).
Qed.
Next Obligation.
  intros v bytes data_len pos old Hv Hat Hl _. pose proof (encoded_length_vi64_bounds v). unfold owner_deserialize, owner_serialize_size in *.
  rewrite with_buf_ok by (destruct Hat; lia). by apply (@c_dec_ok _ codec_vi64).
Qed.

Program Definition tx_seq_wire : wire Z := {|
  w_dom := is_s 64; w_len := tx_seq_serialize_size; w_bytes := c_bytes (Codec := codec_vi64); w_enc := tx_seq_serialize; w_dec := tx_seq_deserialize |}.
Next Obligation. intros v _. pose proof (encoded_length_vi64_bounds v). unfold tx_seq_serialize_size. lia. Qed.
Next Obligation. intros v Hv. by apply (@c_len_bytes _ codec_vi64). Qed.
Next Obligation. intros. by apply (@c_enc_ok _ codec_vi64). Qed.
Next Obligation. intros. by apply (@c_dec_ok _ codec_vi64). Qed.

Program Definition scn_wire : wire SCN := {|
  w_dom v := is_u 64 v /\ v <> INT64_MAX; w_len := get_serialize_size; w_bytes := c_bytes (Codec := codec_u64); w_enc := serialize; w_dec := deserialize |}.
Next Obligation. intros v _. pose proof (encoded_length_vi64_bounds (s64 v)). unfold get_serialize_size, encoded_length_u64. lia. Qed.
Next Obligation. intros v [Hv _]. by apply (@c_len_bytes _ codec_u64). Qed.
Next Obligation. intros v bytes buf_len pos [Hv _] Hpos Hlen Hsp. by apply serialize_ok. Qed.
Next Obligation. intros v bytes data_len pos old [Hv Hne] Hat Hl _. rewrite (deserialize_at v) by done. by rewrite transform_max_id. Qed.

(** ** [ObTransID] and [ObTableLockOp] *)

Definition trans_id_members : list (member Z) := [Member int64_wire (fun tx_id => tx_id) (fun x _ => x)].

Lemma trans_id_assign v old : assign trans_id_members v old = v.
Proof. done. Qed.

Definition trans_id_wire : wire Z := record_wire 1 trans_id_members ltac:(done) trans_id_assign.

Definition lock_op_members : list (member raw_op) :=
  [ Member lock_id_wire raw_lock_id (fun x o => let 'RawOp _ b c d e f g h i j k := o in RawOp x b c d e f g h i j k);
    Member uint8_wire raw_lock_mode (fun x o => let 'RawOp a _ c d e f g h i j k := o in RawOp a x c d e f g h i j k);
    Member owner_wire raw_owner_id (fun x o => let 'RawOp a b _ d e f g h i j k := o in RawOp a b x d e f g h i j k);
    Member trans_id_wire raw_trans_id (fun x o => let 'RawOp a b c _ e f g h i j k := o in RawOp a b c x e f g h i j k);
    Member enum_wire raw_op_type (fun x o => let 'RawOp a b c d _ f g h i j k := o in RawOp a b c d x f g h i j k);
    Member enum_wire raw_op_status (fun x o => let 'RawOp a b c d e _ g h i j k := o in RawOp a b c d e x g h i j k);
    Member tx_seq_wire raw_seq_no (fun x o => let 'RawOp a b c d e f _ h i j k := o in RawOp a b c d e f x h i j k);
    Member scn_wire raw_commit_version (fun x o => let 'RawOp a b c d e f g _ i j k := o in RawOp a b c d e f g x i j k);
    Member scn_wire raw_commit_scn (fun x o => let 'RawOp a b c d e f g h _ j k := o in RawOp a b c d e f g h x j k);
    Member int64_wire raw_create_timestamp (fun x o => let 'RawOp a b c d e f g h i _ k := o in RawOp a b c d e f g h i x k);
    Member int64_wire raw_create_schema_version (fun x o => let 'RawOp a b c d e f g h i j _ := o in RawOp a b c d e f g h i j x) ].

Lemma lock_op_assign v old : assign lock_op_members v old = v.
Proof. by destruct v, old. Qed.

Definition lock_op_wire : wire raw_op := record_wire 1 lock_op_members ltac:(done) lock_op_assign.

Definition op_serialize (op : raw_op) : writer := record_serialize 1 lock_op_members op.
Definition op_deserialize : reader raw_op := record_deserialize 1 lock_op_members.
Definition op_serialize_size (op : raw_op) : Z := record_serialize_size 1 lock_op_members op.

(** ** Between the record and its serialized form *)

Definition op_type_number (type : ObTableLockOpType) : Z :=
  match type with
  | UNKNOWN_TYPE => 0 | IN_TRANS_DML_LOCK => 1 | OUT_TRANS_LOCK => 2 | OUT_TRANS_UNLOCK => 3 | IN_TRANS_COMMON_LOCK => 4
  | MAX_VALID_LOCK_OP_TYPE => 5
  end.
Definition op_type_of_number (n : Z) : option ObTableLockOpType :=
  match n with
  | 0 => Some UNKNOWN_TYPE | 1 => Some IN_TRANS_DML_LOCK | 2 => Some OUT_TRANS_LOCK | 3 => Some OUT_TRANS_UNLOCK
  | 4 => Some IN_TRANS_COMMON_LOCK | 5 => Some MAX_VALID_LOCK_OP_TYPE | _ => None
  end.
Definition op_status_number (status : ObTableLockOpStatus) : Z :=
  match status with UNKNOWN_STATUS => 0 | LOCK_OP_DOING => 1 | LOCK_OP_COMPLETE => 2 end.
Definition op_status_of_number (n : Z) : option ObTableLockOpStatus :=
  match n with 0 => Some UNKNOWN_STATUS | 1 => Some LOCK_OP_DOING | 2 => Some LOCK_OP_COMPLETE | _ => None end.

Definition raw_of (op : LockOp.t) : raw_op :=
  RawOp (RawID (obj_type_number (LockID.obj_type_ (LockOp.lock_id_ op))) (LockID.obj_id_ (LockOp.lock_id_ op)))
    (LockOp.lock_mode_ op) (LockOp.owner_id_ op) (LockOp.create_trans_id_ op) (op_type_number (LockOp.op_type_ op))
    (op_status_number (LockOp.lock_op_status_ op)) (LockOp.lock_seq_no_ op) (LockOp.commit_version_ op) (LockOp.commit_scn_ op)
    (LockOp.create_timestamp_ op) (LockOp.create_schema_version_ op).

(** [None]: a number of an enumeration that has no constructor. *)
Definition op_of (r : raw_op) : option LockOp.t :=
  obj_type ← obj_type_of_number r.(raw_lock_id).(raw_obj_type);
  op_type ← op_type_of_number r.(raw_op_type);
  status ← op_status_of_number r.(raw_op_status);
  Some (LockOp.mk (LockID.mk obj_type r.(raw_lock_id).(raw_obj_id)) r.(raw_lock_mode) r.(raw_owner_id) r.(raw_trans_id) op_type status
    r.(raw_seq_no) r.(raw_commit_version) r.(raw_commit_scn) r.(raw_create_timestamp) r.(raw_create_schema_version)).

Lemma op_of_raw op : op_of (raw_of op) = Some op.
Proof. by destruct op as [[[] ?] ? ? ? [] [] ? ? ? ? ?]. Qed.

(** The numbers of an operation have the widths of the members; [INT64_MAX] is the
    largest timestamp of older versions and is read as the largest one of this version. *)
Record fits (op : LockOp.t) : Prop := {
  fit_obj_id : is_u 64 (LockID.obj_id_ (LockOp.lock_id_ op));
  fit_mode : is_u 8 (LockOp.lock_mode_ op);
  fit_owner : is_s 64 (LockOp.owner_id_ op);
  fit_trans : is_s 64 (LockOp.create_trans_id_ op);
  fit_seq : is_s 64 (LockOp.lock_seq_no_ op);
  fit_version : is_u 64 (LockOp.commit_version_ op) /\ LockOp.commit_version_ op <> INT64_MAX;
  fit_scn : is_u 64 (LockOp.commit_scn_ op) /\ LockOp.commit_scn_ op <> INT64_MAX;
  fit_timestamp : is_s 64 (LockOp.create_timestamp_ op);
  fit_schema : is_s 64 (LockOp.create_schema_version_ op) }.

Lemma fits_trans_id tx : is_s 64 tx -> w_dom trans_id_wire tx /\ w_len trans_id_wire tx <= 16.
Proof.
  intros H. pose proof (encoded_length_vi64_bounds tx). cbn -[encoded_length_vi64]. unfold record_dom, members_dom, record_serialize_size, unis_serialize_size, size_nbytes,
    members_serialize_size_, trans_id_members, OB_SERIALIZE_SIZE_NEED_BYTES. cbn -[encoded_length_vi64 Z.pow].
  change (encoded_length_vi64 1) with 1. split; [split; [by constructor|]|]; lia.
Qed.

Lemma fits_members op : fits op -> members_dom lock_op_members (raw_of op).
Proof.
  intros [F1 F2 F3 F4 F5 F6 F7 F8 F9]. unfold members_dom, lock_op_members.
  repeat match goal with |- Forall _ _ => constructor; cbn [m_wire m_get m_type raw_of] end; try done.
  - split; [|done]. cbn. by destruct (LockID.obj_type_ _).
  - by apply fits_trans_id.
  - by destruct op as [? ? ? ? [] ? ? ? ? ? ?].
  - by destruct op as [? ? ? ? ? [] ? ? ? ? ?].
Qed.

(** An operation takes no more than [MAX_SERIALIZE_SIZE] bytes. *)
Definition MAX_SERIALIZE_SIZE : Z := 256.

Lemma fits_size op : fits op -> members_serialize_size_ lock_op_members (raw_of op) <= 100.
Proof.
  intros F. destruct (fits_trans_id _ (fit_trans _ F)) as [_ Ht]. unfold members_serialize_size_, lock_op_members. cbn [fmap list_fmap foldr m_wire m_get m_type].
  pose proof (encoded_length_vi64_bounds (raw_owner_id (raw_of op))). pose proof (encoded_length_vi32_bounds (raw_op_type (raw_of op))).
  pose proof (encoded_length_vi32_bounds (raw_op_status (raw_of op))). pose proof (encoded_length_vi64_bounds (raw_seq_no (raw_of op))).
  pose proof (encoded_length_vi64_bounds (s64 (raw_commit_version (raw_of op)))). pose proof (encoded_length_vi64_bounds (s64 (raw_commit_scn (raw_of op)))).
  pose proof (encoded_length_vi64_bounds (raw_create_timestamp (raw_of op))). pose proof (encoded_length_vi64_bounds (raw_create_schema_version (raw_of op))).
  change (raw_trans_id (raw_of op)) with (LockOp.create_trans_id_ op).
  change (w_len lock_id_wire (raw_lock_id (raw_of op))) with 9. change (w_len uint8_wire (raw_lock_mode (raw_of op))) with 1.
  cbn [w_len owner_wire enum_wire tx_seq_wire scn_wire int64_wire] in *. unfold owner_serialize_size, tx_seq_serialize_size, get_serialize_size, encoded_length_u64. lia.
Qed.

Lemma fits_dom op : fits op -> record_dom lock_op_members (raw_of op).
Proof. intros F. split; [by apply fits_members|]. pose proof (fits_size op F). lia. Qed.

(** C35: an operation that is serialized takes the announced number of bytes, at most
    [MAX_SERIALIZE_SIZE], leaves the rest of the buffer alone, and is read back as the
    same operation, whatever value is read into. *)
Theorem lock_op_round_trip (op : LockOp.t) (bytes : list Z) (buf_len pos : Z) (old : raw_op) :
  fits op -> 0 <= pos -> buf_len <= Z.of_nat (length bytes) -> buf_len <= INT64_MAX -> op_serialize_size (raw_of op) <= buf_len - pos ->
  op_serialize_size (raw_of op) <= MAX_SERIALIZE_SIZE /\
  exists bytes' r, op_serialize (raw_of op) (Some bytes) buf_len pos = Some (OB_SUCCESS, Some bytes', pos + op_serialize_size (raw_of op)) /\
    length bytes' = length bytes /\
    (forall i, (i < Z.to_nat pos)%nat \/ pos + op_serialize_size (raw_of op) <= Z.of_nat i -> bytes' !! i = bytes !! i) /\
    op_deserialize (Some bytes') buf_len pos old = Some (OB_SUCCESS, pos + op_serialize_size (raw_of op), r) /\ op_of r = Some op.
Proof.
  intros F Hpos Hlen Hmax Hsp. pose proof (fits_dom op F) as Hd. pose proof (length_record 1 lock_op_members _ Hd) as Hl. split.
  { pose proof (fits_size op F). unfold op_serialize_size, record_serialize_size, unis_serialize_size, MAX_SERIALIZE_SIZE, size_nbytes, OB_SERIALIZE_SIZE_NEED_BYTES.
    change (encoded_length_vi64 1) with 1. lia. }
  unfold op_serialize_size in *.
  exists (written bytes pos (record_bytes 1 lock_op_members (raw_of op))), (raw_of op). split_and!.
  - by apply record_encode_ok.
  - apply length_written; lia.
  - intros i Hi. apply written_frame; lia.
  - apply record_decode_ok; [done | apply lock_op_assign | done | apply written_at; lia | lia | done].
  - apply op_of_raw.
Qed.

Lemma lock_op_round_trip_witness :
  let op := LockOp.mk (LockID.mk OBJ_TYPE_TABLE 500001) EXCLUSIVE 10 77 OUT_TRANS_LOCK LOCK_OP_COMPLETE 3 1700000000000000000 1700000000000000001 1700000000000000 5 in
  exists bytes' r, op_serialize (raw_of op) (Some (replicate 100 0)) 100 3 = Some (OB_SUCCESS, Some bytes', 3 + op_serialize_size (raw_of op)) /\
    op_deserialize (Some bytes') 100 3 (raw_of LockOp.fresh) = Some (OB_SUCCESS, 3 + op_serialize_size (raw_of op), r) /\ op_of r = Some op.
Proof.
  intros op. destruct (lock_op_round_trip op (replicate 100 0) 100 3 (raw_of LockOp.fresh)) as (_ & bytes' & r & H1 & _ & _ & H2 & H3).
  - constructor; vm_compute; done.
  - done.
  - done.
  - done.
  - by vm_compute.
  - exists bytes', r. done.
Defined.

(** A length that is not checked: the ten bytes are a header of version 1 with the length
    [INT64_MAX]; both numbers are read within the data, and [CHECK_VERSION_LENGTH] then
    adds the length to the position, which overflows, before it compares. *)
Theorem length_check_overflows (old : raw_op) :
  let bytes := 1 :: replicate 8 255 ++ [127] in
  decode_vi64 (Some bytes) 10 0 0 = Some (OB_SUCCESS, 1, 1) /\ decode_vi64 (Some bytes) 10 1 0 = Some (OB_SUCCESS, 10, INT64_MAX) /\
  op_deserialize (Some bytes) 10 0 old = None.
Proof. by split_and!. Qed.

(** ** Writing

    [push]: what [push_back] returns for an array of this size.  A bucket of the hash map
    is what [generate_value_arr_] returns: a code, and the objects. *)

Definition OB_ITER_END : Z := -4008.

Fixpoint store_info_bucket (push : nat -> Z) (freeze_scn : SCN) (objs : list obj_lock) (store_arr : op_list) : Z * op_list :=
  match objs with
  | [] => (OB_SUCCESS, store_arr)
  | obj_lock :: objs =>
    let '(ret, store_arr) := get_table_lock_store_info push freeze_scn store_arr obj_lock in
    if ob_fail ret then (OB_EAGAIN, store_arr) else store_info_bucket push freeze_scn objs store_arr
  end.

Fixpoint map_get_table_lock_store_info (push : nat -> Z) (freeze_scn : SCN) (buckets : list (Z * list obj_lock)) (store_arr : op_list) :
    Z * op_list :=
  match buckets with
  | [] => (OB_SUCCESS, store_arr)
  | (ret, objs) :: buckets =>
    if ob_fail ret then (ret, store_arr)
    else
      let '(ret, store_arr) := store_info_bucket push freeze_scn objs store_arr in
      if ob_fail ret then (ret, store_arr) else map_get_table_lock_store_info push freeze_scn buckets store_arr
  end.

Definition memtable_get_table_lock_store_info (push : nat -> Z) (buckets : list (Z * list obj_lock)) (store_arr : op_list) (t : lock_table) :
    Z * op_list :=
  if negb t.(memtable_inited_) then (OB_NOT_INIT, store_arr)
  else map_get_table_lock_store_info push t.(freeze_scn_) buckets store_arr.

Record scan_iter := ScanIter { table_lock_store_info_ : op_list; idx_ : nat; iter_inited_ : bool }.

Definition new_scan_iter : scan_iter := ScanIter [] 0 false.

(** [row_ret], [buf_ret]: what the row and the buffer of the iterator return. *)
Definition scan_iter_init (push : nat -> Z) (buckets : list (Z * list obj_lock)) (row_ret buf_ret : Z) (t : lock_table) (it : scan_iter) :
    Z * scan_iter :=
  let '(ret, arr) := memtable_get_table_lock_store_info push buckets it.(table_lock_store_info_) t in
  let it := ScanIter arr it.(idx_) it.(iter_inited_) in
  if ob_fail ret then (ret, it)
  else if ob_fail row_ret then (row_ret, it)
  else if ob_fail buf_ret then (buf_ret, it)
  else (OB_SUCCESS, ScanIter arr 0 true).

(** The key and the value of a row. *)
Record lock_row := LockRow { row_key : Z; row_val : list Z }.

(** [reserve]: what the buffer returns for a size; [bytes]: what it holds then. *)
Definition inner_get_next_row (reserve : Z -> Z) (bytes : Z -> list Z) (it : scan_iter) : outcome (Z * option lock_row * scan_iter) :=
  if negb it.(iter_inited_) then Some (OB_NOT_INIT, None, it)
  else if (it.(idx_) =? length it.(table_lock_store_info_))%nat then Some (OB_ITER_END, None, it)
  else
    store_info ← it.(table_lock_store_info_) !! it.(idx_);
    let serialize_size := op_serialize_size (raw_of store_info) in
    let ret := reserve serialize_size in
    if ob_fail ret then Some (ret, None, it)
    else
      '(ret, buf, _) ← op_serialize (raw_of store_info) (Some (bytes serialize_size)) serialize_size 0;
      if ob_fail ret then Some (ret, None, it)
      else
        buf ← buf;
        Some (OB_SUCCESS, Some (LockRow (to_s 32 (Z.of_nat it.(idx_))) (take (Z.to_nat serialize_size) buf)),
              ScanIter it.(table_lock_store_info_) (S it.(idx_)) true).

(** What a merge reads: the rows up to the first code that is not success, in at most
    [fuel] calls. *)
Fixpoint read_rows (fuel : nat) (reserve : Z -> Z) (bytes : Z -> list Z) (it : scan_iter) : outcome (Z * list lock_row) :=
  match fuel with
  | O => None
  | S fuel =>
    '(ret, row, it) ← inner_get_next_row reserve bytes it;
    match row with
    | Some row => '(ret, rows) ← read_rows fuel reserve bytes it; Some (ret, row :: rows)
    | None => Some (ret, [])
    end
  end.

(** ** Reading

    What [ObLockTable] and its environment give: whether it is initialised, the code of
    [get_lock_memtable], allocations, and the time at which a row is read. *)
Record restore_env := RestoreEnv {
  re_inited : bool;
  re_memtable : Z;
  re_mem : memory;
  re_alloc : bool;
  re_now : lock_row -> Z }.

(** An object of the map is not deleted, so that one turn of the loop in
    [recover_obj_lock] is enough. *)
Definition table_recover_ (e : restore_env) (row : lock_row) : LT Z :=
  if negb e.(re_inited) then mret OB_NOT_INIT
  else
    '(ret, _, store_info) ← lift (op_deserialize (Some row.(row_val)) (Z.of_nat (length row.(row_val))) 0 (raw_of LockOp.fresh));
    if ob_fail ret then mret ret
    else
      store_info ← lift (op_of store_info);
      let store_info := LockOp.set_create_timestamp (Z.min (LockOp.create_timestamp_ store_info) (e.(re_now) row)) store_info in
      if ob_fail e.(re_memtable) then mret e.(re_memtable)
      else memtable_recover_obj_lock 1 e.(re_mem) e.(re_alloc) store_info.

(** [end_ret]: what [get_next_row] returns behind the rows. *)
Fixpoint restore_rows (e : restore_env) (end_ret : Z) (rows : list lock_row) : LT Z :=
  match rows with
  | [] => mret end_ret
  | row :: rows => ret ← table_recover_ e row; if ob_fail ret then mret ret else restore_rows e end_ret rows
  end.

Definition set_flushed_scn (flushed_scn : SCN) (s : lock_table) : lock_table :=
  set_scns s.(freeze_scn_) flushed_scn s.(rec_scn_) s.(pre_rec_scn_) s.(max_committed_scn_) s.(is_frozen_) s.

(** [scan_ret], [rows]: what the scan of the sstable returns, [None] without an iterator. *)
Definition restore_lock_table_ (e : restore_env) (scan_ret : Z) (end_scn : SCN) (end_ret : Z) (rows : option (list lock_row)) : LT Z :=
  if ob_fail scan_ret then mret scan_ret
  else match rows with
       | None => mret OB_SUCCESS
       | Some rows =>
         if ob_fail e.(re_memtable) then mret e.(re_memtable)
         else
           update (set_flushed_scn end_scn) ;;
           ret ← restore_rows e end_ret rows;
           mret (if ret =? OB_ITER_END then OB_SUCCESS else ret)
       end.
