(* ===== verification/LockMemCtx.v ===== *)
(** * The table locks of a transaction

    [ObLockMemCtx] of [src/storage/tablelock/ob_mem_ctx_table_lock.cpp], the callbacks of
    [ob_table_lock_callback.cpp], what [ObMemtableCtx] adds to them
    ([src/storage/memtable/ob_memtable_context.cpp]), and [lock], [unlock] and replay of
    [ObLockMemtable].  A computation works on the context of one transaction and on the
    lock table. *)

From Stdlib Require Import ZArith Lia Bool.
From stdpp Require Import base countable numbers option gmap list.
From S2P Require Import Prelude Serialization Scn TableLockCommon ObjLock LockTable.
Import AbortMonad.

Local Open Scope Z_scope.

(** A node of the list has a number that stands for its address. *)
Record lock_node := LockNode { node_addr : nat; node_op : LockOp.t }.

(** [callbacks_]: the nodes for which a callback is registered with the transaction. *)
Record mem_ctx := MemCtx {
  lock_list_ : list lock_node;
  is_killed_ : bool;
  max_durable_scn_ : SCN;
  memtable_valid_ : bool;
  callbacks_ : list nat;
  next_node_ : nat }.

Definition new_mem_ctx : mem_ctx := MemCtx [] false OB_INVALID_SCN_VAL true [] 0.

Definition set_lock_list (x : list lock_node) (c : mem_ctx) : mem_ctx :=
  MemCtx x c.(is_killed_) c.(max_durable_scn_) c.(memtable_valid_) c.(callbacks_) c.(next_node_).
Definition set_max_durable_scn (x : SCN) (c : mem_ctx) : mem_ctx :=
  MemCtx c.(lock_list_) c.(is_killed_) x c.(memtable_valid_) c.(callbacks_) c.(next_node_).
Definition set_callbacks (x : list nat) (c : mem_ctx) : mem_ctx :=
  MemCtx c.(lock_list_) c.(is_killed_) c.(max_durable_scn_) c.(memtable_valid_) x c.(next_node_).
Definition set_next_node (x : nat) (c : mem_ctx) : mem_ctx :=
  MemCtx c.(lock_list_) c.(is_killed_) c.(max_durable_scn_) c.(memtable_valid_) c.(callbacks_) x.
Definition ctx_set_killed (c : mem_ctx) : mem_ctx :=
  MemCtx c.(lock_list_) true c.(max_durable_scn_) c.(memtable_valid_) c.(callbacks_) c.(next_node_).

(** The locks of a transaction and the table. *)
Record tx_view := TxView { ctx : mem_ctx; table : lock_table }.

Abbreviation TX := (R tx_view).

Definition on_ctx (f : mem_ctx -> mem_ctx) : TX () := update (fun s => TxView (f s.(ctx)) s.(table)).
Definition get_ctx {A} (f : mem_ctx -> A) : TX A := reads (fun s => f s.(ctx)).
Definition on_table {A} (m : LT A) : TX A := fun s => '(x, t) ← m s.(table); Some (x, TxView s.(ctx) t).

Definition ctx_ops (c : mem_ctx) : list LockOp.t := node_op <$> c.(lock_list_).

(** ** The list *)

Definition ctx_reset (c : mem_ctx) : mem_ctx := MemCtx [] false (reset c.(max_durable_scn_)) false c.(callbacks_) c.(next_node_).

(** [alloc]: the node can be allocated.  The result is the node. *)
Definition ctx_add_lock_record (alloc : bool) (lock_op : LockOp.t) : TX (Z * option nat) :=
  if negb (LockOp.is_valid lock_op) then mret (OB_INVALID_ARGUMENT, None)
  else if negb alloc then mret (OB_ALLOCATE_MEMORY_FAILED, None)
  else
    n ← get_ctx next_node_;
    on_ctx (fun c => set_next_node (S n) (set_lock_list (c.(lock_list_) ++ [LockNode n lock_op]) c)) ;;
    mret (OB_SUCCESS, Some n).

Definition remove_node (n : nat) (c : mem_ctx) : mem_ctx :=
  set_lock_list (filter (fun x => x.(node_addr) <> n) c.(lock_list_)) c.

(** [remove_lock_record] for a node, and for an operation. *)
Definition ctx_remove_lock_record (n : nat) : TX () := on_ctx (remove_node n).
Definition ctx_remove_lock_record_op (lock_op : LockOp.t) : TX () :=
  if negb (LockOp.is_valid lock_op) then mret ()
  else on_ctx (fun c => set_lock_list (filter (fun x =>
         LockID.eqb (LockOp.lock_id_ x.(node_op)) (LockOp.lock_id_ lock_op)
         && (LockOp.lock_mode_ x.(node_op) =? LockOp.lock_mode_ lock_op)
         && bool_decide (LockOp.op_type_ x.(node_op) = LockOp.op_type_ lock_op) = false) c.(lock_list_)) c).

(** [check_lock_exist]: the loop counts the modes until it meets the same operation. *)
Definition is_same_lock (lock_id : LockID.t) (owner_id : LockOwnerID.t) (mode : ObTableLockMode) (op_type : ObTableLockOpType)
    (op : LockOp.t) : bool :=
  (LockOp.owner_id_ op =? owner_id) && bool_decide (LockOp.op_type_ op = op_type)
  && bool_decide (LockOp.lock_op_status_ op = LOCK_OP_DOING)
  && (if bool_decide (LockID.obj_type_ lock_id = OBJ_TYPE_DBMS_LOCK) then true else LockOp.lock_mode_ op =? mode).

Fixpoint check_lock_exist_loop (lock_id : LockID.t) (owner_id : LockOwnerID.t) (mode : ObTableLockMode)
    (op_type : ObTableLockOpType) (ops : list LockOp.t) (counts : list Z) : outcome (bool * list Z) :=
  match ops with
  | [] => Some (false, counts)
  | op :: ops =>
    if LockID.eqb (LockOp.lock_id_ op) lock_id then
      let i := Z.to_nat (get_index_by_lock_mode (LockOp.lock_mode_ op)) in
      n ← counts !! i;
      let counts := <[i := n + 1]> counts in
      if is_same_lock lock_id owner_id mode op_type op then Some (true, counts)
      else check_lock_exist_loop lock_id owner_id mode op_type ops counts
    else check_lock_exist_loop lock_id owner_id mode op_type ops counts
  end.

Definition no_counts : list Z := replicate (Z.to_nat TABLE_LOCK_MODE_COUNT) 0.

(** The return code, [is_exist], and the counts. *)
Definition check_lock_exist (lock_id : LockID.t) (owner_id : LockOwnerID.t) (mode : ObTableLockMode)
    (op_type : ObTableLockOpType) (counts : list Z) : TX (Z * bool * list Z) :=
  if negb (LockID.is_valid lock_id) || negb (is_lock_mode_valid mode) then mret (OB_INVALID_ARGUMENT, false, counts)
  else
    ops ← get_ctx ctx_ops;
    '(is_exist, counts) ← lift (check_lock_exist_loop lock_id owner_id mode op_type ops counts);
    mret (OB_SUCCESS, is_exist, counts).

Definition check_contain_tablet (tablet_id : Z) (c : mem_ctx) : bool := existsb (LockOp.is_tablet_lock tablet_id) (ctx_ops c).

Definition check_modify_schema_elapsed (lock_id : LockID.t) (schema_version : Z) (c : mem_ctx) : Z :=
  if negb (LockID.is_valid lock_id) then OB_INVALID_ARGUMENT
  else if existsb (fun op => LockID.eqb (LockOp.lock_id_ op) lock_id && (LockOp.create_schema_version_ op <? schema_version))
            (ctx_ops c) then OB_EAGAIN else OB_SUCCESS.

Definition check_modify_time_elapsed (lock_id : LockID.t) (timestamp : Z) (c : mem_ctx) : Z :=
  if negb (LockID.is_valid lock_id) then OB_INVALID_ARGUMENT
  else if existsb (fun op => LockID.eqb (LockOp.lock_id_ op) lock_id && (LockOp.create_timestamp_ op <? timestamp))
            (ctx_ops c) then OB_EAGAIN else OB_SUCCESS.

Definition sync_log_succ (scn : SCN) (c : mem_ctx) : Z * mem_ctx :=
  if scn_gt c.(max_durable_scn_) scn then (OB_ERR_UNEXPECTED, c) else (OB_SUCCESS, set_max_durable_scn scn c).

(** The return code and [need_replay]. *)
Definition check_lock_need_replay (scn : SCN) (lock_op : LockOp.t) (c : mem_ctx) : Z * bool :=
  if scn_lt scn c.(max_durable_scn_) then (OB_SUCCESS, false)
  else if negb (LockOp.is_valid lock_op) then (OB_INVALID_ARGUMENT, true)
  else (OB_SUCCESS, forallb (fun op => LockOp.need_replay_or_recover op lock_op) (ctx_ops c)).

(** [push]: what [push_back] returns for an array of this size; [wanted]: the operations
    that are stored. *)
Fixpoint ctx_store_info_loop (push : nat -> Z) (wanted : LockOp.t -> bool) (ops : list LockOp.t) (arr : list LockOp.t) :
    Z * list LockOp.t :=
  match ops with
  | [] => (OB_SUCCESS, arr)
  | op :: ops =>
    if LockOp.is_valid op && wanted op then
      let ret := push (length arr) in
      if ob_fail ret then (ret, arr) else ctx_store_info_loop push wanted ops (arr ++ [op])
    else ctx_store_info_loop push wanted ops arr
  end.

Definition ctx_get_table_lock_store_info (push : nat -> Z) (arr : list LockOp.t) (c : mem_ctx) : Z * list LockOp.t * SCN :=
  (ctx_store_info_loop push (fun _ => true) (ctx_ops c) arr, c.(max_durable_scn_)).

Definition get_table_lock_for_transfer (push : nat -> Z) (tablet_list : list Z) (arr : list LockOp.t) (c : mem_ctx) :
    Z * list LockOp.t * SCN :=
  (ctx_store_info_loop push (fun op => existsb (fun tablet_id => LockOp.is_tablet_lock tablet_id op) tablet_list)
     (ctx_ops c) arr, c.(max_durable_scn_)).

(** ** The end of a transaction and of a statement *)

(** A node is taken out of the table and of the list. *)
Definition give_up_node (x : lock_node) : TX () :=
  on_table (memtable_remove_lock_record x.(node_op)) ;; ctx_remove_lock_record x.(node_addr).

Fixpoint foreach_node (nodes : list lock_node) (f : lock_node -> TX Z) : TX Z :=
  match nodes with
  | [] => mret OB_SUCCESS
  | x :: nodes => ret ← f x; if ob_fail ret then mret ret else foreach_node nodes f
  end.

(** One turn of [rollback_table_lock_]: locks after [to_seq_no], up to [from_seq_no]. *)
Definition in_rollback_scope (to_seq_no from_seq_no : TxSEQ.t) (op : LockOp.t) : bool :=
  negb (TxSEQ.leb (LockOp.lock_seq_no_ op) to_seq_no || TxSEQ.gtb (LockOp.lock_seq_no_ op) from_seq_no)
  && negb (negb (TxSEQ.get_branch to_seq_no =? 0)
           && negb (TxSEQ.get_branch (LockOp.lock_seq_no_ op) =? TxSEQ.get_branch to_seq_no)).

Definition rollback_turn (to_seq_no from_seq_no : TxSEQ.t) (x : lock_node) : TX Z :=
  (if in_rollback_scope to_seq_no from_seq_no x.(node_op) then give_up_node x else mret ()) ;; mret OB_SUCCESS.

Definition rollback_table_lock_ (to_seq_no from_seq_no : TxSEQ.t) : TX Z :=
  nodes ← get_ctx lock_list_; foreach_node nodes (rollback_turn to_seq_no from_seq_no).

Definition abort_turn (x : lock_node) : TX Z := give_up_node x ;; mret OB_SUCCESS.

Definition abort_table_lock_ : TX () := nodes ← get_ctx lock_list_; foreach_node nodes abort_turn ;; mret ().

Definition commit_turn (commit_version commit_scn : SCN) (x : lock_node) : TX Z :=
  ret ← match LockOp.op_type_ x.(node_op) with
        | IN_TRANS_DML_LOCK | IN_TRANS_COMMON_LOCK => on_table (memtable_remove_lock_record x.(node_op)) ;; mret OB_SUCCESS
        | OUT_TRANS_LOCK | OUT_TRANS_UNLOCK =>
          on_table (memtable_update_lock_status x.(node_op) commit_version commit_scn LOCK_OP_COMPLETE)
        | _ => mret OB_SUCCESS
        end;
  ctx_remove_lock_record x.(node_addr) ;;
  mret ret.

Definition commit_table_lock_ (commit_version commit_scn : SCN) : TX Z :=
  nodes ← get_ctx lock_list_; foreach_node nodes (commit_turn commit_version commit_scn).

Definition rollback_table_lock (to_seq_no from_seq_no : TxSEQ.t) : TX Z :=
  c ← get_ctx id;
  if bool_decide (c.(lock_list_) = []) then mret OB_SUCCESS
  else if negb c.(memtable_valid_) then mret OB_ERR_UNEXPECTED
  else rollback_table_lock_ to_seq_no from_seq_no.

Definition clear_table_lock (is_committed : bool) (commit_version commit_scn : SCN) : TX Z :=
  c ← get_ctx id;
  if bool_decide (c.(lock_list_) = []) then mret OB_SUCCESS
  else if negb c.(memtable_valid_) then mret OB_ERR_UNEXPECTED
  else if is_committed then commit_table_lock_ commit_version commit_scn
  else abort_table_lock_ ;; mret OB_SUCCESS.

(** ** Callbacks

    [trans_commit], and [lock_abort_], which [trans_abort] and [rollback_callback] call. *)
Definition callback_ (x : lock_node) : TX Z :=
  match LockOp.op_type_ x.(node_op) with
  | IN_TRANS_DML_LOCK | IN_TRANS_COMMON_LOCK => give_up_node x ;; mret OB_SUCCESS
  | _ => mret OB_ERR_UNEXPECTED
  end.
Definition trans_commit (x : lock_node) : TX Z := callback_ x.
Definition lock_abort_ (x : lock_node) : TX Z := callback_ x.

Definition find_node (n : nat) (c : mem_ctx) : option lock_node := find (fun x => bool_decide (x.(node_addr) = n)) c.(lock_list_).

(** The callbacks of the table locks run in the order of their registration and are
    removed; the other callbacks of the transaction do not touch locks. *)
Fixpoint run_callbacks (commit : bool) (callbacks : list nat) : TX Z :=
  match callbacks with
  | [] => mret OB_SUCCESS
  | n :: callbacks =>
    x ← get_ctx (find_node n);
    ret ← (match x with Some x => if commit then trans_commit x else lock_abort_ x | None => mret OB_SUCCESS end);
    on_ctx (fun c => set_callbacks (filter (fun m => m <> n) c.(callbacks_)) c) ;;
    if ob_fail ret then mret ret else run_callbacks commit callbacks
  end.

(** The locks in [do_trans_end]. *)
Definition trans_end (commit : bool) (commit_version commit_scn : SCN) : TX Z :=
  callbacks ← get_ctx callbacks_;
  ret ← run_callbacks commit callbacks;
  if ob_fail ret then mret ret else clear_table_lock commit commit_version commit_scn.

(** ** Recording a lock *)

(** What the call meets outside of the lock table: whether the transaction may write and
    the tablet is there, the latch of the context, memory, the registration of
    multi-source data and of the callback, the time the transaction may wait, a kill by
    the deadlock detector, the clock, and what others do to the table before the next
    turn. *)
Record lock_env := LockEnv {
  e_write_auth : Z;
  e_tablet_allow : Z;
  e_latch : Z;
  e_mem : memory;
  e_obj_alloc : bool;
  e_node_alloc : bool;
  e_register_mds : Z;
  e_register_cb : Z;
  e_lock_timeout : Z;
  e_killed : bool;
  e_register_deadlock : Z;
  e_now : Z;
  e_others : lock_table -> lock_table }.

(** [ObMemtableCtx::add_lock_record]. *)
Definition add_lock_record (e : lock_env) (lock_op : LockOp.t) : TX Z :=
  if negb (LockOp.is_valid lock_op) then mret OB_INVALID_ARGUMENT
  else
    '(ret, node) ← ctx_add_lock_record e.(e_node_alloc) lock_op;
    match node with
    | None => mret ret
    | Some n =>
      let ret := if LockOp.need_multi_source_data lock_op then e.(e_register_mds) else OB_SUCCESS in
      let ret := if ob_fail ret then ret
                 else if LockOp.need_register_callback lock_op then e.(e_register_cb) else OB_SUCCESS in
      if ob_fail ret then ctx_remove_lock_record n ;; mret ret
      else
        (if LockOp.need_register_callback lock_op
         then on_ctx (fun c => set_callbacks (c.(callbacks_) ++ [n]) c) else mret ()) ;;
        mret OB_SUCCESS
    end.

(** [ObMemtableCtx::replay_add_lock_record]. *)
Definition replay_add_lock_record (e : lock_env) (lock_op : LockOp.t) (scn : SCN) : TX Z :=
  if negb (LockOp.is_valid lock_op) then mret OB_INVALID_ARGUMENT
  else
    '(ret, node) ← ctx_add_lock_record e.(e_node_alloc) lock_op;
    match node with
    | None => mret ret
    | Some n =>
      if negb (LockOp.need_register_callback lock_op) then mret OB_SUCCESS
      else if ob_fail e.(e_register_cb) then ctx_remove_lock_record n ;; mret e.(e_register_cb)
      else on_ctx (fun c => (sync_log_succ scn (set_callbacks (c.(callbacks_) ++ [n]) c)).2) ;; mret OB_SUCCESS
    end.

(** The end of [lock_] and [unlock_], and of [replay_lock_]: the operation that the object
    has recorded is added to the context, or taken back. *)
Definition record_or_remove (e : lock_env) (op : LockOp.t) : TX Z :=
  ret ← add_lock_record e op; (if ob_fail ret then on_table (map_remove_lock_record op) else mret ()) ;; mret ret.

Definition replay_record_or_remove (e : lock_env) (op : LockOp.t) (scn : SCN) : TX Z :=
  ret ← replay_add_lock_record e op scn; (if ob_fail ret then on_table (map_remove_lock_record op) else mret ()) ;; mret ret.

(** ** [ObLockMemtable::lock_] *)

(** What a turn of the loop leaves: the return code, [need_retry], whether the loop is
    left by [break], the transactions in conflict, [register_to_deadlock]. *)
Record turn_result := TurnResult {
  tr_ret : Z; tr_need_retry : bool; tr_break : bool; tr_conflict : ObTxIDSet; tr_deadlock : bool }.

(** The record at the table, then at the context: the return code, [need_retry], and the
    transactions in conflict. *)
Definition lock_record (e : lock_env) (param : lock_param) (lock_op : LockOp.t) : TX (Z * bool * ObTxIDSet) :=
  '(ret, lock_exist, counts) ←
    check_lock_exist (LockOp.lock_id_ lock_op) (LockOp.owner_id_ lock_op) (LockOp.lock_mode_ lock_op)
      (LockOp.op_type_ lock_op) no_counts;
  if ob_fail ret then mret (ret, false, [])
  else if (lock_exist : bool) then
    mret (if bool_decide (LockID.obj_type_ (LockOp.lock_id_ lock_op) = OBJ_TYPE_DBMS_LOCK) then OB_OBJ_LOCK_EXIST else OB_SUCCESS,
          false, [])
  else
    '(ret, conflict_tx_set) ← on_table (map_lock 1 e.(e_mem) e.(e_obj_alloc) param lock_op counts []);
    if ob_fail ret then mret (ret, false, conflict_tx_set)
    else
      ret ← record_or_remove e lock_op; mret (ret, ret =? OB_EAGAIN, conflict_tx_set).

Definition lock_turn (e : lock_env) (param : lock_param) (lock_op : LockOp.t) (register_to_deadlock : bool) : TX turn_result :=
  '(ret, need_retry, conflict_tx_set) ←
    (if ob_fail e.(e_write_auth) then mret (e.(e_write_auth), false, [])
     else if ob_fail e.(e_tablet_allow) then mret (e.(e_tablet_allow), false, [])
     else if ob_fail e.(e_latch) then mret (e.(e_latch), false, [])
     else lock_record e param lock_op);
  if (ret =? OB_TRY_LOCK_ROW_CONFLICT) && ob_fail e.(e_lock_timeout)
  then mret (TurnResult e.(e_lock_timeout) need_retry true conflict_tx_set register_to_deadlock)
  else
    let '(ret, need_retry, register_to_deadlock) :=
      if (ret =? OB_TRY_LOCK_ROW_CONFLICT) && negb need_retry then
        if param.(is_try_lock_) then (OB_ERR_EXCLUSIVE_LOCK_CONFLICT, need_retry, register_to_deadlock)
        else if e.(e_killed) then (OB_TRANS_KILLED, need_retry, register_to_deadlock)
        else if LockOp.is_dml_lock_op lock_op then (ret, need_retry, register_to_deadlock)
        else (ret, true, register_to_deadlock || ob_succ e.(e_register_deadlock))
      else (ret, need_retry, register_to_deadlock) in
    if param.(expired_time_) <=? e.(e_now)
    then mret (TurnResult (if ret =? OB_TRY_LOCK_ROW_CONFLICT then OB_ERR_EXCLUSIVE_LOCK_CONFLICT else OB_TIMEOUT)
                 need_retry true conflict_tx_set register_to_deadlock)
    else mret (TurnResult ret need_retry false conflict_tx_set register_to_deadlock).

(** The loop, one environment a turn.  [None] when the environments are used up. *)
Fixpoint lock_loop (envs : list lock_env) (param : lock_param) (lock_op : LockOp.t) (register_to_deadlock : bool) : TX turn_result :=
  match envs with
  | [] => lift None
  | e :: envs =>
    r ← lock_turn e param lock_op register_to_deadlock;
    if negb r.(tr_break) && r.(tr_need_retry) then
      on_table (update e.(e_others)) ;; lock_loop envs param lock_op r.(tr_deadlock)
    else mret r
  end.

(** The return code, and the transaction that the statement waits for. *)
Definition memtable_lock_ (envs : list lock_env) (param : lock_param) (lock_op : LockOp.t) : TX (Z * option ObTransID) :=
  r ← lock_loop envs param lock_op false;
  let ret := if (r.(tr_ret) =? OB_OBJ_LOCK_EXIST)
                && negb (bool_decide (LockID.obj_type_ (LockOp.lock_id_ lock_op) = OBJ_TYPE_DBMS_LOCK))
             then OB_SUCCESS else r.(tr_ret) in
  mret (ret, if (ret =? OB_TRY_LOCK_ROW_CONFLICT) && LockOp.is_dml_lock_op lock_op then head r.(tr_conflict) else None).

(** [ctx_ok]: the store context is valid and for writing. *)
Definition memtable_lock (ctx_ok : bool) (envs : list lock_env) (param : lock_param) (lock_op : LockOp.t) :
    TX (Z * option ObTransID) :=
  inited ← on_table (reads memtable_inited_);
  if negb inited then mret (OB_NOT_INIT, None)
  else if negb ctx_ok || negb (LockOp.is_valid lock_op) then mret (OB_INVALID_ARGUMENT, None)
  else memtable_lock_ envs param lock_op.

(** ** [ObLockMemtable::unlock_] *)

Definition unlock_record (e : lock_env) (unlock_op : LockOp.t) (is_try_lock : bool) (expired_time : Z) : TX (Z * bool) :=
  '(ret, lock_op_exist, _) ←
    check_lock_exist (LockOp.lock_id_ unlock_op) (LockOp.owner_id_ unlock_op) (LockOp.lock_mode_ unlock_op)
      (LockOp.op_type_ unlock_op) no_counts;
  if ob_fail ret then mret (ret, false)
  else if (lock_op_exist : bool) then mret (OB_SUCCESS, false)
  else
    ret ← on_table (map_unlock 1 e.(e_mem) unlock_op is_try_lock expired_time e.(e_now));
    if ob_fail ret then mret (ret, false)
    else
      ret ← record_or_remove e unlock_op; mret (ret, ret =? OB_EAGAIN).

(** The return code and [need_retry]. *)
Definition unlock_turn (e : lock_env) (unlock_op : LockOp.t) (is_try_lock : bool) (expired_time : Z) : TX (Z * bool) :=
  '(ret, need_retry) ←
    (if expired_time <=? e.(e_now) then mret (OB_TIMEOUT, false)
     else if ob_fail e.(e_write_auth) then mret (e.(e_write_auth), false)
     else if ob_fail e.(e_tablet_allow) then mret (e.(e_tablet_allow), false)
     else unlock_record e unlock_op is_try_lock expired_time);
  mret (ret, need_retry || (is_need_retry_unlock_error ret && negb is_try_lock)).

Fixpoint unlock_loop (envs : list lock_env) (unlock_op : LockOp.t) (is_try_lock : bool) (expired_time : Z) : TX Z :=
  match envs with
  | [] => lift None
  | e :: envs =>
    '(ret, need_retry) ← unlock_turn e unlock_op is_try_lock expired_time;
    if need_retry : bool then on_table (update e.(e_others)) ;; unlock_loop envs unlock_op is_try_lock expired_time
    else mret ret
  end.

Definition memtable_unlock (ctx_ok : bool) (envs : list lock_env) (unlock_op : LockOp.t) (is_try_lock : bool) (expired_time : Z) : TX Z :=
  inited ← on_table (reads memtable_inited_);
  if negb inited then mret OB_NOT_INIT
  else if negb ctx_ok || negb (LockOp.is_valid unlock_op) then mret OB_INVALID_ARGUMENT
  else unlock_loop envs unlock_op is_try_lock expired_time.

(** ** The check before a lock *)
Definition check_lock_conflict (lock_op : LockOp.t) (conflict_tx_set : ObTxIDSet) (include_finish_tx only_check_dml_lock : bool) :
    TX (Z * ObTxIDSet) :=
  inited ← on_table (reads memtable_inited_);
  if negb inited then mret (OB_NOT_INIT, conflict_tx_set)
  else if negb (LockOp.is_valid lock_op) then mret (OB_INVALID_ARGUMENT, conflict_tx_set)
  else
    let dbms := bool_decide (LockID.obj_type_ (LockOp.lock_id_ lock_op) = OBJ_TYPE_DBMS_LOCK) in
    '(ret, lock_exist, counts) ←
      check_lock_exist (LockOp.lock_id_ lock_op) (LockOp.owner_id_ lock_op) (LockOp.lock_mode_ lock_op)
        (LockOp.op_type_ lock_op) no_counts;
    if ob_fail ret then mret (ret, conflict_tx_set)
    else if (lock_exist : bool) then mret (if dbms then OB_OBJ_LOCK_EXIST else OB_SUCCESS, conflict_tx_set)
    else
      '(ret, conflict_tx_set) ← on_table (map_check_allow_lock lock_op counts conflict_tx_set include_finish_tx only_check_dml_lock);
      mret (if (ret =? OB_OBJ_LOCK_EXIST) && negb dbms then OB_SUCCESS else ret, conflict_tx_set).

(** ** Replay and recovery *)
Definition check_lock_need_replay_ (lock_op : LockOp.t) (scn : SCN) : TX (Z * bool) :=
  s ← reads id;
  if LockOp.is_out_trans_lock_op lock_op && scn_le scn s.(table).(flushed_scn_) then mret (OB_SUCCESS, false)
  else mret (check_lock_need_replay scn lock_op s.(ctx)).

Definition replay_lock_ (e : lock_env) (lock_op : LockOp.t) (scn : SCN) : TX Z :=
  '(ret, need_replay) ← check_lock_need_replay_ lock_op scn;
  if ob_fail ret then mret ret
  else if negb need_replay then mret OB_SUCCESS
  else
    ret ← on_table (map_recover_obj_lock 1 e.(e_mem) e.(e_obj_alloc) lock_op);
    if ob_fail ret then mret ret else replay_record_or_remove e lock_op scn.

Definition replay_lock (e : lock_env) (lock_op : LockOp.t) (scn : SCN) : TX Z :=
  inited ← on_table (reads memtable_inited_);
  if negb inited then mret OB_NOT_INIT
  else if negb (LockOp.is_valid lock_op) then mret OB_INVALID_ARGUMENT
  else replay_lock_ e lock_op scn.

Fixpoint recover_from_table_lock_durable_info (e : lock_env) (curr_timestamp : Z) (max_durable_scn : SCN) (transfer_merge : bool)
    (ops : list LockOp.t) : TX Z :=
  match ops with
  | [] => mret OB_SUCCESS
  | op :: ops =>
    if negb (LockOp.is_valid op) then mret OB_ERR_UNEXPECTED
    else
      let op := LockOp.set_create_timestamp (Z.min curr_timestamp (LockOp.create_timestamp_ op)) op in
      '(ret, _) ← ctx_add_lock_record e.(e_node_alloc) op;
      if ob_fail ret then mret ret
      else
        ret ← on_table (memtable_recover_obj_lock 1 e.(e_mem) e.(e_obj_alloc) op);
        if ob_fail ret then mret ret
        else
          (if negb transfer_merge then on_ctx (fun c => (sync_log_succ max_durable_scn c).2) else mret ()) ;;
          recover_from_table_lock_durable_info e curr_timestamp max_durable_scn transfer_merge ops
  end.
