(* ===== verification/ObjLockFacts.v ===== *)
(** * What the methods of an object lock do

    Every method of [ObjLock] in terms of the operations that are recorded, in any
    order, and the two counters. *)

From Stdlib Require Import ZArith Lia Bool.
From stdpp Require Import base countable numbers option list.
From S2P Require Import Prelude Serialization Scn TableLockCommon ObjLock.
Import AbortMonad.

Local Open Scope Z_scope.

Abbreviation op_mode := LockOp.lock_mode_.
Abbreviation op_trans := LockOp.create_trans_id_.
Abbreviation op_owner := LockOp.owner_id_.
Abbreviation op_type := LockOp.op_type_.
Abbreviation op_status := LockOp.lock_op_status_.

(** The place of a mode in [map_]. *)
Definition place (m : ObTableLockMode) : nat := Z.to_nat (get_index_by_lock_mode m).

(** Five lists; an operation is in the list of its mode. *)
Record shape (o : obj_lock) : Prop := {
  sh_length : length o.(map_) = 5%nat;
  sh_place : forall i l op, o.(map_) !! i = Some (Some l) -> op ∈ l -> op_mode op ∈ table_modes /\ place (op_mode op) = i }.

Lemma place_lt m : m ∈ table_modes -> (place m < 5)%nat.
Proof. intros H. by mode_cases H; vm_compute; lia. Qed.

Lemma place_inj m m' : m ∈ table_modes -> m' ∈ table_modes -> place m = place m' -> m = m'.
Proof.
  intros H H' E. apply mode_index_inj; [done | done |]. unfold place in E.
  destruct (mode_index m H) as (_ & ? & _), (mode_index m' H') as (_ & ? & _). lia.
Qed.

Lemma new_shape id : shape (new_obj_lock id).
Proof. constructor; [done|]. intros i l op H. by apply lookup_replicate in H as [? _]. Qed.

Lemma slot_lookup o m : shape o -> m ∈ table_modes -> exists l, o.(map_) !! place m = Some l.
Proof. intros Ho Hm. apply lookup_lt_is_Some_2. rewrite (sh_length o Ho). by apply place_lt. Qed.

Lemma runs_slot m o (Q : option op_list -> obj_lock -> Prop) : shape o -> m ∈ table_modes ->
  (forall l, o.(map_) !! place m = Some l -> Q l o) -> runs (slot (get_index_by_lock_mode m)) Q o.
Proof.
  intros Ho Hm HQ. destruct (slot_lookup o m Ho Hm) as [l Hl]. unfold runs, slot.
  destruct (mode_index m Hm) as (_ & Hi & _). destruct (Z.ltb_spec (get_index_by_lock_mode m) 0); [lia|].
  unfold place in Hl. rewrite Hl. cbn. by apply HQ.
Qed.

Lemma runs_set_slot m l o (Q : () -> obj_lock -> Prop) : shape o -> m ∈ table_modes ->
  Q () (set_map (<[place m := l]> o.(map_)) o) -> runs (set_slot (get_index_by_lock_mode m) l) Q o.
Proof.
  intros Ho Hm HQ. unfold runs, set_slot. destruct (mode_index m Hm) as (_ & Hi & _). unfold TABLE_LOCK_MODE_COUNT in Hi.
  rewrite (sh_length o Ho). destruct (Z.ltb_spec (get_index_by_lock_mode m) 0); [lia|].
  destruct (Z.leb_spec (Z.of_nat 5) (get_index_by_lock_mode m)); [lia|]. exact HQ.
Qed.

(** ** The operations *)

Lemma concat_insert {A} (L : list (list A)) i l : L !! i = Some l ->
  exists rest, concat L ≡ₚ l ++ rest /\ forall l', concat (<[i := l']> L) ≡ₚ l' ++ rest.
Proof.
  intros H. exists (concat (take i L) ++ concat (drop (S i) L)). split.
  - rewrite <- (take_drop_middle L i l H) at 1. rewrite concat_app. cbn.
    rewrite !app_assoc. apply Permutation_app_tail. apply Permutation_app_comm.
  - intros l'. rewrite insert_take_drop by (by eapply lookup_lt_Some). rewrite concat_app. cbn.
    rewrite !app_assoc. apply Permutation_app_tail. apply Permutation_app_comm.
Qed.

Lemma all_ops_insert o i l : o.(map_) !! i = Some l ->
  exists rest, all_ops o ≡ₚ default [] l ++ rest /\
    forall l', all_ops (set_map (<[i := l']> o.(map_)) o) ≡ₚ default [] l' ++ rest.
Proof.
  intros H. destruct (concat_insert (default [] <$> o.(map_)) i (default [] l)) as (rest & H1 & H2).
  { by rewrite list_lookup_fmap, H. }
  exists rest. split; [done|]. intros l'. unfold all_ops. cbn. rewrite list_fmap_insert. apply H2.
Qed.

Lemma elem_of_all_ops o op : op ∈ all_ops o <-> exists i l, o.(map_) !! i = Some (Some l) /\ op ∈ l.
Proof.
  unfold all_ops. rewrite list_elem_of_In, in_concat. setoid_rewrite <- list_elem_of_In. split.
  - intros (x & Hx & Hop). apply list_elem_of_fmap in Hx as ([l|] & -> & Hl); cbn in Hop; [|by apply not_elem_of_nil in Hop].
    apply list_elem_of_lookup in Hl as [i Hi]. by exists i, l.
  - intros (i & l & Hi & Hop). exists l. split; [|done]. apply list_elem_of_fmap. exists (Some l). split; [done|].
    by eapply list_elem_of_lookup_2.
Qed.

Lemma op_in_slot o op : shape o -> op ∈ all_ops o ->
  op_mode op ∈ table_modes /\ exists l, o.(map_) !! place (op_mode op) = Some (Some l) /\ op ∈ l.
Proof.
  intros Ho (i & l & Hi & Hop)%elem_of_all_ops. destruct (sh_place o Ho i l op Hi Hop) as [Hm <-]. eauto.
Qed.

Lemma filter_all {A} (P : A -> Prop) `{forall x, Decision (P x)} (l : list A) : (forall x, x ∈ l -> P x) -> filter P l = l.
Proof.
  induction l as [|x l IH]; intros Hl; [done|]. rewrite filter_cons_True by (apply Hl; by left).
  f_equal. apply IH. intros y Hy. apply Hl. by right.
Qed.

Lemma filter_none {A} (P : A -> Prop) `{forall x, Decision (P x)} (l : list A) : (forall x, x ∈ l -> ~ P x) -> filter P l = [].
Proof.
  induction l as [|x l IH]; intros Hl; [done|]. rewrite filter_cons_False by (apply Hl; by left).
  apply IH. intros y Hy. apply Hl. by right.
Qed.

(** [o'] is [o] with other operations and counters. *)
Record becomes (o o' : obj_lock) (ops : op_list) (rs rx : Z) : Prop := {
  be_shape : shape o';
  be_ops : all_ops o' ≡ₚ ops;
  be_row_share : o'.(row_share_) = rs;
  be_row_exclusive : o'.(row_exclusive_) = rx;
  be_deleted : o'.(is_deleted_) = o.(is_deleted_);
  be_id : o'.(obj_lock_id_) = o.(obj_lock_id_) }.

Abbreviation unchanged o o' := (becomes o o' (all_ops o) o.(row_share_) o.(row_exclusive_)).

Lemma unchanged_refl o : shape o -> unchanged o o.
Proof. by constructor. Qed.

Lemma set_slot_shape o m l : shape o -> m ∈ table_modes -> (forall op, op ∈ default [] l -> op_mode op = m) ->
  shape (set_map (<[place m := l]> o.(map_)) o).
Proof.
  intros Ho Hm Hl. constructor; cbn; [by rewrite length_insert, (sh_length o Ho)|].
  intros i l' op [(<- & -> & _)|(Hne & Hi)]%list_lookup_insert_Some Hop.
  - by rewrite (Hl op Hop).
  - by apply (sh_place o Ho i l').
Qed.

Lemma slot_modes o m l op : shape o -> m ∈ table_modes -> o.(map_) !! place m = Some l -> op ∈ default [] l -> op_mode op = m.
Proof.
  intros Ho Hm Hl Hop. destruct l as [l|]; [|by apply not_elem_of_nil in Hop].
  destruct (sh_place o Ho _ l op Hl Hop) as [Hm' E]. by apply place_inj.
Qed.

(** The list of a mode holds the operations of the mode, and can be replaced. *)
Lemma split_slot o m l : shape o -> m ∈ table_modes -> o.(map_) !! place m = Some l ->
  exists rest, all_ops o ≡ₚ default [] l ++ rest /\ (forall op, op ∈ default [] l -> op_mode op = m) /\
    (forall op, op ∈ rest -> op_mode op <> m) /\
    forall l', (forall op, op ∈ default [] l' -> op_mode op = m) ->
      becomes o (set_map (<[place m := l']> o.(map_)) o) (default [] l' ++ rest) o.(row_share_) o.(row_exclusive_).
Proof.
  intros Ho Hm Hl. destruct (all_ops_insert o _ l Hl) as (rest & H1 & H2). exists rest. split_and!.
  - done.
  - intros op Hop. by eapply slot_modes.
  - intros op Hop Em.
    assert (op ∈ all_ops (set_map (<[place m := None]> o.(map_)) o)) as Hin by (by rewrite (H2 None)). clear Hop.
    apply elem_of_all_ops in Hin as (i & l' & Hi & Hop). cbn in Hi.
    apply list_lookup_insert_Some in Hi as [(_ & [=] & _)|(Hne & Hi)].
    destruct (sh_place o Ho i l' op Hi Hop) as [_ E]. by rewrite Em in E.
  - intros l' Hl'. constructor; try done. by apply set_slot_shape.
Qed.

Lemma slot_ops o m l : shape o -> m ∈ table_modes -> o.(map_) !! place m = Some l ->
  filter (fun op => op_mode op = m) (all_ops o) ≡ₚ default [] l.
Proof.
  intros Ho Hm Hl. destruct (split_slot o m l Ho Hm Hl) as (rest & H1 & H2 & H3 & _). rewrite H1, filter_app.
  by rewrite (filter_all _ (default [] l)), (filter_none _ rest), app_nil_r.
Qed.

(** ** Lists are created and dropped *)

Lemma runs_get_or_create mem m o (Q : Z -> obj_lock -> Prop) : shape o -> m ∈ table_modes ->
  Q OB_ALLOCATE_MEMORY_FAILED o ->
  (forall o', unchanged o o' -> (exists l, o'.(map_) !! place m = Some (Some l)) -> Q OB_SUCCESS o') ->
  runs (get_or_create_op_list mem m) Q o.
Proof.
  intros Ho Hm HF HQ. unfold get_or_create_op_list. destruct (mode_index m Hm) as (Hv & Hi & _). rewrite Hv. cbn.
  destruct (Z.ltb_spec (get_index_by_lock_mode m) 0); [lia|]. apply runs_bind, runs_slot; [done | done |].
  intros [l|] Hl; [apply runs_ret, HQ; [by apply unchanged_refl | eauto]|].
  destruct (list_ok mem); [|by apply runs_ret].
  apply runs_bind, runs_set_slot; [done | done |]. apply runs_ret, HQ.
  - destruct (split_slot o m None Ho Hm Hl) as (rest & H1 & _ & _ & H2).
    destruct (H2 (Some [])); [by intros op ?%not_elem_of_nil|]. constructor; try done. by rewrite H1.
  - exists []. cbn. apply list_lookup_insert_eq. eapply lookup_lt_Some, Hl.
Qed.

Lemma runs_drop_op_list m o (Q : () -> obj_lock -> Prop) : shape o -> m ∈ table_modes ->
  (forall o', unchanged o o' -> Q () o') -> runs (drop_op_list_if_empty_ m) Q o.
Proof.
  intros Ho Hm HQ. unfold drop_op_list_if_empty_. destruct (mode_index m Hm) as (Hv & Hi & _). rewrite Hv. cbn.
  destruct (Z.ltb_spec (get_index_by_lock_mode m) 0); [lia|]. apply runs_bind, runs_slot; [done | done |].
  intros [[|op l]|] Hl; [|by apply runs_ret, HQ, unchanged_refl ..]. apply runs_set_slot; [done | done |]. apply HQ.
  destruct (split_slot o m (Some []) Ho Hm Hl) as (rest & H1 & _ & _ & H2).
  destruct (H2 None); [by intros op ?%not_elem_of_nil|]. constructor; try done. by rewrite H1.
Qed.

(** ** Recording an operation *)

Lemma runs_add_node mem op drop o (Q : Z -> obj_lock -> Prop) : shape o -> op_mode op ∈ table_modes ->
  LockOp.is_valid op = true -> (exists l, o.(map_) !! place (op_mode op) = Some (Some l)) ->
  Q OB_ALLOCATE_MEMORY_FAILED o ->
  (forall o', becomes o o' (op :: all_ops o) o.(row_share_) o.(row_exclusive_) -> Q OB_SUCCESS o') ->
  runs (add_node mem op drop) Q o.
Proof.
  intros Ho Hm Hv [l Hl] HF HS. unfold add_node. destruct (node_ok mem); [|by apply runs_ret].
  rewrite Hv. cbn. apply runs_bind. unfold add_last. apply runs_bind, runs_slot; [done | done |]. intros l' Hl'.
  rewrite Hl in Hl'. injection Hl' as <-. apply runs_bind. eapply runs_lift; [done|].
  apply runs_set_slot; [done | done |]. apply runs_ret, HS.
  destruct (split_slot o _ _ Ho Hm Hl) as (rest & H1 & H2 & _ & H3).
  destruct (H3 (Some (l ++ [op]))).
  { cbn. intros x [Hx|Hx%list_elem_of_singleton]%elem_of_app; [by apply H2 | by subst]. }
  constructor; try done. etrans; [done|]. cbn. rewrite H1. cbn. rewrite <- app_assoc.
  symmetry. apply Permutation_middle.
Qed.

Lemma filter_agree {A} (P Q : A -> Prop) `{forall x, Decision (P x)} `{forall x, Decision (Q x)} (l : list A) :
  (forall x, x ∈ l -> P x <-> Q x) -> filter P l = filter Q l.
Proof.
  induction l as [|x l IH]; intros Hl; [done|]. rewrite !filter_cons.
  rewrite IH by (intros y Hy; apply Hl; by right). destruct (Hl x) as [H1 H2]; [by left|].
  destruct (decide (P x)), (decide (Q x)); tauto || done.
Qed.

(** Keep in one list the operations that satisfy [K]. *)
Lemma filter_slot o m l rest (K : LockOp.t -> Prop) `{forall c, Decision (K c)} : all_ops o ≡ₚ default [] l ++ rest ->
  (forall op, op ∈ default [] l -> op_mode op = m) -> (forall op, op ∈ rest -> op_mode op <> m) ->
  filter (fun c => ~ (op_mode c = m /\ ~ K c)) (all_ops o) ≡ₚ filter K (default [] l) ++ rest.
Proof.
  intros -> H1 H2. rewrite filter_app. f_equiv.
  - rewrite (filter_agree _ K); [done|]. intros x Hx. rewrite (H1 x Hx). destruct (decide (K x)); tauto.
  - rewrite filter_all; [done|]. intros x Hx [E _]. by apply (H2 x).
Qed.

(** What [remove_lock_op] leaves. *)
Definition removed (op : LockOp.t) (ops : op_list) : op_list :=
  filter (fun c => ~ (op_mode c = op_mode op /\ same_op op c <> false)) ops.

Definition one (m m' : ObTableLockMode) : Z := if m =? m' then 1 else 0.

Lemma becomes_trans o o' o'' ops rs rx : becomes o o' ops rs rx -> unchanged o' o'' -> becomes o o'' ops rs rx.
Proof. intros [] []. constructor; try done; first [by etrans | congruence]. Qed.

Lemma becomes_from o o1 o2 ops ops' rs rx : unchanged o o1 -> becomes o1 o2 ops rs rx -> ops ≡ₚ ops' -> becomes o o2 ops' rs rx.
Proof. intros [] [] E. constructor; try done; first [by etrans | congruence]. Qed.

Lemma wakeup_unchanged o ids : shape o -> unchanged o (set_wakeups ids o).
Proof. intros [H1 H2]. by constructor. Qed.

Lemma runs_wakeup op o (Q : () -> obj_lock -> Prop) : shape o -> (forall o', unchanged o o' -> Q () o') ->
  runs (wakeup_waiters_ op) Q o.
Proof.
  intros Ho HQ. unfold wakeup_waiters_. apply runs_if; intros _; [by apply runs_ret, HQ, unchanged_refl|].
  by apply runs_update, HQ, wakeup_unchanged.
Qed.

Lemma runs_delete_lock_op op o (Q : () -> obj_lock -> Prop) : shape o -> op_mode op ∈ table_modes -> LockOp.is_valid op = true ->
  (forall o', becomes o o' (removed op (all_ops o)) o.(row_share_) o.(row_exclusive_) -> Q () o') ->
  runs (delete_lock_op_from_list_ op) Q o.
Proof.
  intros Ho Hm Hv HQ. unfold delete_lock_op_from_list_. apply runs_bind, runs_slot; [done | done |]. intros l Hl.
  destruct (split_slot o _ l Ho Hm Hl) as (rest & H1 & H2 & H3 & H4).
  pose proof (filter_slot o _ l rest (fun c => same_op op c = false) H1 H2 H3) as H5. destruct l as [l|]; cbn in *.
  - rewrite Hv. cbn. apply runs_set_slot; [done | done |]. apply HQ.
    destruct (H4 (Some (filter (fun c => same_op op c = false) l))).
    { cbn. intros x [_ Hx]%list_elem_of_filter. by apply H2. }
    constructor; try done. unfold removed. rewrite H5. done.
  - apply runs_ret, HQ. constructor; try done. unfold removed. by rewrite H5, H1.
Qed.

Lemma runs_lock_row m o (Q : () -> obj_lock -> Prop) : shape o ->
  (forall o', becomes o o' (all_ops o) (o.(row_share_) + one m ROW_SHARE) (o.(row_exclusive_) + one m ROW_EXCLUSIVE) -> Q () o') ->
  runs (lock_row_ m) Q o.
Proof.
  intros [Ho1 Ho2] HQ. unfold lock_row_, lock_row_exclusive_, lock_row_share_, one in *.
  destruct (Z.eqb_spec m ROW_EXCLUSIVE) as [->|]; [|destruct (Z.eqb_spec m ROW_SHARE) as [->|]];
    [apply runs_update | apply runs_update | apply runs_ret]; apply HQ; constructor; try done; cbn; lia.
Qed.

Lemma runs_unlock_row m o (Q : () -> obj_lock -> Prop) : shape o ->
  (forall o', becomes o o' (all_ops o) (o.(row_share_) - one m ROW_SHARE) (o.(row_exclusive_) - one m ROW_EXCLUSIVE) -> Q () o') ->
  runs (unlock_row_ m) Q o.
Proof.
  intros [Ho1 Ho2] HQ. unfold unlock_row_, unlock_row_exclusive_, unlock_row_share_, one in *.
  destruct (Z.eqb_spec m ROW_EXCLUSIVE) as [->|]; [|destruct (Z.eqb_spec m ROW_SHARE) as [->|]];
    [apply runs_update | apply runs_update | apply runs_ret]; apply HQ; constructor; try done; cbn; lia.
Qed.

Lemma runs_remove_lock_op op o (Q : () -> obj_lock -> Prop) : shape o -> op_mode op ∈ table_modes -> LockOp.is_valid op = true ->
  (LockOp.need_record_lock_op op = true ->
   forall o', becomes o o' (removed op (all_ops o)) o.(row_share_) o.(row_exclusive_) -> Q () o') ->
  (LockOp.need_record_lock_op op = false ->
   forall o', becomes o o' (all_ops o) (o.(row_share_) - one (op_mode op) ROW_SHARE)
                (o.(row_exclusive_) - one (op_mode op) ROW_EXCLUSIVE) -> Q () o') ->
  runs (remove_lock_op op) Q o.
Proof.
  intros Ho Hm Hv HR HU. unfold remove_lock_op. rewrite Hv. cbn.
  destruct (LockOp.need_record_lock_op op); cbn; [|by apply runs_unlock_row; [|apply HU]].
  specialize (HR eq_refl). destruct (mode_index _ Hm) as (_ & Hi & _).
  destruct (Z.ltb_spec (get_index_by_lock_mode (op_mode op)) 0); [lia|].
  apply runs_bind, runs_delete_lock_op; [done | done | done |]. intros o1 B1.
  apply runs_bind, runs_drop_op_list; [apply B1 | done |]. intros o2 B2.
  apply runs_wakeup; [apply B2|]. intros o3 B3. apply HR. by do 2 (eapply becomes_trans; [|done]).
Qed.
