(* ===== verification/ObjLockGrant.v ===== *)
(** * When an object grants a lock

    The checks of [ObjLock] before an operation is recorded: the operations of the same
    owner, and the modes that other transactions hold.  [lock] and [unlock] change the
    object only when they succeed, and success implies what the checks promise. *)

From Stdlib Require Import ZArith Lia Bool.
From stdpp Require Import base countable numbers option list.
From S2P Require Import Prelude Serialization Scn TableLockCommon ObjLock ObjLockFacts.
Import AbortMonad.

Local Open Scope Z_scope.

(** ** Operations of the same owner *)

(** An operation that is recorded next to [op]. *)
Definition lets_lock (op c : LockOp.t) : Prop :=
  op_type op = OUT_TRANS_LOCK -> op_owner c = op_owner op -> op_type c = IN_TRANS_COMMON_LOCK.

Lemma allow_lock_turn_ok op c ret : (allow_lock_turn op c ret).1 = OB_SUCCESS ->
  ret = OB_SUCCESS /\ (allow_lock_turn op c ret).2 = false /\ lets_lock op c.
Proof.
  unfold allow_lock_turn, lets_lock. destruct (op_type op); cbn; try done.
  - by repeat case_match.
  - destruct (Z.eqb_spec (op_owner c) (op_owner op)); [|done].
    destruct (op_type c); cbn; try done; repeat case_match; done.
  - by repeat case_match.
Qed.

Lemma allow_lock_list_ok op l : forall ret, check_op_allow_lock_from_list_ op l ret = OB_SUCCESS ->
  ret = OB_SUCCESS /\ Forall (lets_lock op) l.
Proof.
  induction l as [|c l IH]; cbn; intros ret H; [by split|].
  pose proof (allow_lock_turn_ok op c ret) as Ht. destruct (allow_lock_turn op c ret) as [ret' stop]; cbn in Ht.
  destruct stop; [by destruct (Ht H) as (_ & [=] & _)|]. destruct (IH _ H) as [-> Hl].
  destruct (Ht eq_refl) as (-> & _ & Hc). by split; [|constructor].
Qed.

(** The owner has a completed lock and nothing else in the list of the mode. *)
Definition completed (c : LockOp.t) : Prop := op_type c = OUT_TRANS_LOCK /\ op_status c = LOCK_OP_COMPLETE.

Lemma allow_unlock_turn_ok c : allow_unlock_turn c = OB_SUCCESS -> completed c.
Proof. unfold allow_unlock_turn, completed. by destruct (op_status c), (op_type c). Qed.

Lemma allow_unlock_loop_ok op l : forall e e', allow_unlock_loop op l e = (OB_SUCCESS, e') ->
  (forall c, c ∈ l -> op_owner c = op_owner op -> completed c) /\
  (e' = true -> e = true \/ exists c, c ∈ l /\ op_owner c = op_owner op).
Proof.
  induction l as [|c l IH]; cbn; intros e e' H.
  { simplify_eq. split; [by intros c ?%not_elem_of_nil | auto]. }
  destruct (Z.eqb_spec (op_owner c) (op_owner op)) as [E|E].
  - destruct (ob_fail (allow_unlock_turn c)) eqn:Hf; [by injection H as H; rewrite H in Hf|].
    destruct (IH _ _ H) as [H1 H2]. split.
    + intros d [->|Hd]%elem_of_cons Ed; [|by apply H1]. apply allow_unlock_turn_ok.
      unfold ob_fail in Hf. by apply negb_false_iff, Z.eqb_eq in Hf.
    + intros _. right. exists c. split; [by left | done].
  - destruct (IH _ _ H) as [H1 H2]. split.
    + intros d [->|Hd]%elem_of_cons Ed; [done | by apply H1].
    + intros He. destruct (H2 He) as [|(d & Hd & Ed)]; [by left | right]. exists d. split; [by right | done].
Qed.

Definition lets_unlock (op : LockOp.t) (ops : op_list) : Prop :=
  (forall c, c ∈ ops -> op_mode c = op_mode op -> op_owner c = op_owner op -> completed c) /\
  exists c, c ∈ ops /\ op_mode c = op_mode op /\ op_owner c = op_owner op.

Lemma allow_unlock_code op l : forall e, (allow_unlock_loop op l e).1 <> OB_EAGAIN.
Proof.
  induction l as [|c l IH]; cbn; intros e; [done|]. case_match; [|apply IH]. case_match; [|apply IH]. unfold allow_unlock_turn.
  by repeat case_match.
Qed.

Lemma check_unlock_code op l : check_op_allow_unlock_from_list_ op l <> OB_EAGAIN.
Proof.
  unfold check_op_allow_unlock_from_list_. case_match; [done|]. pose proof (allow_unlock_code op l false). case_match.
  by case_match.
Qed.

Lemma runs_check_allow_unlock op o (Q : Z -> obj_lock -> Prop) : shape o -> op_mode op ∈ table_modes ->
  (forall ret, ret <> OB_SUCCESS -> ret <> OB_EAGAIN -> Q ret o) -> (lets_unlock op (all_ops o) -> Q OB_SUCCESS o) ->
  runs (check_allow_unlock_ op) Q o.
Proof.
  intros Ho Hm HF HS. unfold check_allow_unlock_. destruct (mode_index _ Hm) as (-> & Hi & _). cbn.
  destruct (Z.ltb_spec (get_index_by_lock_mode (op_mode op)) 0); [lia|]. apply runs_bind, runs_slot; [done | done |].
  intros l Hl. apply runs_ret. destruct (decide (from_option (check_op_allow_unlock_from_list_ op) OB_OBJ_LOCK_NOT_EXIST l = OB_SUCCESS)) as [E|];
    [|apply HF; [done | destruct l; [apply check_unlock_code | done]]]. rewrite E. apply HS. clear HF HS. destruct l as [l|]; [|done]. cbn in E.
  pose proof (slot_ops o _ _ Ho Hm Hl) as P. cbn in P. unfold check_op_allow_unlock_from_list_ in E.
  case_match; [done|]. destruct (allow_unlock_loop op l false) as [ret e] eqn:Hloop.
  destruct e; cbn in E; [|by rewrite andb_true_r in E; unfold ob_succ in E; destruct (Z.eqb_spec ret OB_SUCCESS)].
  rewrite andb_false_r in E. subst ret. destruct (allow_unlock_loop_ok _ _ _ _ Hloop) as [H1 H2].
  assert (forall c, c ∈ l <-> op_mode c = op_mode op /\ c ∈ all_ops o) as Hin by (intros c; by rewrite <- P, list_elem_of_filter).
  split.
  - intros c Hc Em Eo. apply H1; [by apply Hin | done].
  - destruct (H2 eq_refl) as [[=]|(c & [Em Hc]%Hin & Eo)]. eauto.
Qed.

(** ** Modes that other transactions hold

    [own m] counts the operations of the transaction with mode [m]. *)

Definition in_mode (m : ObTableLockMode) (ops : op_list) : Z := Z.of_nat (length (filter (fun c => op_mode c = m) ops)).
Definition row_count (o : obj_lock) (m : ObTableLockMode) : Z :=
  if m =? ROW_SHARE then o.(row_share_) else if m =? ROW_EXCLUSIVE then o.(row_exclusive_) else 0.
Definition total (o : obj_lock) (m : ObTableLockMode) : Z := in_mode m (all_ops o) + row_count o m.

(** Counts fit in an [int]. *)
Definition few (o : obj_lock) : Prop :=
  0 <= o.(row_share_) /\ 0 <= o.(row_exclusive_) /\
  Z.of_nat (length (all_ops o)) + o.(row_share_) + o.(row_exclusive_) < 2 ^ 31.

Definition counts_of (own : ObTableLockMode -> Z) : list Z := own <$> table_modes.

Definition others (o : obj_lock) (own : ObTableLockMode -> Z) : list ObTableLockMode :=
  filter (fun m => total o m - own m <> 0) table_modes.

Lemma counts_lookup own m : m ∈ table_modes -> counts_of own !! Z.to_nat (get_index_by_lock_mode m) = Some (own m).
Proof. intros H. by mode_cases H. Qed.

Lemma in_mode_le m ops : 0 <= in_mode m ops <= Z.of_nat (length ops).
Proof. unfold in_mode. pose proof (length_filter (fun c => op_mode c = m) ops). lia. Qed.

Lemma row_count_le o m : few o -> 0 <= row_count o m <= o.(row_share_) + o.(row_exclusive_).
Proof. intros (? & ? & _). unfold row_count. repeat case_match; lia. Qed.

Lemma s32_small z : - 2 ^ 31 <= z < 2 ^ 31 -> s32 z = z.
Proof. intros H. apply to_s_id; [lia|]. unfold is_s. cbn in *. lia. Qed.

Section counts.
Context (o : obj_lock) (own : ObTableLockMode -> Z).
Hypothesis (Ho : shape o) (Hfew : few o) (Hown : forall m, 0 <= own m < 2 ^ 31).

Lemma runs_exist_cnt m (Q : Z -> obj_lock -> Prop) : m ∈ table_modes -> Q (total o m - own m) o ->
  runs (get_exist_lock_mode_cnt_without_curr_trans_ m (counts_of own)) Q o.
Proof.
  intros Hm HQ. unfold get_exist_lock_mode_cnt_without_curr_trans_. destruct (mode_index _ Hm) as (-> & _ & _).
  apply runs_bind, runs_slot; [done | done |]. intros l Hl. apply runs_bind.
  eapply runs_lift; [by apply counts_lookup|]. apply runs_bind, runs_reads. cbn.
  assert (from_option (fun l => Z.of_nat (length l)) 0 l = in_mode m (all_ops o)) as ->.
  { unfold in_mode. rewrite (slot_ops o m l Ho Hm Hl). by destruct l. }
  pose proof (in_mode_le m (all_ops o)) as B1. pose proof (row_count_le o m Hfew) as B2. destruct Hfew as (F1 & F2 & F3).
  pose proof (Hown m) as B3. rewrite (s32_small (in_mode m (all_ops o) - own m)) by lia. unfold total in HQ.
  assert (s32 (in_mode m (all_ops o) - own m + row_count o m) = in_mode m (all_ops o) + row_count o m - own m) as E
    by (rewrite s32_small; lia).
  clear Hl. mode_cases Hm; cbn in *; apply runs_ret; unfold row_count in *; cbn in *; rewrite ?E, ?Z.add_0_r in *; done.
Qed.

(** The counts contradict the locks of the transaction. *)
Definition own_conflict : Prop :=
  (exists m, m ∈ table_modes /\ total o m < own m) \/
  exists m m', m ∈ table_modes /\ m' ∈ table_modes /\ 0 < own m /\ own m' < total o m' /\ compatible m m' = false.

Lemma unexpected_conflict :
  let n m := total o m - own m in
  lock_mode_counts_unexpected (n ROW_SHARE) (n ROW_EXCLUSIVE) (n SHARE) (n SHARE_ROW_EXCLUSIVE) (n EXCLUSIVE)
    (own ROW_SHARE) (own ROW_EXCLUSIVE) (own SHARE) (own SHARE_ROW_EXCLUSIVE) (own EXCLUSIVE) = true -> own_conflict.
Proof.
  cbn. unfold lock_mode_counts_unexpected, own_conflict. intros H.
  assert (forall m, m ∈ table_modes -> total o m - own m < 0 -> own_conflict) as HL.
  { intros m Hm H'. left. exists m. split; [done | lia]. }
  assert (forall m m', m ∈ table_modes -> m' ∈ table_modes -> compatible m m' = false ->
            0 < own m -> 0 < total o m' - own m' -> own_conflict) as HR.
  { intros m m' Hm Hm' Hc H1 H2. right. exists m, m'. split_and!; try done. lia. }
  repeat first [apply orb_true_iff in H as [H|H] | apply andb_true_iff in H as [H1 H]];
    rewrite ?negb_true_iff, ?Z.ltb_lt, ?Z.eqb_neq in *.
  all: try (eapply HL; [|exact H]; in_modes).
  all: try (eapply HR; [| | |exact H1|exact H]; [in_modes | in_modes | done]).
  destruct (Z.lt_trichotomy (total o EXCLUSIVE - own EXCLUSIVE) 0) as [?|[?|?]]; [|done|].
  - by apply (HL EXCLUSIVE); [in_modes|].
  - by apply (HR ROW_EXCLUSIVE EXCLUSIVE); [in_modes | in_modes | done | ..].
Qed.

Lemma lock_mode_or_others :
  let n m := total o m - own m in
  lock_mode_or (n ROW_SHARE) (n ROW_EXCLUSIVE) (n SHARE) (n SHARE_ROW_EXCLUSIVE) (n EXCLUSIVE) = modes_or (others o own).
Proof.
  cbv zeta. unfold lock_mode_or, others, table_modes. rewrite !filter_cons, filter_nil.
  repeat match goal with |- context [decide (total o ?m - own ?m <> 0)] =>
    destruct (decide (total o m - own m <> 0)) as [?|E%dec_stable];
      [rewrite (proj2 (Z.eqb_neq (total o m - own m) 0)) by done | rewrite E; clear E] end; done.
Qed.

Lemma runs_exist_mode (Q : Z * ObTableLockMode -> obj_lock -> Prop) :
  (own_conflict -> Q (OB_ERR_UNEXPECTED, 0) o) -> Q (OB_SUCCESS, modes_or (others o own)) o ->
  runs (get_exist_lock_mode_without_curr_trans (counts_of own)) Q o.
Proof.
  intros HF HS. unfold get_exist_lock_mode_without_curr_trans.
  do 5 (apply runs_bind, runs_exist_cnt; [in_modes|]).
  do 5 (apply runs_bind; eapply runs_lift; [by apply counts_lookup; in_modes|]).
  apply runs_if; intros H; apply runs_ret; [by apply HF, unexpected_conflict | by rewrite lock_mode_or_others].
Qed.
End counts.

(** ** [check_allow_lock] *)

Definition is_in_trans (op : LockOp.t) : Prop := op_type op = IN_TRANS_DML_LOCK \/ op_type op = IN_TRANS_COMMON_LOCK.
Definition is_lock (op : LockOp.t) : Prop := is_in_trans op \/ op_type op = OUT_TRANS_LOCK.

(** What success promises. *)
Record granted (o : obj_lock) (own : ObTableLockMode -> Z) (op : LockOp.t) : Prop := {
  gr_owner : LockOp.need_record_lock_op op = true -> forall c, c ∈ all_ops o -> op_mode c = op_mode op -> lets_lock op c;
  gr_modes : forall m, m ∈ table_modes -> total o m <> own m -> compatible (op_mode op) m = true }.

(** Why a request is refused: for an operation of the same owner or transaction, for the
    mode of another transaction, or because the counts do not agree. *)
Definition is_dbms (op : LockOp.t) : Prop := LockID.obj_type_ (LockOp.lock_id_ op) = OBJ_TYPE_DBMS_LOCK.

Definition owner_refused (op : LockOp.t) (ops : op_list) (ret : Z) : Prop :=
  (~ is_in_trans op /\ (ret = OB_TRY_LOCK_ROW_CONFLICT \/ ret = OB_ERR_UNEXPECTED)) \/
  (~ is_in_trans op /\ ret = OB_OBJ_LOCK_EXIST /\ exists c, c ∈ ops /\ op_mode c = op_mode op /\ op_owner c = op_owner op /\
     op_type c = OUT_TRANS_LOCK /\ op_status c = LOCK_OP_COMPLETE) \/
  exists c, c ∈ ops /\ op_trans c = op_trans op /\ is_in_trans c /\
    ((ret = OB_OBJ_LOCK_EXIST /\ is_dbms c) \/ (ret = OB_ERR_UNEXPECTED /\ op_status c <> LOCK_OP_DOING)).

Definition refused (o : obj_lock) (own : ObTableLockMode -> Z) (op : LockOp.t) (ret : Z) : Prop :=
  owner_refused op (all_ops o) ret \/
  (ret = OB_TRY_LOCK_ROW_CONFLICT /\ exists m, m ∈ table_modes /\ total o m <> own m /\ compatible (op_mode op) m = false) \/
  (ret = OB_ERR_UNEXPECTED /\ own_conflict o own).

Lemma owner_refused_mono op ops ops' ret : (forall c, c ∈ ops -> c ∈ ops') -> owner_refused op ops ret -> owner_refused op ops' ret.
Proof.
  intros Hs [H|[(Hi & E & c & Hc & H)|(c & Hc & H)]]; [by left | right; left | right; right].
  - split_and!; [done | done |]. exists c. split; [by apply Hs | done].
  - exists c. split; [by apply Hs | done].
Qed.

Lemma allow_lock_turn_refused op c ret ret' stop : op_mode c = op_mode op -> allow_lock_turn op c ret = (ret', stop) ->
  ret' = ret \/ owner_refused op [c] ret'.
Proof.
  intros Hm. unfold allow_lock_turn. destruct (op_type op) eqn:Et.
  1, 3, 4, 6: assert (~ is_in_trans op) by (unfold is_in_trans; rewrite Et; intuition discriminate);
    repeat case_match; intros [= <- _]; unfold owner_refused; try tauto.
  { right. right. left. split_and!; [done | done |]. exists c. rewrite list_elem_of_singleton. split_and!; try done. lia. }
  all: case_match eqn:E; [|intros [= <- _]; by left]; apply andb_true_iff in E as [E1%Z.eqb_eq E2];
    apply orb_true_iff in E2; rewrite !bool_decide_eq_true in E2.
  all: case_match eqn:E3; [intros [= <- _]; right; right; right; exists c; apply bool_decide_eq_true in E3|].
  all: try (split; [by left|]; split_and!; [done | done | by left]).
  all: case_match eqn:E4; intros [= <- _]; [|by left]; right; right; right; exists c.
  all: apply negb_true_iff, bool_decide_eq_false in E4; split; [by left|]; split_and!; [done | done | by right].
Qed.

Lemma allow_lock_list_refused op l : (forall c, c ∈ l -> op_mode c = op_mode op) -> forall ret, check_op_allow_lock_from_list_ op l ret = ret \/
  owner_refused op l (check_op_allow_lock_from_list_ op l ret).
Proof.
  induction l as [|c l IH]; cbn; intros Hm ret; [by left|].
  destruct (allow_lock_turn op c ret) as [ret' stop] eqn:E.
  assert (ret' = ret \/ owner_refused op (c :: l) ret') as Hc.
  { destruct (allow_lock_turn_refused op c ret ret' stop) as [?|H]; [apply Hm; by left | done | by left | right].
    eapply owner_refused_mono; [|exact H]. intros d ->%list_elem_of_singleton. by left. }
  destruct stop; [done|]. destruct (IH (fun d Hd => Hm d (list_elem_of_further _ _ _ Hd)) ret') as [->|H]; [done | right].
  eapply owner_refused_mono; [|exact H]. intros d Hd. by right.
Qed.

Lemma runs_check_op_allow_lock op o own (Q : Z -> obj_lock -> Prop) : shape o -> op_mode op ∈ table_modes -> LockOp.is_valid op = true ->
  (forall ret, ret <> OB_SUCCESS -> refused o own op ret -> Q ret o) ->
  ((forall c, c ∈ all_ops o -> op_mode c = op_mode op -> lets_lock op c) -> Q OB_SUCCESS o) ->
  runs (check_op_allow_lock_ op) Q o.
Proof.
  intros Ho Hm Hv HF HS. unfold check_op_allow_lock_. rewrite Hv. cbn. destruct (mode_index _ Hm) as (_ & Hi & _).
  destruct (Z.ltb_spec (get_index_by_lock_mode (op_mode op)) 0); [lia|]. apply runs_bind, runs_slot; [done | done |].
  intros l Hl. apply runs_ret. pose proof (slot_ops o _ _ Ho Hm Hl) as P.
  assert (forall c, c ∈ default [] l <-> op_mode c = op_mode op /\ c ∈ all_ops o) as Hin by (intros c; by rewrite <- P, list_elem_of_filter).
  destruct l as [l|]; cbn in *; [|apply HS; intros c Hc Em; by destruct (not_elem_of_nil c); apply Hin].
  destruct (decide (check_op_allow_lock_from_list_ op l OB_SUCCESS = OB_SUCCESS)) as [E|E].
  - rewrite E. apply HS. destruct (allow_lock_list_ok _ _ _ E) as [_ H']. rewrite Forall_forall in H'.
    intros c Hc Em. by apply H', Hin.
  - apply HF; [done|]. left. destruct (allow_lock_list_refused op l) with (ret := OB_SUCCESS) as [?|Hr]; [by intros c [? _]%Hin | done |].
    eapply owner_refused_mono; [|exact Hr]. by intros c [_ ?]%Hin.
Qed.

Lemma forallb_others o own op : forallb (compatible (op_mode op)) (others o own) = true ->
  forall m, m ∈ table_modes -> total o m <> own m -> compatible (op_mode op) m = true.
Proof.
  intros H m Hm Hne. rewrite forallb_forall in H. apply H, list_elem_of_In, list_elem_of_filter. split; [lia | done].
Qed.

Lemma forallb_others_false o own op : forallb (compatible (op_mode op)) (others o own) = false ->
  exists m, m ∈ table_modes /\ total o m <> own m /\ compatible (op_mode op) m = false.
Proof.
  intros H. destruct (decide (Exists (fun m => compatible (op_mode op) m = false) (others o own))) as [E|E].
  - apply Exists_exists in E as (m & [Hne Hm]%list_elem_of_filter & Hc). exists m. split_and!; [done | lia | done].
  - exfalso. apply not_true_iff_false in H. apply H, forallb_forall. intros m Hm%list_elem_of_In.
    apply not_false_iff_true. intros Hc. apply E, Exists_exists. eauto.
Qed.

Section check.
Context (o : obj_lock) (own : ObTableLockMode -> Z) (op : LockOp.t).
Hypothesis (Ho : shape o) (Hfew : few o) (Hown : forall m, 0 <= own m < 2 ^ 31).
Hypothesis (Hm : op_mode op ∈ table_modes) (Hv : LockOp.is_valid op = true).

Lemma runs_report_conflict ret x dml finish (Q : Z * ObTxIDSet * bool -> obj_lock -> Prop) :
  (forall set b, Q (ret, set, b) o) -> runs (report_conflict op ret x dml finish false) Q o.
Proof.
  intros HQ. unfold report_conflict. rewrite andb_false_r. apply runs_bind, runs_if; intros _.
  - apply runs_bind, runs_reads. case_match. apply runs_ret, runs_bind, runs_reads, runs_ret, HQ.
  - apply runs_ret, runs_bind, runs_reads, runs_ret, HQ.
Qed.

Lemma runs_check_lock_modes (Q : Z * Z -> obj_lock -> Prop) :
  (forall ret x, ret <> OB_SUCCESS -> refused o own op ret -> Q (ret, x) o) ->
  (forall x, (forall m, m ∈ table_modes -> total o m <> own m -> compatible (op_mode op) m = true) -> Q (OB_SUCCESS, x) o) ->
  runs (check_lock_modes op (counts_of own)) Q o.
Proof.
  intros HF HS. apply runs_bind, runs_exist_mode; [done..| |].
  - intros Hc. apply runs_ret, HF; [done|]. by right; right.
  - cbn. apply runs_bind. destruct (request_lock_spec (others o own) (op_mode op)) as (x & E & _); [|done|].
    { apply Forall_forall. by intros m [_ ?]%list_elem_of_filter. }
    eapply runs_lift; [exact E|]. apply runs_ret.
    destruct (forallb (compatible (op_mode op)) (others o own)) eqn:Hc; [by apply HS, forallb_others|].
    apply HF; [done|]. right; left. split; [done|].
    destruct (forallb_others_false o own op Hc) as (m & ? & ? & ?). by exists m.
Qed.

(** The check reads the object only. *)
Lemma runs_check_allow_lock dml finish (Q : Z * ObTxIDSet * bool -> obj_lock -> Prop) :
  (forall ret set b, ret <> OB_SUCCESS -> refused o own op ret -> Q (ret, set, b) o) ->
  (forall set b, granted o own op -> Q (OB_SUCCESS, set, b) o) ->
  runs (check_allow_lock_ op (counts_of own) dml finish false) Q o.
Proof.
  intros HF HS. unfold check_allow_lock_.
  assert ((LockOp.need_record_lock_op op = true -> forall c, c ∈ all_ops o -> op_mode c = op_mode op -> lets_lock op c) ->
    runs ('(ret, x) ← check_lock_modes op (counts_of own); report_conflict op ret x dml finish false) Q o) as Hmid.
  { intros HR. apply runs_bind, runs_check_lock_modes.
    - intros ret x Hne Hr. apply runs_report_conflict. auto.
    - intros x Hx. apply runs_report_conflict. intros. by apply HS. }
  apply runs_bind. destruct (LockOp.need_record_lock_op op) eqn:Hr; [|by apply runs_ret, Hmid].
  apply (runs_check_op_allow_lock op o own); [done..| |].
  - intros ret Hne Href. rewrite (ne_ob_fail ret) by done.
    apply runs_report_conflict. auto.
  - intros HR. by apply Hmid.
Qed.

(** ** [lock] *)

(** Why [lock] fails: a conflict with a row lock may kill the transaction. *)
Definition lock_failure (o : obj_lock) (own : ObTableLockMode -> Z) (op : LockOp.t) (ret : Z) : Prop :=
  (ret = OB_EAGAIN /\ o.(is_deleted_) = true) \/ ret = OB_ALLOCATE_MEMORY_FAILED \/ refused o own op ret \/
  (ret = OB_TRANS_KILLED /\ refused o own op OB_TRY_LOCK_ROW_CONFLICT).

Lemma runs_lock mem param set (Q : Z * ObTxIDSet -> obj_lock -> Prop) :
  (forall ret set o', ret <> OB_SUCCESS -> unchanged o o' ->
     lock_failure o own op ret -> Q (ret, set) o') ->
  (forall set o', granted o own op -> o.(is_deleted_) = false -> LockOp.need_record_lock_op op = true ->
     becomes o o' (op :: all_ops o) o.(row_share_) o.(row_exclusive_) -> Q (OB_SUCCESS, set) o') ->
  (forall set o', granted o own op -> o.(is_deleted_) = false -> LockOp.need_record_lock_op op = false ->
     becomes o o' (all_ops o) (o.(row_share_) + one (op_mode op) ROW_SHARE)
       (o.(row_exclusive_) + one (op_mode op) ROW_EXCLUSIVE) -> Q (OB_SUCCESS, set) o') ->
  runs (lock mem param op (counts_of own) set) Q o.
Proof.
  intros HF HR HU. unfold lock. rewrite Hv. cbn. destruct (LockOp.need_record_lock_op op) eqn:Hr; cbn.
  - unfold slow_lock. apply runs_bind, runs_reads. destruct (is_deleted_ o) eqn:Hd.
    { apply runs_ret, HF; [done | by apply unchanged_refl | left; by split]. }
    apply runs_bind, runs_check_allow_lock.
    + intros ret set' b Hne Href. rewrite (ne_ob_fail ret) by done.
      apply runs_bind, runs_ret, runs_ret. case_match eqn:E; apply HF; try done; try (by apply unchanged_refl); [|by do 2 right; left].
      do 3 right. split; [done|]. rewrite !andb_true_iff in E. destruct E as [[E%Z.eqb_eq _] _]. by rewrite <- E.
    + intros set' b Hg. cbn. apply runs_bind, runs_bind.
      assert (forall o', unchanged o o' -> runs (mret (if (OB_ALLOCATE_MEMORY_FAILED =? OB_TRY_LOCK_ROW_CONFLICT) && negb (is_try_lock_ param)
             && (negb (LockOp.is_dml_lock_op op) && b && is_deadlock_avoid_enabled_ param)
          then OB_TRANS_KILLED else OB_ALLOCATE_MEMORY_FAILED, set')) Q o') as HA by (intros o' B; apply runs_ret, HF; [done | done | by right; left]).
      apply runs_get_or_create; [done | done | by apply runs_ret, HA, unchanged_refl|].
      intros o1 B1 Hl. cbn. apply runs_add_node; [apply B1 | done | done | done | by apply HA |].
      intros o2 B2. apply runs_ret, HR; [done..|].
      rewrite (be_row_share _ _ _ _ _ B1), (be_row_exclusive _ _ _ _ _ B1) in B2.
      apply (becomes_from _ o1 _ _ _ _ _ B1 B2). f_equiv. apply B1.
  - unfold fast_lock, try_fast_lock_. rewrite Hr. apply runs_bind, runs_reads. destruct (is_deleted_ o) eqn:Hd.
    { apply runs_ret, HF; [done | by apply unchanged_refl | left; by split]. }
    apply runs_bind, runs_check_allow_lock.
    + intros ret set' b Hne Href. rewrite (ne_ob_fail ret) by done.
      apply runs_ret, HF; [done | by apply unchanged_refl | by do 2 right; left].
    + intros set' b Hg. cbn. apply runs_bind, runs_lock_row; [done|]. intros o' B. by apply runs_ret, HU.
Qed.
End check.

(** ** [unlock] *)
Lemma runs_unlock mem op try expired now o (Q : Z -> obj_lock -> Prop) : shape o -> op_mode op ∈ table_modes ->
  LockOp.is_valid op = true -> (forall ret, ret <> OB_SUCCESS -> (ret = OB_EAGAIN -> o.(is_deleted_) = true) -> Q ret o) ->
  (forall o', lets_unlock op (all_ops o) -> o.(is_deleted_) = false ->
     becomes o o' (op :: all_ops o) o.(row_share_) o.(row_exclusive_) -> Q OB_SUCCESS o') ->
  runs (unlock mem op try expired now) Q o.
Proof.
  intros Ho Hm Hv HF HS. unfold unlock. rewrite Hv. cbn. apply runs_if; intros _; [by apply runs_ret, HF|].
  apply runs_if; intros _; [by apply runs_ret, HF|]. apply runs_bind, runs_reads. destruct (is_deleted_ o) eqn:Hd.
  { by apply runs_ret, HF. }
  unfold unlock_. apply runs_bind, runs_check_allow_unlock; [done | done |..].
  { intros ret Hne Hea. rewrite (ne_ob_fail ret) by done.
    by apply runs_ret, HF. }
  intros Hu. cbn. unfold get_op_list. destruct (mode_index _ Hm) as (-> & Hi & _). cbn.
  destruct (Z.ltb_spec (get_index_by_lock_mode (op_mode op)) 0); [lia|].
  apply runs_bind, runs_bind, runs_slot; [done | done |]. intros [l|] Hl; apply runs_ret; cbn; [|by apply runs_ret, HF].
  apply runs_add_node; [done | done | done | by exists l | by apply HF | by auto].
Qed.
