(* ===== verification/ObjLockEnd.v ===== *)
(** * When an operation completes

    [update_lock_status] and the compaction of [ObjLock].  A completed lock changes its
    status; a completed unlock disappears together with the lock it releases. *)

From Stdlib Require Import ZArith Lia Bool.
From stdpp Require Import base countable numbers option list.
From S2P Require Import Prelude Serialization Scn TableLockCommon ObjLock ObjLockFacts ObjLockGrant.
Import AbortMonad.

Local Open Scope Z_scope.

(** ** Which operations are the same

    Operations outside of a transaction are told apart by owner, mode and kind, others by
    the transaction too. *)
Definition op_key (op : LockOp.t) : ObTableLockMode * LockOwnerID.t * ObTableLockOpType * ObTransID :=
  (op_mode op, op_owner op, op_type op, if is_out_trans_op_type (op_type op) then 0 else op_trans op).

Lemma same_op_key op c : op_mode c = op_mode op -> same_op op c = true -> op_key c = op_key op.
Proof.
  unfold same_op, op_key. intros -> H. rewrite !andb_true_iff, !Z.eqb_eq, bool_decide_eq_true in H.
  by destruct H as [[-> ->] ->].
Qed.

Lemma same_op_refl op : same_op op op = true.
Proof. unfold same_op. by rewrite !Z.eqb_refl, bool_decide_eq_true_2. Qed.

Lemma key_unique (l : op_list) c d : NoDup (op_key <$> l) -> c ∈ l -> d ∈ l -> op_key c = op_key d -> c = d.
Proof.
  intros Hn [i Hi]%list_elem_of_lookup [j Hj]%list_elem_of_lookup E.
  assert (i = j) as ->; [|congruence].
  apply (NoDup_lookup (op_key <$> l) i j (op_key c)); [done | by rewrite list_lookup_fmap, Hi |].
  by rewrite list_lookup_fmap, Hj, E.
Qed.

Lemma NoDup_keys_perm (l l' : op_list) : l ≡ₚ l' -> NoDup (op_key <$> l) -> NoDup (op_key <$> l').
Proof. intros E. by rewrite E. Qed.

(** [remove_lock_op] takes out one operation. *)
Lemma removed_perm op ops : NoDup (op_key <$> ops) -> op ∈ ops -> ops ≡ₚ op :: removed op ops.
Proof.
  intros Hn Hop. unfold removed. induction ops as [|c l IH]; [by apply not_elem_of_nil in Hop|].
  pose proof Hn as Hn'. cbn in Hn. apply NoDup_cons in Hn as [Hc Hn]. rewrite filter_cons.
  destruct (decide (~ (op_mode c = op_mode op /\ same_op op c <> false))) as [Hk|Hk%dec_stable].
  - apply elem_of_cons in Hop as [<-|Hop]; [by destruct Hk; rewrite same_op_refl|].
    rewrite (IH Hn Hop) at 1. apply perm_swap.
  - destruct Hk as [Em Es%not_false_iff_true]. pose proof (same_op_key _ _ Em Es) as Ek.
    assert (c = op) as -> by (by apply (key_unique (c :: l)); [| left | |]). f_equiv.
    rewrite filter_all; [done|]. intros x Hx [Em' Es'%not_false_iff_true]. apply Hc.
    rewrite <- (same_op_key _ _ Em' Es'). by apply list_elem_of_fmap_2.
Qed.

(** ** The status of an operation *)

Lemma update_status_perm op v scn st l : NoDup (op_key <$> l) -> op ∈ l -> (forall c, c ∈ l -> op_mode c = op_mode op) ->
  exists l' rest, update_lock_status_ op v scn st l = Some l' /\ l ≡ₚ op :: rest /\ l' ≡ₚ LockOp.set_status st v scn op :: rest.
Proof.
  induction l as [|c l IH]; intros Hn Hop Hm; [by apply not_elem_of_nil in Hop|]. cbn [update_lock_status_].
  destruct (same_op op c) eqn:Es.
  - assert (c = op) as -> by (apply (key_unique (c :: l)); [done | by left | done | apply same_op_key; [apply Hm; by left | done]]).
    by exists (LockOp.set_status st v scn op :: l), l.
  - apply elem_of_cons in Hop as [<-|Hop]; [by rewrite same_op_refl in Es|]. cbn in Hn. apply NoDup_cons in Hn as [_ Hn].
    destruct IH as (l' & rest & -> & E1 & E2); [done | done | by intros d Hd; apply Hm; right|].
    exists (c :: l'), (c :: rest). split; [done|]. rewrite E1, E2. split; apply perm_swap.
Qed.

(** ** The pair of a lock and its unlock *)

Definition same_owner (op c : LockOp.t) : Prop := op_owner c = op_owner op /\ op_mode c = op_mode op.
Definition unlocked (c : LockOp.t) : Prop := op_type c = OUT_TRANS_UNLOCK /\ op_status c = LOCK_OP_COMPLETE.

Lemma is_complete_lock_spec c : is_complete_outtrans_lock c = true <-> completed c.
Proof. unfold is_complete_outtrans_lock, completed. by rewrite andb_true_iff, !bool_decide_eq_true. Qed.

Lemma is_complete_unlock_spec c : is_complete_outtrans_unlock c = true <-> unlocked c.
Proof. unfold is_complete_outtrans_unlock, unlocked. by rewrite andb_true_iff, !bool_decide_eq_true. Qed.

(** A pointer that the loop left points to a node of the list. *)
Definition points (op : LockOp.t) (P : LockOp.t -> Prop) (l : op_list) (i : nat) (old ptr : option nat) : Prop :=
  ptr = old \/ exists k c, ptr = Some (i + k)%nat /\ l !! k = Some c /\ same_owner op c /\ P c.

Lemma points_cons op P c l i old ptr : points op P l (S i) old ptr -> points op P (c :: l) i old ptr.
Proof.
  intros [->|(k & d & -> & Hk & H)]; [by left | right]. exists (S k), d. split; [f_equal; lia | done].
Qed.

Lemma points_here op (P : LockOp.t -> Prop) c l i old : same_owner op c -> P c -> points op P (c :: l) i old (Some i).
Proof. intros H1 H2. right. exists O, c. split; [f_equal; lia | done]. Qed.

Lemma points_step op (P : LockOp.t -> Prop) c l i old ptr : same_owner op c -> P c ->
  points op P l (S i) (Some i) ptr -> points op P (c :: l) i old ptr.
Proof.
  intros H1 H2 [->|(k & d & -> & Hk & H)]; [by apply points_here | right].
  exists (S k), d. split; [f_equal; lia | done].
Qed.

Lemma find_pair_points op l : forall i lp up,
  points op completed l i lp (find_pair op l i lp up).1 /\ points op unlocked l i up (find_pair op l i lp up).2.
Proof.
  induction l as [|c l IH]; intros i lp up; cbn [find_pair]; [by split; left|].
  destruct (Z.eqb_spec (op_owner c) (op_owner op)) as [Eo|]; cbn;
    [|destruct (IH (S i) lp up); split; by apply points_cons].
  destruct (Z.eqb_spec (op_mode c) (op_mode op)) as [Em|]; cbn;
    [|destruct (IH (S i) lp up); split; by apply points_cons].
  assert (same_owner op c) as Hs by done.
  destruct (is_complete_outtrans_lock c) eqn:E1; cbn.
  - apply is_complete_lock_spec in E1.
    assert (up = None \/ exists u, up = Some u) as [->|[u ->]] by (destruct up; eauto); cbn.
    + destruct (IH (S i) (Some i) None). split; [by apply points_step | by apply points_cons].
    + split; [by apply points_here | by left].
  - destruct (is_complete_outtrans_unlock c) eqn:E2; [apply is_complete_unlock_spec in E2|]; cbn.
    + destruct lp as [p|]; cbn; [by split; [left | apply points_here]|].
      destruct (IH (S i) None (Some i)). split; [by apply points_cons | by apply points_step].
    + destruct lp as [p|], up as [u|]; cbn; [by split; left|..];
        split; apply points_cons, IH.
Qed.

Lemma find_pair_found op l : forall i lp up,
  is_Some lp \/ (exists c, c ∈ l /\ same_owner op c /\ completed c) ->
  is_Some up \/ (exists c, c ∈ l /\ same_owner op c /\ unlocked c) ->
  is_Some (find_pair op l i lp up).1 /\ is_Some (find_pair op l i lp up).2.
Proof.
  induction l as [|c l IH]; intros i lp up H1 H2; cbn [find_pair].
  { destruct H1 as [?|(c & ?%not_elem_of_nil & _)]; [|done]. by destruct H2 as [?|(c & ?%not_elem_of_nil & _)]. }
  assert (forall (ptr : option nat) (P : LockOp.t -> Prop), ~ (same_owner op c /\ P c) ->
    is_Some ptr \/ (exists d, d ∈ c :: l /\ same_owner op d /\ P d) -> is_Some ptr \/ (exists d, d ∈ l /\ same_owner op d /\ P d)) as Hskip.
  { intros ptr P Hn [?|(d & [->|Hd]%elem_of_cons & Hs)]; [by left | done | right; by exists d]. }
  destruct (Z.eqb_spec (op_owner c) (op_owner op)) as [Eo|Ho]; cbn;
    [|apply IH; eapply Hskip; try done; by intros [[] _]].
  destruct (Z.eqb_spec (op_mode c) (op_mode op)) as [Em|Hm]; cbn;
    [|apply IH; eapply Hskip; try done; by intros [[] _]].
  destruct (is_complete_outtrans_lock c) eqn:E1; cbn.
  - assert (~ (same_owner op c /\ unlocked c)) as Hu.
    { apply is_complete_lock_spec in E1 as [E1 _]. intros [_ [E _]]. congruence. }
    apply (Hskip _ unlocked) in H2; [|done]. destruct up as [u|]; cbn; [by split|]. by apply IH; [left|].
  - assert (~ (same_owner op c /\ completed c)) as Hl.
    { intros [_ E%is_complete_lock_spec]. congruence. }
    apply (Hskip _ completed) in H1; [|done]. destruct (is_complete_outtrans_unlock c) eqn:E2; cbn.
    + destruct lp as [p|]; cbn; [by split|]. by apply IH; [|left].
    + assert (~ (same_owner op c /\ unlocked c)) as Hu. { intros [_ E%is_complete_unlock_spec]. congruence. }
      apply (Hskip _ unlocked) in H2; [|done]. destruct lp as [p|], up as [u|]; cbn; [by split|..]; by apply IH.
Qed.

(** Both are taken out of the list. *)
Lemma compact_pair_perm op l : (exists c, c ∈ l /\ same_owner op c /\ completed c) ->
  (exists c, c ∈ l /\ same_owner op c /\ unlocked c) ->
  exists c u l', compact_pair op false l = (l', true) /\ l ≡ₚ c :: u :: l' /\
    same_owner op c /\ completed c /\ same_owner op u /\ unlocked u.
Proof.
  intros H1 H2. unfold compact_pair. destruct (find_pair_found op l 0 None None (or_intror H1) (or_intror H2)) as [F1 F2].
  destruct (find_pair_points op l 0 None None) as [P1 P2]. destruct (find_pair op l 0 None None) as [lp up]. cbn in *.
  destruct P1 as [->|(i & c & -> & Hi & Hc & Hcc)]; [by apply is_Some_None in F1|].
  destruct P2 as [->|(j & u & -> & Hj & Hu & Huu)]; [by apply is_Some_None in F2|]. cbn.
  exists c, u. eexists. split; [done|]. split; [|done].
  rewrite (delete_Permutation l i c Hi) at 1. f_equiv. apply delete_Permutation.
  assert (i <> j) by (intros ->; rewrite Hi in Hj; simplify_eq; destruct Hcc, Huu; congruence). cbn. case_decide.
  - rewrite list_lookup_delete_ge by lia. by replace (S (j - 1)) with j by lia.
  - by rewrite list_lookup_delete_lt by lia.
Qed.

(** ** [update_lock_status] *)

Lemma runs_get_op_list m o (Q : Z * option op_list -> obj_lock -> Prop) : shape o -> m ∈ table_modes ->
  (forall l, o.(map_) !! place m = Some l -> Q (OB_SUCCESS, l) o) -> runs (get_op_list m) Q o.
Proof.
  intros Ho Hm HQ. unfold get_op_list. destruct (mode_index m Hm) as (-> & Hi & _). cbn.
  destruct (Z.ltb_spec (get_index_by_lock_mode m) 0); [lia|]. apply runs_bind, runs_slot; [done | done |].
  intros l Hl. by apply runs_ret, HQ.
Qed.

Section complete.
Context (op : LockOp.t) (v scn : SCN).
Hypothesis (Hv : LockOp.is_valid op = true) (Hm : op_mode op ∈ table_modes) (Hout : is_out_trans_op_type (op_type op) = true).

Let op' := LockOp.set_status LOCK_OP_COMPLETE v scn op.

Lemma runs_set_op_status o (Q : Z -> obj_lock -> Prop) : shape o -> o.(is_deleted_) = false ->
  NoDup (op_key <$> all_ops o) -> op ∈ all_ops o ->
  (forall rest o', all_ops o ≡ₚ op :: rest -> becomes o o' (op' :: rest) o.(row_share_) o.(row_exclusive_) -> Q OB_SUCCESS o') ->
  runs (set_op_status op v scn LOCK_OP_COMPLETE) Q o.
Proof.
  intros Ho Hd Hn Hop HQ. apply runs_bind, runs_reads. rewrite Hd. apply runs_bind, runs_get_op_list; [done | done |].
  intros l Hl. cbn. destruct (split_slot o _ l Ho Hm Hl) as (other & H1 & H2 & H3 & H4).
  assert (op ∈ default [] l) as Hin.
  { rewrite H1 in Hop. apply elem_of_app in Hop as [?|Hop]; [done|]. by destruct (H3 op Hop). }
  destruct l as [l|]; [|by apply not_elem_of_nil in Hin]. cbn in *.
  destruct (update_status_perm op v scn LOCK_OP_COMPLETE l) as (l' & rest & -> & E1 & E2); [|done|done|].
  { rewrite H1, fmap_app, NoDup_app in Hn. apply Hn. }
  apply runs_bind, runs_set_slot; [done | done |]. apply runs_ret, (HQ (rest ++ other)); [by rewrite H1, E1|].
  destruct (H4 (Some l')) as [S1 S2 S3 S4 S5 S6].
  { cbn. intros c Hc. rewrite E2 in Hc. apply elem_of_cons in Hc as [->|Hc]; [done|].
    apply H2. rewrite E1. by right. }
  constructor; try done. etrans; [exact S2|]. cbn. by rewrite E2.
Qed.

Lemma runs_compact_unlocked o rest c (Q : () -> obj_lock -> Prop) : shape o -> o.(is_deleted_) = false ->
  all_ops o ≡ₚ op' :: c :: rest -> op_type op = OUT_TRANS_UNLOCK -> same_owner op c -> completed c ->
  (forall d, d ∈ rest -> same_owner op d -> ~ completed d /\ ~ unlocked d) ->
  (forall o', becomes o o' rest o.(row_share_) o.(row_exclusive_) -> Q () o') ->
  runs (compact_unlocked op) Q o.
Proof.
  intros Ho Hd Hops Ht Hc Hcc Hrest HQ. apply runs_bind, runs_reads. rewrite Hd.
  apply runs_bind, runs_get_op_list; [done | done |]. intros l Hl. cbn. apply runs_bind, runs_bind, runs_slot; [done | done |].
  intros l0 Hl0. replace l0 with l by congruence. clear l0 Hl0.
  destruct (split_slot o _ l Ho Hm Hl) as (other & H1 & H2 & H3 & H4).
  assert (forall d, d ∈ all_ops o -> op_mode d = op_mode op -> d ∈ default [] l) as Hin.
  { intros d Hd' Em. rewrite H1 in Hd'. apply elem_of_app in Hd' as [?|Hd']; [done|]. by destruct (H3 d Hd'). }
  assert (op' ∈ default [] l) as I1 by (apply Hin; [rewrite Hops; by left | done]).
  assert (c ∈ default [] l) as I2 by (apply Hin; [rewrite Hops; by right; left | apply Hc]).
  destruct l as [l|]; [|by apply not_elem_of_nil in I1]. cbn in *. rewrite Hv. cbn.
  destruct (compact_pair_perm op l) as (c1 & u1 & l' & -> & E & Sc & Cc & Su & Cu); [by exists c | by exists op'|].
  apply runs_bind, runs_set_slot; [done | done |]. apply runs_ret. cbn.
  assert (all_ops o ≡ₚ c1 :: u1 :: l' ++ other) as E' by (by rewrite H1, E).
  assert (forall d, d = c1 \/ d = u1 -> d = op' \/ d = c \/ d ∈ rest) as Hd'.
  { intros d Hcu. rewrite <- !elem_of_cons, <- Hops, E', !elem_of_cons. tauto. }
  assert (c1 = c) as ->. { destruct (Hd' c1) as [->|[->|Hr]]; [by left | destruct Cc as [Cc _]; cbn in Cc; congruence | done |].
    by destruct (Hrest c1 Hr Sc). }
  assert (u1 = op') as ->. { destruct (Hd' u1) as [->|[->|Hr]]; [by right | done | destruct Cu, Hcc; congruence |].
    by destruct (Hrest u1 Hr Su). }
  assert (l' ++ other ≡ₚ rest) as Hr.
  { rewrite Hops, perm_swap in E'. by apply Permutation_cons_inv, Permutation_cons_inv in E'. }
  destruct (H4 (Some l')) as [S1 S2 S3 S4 S5 S6].
  { cbn. intros d Hd2. apply H2. rewrite E. by do 2 right. }
  apply runs_drop_op_list; [done | done |]. intros o' B. apply HQ.
  eapply becomes_trans; [|exact B]. constructor; try done. etrans; [exact S2 | exact Hr].
Qed.

(** A lock stays with its new status. *)
Lemma runs_complete_lock o (Q : Z -> obj_lock -> Prop) : shape o -> o.(is_deleted_) = false ->
  NoDup (op_key <$> all_ops o) -> op ∈ all_ops o -> op_type op = OUT_TRANS_LOCK ->
  (forall rest o', all_ops o ≡ₚ op :: rest -> becomes o o' (op' :: rest) o.(row_share_) o.(row_exclusive_) -> Q OB_SUCCESS o') ->
  runs (update_lock_status op v scn LOCK_OP_COMPLETE) Q o.
Proof.
  intros Ho Hd Hn Hop Ht HQ. unfold update_lock_status, LockOp.need_record_lock_op, is_committed_unlock. rewrite Hv, Hout, Ht. cbn.
  apply runs_bind, runs_set_op_status; [done..|]. intros rest o' E B. cbn. by apply runs_bind, runs_ret, runs_ret, (HQ rest).
Qed.

(** An unlock takes the lock of its owner away. *)
Lemma runs_complete_unlock o c (Q : Z -> obj_lock -> Prop) : shape o -> o.(is_deleted_) = false ->
  NoDup (op_key <$> all_ops o) -> op ∈ all_ops o -> op_type op = OUT_TRANS_UNLOCK -> op_status op = LOCK_OP_DOING ->
  c ∈ all_ops o -> same_owner op c -> completed c ->
  (forall rest o', all_ops o ≡ₚ op :: c :: rest -> becomes o o' rest o.(row_share_) o.(row_exclusive_) -> Q OB_SUCCESS o') ->
  runs (update_lock_status op v scn LOCK_OP_COMPLETE) Q o.
Proof.
  intros Ho Hd Hn Hop Ht Hst Hc Hs Hcc HQ. unfold update_lock_status, LockOp.need_record_lock_op, is_committed_unlock. rewrite Hv, Hout, Ht. cbn.
  apply runs_bind, runs_set_op_status; [done..|]. intros rest1 o1 E B1. cbn.
  assert (c ∈ rest1) as Hc1.
  { rewrite E in Hc. apply elem_of_cons in Hc as [->|?]; [|done]. destruct Hcc. congruence. }
  apply elem_of_Permutation in Hc1 as [rest Er]. rewrite Er in E.
  pose proof (NoDup_keys_perm _ _ E Hn) as Hn'. cbn in Hn'. rewrite !NoDup_cons, !not_elem_of_cons in Hn'.
  destruct Hn' as ((_ & N1) & N2 & _).
  assert (forall d k, d ∈ rest -> op_key d = op_key k -> op_key k ∈ op_key <$> rest) as Hk.
  { intros d k Hd1 <-. by apply list_elem_of_fmap_2. }
  apply runs_bind, runs_bind, (runs_compact_unlocked o1 rest c).
  - apply B1.
  - by rewrite (be_deleted _ _ _ _ _ B1).
  - rewrite (be_ops _ _ _ _ _ B1). by f_equiv.
  - done.
  - done.
  - done.
  - intros d Hd1 [Eo Em]. destruct Hs as [Eo' Em'], Hcc as [Et' _].
    split; intros [Et _]; [apply N2, (Hk d) | apply N1, (Hk d)]; try done; unfold op_key; rewrite Et, Em, Eo; by rewrite ?Et', ?Em', ?Eo', ?Ht.
  - intros o2 B2. apply runs_wakeup; [apply B2|]. intros o3 B3. apply runs_ret, (HQ rest); [done|].
    rewrite (be_row_share _ _ _ _ _ B1), (be_row_exclusive _ _ _ _ _ B1) in B2.
    eapply becomes_trans; [|exact B3]. destruct B1, B2. constructor; congruence || done.
Qed.
End complete.

(** ** Compaction

    With no completed unlock there is nothing to compact. *)

Lemma runs_compact_list m is_force o (Q : Z * bool -> obj_lock -> Prop) : shape o -> m ∈ table_modes ->
  (forall c, c ∈ all_ops o -> ~ unlocked c) -> Q (OB_SUCCESS, false) o ->
  runs (compact_tablelock_list_ (get_index_by_lock_mode m) is_force) Q o.
Proof.
  intros Ho Hm Hu HQ. apply runs_bind, runs_slot; [done | done |]. intros [l|] Hl; [|by apply runs_ret].
  apply runs_bind. cbn [compact_list_loop negb]. apply runs_bind, runs_slot; [done | done |]. intros l' Hl'.
  replace l' with (Some l) by congruence. cbn.
  assert (get_first_complete_unlock_op_ l = None) as ->.
  { unfold get_first_complete_unlock_op_. rewrite (proj2 (list_find_None _ l)); [done|].
    apply Forall_forall. intros c Hc E%is_complete_unlock_spec. apply (Hu c); [|done].
    apply elem_of_all_ops. by exists (place m), l. }
  by apply runs_ret, runs_bind, runs_ret, runs_ret.
Qed.

Lemma runs_compact_tablelock is_force o (Q : Z * bool -> obj_lock -> Prop) : shape o ->
  (forall c, c ∈ all_ops o -> ~ unlocked c) -> Q (OB_SUCCESS, false) o -> runs (compact_tablelock is_force) Q o.
Proof.
  intros Ho Hu HQ. unfold compact_tablelock. cbn [compact_lists_loop Z.to_nat TABLE_LOCK_MODE_COUNT Pos.to_nat Pos.iter_op].
  apply runs_bind, (runs_compact_list EXCLUSIVE); [done | in_modes | done |].
  apply runs_bind, (runs_compact_list SHARE); [done | in_modes | done |].
  apply runs_bind, (runs_compact_list ROW_EXCLUSIVE); [done | in_modes | done |].
  apply runs_bind, (runs_compact_list SHARE_ROW_EXCLUSIVE); [done | in_modes | done |].
  apply runs_bind, (runs_compact_list ROW_SHARE); [done | in_modes | done |].
  by apply runs_ret.
Qed.

(** ** Replay *)

Lemma need_recover op (l : op_list) : (forall c, c ∈ l -> op_key c <> op_key op) -> check_need_recover_ op l = true.
Proof.
  intros H. apply forallb_forall. intros c Hc%list_elem_of_In. apply not_false_iff_true. intros E. apply (H c Hc).
  unfold LockOp.need_replay_or_recover in E. rewrite negb_false_iff, !andb_true_iff, bool_decide_eq_true in E.
  destruct E as [[[[_ E1] E2] E3] E4]. apply Z.eqb_eq in E1, E2, E3. unfold op_key. by rewrite E1, E2, E3, E4.
Qed.

(** An operation that is not there is added, whatever the modes. *)
Lemma runs_recover_lock mem op o (Q : Z -> obj_lock -> Prop) : shape o -> op_mode op ∈ table_modes -> LockOp.is_valid op = true ->
  (forall c, c ∈ all_ops o -> op_key c <> op_key op) ->
  (forall ret o', ret = OB_ALLOCATE_MEMORY_FAILED \/ ret = OB_EAGAIN /\ o.(is_deleted_) = true -> unchanged o o' -> Q ret o') ->
  (forall o', o.(is_deleted_) = false -> LockOp.need_record_lock_op op = true ->
     becomes o o' (op :: all_ops o) o.(row_share_) o.(row_exclusive_) -> Q OB_SUCCESS o') ->
  (forall o', o.(is_deleted_) = false -> LockOp.need_record_lock_op op = false ->
     becomes o o' (all_ops o) (o.(row_share_) + one (op_mode op) ROW_SHARE)
       (o.(row_exclusive_) + one (op_mode op) ROW_EXCLUSIVE) -> Q OB_SUCCESS o') ->
  runs (recover_lock mem op) Q o.
Proof.
  intros Ho Hm Hv Hk HF HR HU. unfold recover_lock. rewrite Hv. cbn. apply runs_bind, runs_reads. destruct (is_deleted_ o) eqn:Hd.
  { apply runs_ret, HF; [by right | by apply unchanged_refl]. }
  unfold recover_. destruct (LockOp.need_record_lock_op op) eqn:Hr; cbn.
  2: { apply runs_bind, runs_lock_row; [done|]. intros o' B. by apply runs_ret, HU. }
  apply runs_bind, runs_get_or_create; [done | done | |].
  { apply runs_ret, HF; [by left | by apply unchanged_refl]. }
  intros o1 B1 [l Hl]. cbn. apply runs_bind, runs_slot; [apply B1 | done |]. intros l1 Hl1. rewrite Hl in Hl1. injection Hl1 as <-.
  apply runs_bind. eapply runs_lift; [done|]. cbn. rewrite need_recover; cbn.
  - apply runs_add_node; [apply B1 | done | done | by exists l | by apply HF; [left|] |]. intros o2 B2. apply HR; [done | done |].
    rewrite (be_row_share _ _ _ _ _ B1), (be_row_exclusive _ _ _ _ _ B1) in B2.
    apply (becomes_from _ o1 _ _ _ _ _ B1 B2). f_equiv. apply B1.
  - intros c Hc. apply Hk. rewrite <- (be_ops _ _ _ _ _ B1). apply elem_of_all_ops. by exists (place (op_mode op)), l.
Qed.
