(* ===== verification/LockSystem.v ===== *)
(** * Transactions that lock the same objects

    The interleavings of [lock_], [unlock_], rollback, end of transaction, compaction and
    flush.  [lock_] is cut where other threads can run: the context of the transaction is
    read and the modes counted, the object is asked at an address that was looked up
    before, the operation is added to the context.  The latch of [AddLockGuard] lets one
    such call of a transaction run at a time.  A replica replays the operations of the
    leader in the order of the log; it makes the other steps as well, so that the system
    is one replica through changes of its role.  The specification is a bag of operations
    that grow and shrink by five rules. *)

From Stdlib Require Import ZArith Lia Bool.
From stdpp Require Import base countable numbers option gmap list.
From S2P Require Import Prelude Serialization Scn TableLockCommon ObjLock LockTable LockMemCtx ObjLockFacts ObjLockGrant ObjLockEnd.
Import AbortMonad.

Local Open Scope Z_scope.

(** ** The specification *)

Abbreviation op_id := LockOp.lock_id_.

Definition same_kind (op c : LockOp.t) : Prop := op_id c = op_id op /\ op_key c = op_key op.

(** A lock is granted when the modes of other transactions on the object are compatible. *)
Definition may_lock (A : op_list) (op : LockOp.t) : Prop :=
  is_lock op /\ op_status op = LOCK_OP_DOING /\ op_mode op ∈ table_modes /\
  forall c, c ∈ A -> ~ same_kind op c /\
    (op_id c = op_id op -> op_trans c <> op_trans op -> compatible (op_mode op) (op_mode c) = true).

(** A lock that was completed can be unlocked, once. *)
Definition may_unlock (A : op_list) (op : LockOp.t) : Prop :=
  op_type op = OUT_TRANS_UNLOCK /\ op_status op = LOCK_OP_DOING /\ (forall c, c ∈ A -> ~ same_kind op c) /\
  exists c, c ∈ A /\ op_id c = op_id op /\ same_owner op c /\ completed c.

Inductive spec_step (A : op_list) : op_list -> Prop :=
| spec_lock op A' : may_lock A op -> A' ≡ₚ op :: A -> spec_step A A'
| spec_unlock op A' : may_unlock A op -> A' ≡ₚ op :: A -> spec_step A A'
| spec_release op A' : op_status op = LOCK_OP_DOING -> A ≡ₚ op :: A' -> spec_step A A'
| spec_complete op version scn rest A' : op_type op = OUT_TRANS_LOCK -> op_status op = LOCK_OP_DOING -> A ≡ₚ op :: rest ->
    A' ≡ₚ LockOp.set_status LOCK_OP_COMPLETE version scn op :: rest -> spec_step A A'
| spec_unlocked op c A' : op_type op = OUT_TRANS_UNLOCK -> op_status op = LOCK_OP_DOING ->
    op_id c = op_id op -> same_owner op c -> completed c -> A ≡ₚ op :: c :: A' -> spec_step A A'.

Inductive spec_reachable : op_list -> Prop :=
| spec_initial : spec_reachable []
| spec_more A A' : spec_reachable A -> spec_step A A' -> spec_reachable A'.

(** Locks of different transactions on one object are compatible. *)
Definition exclusion (A : op_list) : Prop :=
  forall op c, op ∈ A -> c ∈ A -> is_lock op -> is_lock c -> op_id op = op_id c -> op_trans op <> op_trans c ->
    compatible (op_mode op) (op_mode c) = true.

(** ** The system *)

(** A call that is under way: the modes are counted; the object has recorded the operation. *)
Inductive pending := Counted (op : LockOp.t) (counts : list Z) | Acquired (op : LockOp.t).

Inductive phase := Running | Ending (commit : bool) (commit_version commit_scn : SCN).

Definition committing (p : phase) : bool := match p with Ending true _ _ => true | _ => false end.

Record tx_state := TxState { tx_ctx : mem_ctx; tx_phase : phase; tx_pending : option pending }.

(** Transactions stay in [sys_txs] when they have ended: identities are not used again. *)
Record system := System { sys_table : lock_table; sys_txs : gmap ObTransID tx_state }.

(** The operations of a transaction that are not completed. *)
Definition held (x : tx_state) : list LockOp.t :=
  match x.(tx_pending) with Some (Acquired op) => [op] | _ => [] end ++ ctx_ops x.(tx_ctx).

(** An operation that a transaction holds or an object records. *)
Inductive locked (s : system) (op : LockOp.t) : Prop :=
| locked_held tx x : s.(sys_txs) !! tx = Some x -> op ∈ held x -> locked s op
| locked_recorded a o : s.(sys_table).(objs_) !! a = Some o -> op ∈ all_ops o -> locked s op.

Definition set_tx (tx : ObTransID) (x : tx_state) (t : lock_table) (s : system) : system := System t (<[tx := x]> s.(sys_txs)).

(** An operation of the transaction that is not completed, of one of the five modes. *)
Definition request (tx : ObTransID) (op : LockOp.t) : Prop :=
  op_trans op = tx /\ op_status op = LOCK_OP_DOING /\ LockOp.is_valid op = true /\ op_mode op ∈ table_modes.

(** The context has no such operation; [counts] are the modes it holds on the object. *)
Definition not_held (op : LockOp.t) (counts : list Z) (x : tx_state) (t : lock_table) : Prop :=
  exists v, check_lock_exist (LockOp.lock_id_ op) (op_owner op) (op_mode op) (op_type op) no_counts (TxView x.(tx_ctx) t)
  = Some (OB_SUCCESS, false, counts, v).

(** What follows the answer of the object. *)
Definition after_lock (ret : Z) (op : LockOp.t) (counts : list Z) : option pending :=
  if ob_succ ret then Some (Acquired op) else if ret =? OB_EAGAIN then Some (Counted op counts) else None.

(** A replica that has replayed the log up to an operation has the operations that the
    leader had when it granted this one. *)
Definition follows (s : system) (op : LockOp.t) : Prop :=
  exists A, (forall d, d ∈ A <-> locked s d) /\ (may_lock A op \/ may_unlock A op).

(** One node of a transaction that ends: by its callback, or when the list is cleared. *)
Definition end_turn (callback commit : bool) (commit_version commit_scn : SCN) (x : lock_node) : TX Z :=
  if callback then callback_ x else if commit then commit_turn commit_version commit_scn x else abort_turn x.

Inductive step (s : system) : system -> Prop :=
| step_begin tx : s.(sys_txs) !! tx = None ->
    step s (set_tx tx (TxState new_mem_ctx Running None) s.(sys_table) s)
| step_count tx c op counts : s.(sys_txs) !! tx = Some (TxState c Running None) -> request tx op -> is_lock op ->
    not_held op counts (TxState c Running None) s.(sys_table) ->
    step s (set_tx tx (TxState c Running (Some (Counted op counts))) s.(sys_table) s)
| step_create alloc id ret a t : LockID.is_valid id = true ->
    get_or_create_obj_lock_with_ref_ alloc id s.(sys_table) = Some ((ret, a), t) -> step s (System t s.(sys_txs))
| step_acquire tx c op counts a o mem param ret set t :
    s.(sys_txs) !! tx = Some (TxState c Running (Some (Counted op counts))) ->
    s.(sys_table).(objs_) !! a = Some o -> o.(obj_lock_id_) = LockOp.lock_id_ op -> few o ->
    at_obj a (lock mem param op counts []) s.(sys_table) = Some ((ret, set), t) ->
    step s (set_tx tx (TxState c Running (after_lock ret op counts)) t s)
| step_give_up tx c op counts : s.(sys_txs) !! tx = Some (TxState c Running (Some (Counted op counts))) ->
    step s (set_tx tx (TxState c Running None) s.(sys_table) s)
| step_unlock tx c op counts a o mem try expired now ret t :
    s.(sys_txs) !! tx = Some (TxState c Running None) -> request tx op -> op_type op = OUT_TRANS_UNLOCK ->
    not_held op counts (TxState c Running None) s.(sys_table) ->
    s.(sys_table).(objs_) !! a = Some o -> o.(obj_lock_id_) = LockOp.lock_id_ op ->
    at_obj a (unlock mem op try expired now) s.(sys_table) = Some (ret, t) ->
    step s (set_tx tx (TxState c Running (if ob_succ ret then Some (Acquired op) else None)) t s)
| step_record tx c op e ret v : s.(sys_txs) !! tx = Some (TxState c Running (Some (Acquired op))) ->
    record_or_remove e op (TxView c s.(sys_table)) = Some (ret, v) ->
    step s (set_tx tx (TxState v.(ctx) Running None) v.(table) s)
| step_replay tx c op a o mem ret t : s.(sys_txs) !! tx = Some (TxState c Running None) -> request tx op -> follows s op ->
    s.(sys_table).(objs_) !! a = Some o -> o.(obj_lock_id_) = LockOp.lock_id_ op ->
    at_obj a (recover_lock mem op) s.(sys_table) = Some (ret, t) ->
    step s (set_tx tx (TxState c Running (if ob_succ ret then Some (Acquired op) else None)) t s)
| step_replayed tx c op e scn ret v : s.(sys_txs) !! tx = Some (TxState c Running (Some (Acquired op))) ->
    replay_record_or_remove e op scn (TxView c s.(sys_table)) = Some (ret, v) ->
    step s (set_tx tx (TxState v.(ctx) Running None) v.(table) s)
| step_rollback tx c x v : s.(sys_txs) !! tx = Some (TxState c Running None) -> x ∈ c.(lock_list_) ->
    give_up_node x (TxView c s.(sys_table)) = Some ((), v) ->
    step s (set_tx tx (TxState v.(ctx) Running None) v.(table) s)
| step_end tx c commit version scn : s.(sys_txs) !! tx = Some (TxState c Running None) ->
    step s (set_tx tx (TxState c (Ending commit version scn) None) s.(sys_table) s)
| step_end_turn tx c callback commit version scn x ret v :
    s.(sys_txs) !! tx = Some (TxState c (Ending commit version scn) None) -> x ∈ c.(lock_list_) ->
    (commit = true -> scn_le scn s.(sys_table).(flushed_scn_) = false) ->
    end_turn callback commit version scn x (TxView c s.(sys_table)) = Some (ret, v) ->
    step s (set_tx tx (TxState v.(ctx) (Ending commit version scn) None) v.(table) s)
| step_compact is_force a r t : at_obj a (compact_tablelock is_force) s.(sys_table) = Some (r, t) -> step s (System t s.(sys_txs))
| step_drop a o t : s.(sys_table).(objs_) !! a = Some o -> drop_obj_lock_if_empty_ o.(obj_lock_id_) a s.(sys_table) = Some ((), t) ->
    step s (System t s.(sys_txs))
| step_flush recycle freeze callbacked schedule r t : flush recycle freeze callbacked schedule s.(sys_table) = Some (r, t) ->
    step s (System t s.(sys_txs))
| step_flushed ret t : on_memtable_flushed s.(sys_table) = Some (ret, t) -> step s (System t s.(sys_txs)).

Inductive initial : system -> Prop :=
| initial_intro t : memtable_init true OB_SUCCESS OB_SUCCESS new_lock_memtable = Some (OB_SUCCESS, t) -> initial (System t ∅).

Inductive reachable : system -> Prop :=
| reachable_initial s : initial s -> reachable s
| reachable_step s s' : reachable s -> step s s' -> reachable s'.

(** What holds of every bag. *)
Record spec_ok (A : op_list) : Prop := {
  ok_keys : NoDup ((fun op => (op_id op, op_key op)) <$> A);
  ok_modes : forall op, op ∈ A -> op_mode op ∈ table_modes;
  ok_kinds : forall op, op ∈ A -> op_status op = LOCK_OP_DOING \/ completed op;
  ok_unlock : forall op, op ∈ A -> op_type op = OUT_TRANS_UNLOCK ->
    exists c, c ∈ A /\ op_id c = op_id op /\ same_owner op c /\ completed c;
  ok_exclusion : exclusion A }.

Lemma spec_ok_perm A A' : A ≡ₚ A' -> spec_ok A -> spec_ok A'.
Proof.
  intros E [H1 H2 H3 H4 H5]. constructor; [by rewrite <- E|..].
  - intros op. rewrite <- E. apply H2.
  - intros op. rewrite <- E. apply H3.
  - intros op. rewrite <- E. intros Hop Ht. destruct (H4 op Hop Ht) as (c & Hc & H). exists c. by rewrite <- E.
  - intros op c. rewrite <- E. apply H5.
Qed.

Lemma ok_same_kind A op c : spec_ok A -> op ∈ A -> c ∈ A -> same_kind op c -> c = op.
Proof.
  intros HA Hop Hc [E1 E2]. apply list_elem_of_lookup in Hop as [i Hi], Hc as [j Hj].
  assert (i = j) as ->; [|congruence].
  eapply NoDup_lookup; [exact (ok_keys A HA)|..]; rewrite list_lookup_fmap; [by rewrite Hi | by rewrite Hj; cbn; rewrite E1, E2].
Qed.

Lemma compatible_both (op c : LockOp.t) : op_mode op ∈ table_modes -> op_mode c ∈ table_modes ->
  compatible (op_mode op) (op_mode c) = true -> compatible (op_mode c) (op_mode op) = true.
Proof. intros H1 H2. by rewrite compatible_sym. Qed.

Lemma exclusion_cons A op : exclusion A -> (forall c, c ∈ A -> op_mode c ∈ table_modes) -> op_mode op ∈ table_modes ->
  (forall c, c ∈ A -> is_lock op -> is_lock c -> op_id c = op_id op -> op_trans c <> op_trans op -> compatible (op_mode op) (op_mode c) = true) ->
  exclusion (op :: A).
Proof.
  intros HA Hm Hop Hc x y [->|Hx]%elem_of_cons [->|Hy]%elem_of_cons Lx Ly E N.
  - done.
  - by apply Hc.
  - apply compatible_both; [done | by apply Hm|]. by apply Hc.
  - by apply HA.
Qed.

Lemma spec_ok_lock A op : spec_ok A -> may_lock A op -> spec_ok (op :: A).
Proof.
  intros HA (Hl & Hd & Hm & Hc). constructor.
  - cbn. apply NoDup_cons. split; [|apply HA]. intros (c & E & Hin)%list_elem_of_fmap.
    destruct (Hc c Hin) as [Hn _]. apply Hn. by apply pair_equal_spec in E as [].
  - intros c [->|?]%elem_of_cons; [done | by apply HA].
  - intros c [->|?]%elem_of_cons; [by left | by apply HA].
  - intros c [->|Hin]%elem_of_cons Ht; [destruct Hl as [[]|]; congruence|].
    destruct (ok_unlock A HA c Hin Ht) as (d & Hd' & H). exists d. split; [by right | done].
  - apply exclusion_cons; [apply HA | apply HA | done |]. intros c Hin _ _. by apply Hc.
Qed.

Lemma spec_ok_unlock A op : spec_ok A -> may_unlock A op -> spec_ok (op :: A).
Proof.
  intros HA (Ht & Hd & Hn & c & Hc & Ei & [Eo Em] & Hcc). constructor.
  - cbn. apply NoDup_cons. split; [|apply HA]. intros (d & E & Hin)%list_elem_of_fmap. apply (Hn d Hin). by apply pair_equal_spec in E as [].
  - intros d [->|?]%elem_of_cons; [|by apply HA]. rewrite <- Em. by apply HA.
  - intros d [->|?]%elem_of_cons; [by left | by apply HA].
  - intros d [->|Hin]%elem_of_cons Ht'; [exists c; split; [by right | done]|].
    destruct (ok_unlock A HA d Hin Ht') as (e & Hd' & H). exists e. split; [by right | done].
  - apply exclusion_cons; [apply HA | apply HA | rewrite <- Em; by apply HA |].
    intros d _ [[E|E]|E]; congruence.
Qed.

(** Fewer operations. *)
Lemma spec_ok_tail A op : spec_ok (op :: A) ->
  (forall u, u ∈ A -> op_type u = OUT_TRANS_UNLOCK -> op_id op = op_id u -> same_owner u op -> ~ completed op) -> spec_ok A.
Proof.
  intros HA Hu. constructor.
  - pose proof (ok_keys _ HA) as H. cbn in H. by apply NoDup_cons in H as [_ ?].
  - intros c Hc. apply HA. by right.
  - intros c Hc. apply (ok_kinds _ HA). by right.
  - intros u Hin Ht. destruct (ok_unlock _ HA u) as (c & [->|Hc]%elem_of_cons & E & Hs & Hcc); [by right | done | |by exists c].
    by destruct (Hu u).
  - intros x y Hx Hy. apply (ok_exclusion _ HA); by right.
Qed.

Lemma doing_not_completed op : op_status op = LOCK_OP_DOING -> ~ completed op.
Proof. intros E [_ H]. congruence. Qed.

Lemma spec_ok_release A op : spec_ok (op :: A) -> op_status op = LOCK_OP_DOING -> spec_ok A.
Proof. intros HA Hd. eapply spec_ok_tail; [done|]. intros. by apply doing_not_completed. Qed.

Lemma spec_ok_complete A op v scn : spec_ok (op :: A) -> op_type op = OUT_TRANS_LOCK -> op_status op = LOCK_OP_DOING ->
  spec_ok (LockOp.set_status LOCK_OP_COMPLETE v scn op :: A).
Proof.
  intros HA Ht Hd. set (op' := LockOp.set_status LOCK_OP_COMPLETE v scn op). pose proof (spec_ok_release A op HA Hd) as HA'.
  constructor.
  - exact (ok_keys _ HA).
  - intros c [->|?]%elem_of_cons; [apply (ok_modes _ HA op); by left | by apply HA'].
  - intros c [->|?]%elem_of_cons; [by right | by apply HA'].
  - intros u [->|Hin]%elem_of_cons Hu; [cbn in Hu; congruence|].
    destruct (ok_unlock _ HA' u Hin Hu) as (c & Hc & H). exists c. split; [by right | done].
  - apply exclusion_cons; [apply HA' | apply HA' | apply (ok_modes _ HA op); by left |].
    intros c Hc _ Hl Ei En. by apply (ok_exclusion _ HA op c); [left | right | right | ..].
Qed.

Lemma spec_step_ok A A' : spec_ok A -> spec_step A A' -> spec_ok A'.
Proof.
  intros HA [op B Hl E|op B Hu E|op B Hd E|op v scn rest B Ht Hd E E'|op c B Ht Hd Ei [Eo Em] Hc E].
  - symmetry in E. by eapply spec_ok_perm, spec_ok_lock.
  - symmetry in E. by eapply spec_ok_perm, spec_ok_unlock.
  - eapply spec_ok_release; [by eapply spec_ok_perm | done].
  - symmetry in E'. eapply spec_ok_perm, spec_ok_complete; [done | by eapply spec_ok_perm | done | done].
  - pose proof (spec_ok_perm _ _ E HA) as H1. pose proof (spec_ok_release _ _ H1 Hd) as H2.
    eapply spec_ok_tail; [done|]. intros u Hin Ht' Ei' [Eo' Em'] _.
    assert (u = op) as ->.
    { apply (ok_same_kind (op :: c :: B)); [done | by left | by do 2 right |]. split; [congruence|].
      unfold op_key. rewrite Ht, Ht'. cbn. congruence. }
    pose proof (ok_keys _ H1) as Hk. cbn in Hk. apply NoDup_cons in Hk as [Hk _]. apply Hk. right.
    by apply (list_elem_of_fmap_2 (fun op => (op_id op, op_key op))).
Qed.

Lemma spec_reachable_ok A : spec_reachable A -> spec_ok A.
Proof.
  induction 1 as [|A A' _ IH Hs]; [|by eapply spec_step_ok]. constructor; [apply NoDup_nil_2 | by intros op ?%not_elem_of_nil | by intros op ?%not_elem_of_nil | by intros op ?%not_elem_of_nil | by intros op c ?%not_elem_of_nil].
Qed.
