(* ===== verification/LockRefinement.v ===== *)
(** * The lock table implements the specification

    The relation between a state of the system and a bag of operations, and that every
    step keeps it: an object records the operations of its identity and counts the row
    locks, a transaction holds its operations that are not completed. *)

From Stdlib Require Import ZArith Lia Bool.
From stdpp Require Import base countable numbers option gmap list.
From S2P Require Import Prelude Serialization Scn TableLockCommon ObjLock LockTable LockMemCtx ObjLockFacts ObjLockGrant ObjLockEnd LockSystem.
Import AbortMonad.

Local Open Scope Z_scope.

(** ** The relation *)

Abbreviation recorded op := (LockOp.need_record_lock_op op = true).

Definition on (id : LockID.t) (A : op_list) : op_list := filter (fun op => op_id op = id) A.
Definition records (id : LockID.t) (A : op_list) : op_list := filter (fun op => recorded op) (on id A).
Definition rows (id : LockID.t) (m : ObTableLockMode) (A : op_list) : Z :=
  in_mode m (filter (fun op => ~ recorded op) (on id A)).
Definition doing (tx : ObTransID) (A : op_list) : op_list :=
  filter (fun op => op_trans op = tx /\ op_status op = LOCK_OP_DOING) A.

Record live (t : lock_table) (a : nat) (o : obj_lock) (A : op_list) : Prop := {
  lv_map : t.(lock_map_) !! o.(obj_lock_id_) = Some a;
  lv_ops : all_ops o ≡ₚ records o.(obj_lock_id_) A;
  lv_share : o.(row_share_) = rows o.(obj_lock_id_) ROW_SHARE A;
  lv_exclusive : o.(row_exclusive_) = rows o.(obj_lock_id_) ROW_EXCLUSIVE A }.

Record obj_ok (t : lock_table) (a : nat) (o : obj_lock) (A : op_list) : Prop := {
  oo_shape : shape o;
  oo_live : o.(is_deleted_) = false -> live t a o A;
  oo_dead : o.(is_deleted_) = true -> all_ops o = [] /\ o.(row_share_) = 0 /\ o.(row_exclusive_) = 0 }.

(** The modes of a list of operations on an object. *)
Definition own_modes (id : LockID.t) (ops : op_list) (m : ObTableLockMode) : Z := in_mode m (on id ops).

Definition pending_ok (tx : ObTransID) (x : tx_state) : Prop :=
  match x.(tx_pending) with
  | None => True
  | Some (Acquired _) => x.(tx_phase) = Running
  | Some (Counted op counts) =>
    x.(tx_phase) = Running /\ request tx op /\ is_lock op /\
    counts = counts_of (own_modes (op_id op) (ctx_ops x.(tx_ctx))) /\
    forall c, c ∈ ctx_ops x.(tx_ctx) -> ~ same_kind op c
  end.

(** The list of nodes of a context; a callback belongs to a lock in the transaction. *)
Record nodes_ok (c : mem_ctx) : Prop := {
  no_nodup : NoDup (node_addr <$> c.(lock_list_));
  no_next : forall n, n ∈ c.(lock_list_) -> (n.(node_addr) < c.(next_node_))%nat;
  no_callback_next : forall k, k ∈ c.(callbacks_) -> (k < c.(next_node_))%nat;
  no_callback : forall n, n ∈ c.(lock_list_) -> n.(node_addr) ∈ c.(callbacks_) -> is_in_trans n.(node_op);
  no_valid : c.(memtable_valid_) = true }.

Record tx_ok (tx : ObTransID) (x : tx_state) (A : op_list) : Prop := {
  to_held : held x ≡ₚ doing tx A;
  to_nodes : nodes_ok x.(tx_ctx);
  to_pending : pending_ok tx x }.

Record op_ok (s : system) (op : LockOp.t) : Prop := {
  ok_valid : LockOp.is_valid op = true;
  ok_object : is_Some (s.(sys_table).(lock_map_) !! op_id op);
  ok_tx : exists x, s.(sys_txs) !! op_trans op = Some x /\ (op_status op <> LOCK_OP_DOING -> committing x.(tx_phase) = true) }.

Record implements (s : system) (A : op_list) : Prop := {
  im_inited : s.(sys_table).(map_inited_) = true /\ s.(sys_table).(memtable_inited_) = true;
  im_map : forall id a, s.(sys_table).(lock_map_) !! id = Some a ->
    exists o, s.(sys_table).(objs_) !! a = Some o /\ o.(obj_lock_id_) = id /\ o.(is_deleted_) = false;
  im_objs : forall a o, s.(sys_table).(objs_) !! a = Some o -> obj_ok s.(sys_table) a o A;
  im_txs : forall tx x, s.(sys_txs) !! tx = Some x -> tx_ok tx x A;
  im_ops : forall op, op ∈ A -> op_ok s op;
  im_spec : spec_ok A }.

(** ** Permutations and filters *)

Lemma in_mode_perm m l l' : l ≡ₚ l' -> in_mode m l = in_mode m l'.
Proof. intros E. unfold in_mode. by rewrite E. Qed.

Lemma in_mode_app m l l' : in_mode m (l ++ l') = in_mode m l + in_mode m l'.
Proof. unfold in_mode. rewrite filter_app, length_app. lia. Qed.

Lemma filter_complement {B} (P : B -> Prop) `{forall x, Decision (P x)} (l : list B) :
  filter P l ++ filter (fun x => ~ P x) l ≡ₚ l.
Proof.
  induction l as [|x l IH]; [done|]. rewrite !filter_cons. destruct (decide (P x)), (decide (~ P x)); try done.
  - cbn. by f_equiv.
  - rewrite <- Permutation_middle. by f_equiv.
Qed.

#[export] Instance on_proper id : Proper ((≡ₚ) ==> (≡ₚ)) (on id).
Proof. intros l l' E. unfold on. by rewrite E. Qed.
#[export] Instance records_proper id : Proper ((≡ₚ) ==> (≡ₚ)) (records id).
Proof. intros l l' E. unfold records. by rewrite E. Qed.
#[export] Instance doing_proper tx : Proper ((≡ₚ) ==> (≡ₚ)) (doing tx).
Proof. intros l l' E. unfold doing. by rewrite E. Qed.

Lemma rows_perm id m A A' : on id A ≡ₚ on id A' -> rows id m A = rows id m A'.
Proof. intros E. unfold rows. apply in_mode_perm. by rewrite E. Qed.

Lemma elem_of_on id op A : op ∈ on id A <-> op_id op = id /\ op ∈ A.
Proof. unfold on, doing. by rewrite list_elem_of_filter. Qed.

Lemma elem_of_records id op A : op ∈ records id A <-> recorded op /\ op_id op = id /\ op ∈ A.
Proof. unfold records. by rewrite list_elem_of_filter, elem_of_on. Qed.

Lemma elem_of_doing tx op A : op ∈ doing tx A <-> (op_trans op = tx /\ op_status op = LOCK_OP_DOING) /\ op ∈ A.
Proof. unfold on, doing. by rewrite list_elem_of_filter. Qed.

(** An operation that is not recorded is a row lock. *)
Lemma not_recorded_row op : op_mode op ∈ table_modes -> ~ recorded op -> op_mode op = ROW_SHARE \/ op_mode op = ROW_EXCLUSIVE.
Proof.
  intros Hm. unfold LockOp.need_record_lock_op, LockOp.is_need_record_lock_mode_.
  mode_cases Hm; cbn; rewrite ?orb_true_r; cbn; auto; done.
Qed.

Lemma on_cons_other id op A : op_id op <> id -> on id (op :: A) = on id A.
Proof. intros H. unfold on. by rewrite filter_cons_False. Qed.

Lemma doing_cons_other tx op A : op_trans op <> tx \/ op_status op <> LOCK_OP_DOING -> doing tx (op :: A) = doing tx A.
Proof. intros H. unfold doing. rewrite filter_cons_False; [done | tauto]. Qed.

Lemma doing_cons op A : op_status op = LOCK_OP_DOING -> doing (op_trans op) (op :: A) = op :: doing (op_trans op) A.
Proof. intros H. unfold doing. by rewrite filter_cons_True. Qed.

Lemma records_cons op A : recorded op -> records (op_id op) (op :: A) = op :: records (op_id op) A.
Proof. intros H. unfold records, on. by rewrite !filter_cons_True. Qed.

Lemma records_cons_row op A : ~ recorded op -> records (op_id op) (op :: A) = records (op_id op) A.
Proof. intros H. unfold records, on. by rewrite filter_cons_True, filter_cons_False. Qed.

Lemma rows_cons op m A : recorded op -> rows (op_id op) m (op :: A) = rows (op_id op) m A.
Proof. intros H. unfold rows, on. rewrite filter_cons_True by done. rewrite filter_cons_False; [done | tauto]. Qed.

Lemma rows_cons_row op m A : ~ recorded op -> rows (op_id op) m (op :: A) = rows (op_id op) m A + one (op_mode op) m.
Proof.
  intros H. unfold rows, on, in_mode, one. rewrite filter_cons_True by done. rewrite filter_cons_True by done.
  rewrite filter_cons. destruct (Z.eqb_spec (op_mode op) m), (decide (op_mode op = m)); cbn; try done; lia.
Qed.

Lemma rows_nonneg id m A : 0 <= rows id m A.
Proof. unfold rows, in_mode. lia. Qed.

(** ** Frames *)

Lemma live_unique s A a a' o o' : implements s A -> s.(sys_table).(objs_) !! a = Some o -> s.(sys_table).(objs_) !! a' = Some o' ->
  o.(is_deleted_) = false -> o'.(is_deleted_) = false -> o.(obj_lock_id_) = o'.(obj_lock_id_) -> a = a'.
Proof.
  intros I H H' D D' E. pose proof (lv_map _ _ _ _ (oo_live _ _ _ _ (im_objs _ _ I a o H) D)) as M.
  pose proof (lv_map _ _ _ _ (oo_live _ _ _ _ (im_objs _ _ I a' o' H') D')) as M'. congruence.
Qed.

(** The table [t'] is [t] with another object at [a]. *)
Record at_place (t t' : lock_table) (a : nat) (o' : obj_lock) : Prop := {
  ap_objs : t'.(objs_) = <[a := o']> t.(objs_);
  ap_map : t'.(lock_map_) = t.(lock_map_);
  ap_inited : t'.(map_inited_) = t.(map_inited_) /\ t'.(memtable_inited_) = t.(memtable_inited_) }.

(** What one transaction does to one object. *)
Record effect (s : system) (tx : ObTransID) (x' : tx_state) (o o' : obj_lock) (A A' : op_list) : Prop := {
  ef_shape : shape o';
  ef_deleted : o'.(is_deleted_) = false;
  ef_id : o'.(obj_lock_id_) = o.(obj_lock_id_);
  ef_ops : all_ops o' ≡ₚ records o.(obj_lock_id_) A';
  ef_share : o'.(row_share_) = rows o.(obj_lock_id_) ROW_SHARE A';
  ef_exclusive : o'.(row_exclusive_) = rows o.(obj_lock_id_) ROW_EXCLUSIVE A';
  ef_on : forall id, id <> o.(obj_lock_id_) -> on id A ≡ₚ on id A';
  ef_doing : forall tx', tx' <> tx -> doing tx' A ≡ₚ doing tx' A';
  ef_tx : tx_ok tx x' A';
  ef_new : forall op, op ∈ A' -> op ∈ A \/
    (LockOp.is_valid op = true /\ op_id op = o.(obj_lock_id_) /\ op_trans op = tx /\
     (op_status op <> LOCK_OP_DOING -> committing x'.(tx_phase) = true));
  ef_spec : spec_ok A' }.

Lemma im_effect s A A' t' a o o' tx x x' : implements s A ->
  s.(sys_table).(objs_) !! a = Some o -> o.(is_deleted_) = false -> s.(sys_txs) !! tx = Some x ->
  (committing x.(tx_phase) = true -> committing x'.(tx_phase) = true) -> at_place s.(sys_table) t' a o' -> effect s tx x' o o' A A' ->
  implements (set_tx tx x' t' s) A'.
Proof.
  intros I Ha Hd Hx Hp [P1 P2 [P3 P4]] [E1 E2 E3 E4 E5 E6 E7 E8 E9 E10 E11].
  pose proof (lv_map _ _ _ _ (oo_live _ _ _ _ (im_objs _ _ I a o Ha) Hd)) as M. constructor; cbn; [..|done].
  - rewrite P3, P4. apply I.
  - intros id b. rewrite P1, P2. intros Hb. destruct (im_map _ _ I id b Hb) as (o1 & H1 & H2 & H3).
    destruct (decide (b = a)) as [->|]; [|exists o1; by rewrite lookup_insert_ne].
    exists o'. rewrite lookup_insert_eq. split_and!; [done | | done]. congruence.
  - intros b o1. rewrite P1. intros [[<- <-]|[Hne Hb]]%lookup_insert_Some.
    + constructor; [done | | congruence]. intros _. constructor; rewrite ?E3, ?P2; done.
    + destruct (im_objs _ _ I b o1 Hb) as [S1 S2 S3]. constructor; [done | | done]. intros Hd1.
      destruct (S2 Hd1) as [L1 L2 L3 L4].
      assert (o1.(obj_lock_id_) <> o.(obj_lock_id_)) as Hid by (intros E; apply Hne; by eapply live_unique).
      specialize (E7 _ Hid). constructor; rewrite ?P2; [done | | by rewrite <- (rows_perm _ _ _ _ E7) ..].
      rewrite L2. unfold records. by rewrite E7.
  - intros tx' x1 [[<- <-]|[Hne Ht]]%lookup_insert_Some; [done|]. destruct (im_txs _ _ I tx' x1 Ht) as [T1 T2 T4].
    constructor; try done. rewrite T1. by apply E8.
  - intros op Hop. destruct (E10 op Hop) as [HA|(V & Ei & Et & Hph)].
    + destruct (im_ops _ _ I op HA) as [V W (y & Hy & Hph)]. constructor; cbn; [done | by rewrite P2 |].
      destruct (decide (tx = op_trans op)) as [->|]; [exists x'; rewrite lookup_insert_eq | exists y; by rewrite lookup_insert_ne].
      split; [done|]. intros Hs. apply Hp. replace x with y by congruence. by apply Hph.
    + constructor; cbn; [done | rewrite P2, Ei; eauto |]. exists x'. by rewrite Et, lookup_insert_eq.
Qed.

(** A transaction changes and the table does not. *)
Lemma im_tx s A tx x x' : implements s A -> s.(sys_txs) !! tx = Some x -> (committing x.(tx_phase) = true -> committing x'.(tx_phase) = true) ->
  tx_ok tx x' A -> implements (set_tx tx x' s.(sys_table) s) A.
Proof.
  intros I Hx Hp Ht. destruct I as [I1 I2 I3 I4 I5 I6]. constructor; try done; cbn.
  - intros tx' x1 [[<- <-]|[Hne H1]]%lookup_insert_Some; [done | by apply I4].
  - intros op Hop. destruct (I5 op Hop) as [V W (y & Hy & Hph)]. constructor; try done. cbn.
    destruct (decide (tx = op_trans op)) as [->|]; [exists x'; rewrite lookup_insert_eq | exists y; by rewrite lookup_insert_ne].
    split; [done|]. intros Hs. apply Hp. replace x with y by congruence. by apply Hph.
Qed.

(** The table changes and neither the operations nor the transactions do. *)
Lemma im_same s A t a o o' : implements s A -> s.(sys_table).(objs_) !! a = Some o -> unchanged o o' ->
  at_place s.(sys_table) t a o' -> implements (System t s.(sys_txs)) A.
Proof.
  intros [I1 I2 I3 I4 I5 I6] Ha [B1 B2 B3 B4 B5 B6] [P1 P2 [P3 P4]]. constructor; try done; cbn.
  - by rewrite P3, P4.
  - intros id b. rewrite P1, P2. intros Hb. destruct (I2 id b Hb) as (o1 & H1 & H2 & H3).
    destruct (decide (b = a)) as [->|]; [|exists o1; by rewrite lookup_insert_ne].
    exists o'. rewrite lookup_insert_eq. split_and!; congruence.
  - intros b o1. rewrite P1. intros [[<- <-]|[Hne Hb]]%lookup_insert_Some.
    + destruct (I3 a o Ha) as [S1 S2 S3]. constructor; [done|..].
      * rewrite B5. intros Hd. destruct (S2 Hd). constructor; rewrite ?B6, ?P2, ?B3, ?B4; try done. by rewrite B2.
      * rewrite B5. intros Hd. destruct (S3 Hd) as (E & ? & ?). rewrite E in B2.
        split_and!; [by apply Permutation_nil_r in B2 | congruence | congruence].
    + destruct (I3 b o1 Hb) as [S1 S2 S3]. constructor; [done | | done]. intros Hd. destruct (S2 Hd). by constructor; rewrite ?P2.
  - intros op Hop. destruct (I5 op Hop). constructor; cbn; by rewrite ?P2.
Qed.

(** ** Four effects *)

Lemma records_keys A id : spec_ok A -> NoDup (op_key <$> records id A).
Proof.
  intros HA. pose proof (ok_keys A HA) as H. apply NoDup_fmap_2_strong.
  - intros c d (_ & Ec & Hc)%elem_of_records (_ & Ed & Hd)%elem_of_records E. symmetry.
    apply (ok_same_kind A); [done | done | done |]. split; congruence.
  - apply NoDup_fmap_1 in H. by do 2 apply NoDup_filter.
Qed.

Lemma completed_valid op v scn : LockOp.is_valid op = true ->
  LockOp.is_valid (LockOp.set_status LOCK_OP_COMPLETE v scn op) = true.
Proof.
  unfold LockOp.is_valid, LockOp.is_out_trans_lock_op. cbn. case_match; [done|]. rewrite !andb_true_iff. tauto.
Qed.

Section effects.
Context (s : system) (A : op_list) (a : nat) (o : obj_lock) (tx : ObTransID) (x x' : tx_state) (op : LockOp.t).
Hypothesis (I : implements s A) (Ha : s.(sys_table).(objs_) !! a = Some o) (Hd : o.(is_deleted_) = false).
Hypothesis (Hx : s.(sys_txs) !! tx = Some x) (Hr : request tx op) (Hid : op_id op = o.(obj_lock_id_)).
Hypothesis (Hnodes : nodes_ok x'.(tx_ctx)) (Hpend : pending_ok tx x').

Lemma effect_live : live s.(sys_table) a o A.
Proof. apply (im_objs _ _ I a o Ha), Hd. Qed.

Lemma effect_add o' : held x' ≡ₚ op :: held x -> spec_ok (op :: A) ->
  (recorded op -> becomes o o' (op :: all_ops o) o.(row_share_) o.(row_exclusive_)) ->
  (~ recorded op -> becomes o o' (all_ops o) (o.(row_share_) + one (op_mode op) ROW_SHARE)
     (o.(row_exclusive_) + one (op_mode op) ROW_EXCLUSIVE)) ->
  effect s tx x' o o' A (op :: A).
Proof.
  intros Hheld Hspec HR HU. destruct Hr as (<- & Hst & Hv & Hm). destruct effect_live as [L1 L2 L3 L4].
  destruct (im_txs _ _ I _ x Hx) as [T1 _ _].
  destruct (decide (recorded op)) as [Hrec|Hrec]; [destruct (HR Hrec) | destruct (HU Hrec)].
  all: constructor; try done; try congruence; rewrite <- ?Hid in *.
  all: try (intros id Hne; by rewrite on_cons_other by congruence).
  all: try (intros tx' Hne; rewrite doing_cons_other by (left; congruence); done).
  all: try (constructor; [by rewrite Hheld, T1, doing_cons | done..]).
  all: try (intros c [->|Hc]%elem_of_cons; [right; by split_and!; [| | | intros []] | by left]).
  - rewrite records_cons by done. by rewrite be_ops, L2.
  - rewrite rows_cons by done. congruence.
  - rewrite rows_cons by done. congruence.
  - rewrite records_cons_row by done. by rewrite be_ops, L2.
  - rewrite rows_cons_row by done. congruence.
  - rewrite rows_cons_row by done. congruence.
Qed.

Lemma effect_remove o' : held x ≡ₚ op :: held x' ->
  (recorded op -> becomes o o' (removed op (all_ops o)) o.(row_share_) o.(row_exclusive_)) ->
  (~ recorded op -> becomes o o' (all_ops o) (o.(row_share_) - one (op_mode op) ROW_SHARE)
     (o.(row_exclusive_) - one (op_mode op) ROW_EXCLUSIVE)) ->
  exists A', A ≡ₚ op :: A' /\ effect s tx x' o o' A A'.
Proof.
  intros Hheld HR HU. destruct Hr as (Etx & Hst & Hv & Hm). destruct effect_live as [L1 L2 L3 L4].
  destruct (im_txs _ _ I _ x Hx) as [T1 _ _].
  assert (op ∈ A) as HopA. { apply (elem_of_doing tx). rewrite <- T1, Hheld. by left. }
  apply elem_of_Permutation in HopA as [A' EA]. exists A'. split; [done|].
  pose proof (spec_ok_perm _ _ EA (im_spec _ _ I)) as HA1. pose proof (spec_ok_release _ _ HA1 Hst) as HA'.
  assert (tx_ok tx x' A') as Htx.
  { constructor; try done. rewrite EA, <- Etx, doing_cons, Etx, Hheld in T1 by done. by apply Permutation_cons_inv in T1. }
  assert (forall id, id <> o.(obj_lock_id_) -> on id A ≡ₚ on id A') as Hon.
  { intros id Hne. by rewrite EA, on_cons_other by congruence. }
  assert (forall tx', tx' <> tx -> doing tx' A ≡ₚ doing tx' A') as Hdo.
  { intros tx' Hne. by rewrite EA, doing_cons_other by (left; congruence). }
  assert (forall c, c ∈ A' -> c ∈ A) as Hsub by (intros c Hc; rewrite EA; by right).
  pose proof (rows_perm (op_id op) ROW_SHARE _ _ (on_proper (op_id op) _ _ EA)) as Rs.
  pose proof (rows_perm (op_id op) ROW_EXCLUSIVE _ _ (on_proper (op_id op) _ _ EA)) as Rx. rewrite <- Hid in *.
  destruct (decide (recorded op)) as [Hrec|Hrec]; [destruct (HR Hrec) | destruct (HU Hrec)].
  - rewrite rows_cons in Rs, Rx by done. constructor; try congruence; try done; rewrite <- ?Hid; try done; try congruence; [|auto].
    rewrite be_ops. rewrite EA, records_cons in L2 by done.
    assert (all_ops o ≡ₚ op :: removed op (all_ops o)) as P.
    { apply removed_perm; [|rewrite L2; by left]. apply (NoDup_keys_perm (records (op_id op) A)); [|by apply records_keys, I].
      by rewrite L2, EA, records_cons. }
    rewrite P in L2. by apply Permutation_cons_inv in L2.
  - rewrite rows_cons_row in Rs, Rx by done. constructor; try congruence; try done; rewrite <- ?Hid; try done; try lia; [|auto].
    rewrite be_ops, L2, EA. by rewrite records_cons_row.
Qed.

(** The transaction gives the operation up and its record changes. *)
Lemma effect_held A' : held x ≡ₚ op :: held x' -> A ≡ₚ op :: A' -> tx_ok tx x' A'.
Proof.
  intros Hheld EA. destruct Hr as (Etx & Hst & _), (im_txs _ _ I _ x Hx) as [T1 _ _].
  constructor; try done. rewrite EA, <- Etx, doing_cons, Etx, Hheld in T1 by done. by apply Permutation_cons_inv in T1.
Qed.

Lemma effect_op_in : op ∈ held x -> op ∈ A.
Proof. intros H. apply (elem_of_doing tx). by rewrite <- (to_held _ _ _ (im_txs _ _ I _ x Hx)). Qed.

Lemma effect_complete v scn rest o' : held x ≡ₚ op :: held x' -> committing x'.(tx_phase) = true -> op_type op = OUT_TRANS_LOCK ->
  all_ops o ≡ₚ op :: rest ->
  becomes o o' (LockOp.set_status LOCK_OP_COMPLETE v scn op :: rest) o.(row_share_) o.(row_exclusive_) ->
  exists A', A ≡ₚ op :: A' /\ effect s tx x' o o' A (LockOp.set_status LOCK_OP_COMPLETE v scn op :: A').
Proof.
  intros Hheld Hph Ht Eo B. set (op' := LockOp.set_status LOCK_OP_COMPLETE v scn op) in *.
  destruct (proj1 (elem_of_Permutation A op)) as [A' EA]; [by apply effect_op_in; rewrite Hheld; left|].
  exists A'. split; [done|]. pose proof (effect_held A' Hheld EA) as Htx. destruct Hr as (Etx & Hst & Hv & Hm).
  destruct effect_live as [L1 L2 L3 L4], B.
  assert (recorded op) as Hrec by (unfold LockOp.need_record_lock_op; by rewrite Ht).
  assert (recorded op') as Hrec' by (unfold LockOp.need_record_lock_op; cbn; by rewrite Ht).
  pose proof (rows_perm (op_id op) ROW_SHARE _ _ (on_proper (op_id op) _ _ EA)) as Rs.
  pose proof (rows_perm (op_id op) ROW_EXCLUSIVE _ _ (on_proper (op_id op) _ _ EA)) as Rx.
  rewrite rows_cons in Rs, Rx by done. rewrite <- Hid in *. rewrite EA, records_cons, Eo in L2 by done. apply Permutation_cons_inv in L2.
  constructor; rewrite <- ?Hid; try done; try congruence.
  - rewrite be_ops, L2. change (op_id op) with (op_id op'). by rewrite records_cons.
  - change (op_id op) with (op_id op') in *. rewrite rows_cons by done. congruence.
  - change (op_id op) with (op_id op') in *. rewrite rows_cons by done. congruence.
  - intros id Hne. rewrite EA, !on_cons_other by (cbn; congruence). done.
  - intros tx' Hne. rewrite EA, !doing_cons_other by (cbn; left; congruence). done.
  - destruct Htx as [H1 H2 H4]. constructor; try done. by rewrite doing_cons_other by (right; cbn; done).
  - intros c [->|Hc]%elem_of_cons; [right | left; rewrite EA; by right].
    split_and!; [by apply completed_valid | done..].
  - apply spec_ok_complete; [|done|done]. by apply (spec_ok_perm A), I.
Qed.

Lemma effect_unlocked c rest o' : held x ≡ₚ op :: held x' -> op_type op = OUT_TRANS_UNLOCK -> same_owner op c -> completed c ->
  all_ops o ≡ₚ op :: c :: rest -> becomes o o' rest o.(row_share_) o.(row_exclusive_) ->
  exists A', A ≡ₚ op :: c :: A' /\ op_id c = op_id op /\ effect s tx x' o o' A A'.
Proof.
  intros Hheld Ht Hs Hc Eo B. destruct (proj1 (elem_of_Permutation A op)) as [A1 EA]; [by apply effect_op_in; rewrite Hheld; left|].
  pose proof (effect_held A1 Hheld EA) as Htx. destruct Hr as (Etx & Hst & Hv & Hm). destruct effect_live as [L1 L2 L3 L4], B.
  assert (recorded op) as Hrec by (unfold LockOp.need_record_lock_op; by rewrite Ht).
  assert (recorded c) as Hrec' by (unfold LockOp.need_record_lock_op; by rewrite (proj1 Hc)).
  rewrite <- Hid in *. rewrite EA, records_cons, Eo in L2 by done. apply Permutation_cons_inv in L2.
  assert (c ∈ records (op_id op) A1) as (_ & Eid & Hin)%elem_of_records by (rewrite <- L2; by left).
  apply elem_of_Permutation in Hin as [A' EA1]. rewrite EA1 in EA. exists A'. split_and!; [done | done |].
  assert (forall m, rows (op_id op) m A = rows (op_id op) m A') as Rm.
  { intros m. rewrite (rows_perm _ m _ _ (on_proper (op_id op) _ _ EA)), rows_cons by done. rewrite <- Eid. by apply rows_cons. }
  assert (spec_step A A') as Hstep by (by eapply (spec_unlocked _ op c)).
  constructor; rewrite <- ?Hid; try done; rewrite <- ?Rm; try congruence.
  - rewrite be_ops. rewrite EA1, <- Eid, records_cons in L2 by done. rewrite <- Eid. by apply Permutation_cons_inv in L2.
  - intros id Hne. rewrite EA, !on_cons_other by congruence. done.
  - intros tx' Hne. rewrite EA, doing_cons_other by (left; congruence). rewrite doing_cons_other; [done|].
    right. destruct Hc. congruence.
  - destruct Htx as [H1 H2 H4]. constructor; try done. rewrite H1, EA1. rewrite doing_cons_other; [done|].
    right. destruct Hc. congruence.
  - intros d Hd'. left. rewrite EA. by do 2 right.
  - eapply spec_step_ok; [apply I | done].
Qed.
End effects.
