(* ===== verification/LockCheckpoint.v ===== *)
(** * The checkpoint of the lock table

    [ObLockMemtable] keeps [rec_scn_] and [pre_rec_scn_] so that logs below
    [get_rec_scn] can be recycled: every operation that was committed is either in the
    data that was flushed, up to [flushed_scn_], or its log is kept. *)

From Stdlib Require Import ZArith Lia Bool.
From stdpp Require Import base countable numbers option gmap list.
From S2P Require Import Prelude Serialization Scn TableLockCommon ObjLock LockTable.
Import AbortMonad.

Local Open Scope Z_scope.

(** ** What a computation leaves alone *)

(** [m] does not change [f], if it does not fault. *)
Definition steady {X B} (f : lock_table -> X) (m : LT B) : Prop := forall t x t', m t = Some (x, t') -> f t' = f t.

Definition locks_of (t : lock_table) := (t.(objs_), t.(lock_map_), t.(map_inited_), t.(memtable_inited_)).
Definition scns_of (t : lock_table) :=
  (t.(freeze_scn_), t.(flushed_scn_), t.(rec_scn_), t.(pre_rec_scn_), t.(max_committed_scn_), t.(is_frozen_)).

Section steady.
Context {X : Type} (f : lock_table -> X).

Lemma leaves_ret {B} (x : B) : steady f (mret x).
Proof. intros t y t' H. by inversion H. Qed.

Lemma steady_reads {B} (g : lock_table -> B) : steady f (reads g).
Proof. intros t y t' H. by inversion H. Qed.

Lemma leaves_bind {B C} (m : LT B) (g : B -> LT C) : steady f m -> (forall x, steady f (g x)) -> steady f (m ≫= g).
Proof.
  intros Hm Hg t x t' H. unfold mbind, R_bind in H. destruct (m t) as [[y t1]|] eqn:E; [|done].
  by rewrite (Hg _ _ _ _ H), (Hm _ _ _ E).
Qed.

Lemma steady_inc ref val : steady f (scn_inc_update ref val).
Proof. intros t y t' H. unfold scn_inc_update in H. destruct (inc_update [] val ref) as [[]|]; [|done]. by injection H as _ <-. Qed.

Lemma steady_dec ref val : steady f (scn_dec_update ref val).
Proof. intros t y t' H. unfold scn_dec_update in H. destruct (dec_update [] val ref) as [[]|]; [|done]. by injection H as _ <-. Qed.
End steady.

Lemma steady_scns freeze flushed rec pre_rec committed frozen :
  steady locks_of (update (fun s => set_scns (freeze s) (flushed s) (rec s) (pre_rec s) (committed s) (frozen s) s)).
Proof. intros t y t' H. by inversion H. Qed.

Lemma steady_at_obj {B} a (m : OL B) : steady scns_of (at_obj a m).
Proof.
  intros t y t' H. unfold at_obj in H. destruct (objs_ t !! a) as [o|]; [|done]. cbn in H.
  destruct (m o) as [[z o']|]; [|done]. by inversion H.
Qed.

Create HintDb steady.
#[export] Hint Resolve leaves_ret steady_reads steady_inc steady_dec steady_scns steady_at_obj : steady.

Ltac steady := repeat first [solve [eauto with steady] | apply leaves_bind; [|intros ?] | case_match].

Lemma steady_freeze recycle : steady locks_of (freeze_ recycle).
Proof. unfold freeze_. steady. Qed.

Lemma steady_flush recycle freeze callbacked schedule : steady locks_of (flush recycle freeze callbacked schedule).
Proof. unfold flush. pose proof steady_freeze. steady. Qed.

Lemma steady_flushed : steady locks_of on_memtable_flushed.
Proof. unfold on_memtable_flushed. steady. Qed.

Lemma steady_update_status op version scn status : steady scns_of (map_update_lock_status op version scn status).
Proof. unfold map_update_lock_status, get_obj_lock_with_ref_. steady. Qed.

(** ** Updates of a timestamp *)

Lemma runs_scn_dec ref val t (Q : SCN -> lock_table -> Prop) : Q (if scn_gt val ref then ref else val) t ->
  runs (scn_dec_update ref val) Q t.
Proof.
  intros HQ. unfold runs, scn_dec_update, dec_update.
  destruct (update_loop_spec scn_gt (length (@nil (option SCN)) + 2) [] val val ref) as (r & -> & _ & Hr);
    [rewrite scn_gt_rank; lia | done |]. cbn. by rewrite Hr.
Qed.

Lemma runs_scn_inc ref val t (Q : SCN -> lock_table -> Prop) : Q (if scn_lt val ref then ref else val) t ->
  runs (scn_inc_update ref val) Q t.
Proof.
  intros HQ. unfold runs, scn_inc_update, inc_update.
  destruct (update_loop_spec scn_lt (length (@nil (option SCN)) + 2) [] val val ref) as (r & -> & _ & Hr);
    [rewrite scn_lt_rank; lia | done |]. cbn. by rewrite Hr.
Qed.

(** What [note_commit_scn] stores. *)
Definition noted (scn : SCN) (t : lock_table) : lock_table :=
  let early := scn_le scn t.(freeze_scn_) in
  let dec (val : SCN) := if scn_gt val scn then scn else val in
  set_scns t.(freeze_scn_) t.(flushed_scn_) (if early then t.(rec_scn_) else dec t.(rec_scn_))
    (if early then dec t.(pre_rec_scn_) else t.(pre_rec_scn_))
    (if scn_lt t.(max_committed_scn_) scn then scn else t.(max_committed_scn_)) t.(is_frozen_) t.

Lemma runs_note scn t (Q : () -> lock_table -> Prop) : Q () (noted scn t) -> runs (note_commit_scn scn) Q t.
Proof.
  intros HQ. unfold note_commit_scn, noted in *. apply runs_bind, runs_reads. apply runs_bind. cbn.
  destruct (scn_le scn (freeze_scn_ t)) eqn:E.
  - apply runs_bind, runs_scn_dec, runs_update, runs_bind, runs_reads, runs_bind, runs_scn_inc, runs_update. done.
  - apply runs_bind, runs_scn_dec, runs_update, runs_bind, runs_reads, runs_bind, runs_scn_inc, runs_update. done.
Qed.

(** ** The protocol

    [done]: the timestamps of the operations that were committed. *)
Record ckpt := Ckpt { ck_table : lock_table; ck_done : list SCN }.

(** A lock or unlock outside of transactions is committed, by the callback of its log or
    by replay, in any order; a flush is requested; the merge has ended; the locks change
    otherwise. *)
Inductive ckpt_step (s : ckpt) : ckpt -> Prop :=
| ckpt_commit op version scn t : LockOp.is_out_trans_lock_op op = true -> rank scn < rank max_scn ->
    memtable_update_lock_status op version scn LOCK_OP_COMPLETE s.(ck_table) = Some (OB_SUCCESS, t) ->
    ckpt_step s (Ckpt t (scn :: s.(ck_done)))
| ckpt_flush recycle freeze callbacked schedule r t :
    flush recycle freeze callbacked schedule s.(ck_table) = Some (r, t) -> ckpt_step s (Ckpt t s.(ck_done))
| ckpt_flushed ret t : on_memtable_flushed s.(ck_table) = Some (ret, t) -> ckpt_step s (Ckpt t s.(ck_done))
| ckpt_locks t : scns_of t = scns_of s.(ck_table) -> ckpt_step s (Ckpt t s.(ck_done)).

Inductive ckpt_reachable : ckpt -> Prop :=
| ckpt_initial t : memtable_init true OB_SUCCESS OB_SUCCESS new_lock_memtable = Some (OB_SUCCESS, t) -> ckpt_reachable (Ckpt t [])
| ckpt_more s s' : ckpt_reachable s -> ckpt_step s s' -> ckpt_reachable s'.

(** Where a committed operation is kept. *)
Definition kept (t : lock_table) (scn : SCN) : Prop :=
  rank scn <= rank t.(flushed_scn_) \/
  (t.(is_frozen_) = true /\ rank t.(pre_rec_scn_) <= rank scn <= rank t.(freeze_scn_)) \/
  rank t.(rec_scn_) <= rank scn <= rank t.(max_committed_scn_).

Record ckpt_ok (s : ckpt) : Prop := {
  ck_kept : forall scn, scn ∈ s.(ck_done) -> kept s.(ck_table) scn /\ rank scn < rank max_scn;
  ck_active : s.(ck_table).(is_frozen_) = false -> rank s.(ck_table).(freeze_scn_) <= rank s.(ck_table).(flushed_scn_) }.

Lemma update_status_scns op version scn t t' : LockOp.is_out_trans_lock_op op = true ->
  memtable_update_lock_status op version scn LOCK_OP_COMPLETE t = Some (OB_SUCCESS, t') ->
  (rank scn <= rank t.(flushed_scn_) /\ t' = t) \/ scns_of t' = scns_of (noted scn t).
Proof.
  intros Hout H. unfold memtable_update_lock_status, mbind, R_bind, reads in H. cbn in H.
  destruct (negb (memtable_inited_ t)); [done|]. destruct (negb (LockOp.is_valid op) || false); [done|].
  rewrite Hout in H. destruct (scn_le scn (flushed_scn_ t)) eqn:E; cbn in H.
  { left. rewrite scn_le_rank in E. injection H as <-. split; [lia | done]. }
  right. destruct (map_update_lock_status op version scn LOCK_OP_COMPLETE t) as [[ret t1]|] eqn:E1; [|done].
  pose proof (steady_update_status _ _ _ _ _ _ _ E1) as Hs. cbn in H. destruct (ob_fail ret) eqn:Hret.
  { injection H as ->. done. }
  assert (bool_decide (LockOp.op_type_ op = OUT_TRANS_LOCK) || bool_decide (LockOp.op_type_ op = OUT_TRANS_UNLOCK) = true) as Ht.
  { unfold LockOp.is_out_trans_lock_op in Hout. by destruct (LockOp.op_type_ op). }
  rewrite Ht in H. cbn in H.
  refine (runs_Some (note_commit_scn scn ;; mret ret) (fun _ t' => scns_of t' = scns_of (noted scn t)) t1 _ _ _ H).
  apply runs_bind, runs_note, runs_ret. unfold noted, scns_of in *. cbn. by injection Hs as -> -> -> -> -> ->.
Qed.

Lemma rank_dec val scn : rank (if scn_gt val scn then scn else val) = Z.min (rank val) (rank scn).
Proof. rewrite scn_gt_rank. destruct (Z.ltb_spec (rank scn) (rank val)); lia. Qed.

Lemma rank_inc val scn : rank (if scn_lt val scn then scn else val) = Z.max (rank val) (rank scn).
Proof. rewrite scn_lt_rank. destruct (Z.ltb_spec (rank val) (rank scn)); lia. Qed.

Lemma kept_scns t t' scn : scns_of t' = scns_of t -> kept t scn -> kept t' scn.
Proof. unfold scns_of, kept. intros [= -> -> -> -> -> ->]. done. Qed.

(** A commit keeps itself and the others. *)
Lemma kept_noted t scn c : (t.(is_frozen_) = false -> rank t.(freeze_scn_) <= rank t.(flushed_scn_)) ->
  c = scn \/ kept t c -> kept (noted scn t) c.
Proof.
  intros Ha Hc. unfold kept, noted. cbn. rewrite rank_inc, scn_le_rank.
  destruct (Z.leb_spec (rank scn) (rank (freeze_scn_ t))); rewrite rank_dec; destruct (is_frozen_ t) eqn:Hf.
  all: try specialize (Ha eq_refl). all: destruct Hc as [->|[Hc|[[E Hc]|Hc]]]; try done.
  all: first [by left; lia | by right; left; split; [done | lia] | by right; right; lia].
Qed.

Lemma ckpt_ok_commit s op version scn t : ckpt_ok s -> LockOp.is_out_trans_lock_op op = true -> rank scn < rank max_scn ->
  memtable_update_lock_status op version scn LOCK_OP_COMPLETE s.(ck_table) = Some (OB_SUCCESS, t) ->
  ckpt_ok (Ckpt t (scn :: s.(ck_done))).
Proof.
  intros [K1 K2] Hout Hlt H. destruct (update_status_scns _ _ _ _ _ Hout H) as [[Hle ->]|E].
  - constructor; cbn; [|done]. intros c [->|Hc]%elem_of_cons; [|by apply K1]. split; [by left | done].
  - constructor; cbn.
    + intros c Hc. split; [|apply elem_of_cons in Hc as [->|Hc]; [done | by apply K1]].
      apply (kept_scns (noted scn s.(ck_table))); [done|]. apply kept_noted; [done|].
      apply elem_of_cons in Hc as [->|Hc]; [by left | right; by apply K1].
    + unfold scns_of in E. injection E as -> -> _ _ _ ->. exact K2.
Qed.

Lemma ckpt_ok_same s t : ckpt_ok s -> scns_of t = scns_of s.(ck_table) -> ckpt_ok (Ckpt t s.(ck_done)).
Proof.
  intros [K1 K2] E. constructor; cbn.
  - intros c Hc. split; [|by apply K1]. by apply (kept_scns s.(ck_table)), K1.
  - unfold scns_of in E. injection E as -> -> _ _ _ ->. exact K2.
Qed.

(** A freeze hands the operations of the active table to the frozen one. *)
Lemma runs_freeze recycle s (Q : () -> lock_table -> Prop) : ckpt_ok s -> (forall t, ckpt_ok (Ckpt t s.(ck_done)) -> Q () t) ->
  runs (freeze_ recycle) Q s.(ck_table).
Proof.
  intros [K1 K2] HQ. assert (Q () s.(ck_table)) as HQ0 by (apply HQ; by constructor).
  unfold freeze_. apply runs_bind, runs_reads. apply runs_if; intros _; [by apply runs_ret|].
  apply runs_if; intros Ha; [|by apply runs_ret]. apply negb_true_iff in Ha. specialize (K2 Ha).
  apply runs_bind, runs_scn_inc. set (freeze := if scn_lt _ _ then _ else _). cbn in *.
  assert (rank freeze = Z.max (rank (freeze_scn_ (ck_table s))) (rank (max_committed_scn_ (ck_table s)))) as Ef
    by (subst freeze; apply rank_inc).
  apply runs_bind, runs_update. apply runs_if; intros Hge; rewrite scn_ge_rank in Hge.
  - apply runs_ret, HQ. constructor; cbn; [|lia]. intros c Hc. destruct (K1 c Hc) as [[H|[[H _]|H]] Hm]; (split; [|done]).
    + by left.
    + unfold id in *. congruence.
    + by right; right.
  - apply runs_update, HQ. constructor; cbn; [|done]. intros c Hc. destruct (K1 c Hc) as [[H|[[H _]|H]] Hm]; (split; [|done]).
    + by left.
    + unfold id in *. congruence.
    + right; left. cbn. split; [done | lia].
Qed.

Lemma ckpt_ok_flush s recycle freeze callbacked schedule r t : ckpt_ok s ->
  flush recycle freeze callbacked schedule s.(ck_table) = Some (r, t) -> ckpt_ok (Ckpt t s.(ck_done)).
Proof.
  intros Hs. assert (forall t, ckpt_ok (Ckpt t s.(ck_done)) -> runs (s ← reads id;
    if negb s.(is_frozen_) then mret (OB_SUCCESS, false)
    else let '(ret, scn) := callbacked in
         if ob_fail ret then mret (ret, false) else if scn_lt scn s.(freeze_scn_) then mret (OB_SUCCESS, false)
         else mret (schedule, ob_succ schedule)) (fun _ t => ckpt_ok (Ckpt t s.(ck_done))) t) as Hend.
  { intros t' Ht. apply runs_bind, runs_reads. repeat case_match; by apply runs_ret. }
  intros H. refine (runs_Some _ (fun _ t => ckpt_ok (Ckpt t s.(ck_done))) _ _ _ _ H). apply runs_bind.
  apply runs_if; intros _; [by apply runs_freeze | by apply runs_ret, Hend; destruct s].
Qed.

(** The operations of the frozen table are in the data. *)
Lemma ckpt_ok_flushed s ret t : ckpt_ok s -> on_memtable_flushed s.(ck_table) = Some (ret, t) -> ckpt_ok (Ckpt t s.(ck_done)).
Proof.
  intros [K1 K2] H. refine (runs_Some _ (fun _ t => ckpt_ok (Ckpt t s.(ck_done))) _ _ _ _ H).
  unfold on_memtable_flushed. apply runs_bind, runs_reads, runs_bind, runs_update, runs_ret.
  rewrite scn_gt_rank. constructor; cbn.
  - intros c Hc. destruct (K1 c Hc) as [Hk Hm]. split; [|done]. unfold id. destruct Hk as [Hk|[[_ Hk]|Hk]].
    + left. cbn. case_match; lia.
    + left. cbn. case_match; lia.
    + by right; right.
  - intros _. unfold id. case_match; lia.
Qed.

Lemma ckpt_reachable_ok s : ckpt_reachable s -> ckpt_ok s.
Proof.
  induction 1 as [t H|s s' _ IH [op v scn t Ho Hlt H|recycle fr cb sc r t H|ret t H|t E]].
  - injection H as <-. constructor; cbn; [by intros c ?%not_elem_of_nil | done].
  - by eapply ckpt_ok_commit.
  - by eapply ckpt_ok_flush.
  - by eapply ckpt_ok_flushed.
  - by apply ckpt_ok_same.
Qed.

Lemma rank_min a b : rank (min a b) = Z.min (rank a) (rank b).
Proof.
  pose proof (rank_lower a). pose proof (rank_lower b). unfold min. rewrite scn_lt_rank.
  destruct (is_valid a) eqn:Ea; cbn [negb]; [| apply rank_invalid in Ea; lia].
  destruct (is_valid b) eqn:Eb; cbn [negb]; [| apply rank_invalid in Eb; lia].
  destruct (Z.ltb_spec (rank b) (rank a)); lia.
Qed.

Lemma rank_is_max val : is_max val = true -> rank val = rank max_scn.
Proof.
  unfold is_max, rank, is_valid. rewrite andb_true_iff, !Z.eqb_eq. intros [-> ->]. done.
Qed.


(** Two locks are committed; the first is frozen and flushed before the second commits. *)
Module CheckpointExample.
Definition op (owner tx : Z) : LockOp.t :=
  LockOp.mk (LockID.mk OBJ_TYPE_TABLE 7) SHARE owner tx OUT_TRANS_LOCK LOCK_OP_DOING 1 OB_INVALID_SCN_VAL OB_INVALID_SCN_VAL 0 0.
Definition run {B} (m : LT B) (t : lock_table) : lock_table := from_option snd t (m t).
Definition ask (owner tx : Z) : LT (Z * ObTxIDSet) :=
  map_lock 1 (Memory true true) true (LockParam true false 0) (op owner tx) [0; 0; 0; 0; 0] [].
Definition t0 : lock_table := run (memtable_init true OB_SUCCESS OB_SUCCESS) new_lock_memtable.
Definition t1 : lock_table := run (ask 11 2) (run (ask 10 1) t0).
Definition t2 : lock_table := run (memtable_update_lock_status (op 10 1) 50 50 LOCK_OP_COMPLETE) t1.
Definition t3 : lock_table := run (flush 60 true (OB_SUCCESS, 60) OB_SUCCESS) t2.
Definition t4 : lock_table := run on_memtable_flushed t3.
Definition t5 : lock_table := run (memtable_update_lock_status (op 11 2) 70 70 LOCK_OP_COMPLETE) t4.

Lemma t5_reachable : ckpt_reachable (Ckpt t5 [70; 50]).
Proof.
  eapply ckpt_more; [|by apply (ckpt_commit (Ckpt t4 [50]) (op 11 2) 70 70 t5); vm_compute].
  eapply ckpt_more; [|apply (ckpt_flushed (Ckpt t3 [50]) OB_SUCCESS t4); vm_compute; reflexivity].
  eapply ckpt_more; [|apply (ckpt_flush (Ckpt t2 [50]) 60 true (OB_SUCCESS, 60) OB_SUCCESS (OB_SUCCESS, true) t3); vm_compute; reflexivity].
  eapply ckpt_more; [|by apply (ckpt_commit (Ckpt t1 []) (op 10 1) 50 50 t2); vm_compute].
  eapply ckpt_more; [|apply (ckpt_locks (Ckpt t0 []) t1); vm_compute; reflexivity].
  apply ckpt_initial. vm_compute. reflexivity.
Qed.
End CheckpointExample.

