(* ===== verification/LockSimulation.v ===== *)
(** * Every step is one of the specification, or none

    The simulation for the relation of [LockRefinement], step by step. *)

From Stdlib Require Import ZArith Lia Bool.
From stdpp Require Import base countable numbers option gmap list.
From S2P Require Import Prelude Serialization Scn TableLockCommon ObjLock LockTable LockMemCtx ObjLockFacts ObjLockGrant ObjLockEnd LockSystem LockRefinement LockCheckpoint.
Import AbortMonad.

Local Open Scope Z_scope.

(** ** Counts *)

Lemma in_mode_zero m l : (forall op, op ∈ l -> op_mode op <> m) -> in_mode m l = 0.
Proof. intros H. unfold in_mode. by rewrite filter_none. Qed.

Lemma in_mode_pos m l op : op ∈ l -> op_mode op = m -> 0 < in_mode m l.
Proof.
  intros Hop Hm. unfold in_mode. assert (op ∈ filter (fun c => op_mode c = m) l) as H by (by apply list_elem_of_filter).
  destruct (filter (fun c => op_mode c = m) l); [by apply not_elem_of_nil in H | cbn; lia].
Qed.

Lemma in_mode_rows l : (forall op, op ∈ l -> op_mode op = ROW_SHARE \/ op_mode op = ROW_EXCLUSIVE) ->
  Z.of_nat (length l) = in_mode ROW_SHARE l + in_mode ROW_EXCLUSIVE l.
Proof.
  induction l as [|op l IH]; intros H; [done|]. unfold in_mode in *. rewrite !filter_cons. cbn [length].
  assert (forall c, c ∈ l -> op_mode c = ROW_SHARE \/ op_mode c = ROW_EXCLUSIVE) as H' by (intros c Hc; apply H; by right).
  specialize (IH H'). destruct (H op) as [E|E]; [by left |..]; rewrite E; repeat case_decide; cbn [length]; done || lia.
Qed.

Section counts.
Context (t : lock_table) (a : nat) (o : obj_lock) (A : op_list).
Hypothesis (L : live t a o A) (HA : spec_ok A).

Local Abbreviation id := (obj_lock_id_ o).

Lemma rows_only op : op ∈ filter (fun op => ~ recorded op) (on id A) -> op_mode op = ROW_SHARE \/ op_mode op = ROW_EXCLUSIVE.
Proof.
  intros [Hr [_ Hop]%elem_of_on]%list_elem_of_filter. apply not_recorded_row; [by apply HA | done].
Qed.

Lemma on_split : on id A ≡ₚ all_ops o ++ filter (fun op => ~ recorded op) (on id A).
Proof. rewrite (lv_ops _ _ _ _ L). symmetry. apply filter_complement. Qed.

Lemma on_length : Z.of_nat (length (on id A)) = Z.of_nat (length (all_ops o)) + o.(row_share_) + o.(row_exclusive_).
Proof.
  rewrite on_split, length_app, Nat2Z.inj_add, (in_mode_rows _ rows_only), (lv_share _ _ _ _ L), (lv_exclusive _ _ _ _ L).
  unfold rows. lia.
Qed.

Lemma total_on m : m ∈ table_modes -> total o m = in_mode m (on id A).
Proof.
  intros Hm. rewrite (in_mode_perm m _ _ on_split), in_mode_app. unfold total, row_count. f_equal.
  destruct (Z.eqb_spec m ROW_SHARE) as [->|]; [apply (lv_share _ _ _ _ L)|].
  destruct (Z.eqb_spec m ROW_EXCLUSIVE) as [->|]; [apply (lv_exclusive _ _ _ _ L)|].
  symmetry. apply in_mode_zero. intros op Hop E. destruct (rows_only op Hop); congruence.
Qed.

(** What a transaction holds, and the rest. *)
Lemma doing_split tx : on id A ≡ₚ on id (doing tx A) ++
  on id (filter (fun op => ~ (op_trans op = tx /\ op_status op = LOCK_OP_DOING)) A).
Proof.
  rewrite <- (filter_complement (fun op => op_trans op = tx /\ op_status op = LOCK_OP_DOING) A) at 1.
  unfold on, doing. by rewrite filter_app.
Qed.

Lemma own_le tx m : 0 <= own_modes id (doing tx A) m <= Z.of_nat (length (on id A)).
Proof.
  unfold own_modes. rewrite (doing_split tx), length_app. pose proof (in_mode_le m (on id (doing tx A))). lia.
Qed.

Lemma own_lt tx c : c ∈ A -> op_id c = id -> op_trans c <> tx \/ op_status c <> LOCK_OP_DOING ->
  own_modes id (doing tx A) (op_mode c) < total o (op_mode c).
Proof.
  intros Hc Hid Hn. rewrite total_on by (by apply HA). rewrite (in_mode_perm _ _ _ (doing_split tx)), in_mode_app.
  unfold own_modes. enough (0 < in_mode (op_mode c)
    (on id (filter (fun op => ~ (op_trans op = tx /\ op_status op = LOCK_OP_DOING)) A))) by lia.
  apply (in_mode_pos _ _ c); [|done]. apply elem_of_on. split; [done|]. apply list_elem_of_filter. split; [tauto | done].
Qed.
End counts.

(** The counts of a context. *)
Lemma own_modes_perm id l l' m : l ≡ₚ l' -> own_modes id l m = own_modes id l' m.
Proof. intros E. unfold own_modes. apply in_mode_perm. by rewrite E. Qed.

Lemma counts_ext f g : (forall m, f m = g m) -> counts_of f = counts_of g.
Proof. intros H. unfold counts_of, table_modes. cbn. by rewrite !H. Qed.

Lemma counts_incr f m : m ∈ table_modes ->
  <[Z.to_nat (get_index_by_lock_mode m) := f m + 1]> (counts_of f) = counts_of (fun m' => f m' + one m m').
Proof. intros H. mode_cases H; unfold counts_of, table_modes, one; cbn; by rewrite !Z.add_0_r. Qed.

Lemma own_modes_cons id op ops m : own_modes id (op :: ops) m =
  (if decide (op_id op = id) then one (op_mode op) m else 0) + own_modes id ops m.
Proof.
  unfold own_modes, on, in_mode, one. rewrite filter_cons. destruct (decide (op_id op = id)); [|lia].
  rewrite filter_cons. destruct (decide (op_mode op = m)), (Z.eqb_spec (op_mode op) m); cbn [length]; done || lia.
Qed.

Lemma check_lock_exist_loop_spec id ow m ty ops : (forall c, c ∈ ops -> op_mode c ∈ table_modes) ->
  forall f cs, check_lock_exist_loop id ow m ty ops (counts_of f) = Some (false, cs) ->
  cs = counts_of (fun m => f m + own_modes id ops m) /\
  forall c, c ∈ ops -> op_id c = id -> is_same_lock id ow m ty c = false.
Proof.
  induction ops as [|op ops IH]; intros Hm f cs; cbn [check_lock_exist_loop].
  { intros [= <-]. split; [|by intros c ?%not_elem_of_nil]. apply counts_ext. intros m'. unfold own_modes, in_mode. cbn. lia. }
  assert (forall c, c ∈ ops -> op_mode c ∈ table_modes) as Hm' by (intros c Hc; apply Hm; by right).
  destruct (LockID.eqb (op_id op) id) eqn:E.
  - apply LockID.lock_id_eqb_eq in E. assert (op_mode op ∈ table_modes) as Hop by (apply Hm; by left).
    rewrite (counts_lookup f (op_mode op) Hop). cbn [mbind option_bind]. rewrite (counts_incr f _ Hop).
    destruct (is_same_lock id ow m ty op) eqn:Hs; [done|]. intros H. destruct (IH Hm' _ _ H) as [-> H2]. split.
    + apply counts_ext. intros m'. rewrite own_modes_cons, decide_True by done. lia.
    + intros c [->|Hc]%elem_of_cons; [done | by apply H2].
  - intros H. destruct (IH Hm' _ _ H) as [-> H2].
    assert (op_id op <> id) as Hne by (intros E'%LockID.lock_id_eqb_eq; congruence). split.
    + apply counts_ext. intros m'. rewrite own_modes_cons, decide_False by done. lia.
    + intros c [->|Hc]%elem_of_cons; [done | by apply H2].
Qed.

(** [check_lock_exist] that finds nothing. *)
Lemma not_held_spec op counts x t : (forall c, c ∈ ctx_ops x.(tx_ctx) -> op_mode c ∈ table_modes /\ op_status c = LOCK_OP_DOING) ->
  not_held op counts x t ->
  counts = counts_of (own_modes (op_id op) (ctx_ops x.(tx_ctx))) /\ forall c, c ∈ ctx_ops x.(tx_ctx) -> ~ same_kind op c.
Proof.
  intros Hops [v H]. unfold check_lock_exist in H. case_match; [done|]. unfold mbind, R_bind, get_ctx, reads, lift in H. cbn [mbind option_bind LockMemCtx.ctx] in H.
  destruct (check_lock_exist_loop (op_id op) (op_owner op) (op_mode op) (op_type op) (ctx_ops (tx_ctx x)) no_counts)
    as [[e cs]|] eqn:E; [|done]. injection H as -> -> _.
  change no_counts with (counts_of (fun _ => 0)) in E.
  destruct (check_lock_exist_loop_spec _ _ _ _ _ (fun c Hc => proj1 (Hops c Hc)) _ _ E) as [-> Hs]. split; [done|].
  intros c Hc [Ei Ek]. specialize (Hs c Hc Ei). unfold op_key in Ek. injection Ek as E1 E2 E3 _.
  unfold is_same_lock in Hs. rewrite E1, E2, E3, (proj2 (Hops c Hc)), !Z.eqb_refl, bool_decide_eq_true_2 in Hs by done.
  by destruct (bool_decide (LockID.obj_type_ (op_id op) = OBJ_TYPE_DBMS_LOCK)).
Qed.

(** ** Steps *)

Definition moves (A A' : op_list) : Prop := A' = A \/ spec_step A A'.
Definition simulated (A : op_list) (s' : system) : Prop := exists A', moves A A' /\ implements s' A'.

Lemma simulated_same A s' : implements s' A -> simulated A s'.
Proof. intros H. exists A. split; [by left | done]. Qed.

Lemma runs_at_obj {B} a o (m : OL B) t (Q : B -> lock_table -> Prop) : t.(objs_) !! a = Some o ->
  runs m (fun x o' => Q x (set_objs (<[a := o']> t.(objs_)) t)) o -> runs (at_obj a m) Q t.
Proof.
  intros Ha H. unfold runs, at_obj in *. rewrite Ha. cbn. destruct (m o) as [[x o']|]; [|done]. exact H.
Qed.

Lemma at_place_set t a o' : at_place t (set_objs (<[a := o']> t.(objs_)) t) a o'.
Proof. by constructor. Qed.

Lemma held_doing s A tx x op : implements s A -> s.(sys_txs) !! tx = Some x -> op ∈ held x ->
  op ∈ A /\ op_trans op = tx /\ op_status op = LOCK_OP_DOING /\ op_mode op ∈ table_modes /\ LockOp.is_valid op = true.
Proof.
  intros I Hx Hop. rewrite (to_held _ _ _ (im_txs _ _ I _ _ Hx)) in Hop. apply elem_of_doing in Hop as [[Ht Hs] HA].
  split_and!; try done; [by apply I | by apply (im_ops _ _ I)].
Qed.

(** The operations of the bag are those that are held or recorded. *)
Lemma recorded_in s A a o op : implements s A -> s.(sys_table).(objs_) !! a = Some o -> op ∈ all_ops o -> op ∈ A.
Proof.
  intros I Ha Hop. destruct (im_objs _ _ I a o Ha) as [_ S2 S3]. destruct (is_deleted_ o).
  - destruct (S3 eq_refl) as [E _]. rewrite E in Hop. by apply not_elem_of_nil in Hop.
  - rewrite (lv_ops _ _ _ _ (S2 eq_refl)) in Hop. by apply elem_of_records in Hop as (_ & _ & ?).
Qed.

Lemma locked_in s A op : implements s A -> locked s op -> op ∈ A.
Proof. intros I [tx x Hx Hop|a o Ha Hop]; [by eapply held_doing | by eapply recorded_in]. Qed.

Lemma in_locked s A op : implements s A -> op ∈ A -> locked s op.
Proof.
  intros I Hop. destruct (ok_kinds _ (im_spec _ _ I) op Hop) as [Hd|Hc].
  - destruct (ok_tx _ _ (im_ops _ _ I op Hop)) as (x & Hx & _). eapply locked_held; [done|].
    rewrite (to_held _ _ _ (im_txs _ _ I _ _ Hx)). by apply elem_of_doing.
  - destruct (ok_object _ _ (im_ops _ _ I op Hop)) as [a Ha]. destruct (im_map _ _ I _ _ Ha) as (o & Ho & Hid & Hd).
    eapply locked_recorded; [done|]. rewrite (lv_ops _ _ _ _ (oo_live _ _ _ _ (im_objs _ _ I a o Ho) Hd)).
    apply elem_of_records. split_and!; [|done|done]. unfold LockOp.need_record_lock_op. by rewrite (proj1 Hc).
Qed.

Lemma sim_begin s A tx : implements s A -> s.(sys_txs) !! tx = None ->
  implements (set_tx tx (TxState new_mem_ctx Running None) s.(sys_table) s) A.
Proof.
  intros [I1 I2 I3 I4 I5 I6] Hn. constructor; try done; cbn.
  - intros tx' x [[<- <-]|[Hne Hx]]%lookup_insert_Some; [|by apply I4].
    assert (doing tx A = []) as E.
    { apply filter_none. intros op Hop [Et _]. destruct (ok_tx _ _ (I5 op Hop)) as (x & Hx & _). congruence. }
    constructor; cbn; [by rewrite E | | done]. constructor; cbn; try done; [constructor | by intros n ?%not_elem_of_nil..].
  - intros op Hop. destruct (I5 op Hop) as [V W (y & Hy & Hph)]. constructor; try done. cbn.
    exists y. split; [|done]. rewrite lookup_insert_ne; congruence.
Qed.

Lemma held_no_pending c p : held (TxState c p None) = ctx_ops c.
Proof. done. Qed.

Lemma sim_count s A tx c op counts : implements s A -> s.(sys_txs) !! tx = Some (TxState c Running None) ->
  request tx op -> is_lock op -> not_held op counts (TxState c Running None) s.(sys_table) ->
  implements (set_tx tx (TxState c Running (Some (Counted op counts))) s.(sys_table) s) A.
Proof.
  intros I Hx Hr Hl Hn. eapply im_tx; [done | done | done |]. destruct (im_txs _ _ I _ _ Hx) as [T1 T2 T4].
  constructor; [exact T1 | exact T2 |]. cbn. split_and!; try done; apply not_held_spec in Hn as [H1 H2]; try done.
  all: intros d Hd; destruct (held_doing s A tx _ d I Hx Hd) as (_ & _ & ? & ? & _); done.
Qed.

Lemma sim_give_up s A tx c op counts : implements s A -> s.(sys_txs) !! tx = Some (TxState c Running (Some (Counted op counts))) ->
  implements (set_tx tx (TxState c Running None) s.(sys_table) s) A.
Proof.
  intros I Hx. eapply im_tx; [done | done | done |]. by destruct (im_txs _ _ I _ _ Hx) as [T1 T2 T4].
Qed.

Lemma sim_end s A tx c commit version scn : implements s A -> s.(sys_txs) !! tx = Some (TxState c Running None) ->
  implements (set_tx tx (TxState c (Ending commit version scn) None) s.(sys_table) s) A.
Proof.
  intros I Hx. eapply im_tx; [done | done | done |]. by destruct (im_txs _ _ I _ _ Hx) as [T1 T2 T4].
Qed.

(** A new object records nothing. *)
Lemma sim_create s A alloc id ret a t : implements s A ->
  get_or_create_obj_lock_with_ref_ alloc id s.(sys_table) = Some ((ret, a), t) -> implements (System t s.(sys_txs)) A.
Proof.
  intros I H. pose proof I as [I1 I2 I3 I4 I5 I6]. unfold get_or_create_obj_lock_with_ref_, mbind, R_bind, reads in H.
  cbn in H. rewrite (proj1 I1) in H. cbn in H. destruct (lock_map_ (sys_table s) !! id) as [b|] eqn:Hid.
  { injection H as _ _ <-. by destruct s. }
  destruct alloc; cbn in H; injection H as _ _ <-; [|by destruct s].
  set (b := fresh (dom (objs_ (sys_table s)))).
  assert (objs_ (sys_table s) !! b = None) as Hb by (apply not_elem_of_dom, is_fresh).
  assert (forall op, op ∈ A -> op_id op <> id) as Hno.
  { intros op Hop <-. destruct (ok_object _ _ (I5 op Hop)) as [? ?]. congruence. }
  constructor; cbn; [done | ..].
  - intros i a1 [[<- <-]|[Hne H1]]%lookup_insert_Some; [eexists; by rewrite lookup_insert_eq|].
    destruct (I2 i a1 H1) as (o & Ho & ?). exists o. by rewrite lookup_insert_ne by congruence.
  - intros a1 o [[<- <-]|[Hne H1]]%lookup_insert_Some.
    + assert (on id A = []) as E by (by apply filter_none).
      constructor; [apply new_shape | intros _ | done].
      constructor; cbn; [by rewrite lookup_insert_eq | unfold records; by rewrite E | unfold rows; by rewrite E ..].
    + destruct (I3 a1 o H1) as [S1 S2 S3]. constructor; [done | | done]. intros Hd. destruct (S2 Hd). constructor; try done. cbn.
      rewrite lookup_insert_ne; [done | congruence].
  - done.
  - intros op Hop. destruct (I5 op Hop). constructor; try done. cbn. rewrite lookup_insert_ne; [done|]. by intros ->; eapply Hno.
  - done.
Qed.

(** The counters and the lists are empty, so no operation is on the object. *)
Lemma size_zero o : shape o -> size_without_lock o = 0 -> 0 <= o.(row_share_) -> 0 <= o.(row_exclusive_) ->
  all_ops o = [] /\ o.(row_share_) = 0 /\ o.(row_exclusive_) = 0.
Proof.
  intros Ho H H1 H2. unfold size_without_lock in H.
  destruct (Z.eqb_spec o.(row_share_) 0), (Z.eqb_spec o.(row_exclusive_) 0); try lia. split; [|done].
  destruct (all_ops o) as [|op ops] eqn:E; [done|].
  assert (op ∈ all_ops o) as (i & l & Hi & _)%elem_of_all_ops by (rewrite E; by left).
  assert (Some l ∈ filter is_Some (map_ o)) as Hin by (apply list_elem_of_filter; split; [done | by eapply list_elem_of_lookup_2]).
  destruct (filter is_Some (map_ o)); [by apply not_elem_of_nil in Hin | cbn in H; lia].
Qed.

Lemma at_place_refl t a o : t.(objs_) !! a = Some o -> at_place t t a o.
Proof. intros H. constructor; [by rewrite insert_id | done | done]. Qed.

(** The object is marked and leaves the map. *)
Record dropped (t t' : lock_table) (a : nat) (o : obj_lock) : Prop := {
  dr_objs : t'.(objs_) = <[a := set_is_deleted true o]> t.(objs_);
  dr_map : t'.(lock_map_) = delete o.(obj_lock_id_) t.(lock_map_);
  dr_inited : t'.(map_inited_) = t.(map_inited_) /\ t'.(memtable_inited_) = t.(memtable_inited_) }.

Lemma runs_drop t a o : t.(objs_) !! a = Some o -> t.(map_inited_) = true ->
  (o.(is_deleted_) = false -> t.(lock_map_) !! o.(obj_lock_id_) = Some a) ->
  runs (drop_obj_lock_if_empty_ o.(obj_lock_id_) a) (fun _ t' => at_place t t' a o \/
    (size_without_lock o = 0 /\ o.(is_deleted_) = false /\ dropped t t' a o)) t.
Proof.
  intros Ha Hi Hm. unfold drop_obj_lock_if_empty_. apply runs_if; intros _; [apply runs_ret; left; by apply at_place_refl|].
  apply runs_bind. eapply runs_at_obj; [done|]. apply runs_reads.
  apply runs_if; intros H1; [apply runs_ret; left; apply at_place_set|]. apply negb_false_iff, Z.eqb_eq in H1.
  apply runs_bind. eapply (runs_at_obj a o); [cbn; apply lookup_insert_eq|]. apply runs_reads.
  destruct (is_deleted_ o) eqn:Hd; cbn; rewrite ?andb_false_r, ?andb_true_r; cbn.
  { apply runs_ret. left. constructor; cbn; [by rewrite insert_insert_eq | done | done]. }
  rewrite H1. cbn. apply runs_bind. eapply (runs_at_obj a o); [cbn; apply lookup_insert_eq|]. apply runs_update.
  unfold get_obj_lock_with_ref_. apply runs_bind, runs_bind, runs_reads. cbn. rewrite Hi, (Hm eq_refl). cbn. apply runs_ret.
  rewrite bool_decide_eq_true_2 by done. apply runs_update. right. split; [done|]. split; [done|].
  constructor; cbn; [|done|done]. by rewrite !insert_insert_eq.
Qed.

Lemma no_op_on s A a o op : implements s A -> s.(sys_table).(objs_) !! a = Some o -> o.(is_deleted_) = false ->
  all_ops o = [] -> o.(row_share_) = 0 -> o.(row_exclusive_) = 0 -> op ∈ A -> op_id op <> o.(obj_lock_id_).
Proof.
  intros I Ha Hd E1 E2 E3 Hop Hid. pose proof (oo_live _ _ _ _ (im_objs _ _ I a o Ha) Hd) as L.
  pose proof (on_length _ _ _ _ L (im_spec _ _ I)) as H. rewrite E1, E2, E3 in H. cbn in H.
  assert (op ∈ on o.(obj_lock_id_) A) as Hin by (by apply elem_of_on).
  destruct (on (obj_lock_id_ o) A); [by apply not_elem_of_nil in Hin | cbn in H; lia].
Qed.

Lemma im_drop s A t a o : implements s A -> s.(sys_table).(objs_) !! a = Some o -> o.(is_deleted_) = false ->
  all_ops o = [] -> o.(row_share_) = 0 -> o.(row_exclusive_) = 0 -> dropped s.(sys_table) t a o ->
  implements (System t s.(sys_txs)) A.
Proof.
  intros I Ha Hd E1 E2 E3 [D1 D2 [D3 D4]]. pose proof (no_op_on s A a o) as Hno. pose proof I as [I1 I2 I3 I4 I5 I6].
  pose proof (lv_map _ _ _ _ (oo_live _ _ _ _ (I3 a o Ha) Hd)) as M. constructor; try done; cbn.
  - by rewrite D3, D4.
  - intros id b. rewrite D1, D2. intros [Hne Hb]%lookup_delete_Some. destruct (I2 id b Hb) as (o1 & H1 & H2 & H3).
    exists o1. rewrite lookup_insert_ne; [done|]. intros <-. congruence.
  - intros b o1. rewrite D1. intros [[<- <-]|[Hne Hb]]%lookup_insert_Some.
    + constructor; [|done|done]. destruct (oo_shape _ _ _ _ (I3 a o Ha)). by constructor.
    + destruct (I3 b o1 Hb) as [S1 S2 S3]. constructor; [done | | done]. intros Hd1. destruct (S2 Hd1) as [L1 L2 L3 L4].
      constructor; try done. rewrite D2, lookup_delete_ne; [done|]. intros E. rewrite E in M. congruence.
  - intros op Hop. destruct (I5 op Hop) as [V W X]. constructor; try done. cbn. rewrite D2, lookup_delete_ne; [done|].
    intros E. by apply (Hno op).
Qed.

Lemma sim_drop s A a o t : implements s A -> s.(sys_table).(objs_) !! a = Some o ->
  drop_obj_lock_if_empty_ o.(obj_lock_id_) a s.(sys_table) = Some ((), t) -> implements (System t s.(sys_txs)) A.
Proof.
  intros I Ha H. pose proof (im_objs _ _ I a o Ha) as [S1 S2 S3].
  eapply runs_Some in H; [|apply runs_drop; [done | apply I | intros Hd; apply S2, Hd]]. cbn in H.
  destruct H as [H|(H & Hd & D)]; [eapply im_same; [done | done | by apply unchanged_refl | done]|].
  destruct (S2 Hd) as [L1 L2 L3 L4]. destruct (size_zero o S1 H) as (E1 & E2 & E3); [rewrite L3; apply rows_nonneg | rewrite L4; apply rows_nonneg |].
  by eapply im_drop.
Qed.

(** The checkpoint does not touch locks. *)
Lemma im_table s A t : implements s A -> t.(objs_) = s.(sys_table).(objs_) -> t.(lock_map_) = s.(sys_table).(lock_map_) ->
  t.(map_inited_) = s.(sys_table).(map_inited_) -> t.(memtable_inited_) = s.(sys_table).(memtable_inited_) ->
  implements (System t s.(sys_txs)) A.
Proof.
  intros [I1 I2 I3 I4 I5 I6] E1 E2 E3 E4. constructor; try done; cbn.
  - by rewrite E3, E4.
  - intros id a. rewrite E1, E2. apply I2.
  - intros a o. rewrite E1. intros Ha. destruct (I3 a o Ha) as [S1 S2 S3]. constructor; [done | | done].
    intros Hd. destruct (S2 Hd). constructor; by rewrite ?E2.
  - intros op Hop. destruct (I5 op Hop). constructor; cbn; by rewrite ?E2.
Qed.

Lemma sim_steady {B} s A (m : LT B) x t : implements s A -> steady locks_of m -> m s.(sys_table) = Some (x, t) ->
  implements (System t s.(sys_txs)) A.
Proof. intros I Hm H. apply Hm in H. unfold locks_of in H. injection H as ? ? ? ?. by apply im_table. Qed.

(** A call that changes nothing in the lists. *)
Lemma im_refused s A t a o o' tx x x' : implements s A -> s.(sys_table).(objs_) !! a = Some o -> unchanged o o' ->
  at_place s.(sys_table) t a o' -> s.(sys_txs) !! tx = Some x -> (committing x.(tx_phase) = true -> committing x'.(tx_phase) = true) ->
  tx_ok tx x' A -> implements (set_tx tx x' t s) A.
Proof.
  intros I Ha B P Hx Hp Ht. pose proof (im_same s A t a o o' I Ha B P) as I'.
  exact (im_tx (System t s.(sys_txs)) A tx x x' I' Hx Hp Ht).
Qed.

Lemma runs_lock_deleted mem param op counts set o (Q : Z * ObTxIDSet -> obj_lock -> Prop) : o.(is_deleted_) = true ->
  LockOp.is_valid op = true -> Q (OB_EAGAIN, set) o -> runs (lock mem param op counts set) Q o.
Proof.
  intros Hd Hv HQ. unfold lock. rewrite Hv. cbn. destruct (negb (LockOp.need_record_lock_op op)).
  - apply runs_bind, runs_reads. rewrite Hd. by apply runs_ret.
  - apply runs_bind, runs_reads. rewrite Hd. by apply runs_ret.
Qed.

Section acquire.
Context (s : system) (A : op_list) (tx : ObTransID) (c : mem_ctx) (op : LockOp.t) (counts : list Z) (a : nat) (o : obj_lock).
Hypothesis (I : implements s A) (Hx : s.(sys_txs) !! tx = Some (TxState c Running (Some (Counted op counts)))).
Hypothesis (Ha : s.(sys_table).(objs_) !! a = Some o) (Hid : o.(obj_lock_id_) = op_id op).

Local Abbreviation own := (own_modes (op_id op) (ctx_ops c)).

Lemma acquire_pending : request tx op /\ is_lock op /\ counts = counts_of own /\ forall d, d ∈ ctx_ops c -> ~ same_kind op d.
Proof. exact (proj2 (to_pending _ _ _ (im_txs _ _ I _ _ Hx))). Qed.

Lemma acquire_own m : own m = own_modes o.(obj_lock_id_) (doing tx A) m.
Proof. rewrite Hid. apply own_modes_perm. exact (to_held _ _ _ (im_txs _ _ I _ _ Hx)). Qed.

Lemma acquire_tx_ok p : p = None \/ p = Some (Counted op counts) -> tx_ok tx (TxState c Running p) A.
Proof. destruct (im_txs _ _ I _ _ Hx) as [T1 T2 T4]. intros [-> | ->]; by constructor. Qed.

Lemma acquire_small : o.(is_deleted_) = false -> few o -> forall m, 0 <= own m < 2 ^ 31.
Proof.
  intros Hd (_ & _ & Hf) m. pose proof (oo_live _ _ _ _ (im_objs _ _ I a o Ha) Hd) as L.
  rewrite acquire_own. pose proof (own_le o A tx m). pose proof (on_length _ _ _ _ L (im_spec _ _ I)). lia.
Qed.

(** The object grants what the specification allows. *)
Lemma granted_may_lock : o.(is_deleted_) = false -> granted o own op -> may_lock A op.
Proof.
  intros Hd [G1 G2]. destruct acquire_pending as (Hr & Hl & _ & Hn). destruct Hr as (Et & Hst & Hv & Hm).
  pose proof (oo_live _ _ _ _ (im_objs _ _ I a o Ha) Hd) as L. split_and!; [done.. |]. intros d HdA. split.
  - intros Hk. pose proof Hk as [Ei Ek]. unfold op_key in Ek. injection Ek as E1 E2 E3 E4. destruct Hl as [Hl|Hl].
    + assert (is_out_trans_op_type (op_type op) = false) as Ho by (destruct Hl as [-> | ->]; done).
      rewrite E3, Ho in E4. apply (Hn d); [|done].
      change (ctx_ops c) with (held (TxState c Running (Some (Counted op counts)))).
      rewrite (to_held _ _ _ (im_txs _ _ I _ _ Hx)). apply elem_of_doing. split; [|done]. split; [congruence|].
      destruct (ok_kinds _ (im_spec _ _ I) d HdA) as [?|[Hc _]]; [done|]. rewrite Hc in E3. rewrite <- E3 in Ho. done.
    + assert (recorded d) as Hrd by (unfold LockOp.need_record_lock_op; by rewrite E3, Hl).
      assert (recorded op) as Hro by (unfold LockOp.need_record_lock_op; by rewrite Hl).
      assert (d ∈ all_ops o) as Hin by (rewrite (lv_ops _ _ _ _ L); apply elem_of_records; split_and!; [done | congruence | done]).
      pose proof (G1 Hro d Hin E1 Hl E2) as Hbad. congruence.
  - intros Ei En. apply G2; [by apply I|]. rewrite acquire_own. enough (own_modes (obj_lock_id_ o) (doing tx A) (op_mode d) < total o (op_mode d)) by lia.
    eapply own_lt; [done | apply I | done | congruence |]. left. congruence.
Qed.

Lemma acquire_granted o' t : o.(is_deleted_) = false -> granted o own op -> at_place s.(sys_table) t a o' ->
  (recorded op -> becomes o o' (op :: all_ops o) o.(row_share_) o.(row_exclusive_)) ->
  (~ recorded op -> becomes o o' (all_ops o) (o.(row_share_) + one (op_mode op) ROW_SHARE)
     (o.(row_exclusive_) + one (op_mode op) ROW_EXCLUSIVE)) ->
  simulated A (set_tx tx (TxState c Running (Some (Acquired op))) t s).
Proof.
  intros Hd Hg P HR HU. pose proof (granted_may_lock Hd Hg) as Hmay. exists (op :: A). split.
  { right. by apply (spec_lock _ op). }
  destruct (im_txs _ _ I _ _ Hx) as [T1 T2 T4].
  eapply im_effect; [done | done | done | done | done | done |]. eapply effect_add; try done.
  - apply acquire_pending.
  - by apply spec_ok_lock; [apply I|].
Qed.

Lemma sim_acquire mem param ret set t : few o -> at_obj a (lock mem param op counts []) s.(sys_table) = Some ((ret, set), t) ->
  simulated A (set_tx tx (TxState c Running (after_lock ret op counts)) t s).
Proof.
  intros Hfew H. destruct acquire_pending as (Hr & _ & Ec & _). destruct Hr as (_ & _ & Hv & Hm).
  pose proof (oo_shape _ _ _ _ (im_objs _ _ I a o Ha)) as Ho.
  assert (forall ret o', ret <> OB_SUCCESS -> unchanged o o' -> simulated A
    (set_tx tx (TxState c Running (after_lock ret op counts)) (set_objs (<[a := o']> s.(sys_table).(objs_)) s.(sys_table)) s)) as HF.
  { intros ret' o' Hne B. apply simulated_same. eapply im_refused; [done | done | done | apply at_place_set | done | done |].
    apply acquire_tx_ok. unfold after_lock, ob_succ. rewrite (proj2 (Z.eqb_neq _ _) Hne). case_match; auto. }
  refine (runs_Some _ (fun r t => simulated A (set_tx tx (TxState c Running (after_lock r.1 op counts)) t s)) _ _ _ _ H).
  eapply runs_at_obj; [done|]. destruct (is_deleted_ o) eqn:Hd.
  { apply runs_lock_deleted; [done | done |]. apply HF; [done | by apply unchanged_refl]. }
  rewrite Ec. apply (runs_lock o own op); try done; [by apply acquire_small|..].
  - intros ret' set' o' Hne B _. rewrite <- Ec. by apply HF.
  - intros set' o' Hg _ Hrec B. apply (acquire_granted o'); [done | done | apply at_place_set | done | done].
  - intros set' o' Hg _ Hrec B. apply (acquire_granted o'); [done | done | apply at_place_set | congruence | done].
Qed.
End acquire.

(** ** Unlock *)

Section unlock.
Context (s : system) (A : op_list) (tx : ObTransID) (c : mem_ctx) (op : LockOp.t) (a : nat) (o : obj_lock).
Hypothesis (I : implements s A) (Hx : s.(sys_txs) !! tx = Some (TxState c Running None)).
Hypothesis (Hr : request tx op) (Ht : op_type op = OUT_TRANS_UNLOCK).
Hypothesis (Ha : s.(sys_table).(objs_) !! a = Some o) (Hid : o.(obj_lock_id_) = op_id op).

Lemma lets_unlock_may_unlock : o.(is_deleted_) = false -> lets_unlock op (all_ops o) -> may_unlock A op.
Proof.
  intros Hd [H1 H2]. pose proof (oo_live _ _ _ _ (im_objs _ _ I a o Ha) Hd) as L.
  split_and!; [done | apply Hr | |].
  - intros d HdA [Ei Ek]. unfold op_key in Ek. injection Ek as E1 E2 E3 _.
    assert (recorded d) as Hrd by (unfold LockOp.need_record_lock_op; by rewrite E3, Ht).
    assert (d ∈ all_ops o) as Hin by (rewrite (lv_ops _ _ _ _ L); apply elem_of_records; split_and!; [done | congruence | done]).
    destruct (H1 d Hin E1 E2) as [Hbad _]. congruence.
  - destruct H2 as (d & Hin & Em & Eo). pose proof (H1 d Hin Em Eo) as Hc.
    rewrite (lv_ops _ _ _ _ L) in Hin. apply elem_of_records in Hin as (_ & Ei & HdA). exists d. split_and!; try done. congruence.
Qed.

Lemma sim_unlock mem try expired now ret t : at_obj a (unlock mem op try expired now) s.(sys_table) = Some (ret, t) ->
  simulated A (set_tx tx (TxState c Running (if ob_succ ret then Some (Acquired op) else None)) t s).
Proof.
  intros H. destruct (im_txs _ _ I _ _ Hx) as [T1 T2 T4]. pose proof (oo_shape _ _ _ _ (im_objs _ _ I a o Ha)) as Ho.
  refine (runs_Some _ (fun r t => simulated A (set_tx tx (TxState c Running (if ob_succ r then Some (Acquired op) else None)) t s)) _ _ _ _ H).
  eapply runs_at_obj; [done|]. apply runs_unlock; [done | apply Hr | apply Hr |..].
  - intros ret' Hne _. apply simulated_same. eapply im_refused; [done | done | by apply unchanged_refl | apply at_place_set | done | done |].
    unfold ob_succ. rewrite (proj2 (Z.eqb_neq _ _) Hne). by constructor.
  - intros o' Hu Hd B. pose proof (lets_unlock_may_unlock Hd Hu) as Hmay. exists (op :: A). split; [right; by apply (spec_unlock _ op)|].
    eapply im_effect; [done | done | done | done | done | apply at_place_set |]. eapply effect_add; try done.
    + by apply spec_ok_unlock; [apply I|].
    + intros Hrec. destruct Hrec. unfold LockOp.need_record_lock_op. by rewrite Ht.
Qed.
End unlock.

(** ** Replay *)

Lemma follows_may s A op : implements s A -> follows s op -> may_lock A op \/ may_unlock A op.
Proof.
  intros I (B & HB & Hmay). assert (forall d, d ∈ A <-> d ∈ B) as E.
  { intros d. rewrite HB. split; [by apply in_locked | by apply locked_in]. }
  destruct Hmay as [(H1 & H2 & H3 & H4)|(H1 & H2 & H3 & d & Hd & H)]; [left | right].
  - split_and!; [done..|]. intros d Hd%E. by apply H4.
  - split_and!; [done | done | intros d' Hd'%E; by apply H3 |]. exists d. split; [by apply E | done].
Qed.

Lemma may_fresh A op : may_lock A op \/ may_unlock A op -> (forall d, d ∈ A -> ~ same_kind op d) /\ (spec_ok A -> spec_ok (op :: A)).
Proof.
  intros [H|H]; split.
  - intros d Hd. by apply H.
  - intros HA. by apply spec_ok_lock.
  - apply H.
  - intros HA. by apply spec_ok_unlock.
Qed.

Lemma sim_replay s A tx c op a o mem : implements s A -> s.(sys_txs) !! tx = Some (TxState c Running None) ->
  request tx op -> follows s op -> s.(sys_table).(objs_) !! a = Some o -> o.(obj_lock_id_) = op_id op ->
  runs (at_obj a (recover_lock mem op)) (fun ret t => (ret = OB_EAGAIN -> o.(is_deleted_) = true) /\
    simulated A (set_tx tx (TxState c Running (if ob_succ ret then Some (Acquired op) else None)) t s)) s.(sys_table).
Proof.
  intros I Hx Hr Hf Ha Hid. destruct (im_txs _ _ I _ _ Hx) as [T1 T2 T4]. pose proof (im_objs _ _ I a o Ha) as [Ho S2 S3].
  pose proof (follows_may s A op I Hf) as Hmay. destruct (may_fresh A op Hmay) as [Hnew Hspec]. specialize (Hspec (im_spec _ _ I)).
  assert (forall o', o.(is_deleted_) = false ->
    (recorded op -> becomes o o' (op :: all_ops o) o.(row_share_) o.(row_exclusive_)) ->
    (~ recorded op -> becomes o o' (all_ops o) (o.(row_share_) + one (op_mode op) ROW_SHARE) (o.(row_exclusive_) + one (op_mode op) ROW_EXCLUSIVE)) ->
    simulated A (set_tx tx (TxState c Running (Some (Acquired op))) (set_objs (<[a := o']> s.(sys_table).(objs_)) s.(sys_table)) s)) as HS.
  { intros o' Hd HR HU. exists (op :: A). split; [right; destruct Hmay; [by apply (spec_lock _ op) | by apply (spec_unlock _ op)]|].
    eapply im_effect; [done | done | done | done | done | apply at_place_set |]. by eapply effect_add. }
  eapply runs_at_obj; [done|]. apply runs_recover_lock; [done | apply Hr | apply Hr |..].
  - intros d Hd Ek. apply (Hnew d); [by eapply recorded_in|]. split; [|done]. destruct (is_deleted_ o).
    + rewrite (proj1 (S3 eq_refl)) in Hd. by apply not_elem_of_nil in Hd.
    + rewrite (lv_ops _ _ _ _ (S2 eq_refl)) in Hd. apply elem_of_records in Hd as (_ & Ei & _). congruence.
  - intros ret o' Hret B. assert (ret <> OB_SUCCESS) as Hne by (by destruct Hret as [-> |[-> _]]). split; [by destruct Hret as [-> |[_ ?]]|]. apply simulated_same.
    eapply im_refused; [done | done | done | apply at_place_set | done | done |]. unfold ob_succ. rewrite (proj2 (Z.eqb_neq _ _) Hne). by constructor.
  - intros o' Hd Hrec B. split; [done|]. by apply HS.
  - intros o' Hd Hrec B. split; [done|]. apply HS; [done | congruence | done].
Qed.

(** ** Compaction *)

Lemma not_unlocked s A a o c : implements s A -> s.(sys_table).(objs_) !! a = Some o -> c ∈ all_ops o -> ~ unlocked c.
Proof.
  intros I Ha Hc [Ht Hst]. destruct (im_objs _ _ I a o Ha) as [_ S2 S3]. destruct (is_deleted_ o).
  - destruct (S3 eq_refl) as [E _]. rewrite E in Hc. by apply not_elem_of_nil in Hc.
  - rewrite (lv_ops _ _ _ _ (S2 eq_refl)) in Hc. apply elem_of_records in Hc as (_ & _ & HA).
    destruct (ok_kinds _ (im_spec _ _ I) c HA) as [?|[? _]]; congruence.
Qed.

Lemma sim_compact s A is_force a r t : implements s A -> at_obj a (compact_tablelock is_force) s.(sys_table) = Some (r, t) ->
  implements (System t s.(sys_txs)) A.
Proof.
  intros I H. destruct (objs_ (sys_table s) !! a) as [o|] eqn:Ha; [|by unfold at_obj in H; rewrite Ha in H].
  pose proof (oo_shape _ _ _ _ (im_objs _ _ I a o Ha)) as Ho.
  refine (runs_Some _ (fun _ t => implements (System t s.(sys_txs)) A) _ _ _ _ H). eapply runs_at_obj; [done|].
  apply runs_compact_tablelock; [done | by intros c Hc; eapply not_unlocked |].
  eapply im_same; [done | done | by apply unchanged_refl | apply at_place_set].
Qed.
