(* ===== verification/LockRelease.v ===== *)
(** * Locks are given up

    The simulation for the steps that take an operation out of a context: a failed
    record, rollback, and the end of a transaction. *)

From Stdlib Require Import ZArith Lia Bool.
From stdpp Require Import base countable numbers option gmap list.
From S2P Require Import Prelude Serialization Scn TableLockCommon ObjLock LockTable LockMemCtx ObjLockFacts ObjLockGrant ObjLockEnd LockSystem LockRefinement LockCheckpoint LockSimulation.
Import AbortMonad.

Local Open Scope Z_scope.

(** ** The table *)

Section release.
Context (s : system) (A : op_list) (tx : ObTransID) (x x' : tx_state) (op : LockOp.t).
Hypothesis (I : implements s A) (Hx : s.(sys_txs) !! tx = Some x).
Hypothesis (Hp : committing x.(tx_phase) = true -> committing x'.(tx_phase) = true).
Hypothesis (Hnodes : nodes_ok x'.(tx_ctx)) (Hpend : pending_ok tx x') (Hheld : held x ≡ₚ op :: held x').

Lemma release_op : op ∈ A /\ request tx op.
Proof.
  destruct (held_doing s A tx x op I Hx) as (? & ? & ? & ? & ?); [rewrite Hheld; by left|]. by split.
Qed.

Lemma release_object : exists a o, s.(sys_table).(lock_map_) !! op_id op = Some a /\ s.(sys_table).(objs_) !! a = Some o /\
  o.(obj_lock_id_) = op_id op /\ o.(is_deleted_) = false.
Proof.
  destruct (ok_object _ _ (im_ops _ _ I op (proj1 release_op))) as [a Ha].
  destruct (im_map _ _ I _ _ Ha) as (o & Ho & Hid & Hd). by exists a, o.
Qed.

(** The record is removed. *)
Lemma runs_map_remove (Q : () -> lock_table -> Prop) : (forall t, simulated A (set_tx tx x' t s) -> Q () t) ->
  runs (map_remove_lock_record op) Q s.(sys_table).
Proof.
  intros HQ. destruct release_op as [HopA Hr]. destruct release_object as (a & o & Hm & Ha & Hid & Hd).
  unfold map_remove_lock_record. apply runs_bind, runs_reads. unfold id. rewrite (proj1 (im_inited _ _ I)). cbn.
  pose proof Hr as (_ & Hst & Hv & Hmode). rewrite Hv. cbn. rewrite Hm. eapply runs_at_obj; [done|].
  assert (forall o', (recorded op -> becomes o o' (removed op (all_ops o)) o.(row_share_) o.(row_exclusive_)) ->
    (~ recorded op -> becomes o o' (all_ops o) (o.(row_share_) - one (op_mode op) ROW_SHARE)
       (o.(row_exclusive_) - one (op_mode op) ROW_EXCLUSIVE)) ->
    Q () (set_objs (<[a := o']> s.(sys_table).(objs_)) s.(sys_table))) as Hend.
  { intros o' H1 H2. apply HQ. destruct (effect_remove s A a o tx x x' op I Ha Hd Hx Hr (eq_sym Hid) Hnodes Hpend o' Hheld H1 H2) as (A' & EA & E).
    exists A'. split; [right; by apply (spec_release _ op)|]. eapply im_effect; [done | done | done | done | done | apply at_place_set | done]. }
  apply runs_remove_lock_op; [apply (im_objs _ _ I a o Ha) | done | done |..].
  - intros Hrec o' B. apply Hend; [done | congruence].
  - intros Hrec o' B. apply Hend; [congruence | done].
Qed.

Lemma runs_memtable_remove (Q : () -> lock_table -> Prop) : (forall t, simulated A (set_tx tx x' t s) -> Q () t) ->
  runs (memtable_remove_lock_record op) Q s.(sys_table).
Proof.
  intros HQ. unfold memtable_remove_lock_record. apply runs_bind, runs_reads. rewrite (proj2 (im_inited _ _ I)). cbn.
  destruct release_op as [_ (_ & _ & -> & _)]. by apply runs_map_remove.
Qed.

(** The operation completes. *)
Hypothesis (Hout : LockOp.is_out_trans_lock_op op = true) (Hend : committing x'.(tx_phase) = true).

Lemma runs_update_status v scn (Q : Z -> lock_table -> Prop) :
  (forall t, simulated A (set_tx tx x' t s) -> Q OB_SUCCESS t) ->
  runs (map_update_lock_status op v scn LOCK_OP_COMPLETE) Q s.(sys_table).
Proof.
  intros HQ. destruct release_op as [HopA Hr]. destruct release_object as (a & o & Hm & Ha & Hid & Hd).
  unfold map_update_lock_status. apply runs_bind, runs_reads. rewrite (proj1 (im_inited _ _ I)). cbn.
  pose proof Hr as (_ & Hst & Hv & Hmode). rewrite Hv. cbn. unfold get_obj_lock_with_ref_. apply runs_bind, runs_bind, runs_reads.
  unfold id. rewrite (proj1 (im_inited _ _ I)). cbn. rewrite Hm. apply runs_ret. eapply runs_at_obj; [done|].
  destruct (im_objs _ _ I a o Ha) as [S1 S2 _]. destruct (S2 Hd) as [L1 L2 L3 L4].
  assert (recorded op) as Hrec by (unfold LockOp.need_record_lock_op, LockOp.is_out_trans_lock_op in *; by rewrite Hout).
  assert (op ∈ all_ops o) as Hin by (rewrite L2; apply elem_of_records; by split_and!).
  assert (NoDup (op_key <$> all_ops o)) as Hn.
  { apply (NoDup_keys_perm (records (obj_lock_id_ o) A)); [done | apply records_keys, I]. }
  unfold LockOp.is_out_trans_lock_op in Hout. destruct (op_type op) eqn:Ht; try done.
  - eapply runs_complete_lock; try done; [by rewrite Ht|]. intros rest o' Eo B. apply HQ.
    destruct (effect_complete s A a o tx x x' op I Ha Hd Hx Hr (eq_sym Hid) Hnodes Hpend v scn rest o' Hheld Hend Ht Eo B) as (A' & EA & E).
    eexists. split; [right; by eapply (spec_complete _ op v scn A')|].
    eapply im_effect; [done | done | done | done | done | apply at_place_set | done].
  - destruct (ok_unlock _ (im_spec _ _ I) op HopA Ht) as (c & HcA & Ec & Hs & Hc).
    eapply (runs_complete_unlock op v scn) with (c := c); try done; [by rewrite Ht | |].
    { rewrite L2. apply elem_of_records. split_and!; [|congruence | done]. unfold LockOp.need_record_lock_op. by rewrite (proj1 Hc). }
    intros rest o' Eo B. apply HQ.
    destruct (effect_unlocked s A a o tx x x' op I Ha Hd Hx Hr (eq_sym Hid) Hnodes Hpend c rest o' Hheld Ht Hs Hc Eo B) as (A' & EA & Ei & E).
    exists A'. split; [right; by eapply (spec_unlocked _ op c)|].
    eapply im_effect; [done | done | done | done | done | apply at_place_set | done].
Qed.
End release.

(** ** The context *)

Lemma sim_noted A tx x' t s scn : simulated A (set_tx tx x' t s) -> simulated A (set_tx tx x' (noted scn t) s).
Proof. intros (A' & HM & I). exists A'. split; [done|]. by apply (im_table (set_tx tx x' t s)). Qed.

Lemma runs_memtable_update s A tx x x' op v scn (Q : Z -> lock_table -> Prop) : implements s A -> s.(sys_txs) !! tx = Some x ->
  (committing x.(tx_phase) = true -> committing x'.(tx_phase) = true) -> nodes_ok x'.(tx_ctx) -> pending_ok tx x' -> held x ≡ₚ op :: held x' ->
  LockOp.is_out_trans_lock_op op = true -> committing x'.(tx_phase) = true -> scn_le scn s.(sys_table).(flushed_scn_) = false ->
  (forall t, simulated A (set_tx tx x' t s) -> Q OB_SUCCESS t) ->
  runs (memtable_update_lock_status op v scn LOCK_OP_COMPLETE) Q s.(sys_table).
Proof.
  intros I Hx Hp Hno Hpe Hh Hout Hend Hscn HQ. unfold memtable_update_lock_status. apply runs_bind, runs_reads. unfold id.
  rewrite (proj2 (im_inited _ _ I)), Hscn. cbn. destruct (release_op s A tx x x' op I Hx Hh) as [_ (_ & _ & -> & _)].
  rewrite andb_false_r. cbn. apply runs_bind. eapply runs_update_status; [done..|]. intros t Ht. cbn.
  apply runs_if; intros _; [|by apply runs_ret, HQ]. apply runs_bind, runs_note, runs_ret, HQ. by apply sim_noted.
Qed.

Lemma runs_on_table {B} (m : LT B) c t (Q : B -> tx_view -> Prop) : runs m (fun x t => Q x (TxView c t)) t ->
  runs (on_table m) Q (TxView c t).
Proof. unfold runs, on_table. cbn. by destruct (m t) as [[]|]. Qed.

Lemma runs_on_ctx f c t (Q : () -> tx_view -> Prop) : Q () (TxView (f c) t) -> runs (on_ctx f) Q (TxView c t).
Proof. done. Qed.

Lemma remove_node_perm (l : list lock_node) n : NoDup (node_addr <$> l) -> n ∈ l ->
  l ≡ₚ n :: filter (fun m => m.(node_addr) <> n.(node_addr)) l.
Proof.
  induction l as [|m l IH]; intros Hn Hin; [by apply not_elem_of_nil in Hin|].
  rewrite fmap_cons in Hn. apply NoDup_cons in Hn as [Hm Hn]. rewrite filter_cons. apply elem_of_cons in Hin as [->|Hin].
  - rewrite decide_False by (intros []; done). f_equiv. rewrite filter_all; [done|]. intros k Hk E. apply Hm.
    rewrite <- E. by apply list_elem_of_fmap_2.
  - rewrite decide_True; [|intros E; apply Hm; rewrite E; by apply list_elem_of_fmap_2].
    rewrite (IH Hn Hin) at 1. apply perm_swap.
Qed.

Lemma NoDup_fmap_filter {B C} (f : B -> C) (P : B -> Prop) `{forall x, Decision (P x)} (l : list B) :
  NoDup (f <$> l) -> NoDup (f <$> filter P l).
Proof. intros H1. eapply sublist_NoDup; [exact H1|]. apply fmap_sublist, sublist_filter. Qed.

(** A computation with what it leaves alone. *)
Lemma runs_steady {X B} (f : lock_table -> X) (m : LT B) t (Q : B -> lock_table -> Prop) : steady f m ->
  runs m (fun x t' => f t' = f t -> Q x t') t -> runs m Q t.
Proof. intros Hm. unfold runs. destruct (m t) as [[x t']|] eqn:E; [|done]. intros H. apply H, (Hm _ _ _ E). Qed.

Lemma steady_flushed_at_obj {B} a (m : OL B) : steady flushed_scn_ (at_obj a m).
Proof. intros t x t' H. apply steady_at_obj in H. unfold scns_of in H. congruence. Qed.

Lemma steady_flushed_scns freeze rec pre_rec committed frozen :
  steady flushed_scn_ (update (fun s => set_scns (freeze s) s.(flushed_scn_) (rec s) (pre_rec s) (committed s) (frozen s) s)).
Proof. intros t y t' H. by inversion H. Qed.

#[local] Hint Resolve steady_flushed_at_obj steady_flushed_scns : steady.

Lemma steady_remove op : steady flushed_scn_ (memtable_remove_lock_record op).
Proof. unfold memtable_remove_lock_record, map_remove_lock_record. steady. Qed.

Lemma steady_memtable_update op v scn st : steady flushed_scn_ (memtable_update_lock_status op v scn st).
Proof. unfold memtable_update_lock_status, map_update_lock_status, get_obj_lock_with_ref_, note_commit_scn. steady. Qed.

(** A node leaves the list. *)
Section node.
Context (s : system) (A : op_list) (tx : ObTransID) (c : mem_ctx) (p : phase) (n : lock_node).
Hypothesis (I : implements s A) (Hx : s.(sys_txs) !! tx = Some (TxState c p None)) (Hn : n ∈ c.(lock_list_)).

Local Abbreviation x' := (TxState (remove_node n.(node_addr) c) p None).

Lemma node_nodes_ok : nodes_ok x'.(tx_ctx).
Proof.
  destruct (im_txs _ _ I _ _ Hx) as [_ [N1 N2 N3 N4 N5] _]. constructor; cbn; try done; [by apply NoDup_fmap_filter|..];
    intros m [_ Hm]%list_elem_of_filter; [by apply N2 | by apply N4].
Qed.

Lemma node_held : held (TxState c p None) ≡ₚ n.(node_op) :: held x'.
Proof.
  destruct (im_txs _ _ I _ _ Hx) as [_ [T2 _ _ _ _] _]. unfold held, ctx_ops. cbn. cbn in T2.
  by rewrite (remove_node_perm _ n T2 Hn) at 1.
Qed.

(** The node is gone and [flushed_scn_] is what it was. *)
Definition gone (Q : tx_view -> Prop) : Prop :=
  forall t, simulated A (set_tx tx x' t s) -> t.(flushed_scn_) = s.(sys_table).(flushed_scn_) ->
    Q (TxView (remove_node n.(node_addr) c) t).

Lemma runs_give_up (Q : () -> tx_view -> Prop) : gone (Q ()) -> runs (give_up_node n) Q (TxView c s.(sys_table)).
Proof.
  intros HQ. apply runs_bind, runs_on_table, (runs_steady flushed_scn_); [apply steady_remove|].
  eapply (runs_memtable_remove s A tx _ x'); [done | done | done | apply node_nodes_ok | done | apply node_held |].
  intros t Ht E. by apply runs_on_ctx, HQ.
Qed.

Lemma runs_commit_turn v scn (Q : Z -> tx_view -> Prop) : committing p = true -> scn_le scn s.(sys_table).(flushed_scn_) = false ->
  gone (Q OB_SUCCESS) -> runs (commit_turn v scn n) Q (TxView c s.(sys_table)).
Proof.
  intros Hp Hscn HQ. unfold commit_turn.
  assert (forall t, simulated A (set_tx tx x' t s) -> t.(flushed_scn_) = s.(sys_table).(flushed_scn_) ->
    runs (ctx_remove_lock_record n.(node_addr) ;; mret OB_SUCCESS) Q (TxView c t)) as Hend.
  { intros t Ht E. by apply runs_bind, runs_on_ctx, runs_ret, HQ. }
  destruct (release_op s A tx _ x' (node_op n) I Hx node_held) as [HopA (_ & _ & Hv & _)].
  destruct (op_type (node_op n)) eqn:Et.
  1, 6: unfold LockOp.is_valid, LockOp.is_out_trans_lock_op in Hv; rewrite Et in Hv; cbn in Hv; rewrite ?andb_false_r in Hv; done.
  1, 4: apply runs_bind, runs_bind, runs_on_table, (runs_steady flushed_scn_); [apply steady_remove|];
    eapply (runs_memtable_remove s A tx _ x'); [done | done | done | apply node_nodes_ok | done | apply node_held |];
    intros t Ht E; by apply runs_ret, Hend.
  1, 2: apply runs_bind, runs_on_table, (runs_steady flushed_scn_); [apply steady_memtable_update|];
    eapply (runs_memtable_update s A tx _ x'); [done | done | done | apply node_nodes_ok | done | apply node_held | | done | done |];
    [by unfold LockOp.is_out_trans_lock_op; rewrite Et|]; intros t Ht E; by apply Hend.
Qed.

Lemma runs_callback (Q : Z -> tx_view -> Prop) : is_in_trans n.(node_op) -> gone (Q OB_SUCCESS) ->
  runs (callback_ n) Q (TxView c s.(sys_table)).
Proof.
  intros [Ht|Ht] HQ; unfold callback_; rewrite Ht; apply runs_bind, runs_give_up; intros t H1 H2; by apply runs_ret, HQ.
Qed.

Lemma runs_abort_turn (Q : Z -> tx_view -> Prop) : gone (Q OB_SUCCESS) -> runs (abort_turn n) Q (TxView c s.(sys_table)).
Proof. intros HQ. apply runs_bind, runs_give_up. intros t H1 H2. by apply runs_ret, HQ. Qed.

Lemma runs_end_turn callback commit v scn (Q : Z -> tx_view -> Prop) : (commit = true -> committing p = true) ->
  (commit = true -> scn_le scn s.(sys_table).(flushed_scn_) = false) ->
  (forall ret w, simulated A (set_tx tx (TxState w.(ctx) p None) w.(table) s) -> Q ret w) ->
  runs (end_turn callback commit v scn n) Q (TxView c s.(sys_table)).
Proof.
  intros Hp Hscn HQ. assert (simulated A (set_tx tx (TxState c p None) s.(sys_table) s)) as Hsame.
  { apply simulated_same. eapply im_tx; [done | done | done | by apply I]. }
  assert (gone (Q OB_SUCCESS)) as Hgone by (intros t Ht _; by apply HQ).
  unfold end_turn. destruct callback.
  - destruct (op_type (node_op n)) eqn:Et; try (unfold callback_; rewrite Et; by apply runs_ret, HQ).
    + apply runs_callback; [by left | done].
    + apply runs_callback; [by right | done].
  - destruct commit; [apply runs_commit_turn; [by apply Hp | by apply Hscn | done] | by apply runs_abort_turn].
Qed.
End node.

(** ** The record of an operation that the object has *)

(** The node [n] is added. *)
Definition with_node (op : LockOp.t) (c c' : mem_ctx) : Prop :=
  c'.(lock_list_) = c.(lock_list_) ++ [LockNode c.(next_node_) op] /\ c'.(next_node_) = S c.(next_node_) /\
  c'.(callbacks_) = c.(callbacks_) ++ (if LockOp.need_register_callback op then [c.(next_node_)] else []) /\
  c'.(memtable_valid_) = c.(memtable_valid_).

Definition without_node (c c' : mem_ctx) : Prop :=
  c'.(lock_list_) = c.(lock_list_) /\ (c.(next_node_) <= c'.(next_node_))%nat /\ c'.(callbacks_) = c.(callbacks_) /\
  c'.(memtable_valid_) = c.(memtable_valid_).

(** The node is taken off again. *)
Lemma dropped_node op c : (forall n, n ∈ c.(lock_list_) -> (n.(node_addr) < c.(next_node_))%nat) ->
  without_node c (remove_node c.(next_node_) (set_next_node (S c.(next_node_)) (set_lock_list (c.(lock_list_) ++ [LockNode c.(next_node_) op]) c))).
Proof.
  intros Hnext. unfold without_node. cbn. split_and!; [| lia | done | done].
  rewrite filter_app, filter_all; [|intros n Hn E; specialize (Hnext n Hn); lia].
  rewrite filter_none; [by rewrite app_nil_r|]. intros n ->%list_elem_of_singleton. cbn. tauto.
Qed.

(** The codes of a failure. *)
Definition add_code (e : lock_env) (ret : Z) : Prop := ret = OB_ALLOCATE_MEMORY_FAILED \/ ret = e.(e_register_mds) \/ ret = e.(e_register_cb).

Lemma runs_add_lock_record e op c t (Q : Z -> tx_view -> Prop) : LockOp.is_valid op = true -> nodes_ok c ->
  (forall ret c', ret <> OB_SUCCESS -> add_code e ret -> without_node c c' -> Q ret (TxView c' t)) ->
  (forall c', with_node op c c' -> Q OB_SUCCESS (TxView c' t)) ->
  runs (add_lock_record e op) Q (TxView c t).
Proof.
  intros Hv [_ Hnext _ _ _] HF HS. unfold add_lock_record. rewrite Hv. cbn. apply runs_bind.
  unfold ctx_add_lock_record. rewrite Hv. cbn. destruct (e_node_alloc e); cbn; [|by apply runs_ret, HF; [|left|]].
  apply runs_bind, runs_reads, runs_bind, runs_on_ctx, runs_ret. cbn.
  match goal with |- context [ob_fail ?r] => set (ret := r); destruct (ob_fail ret) eqn:Hret end.
  - apply runs_bind, runs_on_ctx, runs_ret, HF; [by intros E; rewrite E in Hret | | by apply dropped_node].
    right. clear - Hret. unfold ret in *. repeat case_match; auto; done.
  - apply runs_bind. unfold with_node in HS. destruct (LockOp.need_register_callback op); [apply runs_on_ctx | apply runs_ret];
      apply runs_ret; apply HS; cbn; by rewrite ?app_nil_r.
Qed.

Lemma without_node_ok c c' : without_node c c' -> nodes_ok c -> nodes_ok c'.
Proof.
  intros (El & En & Ec & Ev) [N1 N2 N3 N4 N5]. constructor; rewrite ?El, ?Ec; try done; [| |congruence].
  - intros n Hn. specialize (N2 n Hn). lia.
  - intros k Hk. specialize (N3 k Hk). lia.
Qed.

Lemma registered_in_trans op : LockOp.is_valid op = true -> LockOp.need_register_callback op = true -> is_in_trans op.
Proof.
  unfold LockOp.need_register_callback, LockOp.is_valid, LockOp.is_out_trans_lock_op, is_in_trans.
  destruct (op_type op); cbn; rewrite ?andb_false_r; auto; done.
Qed.

Lemma with_node_ok op c c' : LockOp.is_valid op = true -> with_node op c c' -> nodes_ok c -> nodes_ok c'.
Proof.
  intros Hv (El & En & Ec & Ev) [N1 N2 N3 N4 N5]. constructor; rewrite ?El, ?Ec, ?En; [..|congruence].
  - rewrite fmap_app, NoDup_app. split_and!; [done | | apply NoDup_singleton].
    intros k (n & -> & Hn)%list_elem_of_fmap Hk%list_elem_of_singleton. cbn in Hk. specialize (N2 n Hn). lia.
  - intros n [Hn| ->%list_elem_of_singleton]%elem_of_app; [specialize (N2 n Hn); lia | cbn; lia].
  - intros k [Hk|Hk]%elem_of_app; [specialize (N3 k Hk); lia|]. destruct (LockOp.need_register_callback op);
      [apply list_elem_of_singleton in Hk; lia | by apply not_elem_of_nil in Hk].
  - intros n Hn [Hk|Hk]%elem_of_app.
    + apply elem_of_app in Hn as [Hn| ->%list_elem_of_singleton]; [by apply N4|]. specialize (N3 _ Hk). cbn in N3. lia.
    + destruct (LockOp.need_register_callback op) eqn:Er; [|by apply not_elem_of_nil in Hk].
      apply list_elem_of_singleton in Hk. apply elem_of_app in Hn as [Hn| ->%list_elem_of_singleton]; [specialize (N2 n Hn); lia|].
      by apply registered_in_trans.
Qed.

(** The same in replay, where a callback moves [max_durable_scn_] too. *)
Lemma runs_replay_add_lock_record e op scn c t (Q : Z -> tx_view -> Prop) : LockOp.is_valid op = true -> nodes_ok c ->
  (forall ret c', ret <> OB_SUCCESS -> add_code e ret -> without_node c c' -> Q ret (TxView c' t)) ->
  (forall c', with_node op c c' -> Q OB_SUCCESS (TxView c' t)) ->
  runs (replay_add_lock_record e op scn) Q (TxView c t).
Proof.
  intros Hv [_ Hnext _ _ _] HF HS. unfold replay_add_lock_record. rewrite Hv. cbn. apply runs_bind.
  unfold ctx_add_lock_record. rewrite Hv. cbn. destruct (e_node_alloc e); cbn; [|by apply runs_ret, HF; [|left|]].
  apply runs_bind, runs_reads, runs_bind, runs_on_ctx, runs_ret. cbn. unfold with_node in HS.
  destruct (LockOp.need_register_callback op); cbn; [|apply runs_ret, HS; cbn; by rewrite app_nil_r].
  destruct (ob_fail (e_register_cb e)) eqn:Hret.
  - apply runs_bind, runs_on_ctx, runs_ret, HF; [by intros E; rewrite E in Hret | by do 2 right | by apply dropped_node].
  - apply runs_bind, runs_on_ctx, runs_ret, HS. unfold sync_log_succ. by case_match.
Qed.

Section record.
Context (s : system) (A : op_list) (tx : ObTransID) (c : mem_ctx) (op : LockOp.t).
Hypothesis (I : implements s A) (Hx : s.(sys_txs) !! tx = Some (TxState c Running (Some (Acquired op)))).

Local Abbreviation recorded_as v := (simulated A (set_tx tx (TxState v.(ctx) Running None) v.(table) s)).

Lemma record_valid : LockOp.is_valid op = true /\ nodes_ok c.
Proof.
  destruct (im_txs _ _ I _ _ Hx) as [_ T2 _]. destruct (held_doing s A tx _ op I Hx) as (_ & _ & _ & _ & Hv); [by left | done].
Qed.

Lemma runs_taken_back ret c' (Q : Z -> tx_view -> Prop) : ret <> OB_SUCCESS -> without_node c c' ->
  (forall t, recorded_as (TxView c' t) -> Q ret (TxView c' t)) ->
  runs ((if ob_fail ret then on_table (map_remove_lock_record op) else mret ()) ;; mret ret) Q (TxView c' s.(sys_table)).
Proof.
  intros Hne W HQ. rewrite ne_ob_fail by done. apply runs_bind, runs_on_table.
  eapply (runs_map_remove s A tx _ (TxState c' Running None)); [done | done | done | | done | |].
  - by apply (without_node_ok c), record_valid.
  - unfold held, ctx_ops. cbn. by rewrite (proj1 W).
  - intros t Ht. by apply runs_ret, HQ.
Qed.

Lemma recorded_node c' : with_node op c c' -> implements (set_tx tx (TxState c' Running None) s.(sys_table) s) A.
Proof.
  intros W. destruct (im_txs _ _ I _ _ Hx) as [T1 T2 T4]. eapply im_tx; [done | done | done |].
  constructor; cbn; [| by apply (with_node_ok op c); [apply record_valid | |] | done].
  rewrite <- T1. unfold held, ctx_ops. cbn. rewrite (proj1 W), fmap_app. cbn. symmetry. apply Permutation_cons_append.
Qed.

(** Either way of adding the node. *)
Lemma runs_record_with e (add : TX Z) (Q : Z -> tx_view -> Prop) :
  (forall Q : Z -> tx_view -> Prop, (forall ret c', ret <> OB_SUCCESS -> add_code e ret -> without_node c c' -> Q ret (TxView c' s.(sys_table))) ->
     (forall c', with_node op c c' -> Q OB_SUCCESS (TxView c' s.(sys_table))) -> runs add Q (TxView c s.(sys_table))) ->
  (forall ret v, ret <> OB_SUCCESS -> add_code e ret -> recorded_as v -> Q ret v) ->
  (forall c', with_node op c c' -> Q OB_SUCCESS (TxView c' s.(sys_table))) ->
  runs (ret ← add; (if ob_fail ret then on_table (map_remove_lock_record op) else mret ()) ;; mret ret) Q (TxView c s.(sys_table)).
Proof.
  intros Hadd HF HS. apply runs_bind, Hadd.
  - intros ret c' Hne Hc W. apply runs_taken_back; [done | done |]. intros t Ht. by apply HF.
  - intros c' W. by apply runs_bind, runs_ret, runs_ret, HS.
Qed.

(** What recording leaves, and the operation in the context when it succeeds. *)
Definition record_result (e : lock_env) (ret : Z) (v : tx_view) : Prop :=
  recorded_as v /\ (ret = OB_SUCCESS -> op ∈ ctx_ops v.(ctx)) /\ (ret <> OB_SUCCESS -> add_code e ret).

Lemma with_node_result e c' : with_node op c c' -> record_result e OB_SUCCESS (TxView c' s.(sys_table)).
Proof.
  intros W. split_and!; [by apply simulated_same, recorded_node | | done]. intros _. unfold ctx_ops. cbn.
  rewrite (proj1 W), fmap_app. apply elem_of_app. right. by left.
Qed.

Lemma runs_record e : runs (record_or_remove e op) (record_result e) (TxView c s.(sys_table)).
Proof.
  apply (runs_record_with e); [| by intros ret v Hne Hc Hv; split_and!; [|intros ->|] | apply with_node_result].
  intros Q HF HS. by apply runs_add_lock_record; [apply record_valid.. | |].
Qed.

Lemma runs_replay_record e scn : runs (replay_record_or_remove e op scn) (record_result e) (TxView c s.(sys_table)).
Proof.
  apply (runs_record_with e); [| by intros ret v Hne Hc Hv; split_and!; [|intros ->|] | apply with_node_result].
  intros Q HF HS. by apply runs_replay_add_lock_record; [apply record_valid.. | |].
Qed.
End record.

(** ** All steps *)

Lemma sim_step s s' A : implements s A -> step s s' -> simulated A s'.
Proof.
  intros I Hs. destruct Hs.
  - by apply simulated_same, sim_begin.
  - by eapply simulated_same, sim_count.
  - by eapply simulated_same, sim_create.
  - by eapply sim_acquire.
  - by eapply simulated_same, sim_give_up.
  - by eapply sim_unlock.
  - match goal with H : record_or_remove _ _ _ = _ |- _ => by refine (proj1 (runs_Some _ _ _ _ _ (runs_record s A tx c op I _ e) H)) end.
  - match goal with H : at_obj _ _ _ = _ |- _ => refine (proj2 (runs_Some _ _ _ _ _ (sim_replay s A tx c op a o mem I _ _ _ _ _) H)) end; done.
  - match goal with H : replay_record_or_remove _ _ _ _ = _ |- _ => by refine (proj1 (runs_Some _ _ _ _ _ (runs_replay_record s A tx c op I _ e scn) H)) end.
  - match goal with H : give_up_node _ _ = _ |- _ =>
      refine (runs_Some _ (fun _ v => simulated A (set_tx tx (TxState v.(ctx) Running None) v.(table) s)) _ _ _ _ H) end.
    eapply runs_give_up; [done | done | done |]. intros t Ht _. exact Ht.
  - by apply simulated_same, sim_end.
  - match goal with H : end_turn _ _ _ _ _ _ = _ |- _ =>
      refine (runs_Some _ (fun _ v => simulated A (set_tx tx (TxState v.(ctx) (Ending commit version scn) None) v.(table) s)) _ _ _ _ H) end.
    eapply runs_end_turn; try done. by intros ->.
  - by eapply simulated_same, sim_compact.
  - by eapply simulated_same, sim_drop.
  - eapply simulated_same, sim_steady; [done | apply steady_flush | done].
  - eapply simulated_same, sim_steady; [done | apply steady_flushed | done].
Qed.

Lemma initial_implements s : initial s -> implements s [].
Proof.
  intros [t H]. injection H as <-. constructor; try done; cbn.
  - by intros op ?%not_elem_of_nil.
  - apply spec_reachable_ok. constructor.
Qed.

Lemma reachable_implements s : reachable s -> exists A, spec_reachable A /\ implements s A.
Proof.
  induction 1 as [s Hi|s s' _ (A & HA & I) Hs]; [exists []; split; [constructor | by apply initial_implements]|].
  destruct (sim_step s s' A I Hs) as (A' & [->|HM] & I'); [by exists A|]. exists A'. split; [by eapply spec_more | done].
Qed.
