(* ===== verification/LockSafety.v ===== *)
(** * What the table locks promise

    The refinement and its consequences: locks of different transactions are compatible,
    no record is left behind, a request that is refused had a reason, the end of a
    transaction gives all its locks up, and no call faults. *)

From Stdlib Require Import ZArith Lia Bool.
From stdpp Require Import base countable numbers option gmap list.
From S2P Require Import Prelude Serialization Scn TableLockCommon ObjLock LockTable LockMemCtx ObjLockFacts ObjLockGrant ObjLockEnd LockSystem LockRefinement LockCheckpoint LockSimulation LockRelease.
Import AbortMonad.

Local Open Scope Z_scope.

(** ** The end of a transaction *)

Lemma set_tx_twice tx x y t t' s : set_tx tx y t' (set_tx tx x t s) = set_tx tx y t' s.
Proof. unfold set_tx. cbn. by rewrite insert_insert_eq. Qed.

Lemma set_tx_lookup tx x t s : (set_tx tx x t s).(sys_txs) !! tx = Some x.
Proof. apply lookup_insert_eq. Qed.

(** The state that a call left, in the system. *)
Definition left_ok (s : system) (tx : ObTransID) (p : phase) (v : tx_view) : Prop :=
  (exists A, implements (set_tx tx (TxState v.(ctx) p None) v.(table) s) A) /\
  v.(table).(flushed_scn_) = s.(sys_table).(flushed_scn_).

Section foreach.
Context (tx : ObTransID) (p : phase).

(** A turn that takes its node out, for every state. *)
Definition takes_out (f : lock_node -> TX Z) (scn_ok : SCN -> Prop) : Prop :=
  forall s A c n (Q : Z -> tx_view -> Prop), implements s A -> s.(sys_txs) !! tx = Some (TxState c p None) -> n ∈ c.(lock_list_) ->
    scn_ok s.(sys_table).(flushed_scn_) -> gone s A tx c p n (Q OB_SUCCESS) -> runs (f n) Q (TxView c s.(sys_table)).

Lemma runs_foreach f scn_ok nodes : takes_out f scn_ok -> forall s A c (Q : Z -> tx_view -> Prop), implements s A ->
  s.(sys_txs) !! tx = Some (TxState c p None) -> c.(lock_list_) = nodes -> scn_ok s.(sys_table).(flushed_scn_) ->
  (forall v, left_ok s tx p v -> v.(ctx).(lock_list_) = [] -> Q OB_SUCCESS v) ->
  runs (foreach_node nodes f) Q (TxView c s.(sys_table)).
Proof.
  intros Hf. induction nodes as [|n nodes IH]; intros s A c Q I Hx El Hscn HQ; cbn [foreach_node].
  - apply runs_ret, HQ; [|done]. split; [|done]. exists A. cbn. eapply im_tx; [done | done | done | by apply I].
  - apply runs_bind, (Hf s A c n); [done | done | rewrite El; by left | done |]. intros t (A' & _ & I') Et. cbn.
    apply (IH (set_tx tx (TxState (remove_node (node_addr n) c) p None) t s) A').
    + done.
    + apply set_tx_lookup.
    + cbn. destruct (im_txs _ _ I _ _ Hx) as [_ [N1 _ _ _ _] _]. cbn in N1. rewrite El in *. rewrite fmap_cons in N1.
      apply NoDup_cons in N1 as [N1 _]. rewrite filter_cons_False by tauto. apply filter_all. intros m Hm E. apply N1.
      rewrite <- E. by apply list_elem_of_fmap_2.
    + by cbn; rewrite Et.
    + intros v [(A2 & I2) E2] Hv. apply HQ; [|done]. rewrite set_tx_twice in I2. cbn in E2. split; [by exists A2 | congruence].
Qed.

Lemma takes_out_commit v scn : committing p = true -> takes_out (commit_turn v scn) (fun flushed => scn_le scn flushed = false).
Proof. intros Hp s A c n Q I Hx Hn Hs HQ. by eapply (runs_commit_turn s A tx c p n). Qed.

Lemma takes_out_abort : takes_out abort_turn (fun _ => True).
Proof. intros s A c n Q I Hx Hn Hs HQ. by eapply (runs_abort_turn s A tx c p n). Qed.

Lemma find_node_Some k c n : find_node k c = Some n -> n ∈ c.(lock_list_) /\ n.(node_addr) = k.
Proof.
  intros H. apply find_some in H as [H1%list_elem_of_In H2]. split; [done | by apply bool_decide_eq_true in H2].
Qed.

(** A callback is run and forgotten. *)
Lemma runs_callbacks commit ks : forall s A c (Q : Z -> tx_view -> Prop), implements s A ->
  s.(sys_txs) !! tx = Some (TxState c p None) -> (forall n, n ∈ c.(lock_list_) -> n.(node_addr) ∈ ks -> is_in_trans n.(node_op)) ->
  (forall v, left_ok s tx p v -> Q OB_SUCCESS v) -> runs (run_callbacks commit ks) Q (TxView c s.(sys_table)).
Proof.
  induction ks as [|k ks IH]; intros s A c Q I Hx Hks HQ; cbn [run_callbacks].
  { apply runs_ret, HQ. split; [|done]. exists A. eapply im_tx; [done | done | done | by apply I]. }
  apply runs_bind, runs_reads, runs_bind. cbn.
  assert (forall s' A' c', implements s' A' -> s'.(sys_txs) !! tx = Some (TxState c' p None) ->
    (forall v, left_ok s' tx p v -> left_ok s tx p v) -> (forall n, n ∈ c'.(lock_list_) -> n ∈ c.(lock_list_)) ->
    runs (on_ctx (fun c => set_callbacks (filter (fun m => m <> k) c.(callbacks_)) c) ;;
          if ob_fail OB_SUCCESS then mret OB_SUCCESS else run_callbacks commit ks) Q (TxView c' s'.(sys_table))) as Hend.
  { intros s' A' c' I' Hx' Hl Hsub. apply runs_bind, runs_on_ctx. cbn. set (c2 := set_callbacks _ c').
    assert (implements (set_tx tx (TxState c2 p None) s'.(sys_table) s') A') as I2.
    { eapply im_tx; [done | done | done |]. destruct (im_txs _ _ I' _ _ Hx') as [T1 [N1 N2 N3 N4 N5] T4]. constructor; [exact T1 | | done].
      constructor; cbn; try done.
      - intros m [_ Hm]%list_elem_of_filter. by apply N3.
      - intros n Hn [_ Hm]%list_elem_of_filter. by apply N4. }
    apply (IH (set_tx tx (TxState c2 p None) s'.(sys_table) s') A' c2); [done | apply set_tx_lookup | |].
    - intros n Hn Hk. apply Hks; [by apply Hsub | by right].
    - intros v [(A3 & I3) E3]. apply HQ, Hl. rewrite set_tx_twice in I3. split; [by exists A3 | done]. }
  destruct (find_node k c) as [n|] eqn:Hn; [|by apply runs_ret; eapply Hend].
  apply find_node_Some in Hn as [Hn <-].
  assert (gone s A tx c p n (fun v => runs (on_ctx (fun c => set_callbacks (filter (fun m => m <> node_addr n) c.(callbacks_)) c) ;;
          if ob_fail OB_SUCCESS then mret OB_SUCCESS else run_callbacks commit ks) Q v)) as Hgone.
  { intros t (A' & _ & I') Et. apply (Hend (set_tx tx (TxState (remove_node (node_addr n) c) p None) t s) A'); [done | apply set_tx_lookup |..].
    - intros v [(A3 & I3) E3]. rewrite set_tx_twice in I3. cbn in E3. split; [by exists A3 | congruence].
    - cbn. by intros m [_ ?]%list_elem_of_filter. }
  assert (is_in_trans (node_op n)) as Hin by (apply Hks; [done | by left]).
  destruct commit; by eapply (runs_callback s A tx c p n).
Qed.
End foreach.

Lemma runs_trans_end s A tx c commit v scn (Q : Z -> tx_view -> Prop) : implements s A ->
  s.(sys_txs) !! tx = Some (TxState c (Ending commit v scn) None) ->
  (commit = true -> scn_le scn s.(sys_table).(flushed_scn_) = false) ->
  (forall w, left_ok s tx (Ending commit v scn) w -> w.(ctx).(lock_list_) = [] -> Q OB_SUCCESS w) ->
  runs (trans_end commit v scn) Q (TxView c s.(sys_table)).
Proof.
  intros I Hx Hscn HQ. apply runs_bind, runs_reads, runs_bind. cbn.
  apply (runs_callbacks tx (Ending commit v scn) commit _ s A); [done | done | by apply (im_txs _ _ I _ _ Hx) |].
  intros [c1 t1] [(A1 & I1) E1]. cbn in *. set (s1 := set_tx _ _ _ _) in I1. unfold clear_table_lock.
  apply runs_bind, runs_reads. cbn. apply runs_if; intros Hl.
  { apply runs_ret, HQ; [split; [by exists A1 | done] | by apply bool_decide_eq_true in Hl]. }
  pose proof (set_tx_lookup tx (TxState c1 (Ending commit v scn) None) t1 s) as Hx1. fold s1 in Hx1.
  pose proof (no_valid _ (to_nodes _ _ _ (im_txs _ _ I1 _ _ Hx1))) as Hval. cbn in Hval. rewrite Hval. cbn.
  assert (forall w, left_ok s1 tx (Ending commit v scn) w -> w.(ctx).(lock_list_) = [] -> Q OB_SUCCESS w) as HQ1.
  { intros w [(A2 & I2) E2] Hw. apply HQ; [|done]. unfold s1 in I2. rewrite set_tx_twice in I2. split; [by exists A2 | by rewrite E2]. }
  destruct commit.
  - apply runs_bind, runs_reads. cbn.
    apply (runs_foreach tx (Ending true v scn) (commit_turn v scn) (fun flushed => scn_le scn flushed = false) _
             (takes_out_commit tx (Ending true v scn) v scn eq_refl) s1 A1); [done | done | done | | done].
    cbn. rewrite E1. by apply Hscn.
  - apply runs_bind, runs_bind, runs_reads, runs_bind. cbn.
    apply (runs_foreach tx (Ending false v scn) abort_turn (fun _ => True) _ (takes_out_abort tx _) s1 A1); [done | done | done | done |].
    intros w Hw El. by apply runs_ret, runs_ret, HQ1.
Qed.

(** ** Theorems *)

(** C5: the lock table refines a bag of operations.  The empty system implements the
    empty bag; a step of a transaction or of a background task either leaves the bag as
    it is or is one of five moves: a lock that is compatible with what other
    transactions hold is added, an unlock of a completed lock is added, an operation of
    a transaction that is not completed is taken out, a lock is marked as completed, a
    completed unlock disappears together with its lock. *)
Theorem lock_table_refines_spec :
  (forall s, initial s -> implements s []) /\
  (forall s s' A, implements s A -> step s s' -> exists A', (A' = A \/ spec_step A A') /\ implements s' A').
Proof. split; [exact initial_implements|]. intros s s' A I Hs. by destruct (sim_step s s' A I Hs) as (A' & HM & I'); exists A'. Qed.

(** C3: table locks exclude each other.  In every state that transactions and background
    tasks can reach, two locks of different transactions on one object - of whatever
    kind, held by a transaction or left behind by one that committed - have compatible
    modes. *)
Theorem table_lock_exclusion (s : system) (op c : LockOp.t) : reachable s -> locked s op -> locked s c ->
  is_lock op -> is_lock c -> op_id op = op_id c -> op_trans op <> op_trans c -> compatible (op_mode op) (op_mode c) = true.
Proof.
  intros Hs Hop Hc L1 L2 Ei En. destruct (reachable_implements s Hs) as (A & _ & I).
  by apply (ok_exclusion _ (im_spec _ _ I)); [eapply locked_in | eapply locked_in | ..].
Qed.

Lemma no_rows A id m : (forall op, op ∈ on id A -> recorded op) -> rows id m A = 0.
Proof. intros H. apply in_mode_zero. intros op [Hr Hop]%list_elem_of_filter. by destruct Hr; apply H. Qed.

(** C13: nothing is left behind.  When no transaction holds an operation on an object, the
    two counters of row locks of the object are zero and the operations that it still
    records are completed locks outside of transactions, whose transactions have
    committed. *)
Theorem no_lock_leaks (s : system) (id : LockID.t) (a : nat) (o : obj_lock) : reachable s ->
  s.(sys_table).(lock_map_) !! id = Some a -> s.(sys_table).(objs_) !! a = Some o ->
  (forall tx x op, s.(sys_txs) !! tx = Some x -> op ∈ held x -> op_id op <> id) ->
  o.(row_share_) = 0 /\ o.(row_exclusive_) = 0 /\
  forall op, op ∈ all_ops o -> completed op /\ exists x, s.(sys_txs) !! op_trans op = Some x /\ committing x.(tx_phase) = true.
Proof.
  intros Hs Hm Ha Hno. destruct (reachable_implements s Hs) as (A & _ & I).
  destruct (im_map _ _ I _ _ Hm) as (o' & Ha' & Hid & Hd). replace o' with o in * by congruence.
  destruct (oo_live _ _ _ _ (im_objs _ _ I a o Ha) Hd) as [L1 L2 L3 L4]. rewrite Hid in *.
  assert (forall op, op ∈ on id A -> completed op) as Hc.
  { intros op [Hid' HA]%elem_of_on. destruct (ok_kinds _ (im_spec _ _ I) op HA) as [Hst|]; [|done].
    destruct (ok_tx _ _ (im_ops _ _ I op HA)) as (x & Hx & _). exfalso. apply (Hno _ x op Hx); [|done].
    rewrite (to_held _ _ _ (im_txs _ _ I _ _ Hx)). by apply elem_of_doing. }
  assert (forall op, op ∈ on id A -> recorded op) as Hrec.
  { intros op Hop. unfold LockOp.need_record_lock_op. by rewrite (proj1 (Hc op Hop)). }
  rewrite L3, L4, !no_rows by done. split_and!; [done..|]. intros op Hop. rewrite L2 in Hop.
  apply elem_of_records in Hop as (_ & Hid' & HA). assert (completed op) as Hcc by (apply Hc, elem_of_on; done). split; [done|].
  destruct (ok_tx _ _ (im_ops _ _ I op HA)) as (x & Hx & Hph). exists x. split; [done|]. apply Hph. destruct Hcc. congruence.
Qed.

Lemma runs_exists {S B} (m : R S B) (Q : B -> S -> Prop) t : runs m Q t -> exists x t', m t = Some (x, t') /\ Q x t'.
Proof. unfold runs. destruct (m t) as [[x t']|]; [eauto | done]. Qed.

(** C14: the end of a transaction gives up its locks, however many there are and whether
    callbacks or the list release them: [trans_end] returns [OB_SUCCESS], the list is
    empty, and what objects still record of the transaction are locks outside of
    transactions that are completed now - nothing at all after an abort. *)
Theorem trans_end_releases (s : system) (tx : ObTransID) (c : mem_ctx) (commit : bool) (version scn : SCN) : reachable s ->
  s.(sys_txs) !! tx = Some (TxState c (Ending commit version scn) None) ->
  (commit = true -> scn_le scn s.(sys_table).(flushed_scn_) = false) ->
  exists v, trans_end commit version scn (TxView c s.(sys_table)) = Some (OB_SUCCESS, v) /\ v.(ctx).(lock_list_) = [] /\
    forall a o op, v.(table).(objs_) !! a = Some o -> op ∈ all_ops o -> op_trans op = tx -> commit = true /\ completed op.
Proof.
  intros Hs Hx Hscn. destruct (reachable_implements s Hs) as (A & _ & I).
  destruct (runs_exists _ _ _ (runs_trans_end s A tx c commit version scn
    (fun ret v => ret = OB_SUCCESS /\ left_ok s tx (Ending commit version scn) v /\ v.(ctx).(lock_list_) = []) I Hx Hscn
    (fun w H1 H2 => conj eq_refl (conj H1 H2)))) as (ret & v & E & -> & [(A' & I') _] & El).
  exists v. split_and!; [done | done |]. intros a o op Ha Hop <-. pose proof (recorded_in _ A' a o op I' Ha Hop) as HA.
  pose proof (set_tx_lookup (op_trans op) (TxState (ctx v) (Ending commit version scn) None) (table v) s) as Hx'.
  destruct (ok_kinds _ (im_spec _ _ I') op HA) as [Hst|Hc].
  - assert (op ∈ held (TxState (ctx v) (Ending commit version scn) None)) as Hin.
    { rewrite (to_held _ _ _ (im_txs _ _ I' _ _ Hx')). by apply elem_of_doing. }
    unfold held, ctx_ops in Hin. cbn in Hin. rewrite El in Hin. by apply not_elem_of_nil in Hin.
  - split; [|done]. destruct (ok_tx _ _ (im_ops _ _ I' op HA)) as (x & Hx2 & Hph). rewrite Hx' in Hx2. injection Hx2 as <-.
    cbn in Hph. destruct commit; [done|]. apply Hph. destruct Hc. congruence.
Qed.

(** ** The answer to a request *)

Lemma in_mode_exists m l : 0 < in_mode m l -> exists op, op ∈ l /\ op_mode op = m.
Proof.
  unfold in_mode. destruct (filter (fun c => op_mode c = m) l) as [|op l'] eqn:E; [cbn; lia|]. intros _. exists op.
  assert (op ∈ filter (fun c => op_mode c = m) l) as [? ?]%list_elem_of_filter by (rewrite E; by left). done.
Qed.

Section answer.
Context (s : system) (A : op_list) (tx : ObTransID) (c : mem_ctx) (op : LockOp.t) (counts : list Z) (a : nat) (o : obj_lock).
Hypothesis (I : implements s A) (Hx : s.(sys_txs) !! tx = Some (TxState c Running (Some (Counted op counts)))).
Hypothesis (Ha : s.(sys_table).(objs_) !! a = Some o) (Hid : o.(obj_lock_id_) = op_id op) (Hd : o.(is_deleted_) = false).

Local Abbreviation own := (own_modes (op_id op) (ctx_ops c)).

(** A mode that the counts ascribe to others is the mode of another transaction. *)
Lemma other_mode m : m ∈ table_modes -> total o m <> own m -> own m < total o m /\
  exists d, d ∈ A /\ op_id d = op_id op /\ op_trans d <> tx /\ op_mode d = m.
Proof.
  intros Hm Hne. pose proof (oo_live _ _ _ _ (im_objs _ _ I a o Ha) Hd) as L.
  rewrite (acquire_own s A tx c op counts o I Hx Hid) in *. rewrite (total_on _ _ _ _ L (im_spec _ _ I) m Hm) in *.
  rewrite (in_mode_perm _ _ _ (doing_split o A tx)), in_mode_app in *. unfold own_modes in *.
  pose proof (in_mode_le m (on (obj_lock_id_ o) (filter (fun op => ~ (op_trans op = tx /\ op_status op = LOCK_OP_DOING)) A))) as Hp.
  split; [lia|]. destruct (in_mode_exists m (on (obj_lock_id_ o) (filter (fun op => ~ (op_trans op = tx /\ op_status op = LOCK_OP_DOING)) A)))
    as (d & [Ei [Hn HA]%list_elem_of_filter]%elem_of_on & Em); [lia|].
  exists d. split_and!; [done | congruence | | done]. intros Et. apply Hn. split; [done|].
  destruct (ok_kinds _ (im_spec _ _ I) d HA) as [?|Hc]; [done|].
  destruct (ok_tx _ _ (im_ops _ _ I d HA)) as (x & Hx' & Hph). rewrite Et, Hx in Hx'. injection Hx' as <-.
  cbn in Hph. exfalso. enough (false = true) by done. apply Hph. destruct Hc. congruence.
Qed.

(** The lock that stands behind an operation of another transaction. *)
Lemma other_lock d : d ∈ A -> op_id d = op_id op -> op_trans d <> tx ->
  exists e, e ∈ A /\ is_lock e /\ op_id e = op_id op /\ op_trans e <> tx /\ op_mode e = op_mode d.
Proof.
  intros HA Ei Et. pose proof (ok_valid _ _ (im_ops _ _ I d HA)) as Hv. unfold LockOp.is_valid, LockOp.is_out_trans_lock_op in Hv.
  destruct (op_type d) eqn:Ety.
  1, 6: cbn in Hv; rewrite ?andb_false_r in Hv; done.
  1, 2, 4: exists d; split_and!; try done; unfold is_lock, is_in_trans; rewrite Ety; auto.
  destruct (ok_unlock _ (im_spec _ _ I) d HA Ety) as (e & HeA & Ee & [_ Em] & Hc). exists e. split_and!; [done | by right; destruct Hc | congruence | | done].
  intros E. destruct (ok_tx _ _ (im_ops _ _ I e HeA)) as (x & Hx' & Hph). rewrite E, Hx in Hx'. injection Hx' as <-.
  enough (false = true) by done. apply Hph. destruct Hc. congruence.
Qed.

Hypothesis (Hlocks : forall d, d ∈ ctx_ops c -> op_id d = op_id op -> op_type d <> OUT_TRANS_UNLOCK).

Lemma no_own_conflict : ~ own_conflict o own.
Proof.
  intros [(m & Hm & Hlt)|(m & m' & Hm & Hm' & Hpos & Hlt & Hc)].
  - destruct (other_mode m Hm) as [? _]; lia.
  - destruct (other_mode m' Hm') as (_ & d & HdA & Ei & Et & <-); [lia|].
    destruct (in_mode_exists m _ Hpos) as (e & [Eie He]%elem_of_on & <-).
    destruct (held_doing s A tx _ e I Hx) as (HeA & Ete & Hst & _ & Hv); [exact He|].
    destruct (other_lock d HdA Ei Et) as (d' & HdA' & Hl' & Ei' & Et' & Em').
    enough (compatible (op_mode e) (op_mode d) = true) by congruence. rewrite <- Em'.
    apply (ok_exclusion _ (im_spec _ _ I)); try done; [|congruence|congruence].
    unfold LockOp.is_valid, LockOp.is_out_trans_lock_op in Hv. specialize (Hlocks e He Eie). unfold is_lock, is_in_trans.
    destruct (op_type e); cbn in Hv; rewrite ?andb_false_r in Hv; auto; done.
Qed.

Hypothesis (Hin : is_in_trans op).

Lemma refused_reason ret : refused o own op ret -> (ret = OB_OBJ_LOCK_EXIST /\ is_dbms op) \/
  (ret = OB_TRY_LOCK_ROW_CONFLICT /\
   exists d, locked s d /\ op_id d = op_id op /\ op_trans d <> tx /\ compatible (op_mode op) (op_mode d) = false).
Proof.
  intros [[[Hn _]|[[Hn _]|(d & HdA & Et & Hdi & [[-> Hdb]|[_ Hst]])]]|[[-> (m & Hm & Hne & Hc)]|[_ Hoc]]].
  - done.
  - done.
  - left. split; [done|]. unfold is_dbms in *. rewrite (lv_ops _ _ _ _ (oo_live _ _ _ _ (im_objs _ _ I a o Ha) Hd)) in HdA.
    apply elem_of_records in HdA as (_ & Ei & _). congruence.
  - pose proof (recorded_in s A a o d I Ha HdA) as HA. destruct (ok_kinds _ (im_spec _ _ I) d HA) as [?|[E _]]; [done|].
    destruct Hdi; congruence.
  - right. split; [done|]. destruct (other_mode m Hm Hne) as (_ & d & HdA & Ei & Et & <-). exists d. split_and!; try done.
    by eapply in_locked.
  - by destruct no_own_conflict.
Qed.
End answer.

(** What the answer says of the other transactions. *)
Definition answer (s : system) (tx : ObTransID) (op : LockOp.t) (o : obj_lock) (ret : Z) : Prop :=
  (ret = OB_SUCCESS /\ forall d, locked s d -> op_id d = op_id op -> op_trans d <> tx -> compatible (op_mode op) (op_mode d) = true) \/
  ((ret = OB_TRY_LOCK_ROW_CONFLICT \/ ret = OB_TRANS_KILLED) /\
   exists d, locked s d /\ op_id d = op_id op /\ op_trans d <> tx /\ compatible (op_mode op) (op_mode d) = false) \/
  (ret = OB_OBJ_LOCK_EXIST /\ is_dbms op) \/ (ret = OB_EAGAIN /\ o.(is_deleted_) = true) \/ ret = OB_ALLOCATE_MEMORY_FAILED.

(** C20: the answer of an object to a lock in a transaction is exact, if the transaction
    has no unlock on the object: success means that the modes of all other transactions
    are compatible with the request, a conflict - or the kill that avoids a deadlock with
    row locks - means that there is one that is not.  Otherwise the transaction has this
    DBMS lock already, the object has just been dropped, or memory is short; the error
    [OB_ERR_UNEXPECTED] for counts that do not agree is never returned. *)
Theorem in_trans_lock_outcome (s : system) (tx : ObTransID) (c : mem_ctx) (op : LockOp.t) (counts : list Z) (a : nat)
    (o : obj_lock) (mem : memory) (param : lock_param) : reachable s ->
  s.(sys_txs) !! tx = Some (TxState c Running (Some (Counted op counts))) -> is_in_trans op ->
  (forall d, d ∈ ctx_ops c -> op_id d = op_id op -> op_type d <> OUT_TRANS_UNLOCK) ->
  s.(sys_table).(objs_) !! a = Some o -> o.(obj_lock_id_) = op_id op -> few o ->
  exists ret set t, at_obj a (lock mem param op counts []) s.(sys_table) = Some ((ret, set), t) /\ answer s tx op o ret.
Proof.
  intros Hs Hx Hin Hun Ha Hid Hfew. destruct (reachable_implements s Hs) as (A & _ & I).
  destruct (acquire_pending s A tx c op counts I Hx) as ((_ & _ & Hv & Hm) & _ & Ec & _).
  enough (runs (at_obj a (lock mem param op counts [])) (fun r _ => answer s tx op o r.1) s.(sys_table)) as H.
  { apply runs_exists in H as ([ret set] & t & E & H). by exists ret, set, t. }
  eapply runs_at_obj; [done|]. destruct (is_deleted_ o) eqn:Hd.
  { apply runs_lock_deleted; [done | done |]. do 3 right. by left. }
  pose proof (refused_reason s A tx c op counts a o I Hx Ha Hid Hd Hun Hin) as Hreason.
  assert (granted o (own_modes (op_id op) (ctx_ops c)) op -> answer s tx op o OB_SUCCESS) as HS.
  { intros Hg. left. split; [done|]. intros d Hl Ei Et. pose proof (granted_may_lock s A tx c op counts a o I Hx Ha Hid Hd Hg) as (_ & _ & _ & Hmay).
    destruct (Hmay d (locked_in _ _ _ I Hl)) as [_ Hc]. apply Hc; [done|].
    by rewrite (proj1 (proj1 (acquire_pending s A tx c op counts I Hx))). }
  rewrite Ec. apply (runs_lock o (own_modes (op_id op) (ctx_ops c)) op); try done.
  - by apply (im_objs _ _ I a o Ha).
  - by apply (acquire_small s A tx c op counts a o I Hx Ha Hid Hd).
  - intros ret set o' _ _ [[_ ?]|[->|[Hr|[-> Hr]]]]; cbn; unfold answer; [congruence | by do 4 right |..].
    + destruct (Hreason ret Hr) as [?|[-> ?]]; [tauto | right; left; by split; [left|]].
    + destruct (Hreason _ Hr) as [[? _]|[_ ?]]; [done | right; left; by split; [right|]].
  - intros set o' Hg _ _ _. by apply HS.
  - intros set o' Hg _ _ _. by apply HS.
Qed.

Lemma runs_is_Some {S B} (m : R S B) (Q : B -> S -> Prop) t : runs m Q t -> is_Some (m t).
Proof. unfold runs. by destruct (m t). Qed.

Lemma at_obj_is_Some {B} a o (m : OL B) t : t.(objs_) !! a = Some o -> runs m (fun _ _ => True) o -> is_Some (at_obj a m t).
Proof. intros Ha H. by eapply (runs_is_Some _ (fun _ _ => True)), runs_at_obj. Qed.

(** C21: no call faults.  In every reachable state the calls of the lock table that a
    transaction or a background task can make - to lock at an object, to unlock, to
    replay, to record the operation or take it back, to roll back, to end, to compact, to drop an
    empty object - access [map_] and the counts in their bounds only. *)
Theorem lock_calls_do_not_fault (s : system) : reachable s ->
  (forall a o, s.(sys_table).(objs_) !! a = Some o ->
     (forall is_force, is_Some (at_obj a (compact_tablelock is_force) s.(sys_table))) /\
     is_Some (drop_obj_lock_if_empty_ o.(obj_lock_id_) a s.(sys_table)) /\
     (forall tx op mem try expired now, request tx op -> is_Some (at_obj a (unlock mem op try expired now) s.(sys_table))) /\
     (forall tx c op counts mem param, few o -> o.(obj_lock_id_) = op_id op ->
        s.(sys_txs) !! tx = Some (TxState c Running (Some (Counted op counts))) ->
        is_Some (at_obj a (lock mem param op counts []) s.(sys_table))) /\
     (forall tx c op mem, s.(sys_txs) !! tx = Some (TxState c Running None) -> request tx op -> follows s op ->
        o.(obj_lock_id_) = op_id op -> is_Some (at_obj a (recover_lock mem op) s.(sys_table)))) /\
  (forall tx c op e, s.(sys_txs) !! tx = Some (TxState c Running (Some (Acquired op))) ->
     is_Some (record_or_remove e op (TxView c s.(sys_table))) /\
     forall scn, is_Some (replay_record_or_remove e op scn (TxView c s.(sys_table)))) /\
  (forall tx c p n, s.(sys_txs) !! tx = Some (TxState c p None) -> n ∈ c.(lock_list_) -> is_Some (give_up_node n (TxView c s.(sys_table)))) /\
  (forall tx c commit version scn, s.(sys_txs) !! tx = Some (TxState c (Ending commit version scn) None) ->
     (commit = true -> scn_le scn s.(sys_table).(flushed_scn_) = false) ->
     is_Some (trans_end commit version scn (TxView c s.(sys_table)))).
Proof.
  intros Hs. destruct (reachable_implements s Hs) as (A & _ & I). split_and!.
  - intros a o Ha. pose proof (im_objs _ _ I a o Ha) as [S1 S2 S3]. split_and!.
    + intros is_force. eapply at_obj_is_Some; [done|].
      by apply runs_compact_tablelock; [| intros d Hd; eapply not_unlocked |].
    + eapply runs_is_Some, runs_drop; [done | apply I | intros Hd; apply S2, Hd].
    + intros tx op mem try expired now (_ & _ & Hv & Hm). eapply at_obj_is_Some; [done|]. by apply runs_unlock.
    + intros tx c op counts mem param Hfew Hid Hx. eapply at_obj_is_Some; [done|].
      destruct (acquire_pending s A tx c op counts I Hx) as ((_ & _ & Hv & Hm) & _ & Ec & _). destruct (is_deleted_ o) eqn:Hd.
      * by apply runs_lock_deleted.
      * rewrite Ec. by apply (runs_lock o _ op S1 Hfew (acquire_small s A tx c op counts a o I Hx Ha Hid Hd Hfew) Hm Hv).
    + intros tx c op mem Hx Hr Hf Hid. by eapply runs_is_Some, sim_replay.
  - intros tx c op e Hx. split; [by eapply runs_is_Some, runs_record|]. intros scn. by eapply runs_is_Some, runs_replay_record.
  - intros tx c p n Hx Hn. eapply (runs_is_Some _ (fun _ _ => True)), (runs_give_up s A tx c p n I Hx Hn). by intros t.
  - intros tx c commit version scn Hx Hscn. by eapply (runs_is_Some _ (fun _ _ => True)), (runs_trans_end s A tx c commit version scn).
Qed.
