(* ===== verification/LockCalls.v ===== *)
(** * The calls of the lock memtable

    [LockSystem] cuts the calls of a transaction where other threads can run.  Here they
    are whole again: a turn of [lock_] or [unlock_] and [replay_lock_], when nothing comes
    between, return, and what they leave is reached by the steps of the system. *)

From Stdlib Require Import ZArith Lia Bool.
From stdpp Require Import base countable numbers option gmap list.
From S2P Require Import Prelude Serialization Scn TableLockCommon ObjLock LockTable LockMemCtx ObjLockFacts ObjLockGrant ObjLockEnd LockSystem LockRefinement LockCheckpoint LockSimulation LockRelease LockSafety.
Import AbortMonad.

Local Open Scope Z_scope.

(** ** What a call leaves *)

(** The counts of every object fit in an [int]. *)
Definition calm (s : system) : Prop := forall a o, s.(sys_table).(objs_) !! a = Some o -> few o.

(** The state after a call of the transaction. *)
Definition after (tx : ObTransID) (v : tx_view) (s : system) : system := set_tx tx (TxState v.(ctx) Running None) v.(table) s.

(** The transaction holds a lock of this object, owner, mode and kind. *)
Definition has_lock (op : LockOp.t) (c : mem_ctx) : Prop :=
  exists d, d ∈ ctx_ops c /\ op_id d = op_id op /\ op_owner d = op_owner op /\ op_mode d = op_mode op /\ op_type d = op_type op.

(** The owner has such a lock from a transaction that has committed. *)
Definition has_completed (op : LockOp.t) (t : lock_table) : Prop :=
  op_type op = OUT_TRANS_LOCK /\
  exists a o d, t.(objs_) !! a = Some o /\ d ∈ all_ops o /\ op_id d = op_id op /\ same_owner op d /\ completed d.

Lemma runs_eqn {S B} (m : R S B) (Q : B -> S -> Prop) t : runs m Q t -> runs m (fun x t' => m t = Some (x, t') /\ Q x t') t.
Proof. unfold runs. by destruct (m t) as [[]|]. Qed.

Lemma after_same s tx c : reachable s -> s.(sys_txs) !! tx = Some (TxState c Running None) -> reachable (after tx (TxView c s.(sys_table)) s).
Proof. intros Hs Hx. unfold after, set_tx. cbn. rewrite insert_id by done. by destruct s. Qed.

(** ** The context *)

Lemma check_lock_exist_loop_total id ow m ty ops : (forall c, c ∈ ops -> op_mode c ∈ table_modes) -> forall f,
  exists b cs, check_lock_exist_loop id ow m ty ops (counts_of f) = Some (b, cs) /\
    (b = true -> exists d, d ∈ ops /\ op_id d = id /\ is_same_lock id ow m ty d = true).
Proof.
  induction ops as [|op ops IH]; intros Hm f; cbn [check_lock_exist_loop]; [by exists false, (counts_of f)|].
  assert (forall c, c ∈ ops -> op_mode c ∈ table_modes) as Hm' by (intros c Hc; apply Hm; by right).
  assert (forall f, exists b cs, check_lock_exist_loop id ow m ty ops (counts_of f) = Some (b, cs) /\
    (b = true -> exists d, d ∈ op :: ops /\ op_id d = id /\ is_same_lock id ow m ty d = true)) as IH'.
  { intros g. destruct (IH Hm' g) as (b & cs & E & H). exists b, cs. split; [done|]. intros Hb. destruct (H Hb) as (d & Hd & ?).
    exists d. split; [by right | done]. }
  destruct (LockID.eqb (op_id op) id) eqn:E; [|apply IH'].
  assert (op_mode op ∈ table_modes) as Hop by (apply Hm; by left).
  rewrite (counts_lookup f (op_mode op) Hop). cbn [mbind option_bind]. rewrite (counts_incr f _ Hop).
  destruct (is_same_lock id ow m ty op) eqn:Hs; [|apply IH'].
  eexists true, _. split; [done|]. intros _. exists op. split; [by left|]. by apply LockID.lock_id_eqb_eq in E.
Qed.

Lemma runs_check_exist s A tx c op (Q : Z * bool * list Z -> tx_view -> Prop) : implements s A ->
  s.(sys_txs) !! tx = Some (TxState c Running None) -> LockOp.is_valid op = true ->
  (forall counts d, d ∈ ctx_ops c -> op_id d = op_id op -> is_same_lock (op_id op) (op_owner op) (op_mode op) (op_type op) d = true ->
     Q (OB_SUCCESS, true, counts) (TxView c s.(sys_table))) ->
  (forall counts, not_held op counts (TxState c Running None) s.(sys_table) -> Q (OB_SUCCESS, false, counts) (TxView c s.(sys_table))) ->
  runs (check_lock_exist (op_id op) (op_owner op) (op_mode op) (op_type op) no_counts) Q (TxView c s.(sys_table)).
Proof.
  intros I Hx Hv HT HF. assert (forall d, d ∈ ctx_ops c -> op_mode d ∈ table_modes) as Hm.
  { intros d Hd. by destruct (held_doing s A tx _ d I Hx Hd) as (_ & _ & _ & ? & _). }
  destruct (check_lock_exist_loop_total (op_id op) (op_owner op) (op_mode op) (op_type op) _ Hm (fun _ => 0)) as (b & cs & E & Hb).
  assert (check_lock_exist (op_id op) (op_owner op) (op_mode op) (op_type op) no_counts (TxView c s.(sys_table))
    = Some (OB_SUCCESS, b, cs, TxView c s.(sys_table))) as Hc.
  { unfold check_lock_exist. unfold LockOp.is_valid in Hv.
    destruct (LockOp.is_out_trans_lock_op op && (LockOwnerID.id_ (op_owner op) =? 0)); [done|]. rewrite !andb_true_iff in Hv. destruct Hv as [[[[-> ->] _] _] _].
    cbn. unfold mbind, R_bind, get_ctx, reads, lift. cbn. change no_counts with (counts_of (fun _ => 0)). by rewrite E. }
  unfold runs. rewrite Hc. destruct b; [|apply HF; by exists (TxView c s.(sys_table))].
  destruct (Hb eq_refl) as (d & Hd & Ei & Es). by eapply HT.
Qed.

Lemma same_lock_has op c d : d ∈ ctx_ops c -> op_id d = op_id op -> ~ is_dbms op ->
  is_same_lock (op_id op) (op_owner op) (op_mode op) (op_type op) d = true -> has_lock op c.
Proof.
  intros Hd Ei Hn H. exists d. unfold is_same_lock in H. rewrite (bool_decide_eq_false_2 (LockID.obj_type_ (op_id op) = OBJ_TYPE_DBMS_LOCK)) in H by done.
  rewrite !andb_true_iff, !Z.eqb_eq, !bool_decide_eq_true in H. destruct H as [[[-> ->] _] ->]. by split_and!.
Qed.

(** ** The objects *)

Lemma few_new id : few (new_obj_lock id).
Proof. unfold few. by vm_compute. Qed.

(** The object of a request, there or created. *)
Lemma runs_obtain s A alloc lock_id (Q : Z * option nat -> lock_table -> Prop) : implements s A ->
  Q (OB_ALLOCATE_MEMORY_FAILED, None) s.(sys_table) ->
  (forall t a o, get_or_create_obj_lock_with_ref_ alloc lock_id s.(sys_table) = Some ((OB_SUCCESS, Some a), t) ->
     t.(objs_) !! a = Some o -> o.(obj_lock_id_) = lock_id -> o.(is_deleted_) = false -> (calm s -> few o) -> Q (OB_SUCCESS, Some a) t) ->
  runs (get_or_create_obj_lock_with_ref_ alloc lock_id) Q s.(sys_table).
Proof.
  intros I HF HS. eapply runs_mono; [eapply (runs_eqn _ (fun r t => r = (OB_ALLOCATE_MEMORY_FAILED, None) /\ t = s.(sys_table) \/
    exists a o, r = (OB_SUCCESS, Some a) /\ t.(objs_) !! a = Some o /\ o.(obj_lock_id_) = lock_id /\ o.(is_deleted_) = false /\ (calm s -> few o)))|].
  - unfold get_or_create_obj_lock_with_ref_. apply runs_bind, runs_reads. unfold id. rewrite (proj1 (im_inited _ _ I)). cbn.
    destruct (lock_map_ (sys_table s) !! lock_id) as [a|] eqn:Hm.
    + destruct (im_map _ _ I lock_id a Hm) as (o & Ho & Hi & Hd). apply runs_ret. right. exists a, o. split_and!; try done.
      intros Hc. by apply (Hc a).
    + destruct alloc; cbn; [|by left]. right. eexists _, _. split; [done|]. split; [apply lookup_insert_eq|].
      split_and!; [done | done |]. intros _. apply few_new.
  - intros r t (E & [[-> ->]|(a & o & -> & Ho & Hi & Hd & Hf)]); [done | by eapply HS].
Qed.

(** What [lock] can answer. *)
Lemma runs_acquire s A tx c op counts a o mem param : implements s A ->
  s.(sys_txs) !! tx = Some (TxState c Running (Some (Counted op counts))) -> s.(sys_table).(objs_) !! a = Some o ->
  o.(obj_lock_id_) = op_id op -> o.(is_deleted_) = false -> few o ->
  runs (at_obj a (lock mem param op counts [])) (fun r t => r.1 <> OB_EAGAIN /\
    (r.1 = OB_OBJ_LOCK_EXIST -> is_dbms op \/ has_completed op t)) s.(sys_table).
Proof.
  intros I Hx Ha Hid Hd Hfew. destruct (acquire_pending s A tx c op counts I Hx) as (Hr & Hl & Ec & _). destruct Hr as (_ & _ & Hv & Hm).
  pose proof (im_objs _ _ I a o Ha) as [Ho S2 _].
  assert (forall d, d ∈ all_ops o -> op_id d = op_id op) as Hin.
  { intros d Hin. rewrite (lv_ops _ _ _ _ (S2 Hd)) in Hin. apply elem_of_records in Hin as (_ & Ei & _). congruence. }
  eapply runs_at_obj; [done|]. rewrite Ec. apply (runs_lock o (own_modes (op_id op) (ctx_ops c)) op); try done.
  - by apply (acquire_small s A tx c op counts a o I Hx Ha Hid Hd).
  - intros ret set o' Hne B [[_ ?]|[->|[Hr|[-> _]]]]; [congruence | done | | done].
    destruct Hr as [[[Hn Hr]|[(Hn & -> & d & Hda & Em & Eo & Et & Es)|(d & Hda & _ & _ & Hr)]]|[[-> _]|[-> _]]]; cbn; [| | |done|done].
    + by destruct Hr as [-> | ->].
    + split; [done|]. intros _. right. split; [by destruct Hl|]. exists a, o', d. cbn. rewrite lookup_insert_eq.
      split_and!; try done; [by rewrite (be_ops _ _ _ _ _ B) | by apply Hin].
    + destruct Hr as [[-> Hdb]|[-> _]]; [|done]. split; [done|]. intros _. left. unfold is_dbms in *. by rewrite <- (Hin d Hda).
Qed.

Section lock.
Context (s : system) (tx : ObTransID) (c : mem_ctx) (op : LockOp.t).
Hypothesis (Hs : reachable s) (Hcalm : calm s) (Hx : s.(sys_txs) !! tx = Some (TxState c Running None)).
Hypothesis (Hr : request tx op).

Lemma runs_map_lock counts mem alloc param (Q : Z * ObTxIDSet -> lock_table -> Prop) : is_lock op ->
  not_held op counts (TxState c Running None) s.(sys_table) ->
  (forall ret set t, ret <> OB_SUCCESS -> (ret = OB_OBJ_LOCK_EXIST -> is_dbms op \/ has_completed op t) ->
     reachable (set_tx tx (TxState c Running None) t s) -> Q (ret, set) t) ->
  (forall set t, reachable (set_tx tx (TxState c Running (Some (Acquired op))) t s) -> Q (OB_SUCCESS, set) t) ->
  runs (map_lock 1 mem alloc param op counts []) Q s.(sys_table).
Proof.
  intros Hl Hn HF HS. set (s1 := set_tx tx (TxState c Running (Some (Counted op counts))) s.(sys_table) s).
  assert (reachable s1) as Hs1 by (eapply reachable_step; [exact Hs|]; by eapply step_count).
  destruct (reachable_implements s1 Hs1) as (A & _ & I). destruct Hr as (_ & _ & Hv & _).
  unfold map_lock. apply runs_bind, runs_reads. rewrite (proj1 (im_inited _ _ I) : map_inited_ (sys_table s) = true), Hv. cbn.
  apply runs_bind, runs_bind. eapply (runs_obtain s1 A); [done | |].
  { apply runs_ret. cbn. apply runs_ret, HF; [done | done |]. rewrite <- (set_tx_twice tx (TxState c Running (Some (Counted op counts))) _ s.(sys_table)).
    eapply reachable_step; [exact Hs1|]. apply (step_give_up s1 tx c op counts), set_tx_lookup. }
  intros t a o Hget Ha Hid Hd Hfew. cbn. specialize (Hfew Hcalm). set (s2 := System t s1.(sys_txs)).
  assert (reachable s2) as Hs2.
  { eapply reachable_step; [exact Hs1|]. eapply step_create; [|done]. unfold LockOp.is_valid in Hv.
    destruct (_ && _) in Hv; [done|]. rewrite !andb_true_iff in Hv. apply Hv. }
  destruct (reachable_implements s2 Hs2) as (A2 & _ & I2). assert (s2.(sys_txs) !! tx = Some (TxState c Running (Some (Counted op counts)))) as Hx2.
  { apply lookup_insert_eq. }
  eapply runs_mono; [apply runs_eqn; by apply (runs_acquire s2 A2 tx c op counts a o mem param I2)|].
  intros [ret set] t' (E & Hne & Hex). cbn in *. rewrite (proj2 (Z.eqb_neq _ _) Hne). apply runs_ret.
  assert (reachable (set_tx tx (TxState c Running (after_lock ret op counts)) t' s)) as Hs3.
  { rewrite <- (set_tx_twice tx (TxState c Running (Some (Counted op counts))) _ s.(sys_table)).
    eapply reachable_step; [exact Hs2|]. by eapply (step_acquire s2). }
  unfold after_lock, ob_succ in Hs3. rewrite (proj2 (Z.eqb_neq _ _) Hne) in Hs3. destruct (Z.eqb_spec ret OB_SUCCESS) as [->|Hne'].
  - by apply HS.
  - by apply HF.
Qed.

(** ** Recording *)

Lemma in_has_lock v : op ∈ ctx_ops v.(ctx) -> has_lock op v.(ctx).
Proof. intros H. by exists op. Qed.

Section acquired.
Context (t : lock_table).
Hypothesis (Ht : reachable (set_tx tx (TxState c Running (Some (Acquired op))) t s)).

(** Recorded, by one of the two functions. *)
Lemma runs_recorded (m : TX Z) e : (forall A, implements (set_tx tx (TxState c Running (Some (Acquired op))) t s) A ->
    runs m (record_result (set_tx tx (TxState c Running (Some (Acquired op))) t s) A tx op e) (TxView c t)) ->
  (forall ret v, m (TxView c t) = Some (ret, v) -> step (set_tx tx (TxState c Running (Some (Acquired op))) t s) (after tx v s)) ->
  runs m (fun ret v => reachable (after tx v s) /\ (ret = OB_SUCCESS -> has_lock op v.(ctx)) /\ (ret <> OB_SUCCESS -> add_code e ret)) (TxView c t).
Proof.
  intros Hm Hstep. destruct (reachable_implements _ Ht) as (A & _ & I). eapply runs_mono; [apply runs_eqn, (Hm A I)|].
  intros ret v (E & _ & H1 & H2). split_and!; [|intros ->; by apply in_has_lock, H1 | done].
  eapply reachable_step; [exact Ht | by eapply Hstep].
Qed.

Lemma runs_lock_recorded e : runs (record_or_remove e op)
  (fun ret v => reachable (after tx v s) /\ (ret = OB_SUCCESS -> has_lock op v.(ctx)) /\ (ret <> OB_SUCCESS -> add_code e ret)) (TxView c t).
Proof.
  apply runs_recorded.
  - intros A I. by apply (runs_record _ A tx c op I), set_tx_lookup.
  - intros ret v E. pose proof (step_record _ tx c op e ret v (set_tx_lookup tx (TxState c Running (Some (Acquired op))) t s) E) as H.
    by rewrite set_tx_twice in H.
Qed.

Lemma runs_replay_recorded e scn : runs (replay_record_or_remove e op scn)
  (fun ret v => reachable (after tx v s) /\ (ret = OB_SUCCESS -> has_lock op v.(ctx)) /\ (ret <> OB_SUCCESS -> add_code e ret)) (TxView c t).
Proof.
  apply runs_recorded.
  - intros A I. by apply (runs_replay_record _ A tx c op I), set_tx_lookup.
  - intros ret v E. pose proof (step_replayed _ tx c op e scn ret v (set_tx_lookup tx (TxState c Running (Some (Acquired op))) t s) E) as H.
    by rewrite set_tx_twice in H.
Qed.
End acquired.

(** ** [lock_] *)

(** The other components do not answer with the code of the lock table. *)
Definition codes_ok (e : lock_env) : Prop :=
  Forall (fun ret => ret <> OB_OBJ_LOCK_EXIST)
    [e.(e_write_auth); e.(e_tablet_allow); e.(e_latch); e.(e_register_mds); e.(e_register_cb); e.(e_lock_timeout)].

(** The registration with the transaction does not ask for a retry. *)
Definition no_retry (e : lock_env) : Prop := e.(e_register_mds) <> OB_EAGAIN /\ e.(e_register_cb) <> OB_EAGAIN.

(** What a return code of [lock_] says. *)
Definition lock_result (ret : Z) (v : tx_view) : Prop :=
  reachable (after tx v s) /\ (ret = OB_SUCCESS -> has_lock op v.(ctx)) /\
  (ret = OB_OBJ_LOCK_EXIST -> is_dbms op \/ has_completed op v.(table)).

Lemma lock_result_other ret : ret <> OB_SUCCESS -> ret <> OB_OBJ_LOCK_EXIST -> lock_result ret (TxView c s.(sys_table)).
Proof. intros H1 H2. split_and!; [by apply after_same | done | done]. Qed.

Lemma lock_result_change ret ret' v : lock_result ret v -> ret' <> OB_SUCCESS -> ret' <> OB_OBJ_LOCK_EXIST -> lock_result ret' v.
Proof. intros [H _] H1 H2. by split_and!. Qed.

Lemma runs_lock_record e param : is_lock op -> codes_ok e ->
  runs (lock_record e param op) (fun r v => lock_result r.1.1 v /\ (no_retry e -> r.1.2 = false)) (TxView c s.(sys_table)).
Proof.
  intros Hl Hc. destruct (reachable_implements s Hs) as (A & _ & I). unfold lock_record. apply runs_bind.
  pose proof (after_same s tx c Hs Hx) as Hsame.
  apply (runs_check_exist s A tx); [done | done | apply Hr | |].
  - intros counts d Hd Ei Es. cbn. apply runs_ret. cbn. split; [|done]. destruct (decide (is_dbms op)) as [Hdb|Hdb].
    + rewrite bool_decide_eq_true_2 by done. split_and!; [done | done | by left].
    + rewrite bool_decide_eq_false_2 by done. split_and!; [done | | done]. intros _. by eapply same_lock_has.
  - intros counts Hn. cbn. apply runs_bind, runs_on_table, runs_map_lock; [done | done |..].
    + intros ret set t Hne Hex Ht. rewrite ne_ob_fail by done. apply runs_ret. by split; [split_and!; [exact Ht | | exact Hex]|].
    + intros set t Ht. cbn. apply runs_bind. eapply runs_mono; [by apply runs_lock_recorded|].
      intros ret v (H1 & H2 & H3). apply runs_ret. cbn. unfold codes_ok in Hc. rewrite !Forall_cons in Hc. split; [split_and!; [done | done |]|].
      * intros ->. exfalso. destruct H3 as [H|[H|H]]; [done | done |..]; intuition congruence.
      * intros [Hm Hcb]. apply Z.eqb_neq. intros ->. destruct H3 as [H|[H|H]]; [done | done | congruence..].
Qed.

(** A turn of [lock_]. *)
Lemma runs_lock_turn e param register : is_lock op -> codes_ok e ->
  runs (lock_turn e param op register) (fun r v => lock_result r.(tr_ret) v /\
    (no_retry e -> param.(is_try_lock_) = true -> r.(tr_need_retry) = false)) (TxView c s.(sys_table)).
Proof.
  intros Hl Hc. unfold lock_turn. apply runs_bind. pose proof Hc as Hcodes. unfold codes_ok in Hcodes. rewrite !Forall_cons in Hcodes.
  eapply (runs_mono _ (fun r v => lock_result r.1.1 v /\ (no_retry e -> r.1.2 = false))).
  - assert (forall ret, ob_fail ret = true -> ret <> OB_OBJ_LOCK_EXIST -> lock_result ret (TxView c s.(sys_table))) as Hf.
    { intros ret H1 H2. apply lock_result_other; [by intros ->|done]. }
    do 3 (apply runs_if; intros ?; [apply runs_ret; split; [apply Hf; [done | apply Hcodes] | done]|]). by apply runs_lock_record.
  - intros [[ret retry] set] v [H1 H2]. cbn in *. destruct (Z.eqb_spec ret OB_TRY_LOCK_ROW_CONFLICT) as [->|Hne]; cbn.
    + destruct (ob_fail (e_lock_timeout e)) eqn:El; cbn.
      { apply runs_ret. split; [|by auto]. apply (lock_result_change _ _ _ H1); [by intros E; rewrite E in El | apply Hcodes]. }
      destruct retry; cbn; [|destruct (is_try_lock_ param); [|destruct (e_killed e); [|destruct (LockOp.is_dml_lock_op op)]]];
        (apply runs_if; intros _; apply runs_ret; cbn; (split; [by apply (lock_result_change _ _ _ H1) | by auto])).
    + apply runs_if; intros _; apply runs_ret; cbn; (split; [|by auto]); [|done]. rewrite (proj2 (Z.eqb_neq _ _) Hne).
      by apply (lock_result_change _ _ _ H1).
Qed.

(** ** [unlock_] *)

Lemma runs_map_unlock counts mem try expired now (Q : Z -> lock_table -> Prop) : op_type op = OUT_TRANS_UNLOCK ->
  not_held op counts (TxState c Running None) s.(sys_table) ->
  (forall ret t, ret <> OB_SUCCESS -> reachable (set_tx tx (TxState c Running None) t s) -> Q ret t) ->
  (forall t, reachable (set_tx tx (TxState c Running (Some (Acquired op))) t s) -> Q OB_SUCCESS t) ->
  runs (map_unlock 1 mem op try expired now) Q s.(sys_table).
Proof.
  intros Ht Hn HF HS. destruct (reachable_implements s Hs) as (A & _ & I). pose proof Hr as (_ & _ & Hv & Hm).
  unfold map_unlock. apply runs_bind, runs_reads. rewrite (proj1 (im_inited _ _ I)), Hv. cbn. apply runs_bind, runs_bind, runs_bind.
  unfold get_obj_lock_with_ref_. apply runs_bind, runs_reads. unfold id. rewrite (proj1 (im_inited _ _ I)). cbn.
  destruct (lock_map_ (sys_table s) !! op_id op) as [a|] eqn:Ha; apply runs_ret; cbn.
  2: { apply runs_ret. cbn. apply runs_ret, runs_ret, HF; [done | by apply after_same]. }
  destruct (im_map _ _ I _ _ Ha) as (o & Ho & Hid & Hd). apply runs_bind.
  eapply runs_mono; [eapply (runs_eqn _ (fun ret _ => ret <> OB_EAGAIN)), runs_at_obj; [done|]|].
  { apply runs_unlock; [by apply (im_objs _ _ I a o Ho) | done | done | | done]. intros ret _ Hea E. specialize (Hea E). congruence. }
  intros ret t [E Hea]. apply runs_ret. cbn. rewrite (proj2 (Z.eqb_neq _ _) Hea). apply runs_ret, runs_ret.
  assert (reachable (set_tx tx (TxState c Running (if ob_succ ret then Some (Acquired op) else None)) t s)) as Hs3.
  { eapply reachable_step; [exact Hs|]. by eapply step_unlock. }
  unfold ob_succ in Hs3. destruct (Z.eqb_spec ret OB_SUCCESS) as [->|Hne]; [by apply HS | by apply HF].
Qed.

(** A turn of [unlock_]. *)
Lemma runs_unlock_turn e try expired : op_type op = OUT_TRANS_UNLOCK ->
  runs (unlock_turn e op try expired) (fun r v => reachable (after tx v s) /\ (r.1 = OB_SUCCESS -> ~ is_dbms op -> has_lock op v.(ctx)))
    (TxView c s.(sys_table)).
Proof.
  intros Ht. destruct (reachable_implements s Hs) as (A & _ & I). unfold unlock_turn. apply runs_bind. pose proof (after_same s tx c Hs Hx) as Hsame.
  eapply (runs_mono _ (fun r v => reachable (after tx v s) /\ (r.1 = OB_SUCCESS -> ~ is_dbms op -> has_lock op v.(ctx)))); [|by intros [ret b] v ?; apply runs_ret].
  assert (forall ret, ob_fail ret = true -> runs (mret (ret, false)) (fun r v => reachable (after tx v s) /\ (r.1 = OB_SUCCESS -> ~ is_dbms op -> has_lock op v.(ctx)))
    (TxView c s.(sys_table))) as Hf by (intros ret Hret; apply runs_ret; split; [done | by cbn; intros ->]).
  apply runs_if; intros _; [by apply Hf|]. do 2 (apply runs_if; intros ?; [by apply Hf|]). unfold unlock_record. apply runs_bind.
  apply (runs_check_exist s A tx); [done | done | apply Hr | |].
  - intros counts d Hd Ei Es. cbn. apply runs_ret. split; [done|]. cbn. intros _ Hdb. by apply (same_lock_has op c d).
  - intros counts Hn. cbn. apply runs_bind, runs_on_table. apply (runs_map_unlock counts); [done | done |..].
    + intros ret t Hne Hrt. rewrite ne_ob_fail by done. apply runs_ret. by split.
    + intros t Hrt. cbn. apply runs_bind. eapply runs_mono; [by apply runs_lock_recorded|]. intros ret v (H1 & H2 & _). apply runs_ret. split; [done|]. cbn. by auto.
Qed.

(** ** [replay_lock_] *)

Lemma runs_map_recover mem alloc (Q : Z -> lock_table -> Prop) : follows s op ->
  (forall ret t, ret <> OB_SUCCESS -> reachable (set_tx tx (TxState c Running None) t s) -> Q ret t) ->
  (forall t, reachable (set_tx tx (TxState c Running (Some (Acquired op))) t s) -> Q OB_SUCCESS t) ->
  runs (map_recover_obj_lock 1 mem alloc op) Q s.(sys_table).
Proof.
  intros Hf HF HS. destruct (reachable_implements s Hs) as (A & _ & I). pose proof Hr as (_ & _ & Hv & _).
  unfold map_recover_obj_lock. apply runs_bind, runs_reads. rewrite (proj1 (im_inited _ _ I)), Hv. cbn. apply runs_bind, runs_bind, runs_bind.
  apply (runs_obtain s A); [done | apply runs_ret; cbn; apply runs_ret, runs_ret, HF; [done | by apply after_same] |].
  intros t a o Hget Ha Hid Hd _. cbn. apply runs_bind. set (s2 := System t s.(sys_txs)).
  assert (reachable s2) as Hs2.
  { eapply reachable_step; [exact Hs|]. eapply step_create; [|done]. unfold LockOp.is_valid in Hv.
    destruct (_ && _) in Hv; [done|]. rewrite !andb_true_iff in Hv. apply Hv. }
  pose proof (sim_create s A alloc (op_id op) _ _ t I Hget) as I2. assert (follows s2 op) as Hf2.
  { exists A. split; [|by apply (follows_may s A op)]. intros d. split; [by apply in_locked | by apply locked_in]. }
  eapply runs_mono; [apply runs_eqn, (sim_replay s2 A tx c op a o mem I2 Hx Hr Hf2 Ha Hid)|]. intros ret t' (E & Hea & _).
  assert (ret <> OB_EAGAIN) as Hne by (intros Eq; specialize (Hea Eq); congruence).
  apply runs_ret. cbn. rewrite (proj2 (Z.eqb_neq _ _) Hne). apply runs_ret, runs_ret.
  assert (reachable (set_tx tx (TxState c Running (if ob_succ ret then Some (Acquired op) else None)) t' s)) as Hs3.
  { eapply reachable_step; [exact Hs2|]. by eapply (step_replay s2). }
  unfold ob_succ in Hs3. destruct (Z.eqb_spec ret OB_SUCCESS) as [->|Hne']; [by apply HS | by apply HF].
Qed.

Lemma runs_replay_lock e scn : follows s op ->
  runs (replay_lock e op scn) (fun ret v => reachable (after tx v s) /\ (ret = OB_SUCCESS ->
    has_lock op v.(ctx) \/ (check_lock_need_replay_ op scn (TxView c s.(sys_table)) = Some ((OB_SUCCESS, false), v) /\ v = TxView c s.(sys_table))))
    (TxView c s.(sys_table)).
Proof.
  intros Hf. destruct (reachable_implements s Hs) as (A & _ & I). pose proof Hr as (_ & _ & Hv & _). pose proof (after_same s tx c Hs Hx) as Hsame.
  unfold replay_lock. apply runs_bind, runs_on_table, runs_reads. rewrite (proj2 (im_inited _ _ I)), Hv. cbn.
  unfold replay_lock_. apply runs_bind. eapply runs_mono; [eapply (runs_eqn _ (fun _ v => v = TxView c s.(sys_table)))|].
  { unfold check_lock_need_replay_. apply runs_bind, runs_reads. by apply runs_if; intros _. }
  intros [ret need] v [E ->]. destruct (ob_fail ret) eqn:Hret; [apply runs_ret; split; [done | by intros ->]|].
  apply ob_fail_eq in Hret as ->. destruct need; cbn; [|apply runs_ret; split; [done|]; intros _; by right].
  apply runs_bind, runs_on_table, runs_map_recover; [done |..].
  - intros ret t Hne Ht. rewrite ne_ob_fail by done. apply runs_ret. by split.
  - intros t Ht. cbn. eapply runs_mono; [by apply runs_replay_recorded|]. intros ret v (H1 & H2 & _). split; [done|]. by auto.
Qed.
End lock.

(** ** Rollback to a savepoint *)

Section rollback.
Context (tx : ObTransID) (to_seq_no from_seq_no : TxSEQ.t).

Local Abbreviation kept x := (in_rollback_scope to_seq_no from_seq_no (node_op x) = false).

Lemma runs_rollback_loop nodes : forall s c kept_nodes, reachable s -> s.(sys_txs) !! tx = Some (TxState c Running None) ->
  c.(lock_list_) = kept_nodes ++ nodes ->
  runs (foreach_node nodes (rollback_turn to_seq_no from_seq_no)) (fun ret v => ret = OB_SUCCESS /\ reachable (after tx v s) /\
    v.(ctx).(lock_list_) = kept_nodes ++ filter (fun x => kept x) nodes) (TxView c s.(sys_table)).
Proof.
  induction nodes as [|n nodes IH]; intros s c ks Hs Hx El; cbn [foreach_node].
  { apply runs_ret. split_and!; [done | by apply (after_same s tx c) | done]. }
  destruct (reachable_implements s Hs) as (A & _ & I). apply runs_bind, runs_bind. rewrite filter_cons.
  destruct (in_rollback_scope to_seq_no from_seq_no (node_op n)) eqn:E.
  - rewrite decide_False by done. assert (n ∈ c.(lock_list_)) as Hn by (rewrite El; apply elem_of_app; right; by left).
    eapply runs_mono; [eapply (runs_eqn _ (fun _ v => v.(ctx) = remove_node n.(node_addr) c)), (runs_give_up s A tx c Running n I Hx Hn); done|].
    intros [] v [Hg Ev]. apply runs_ret. cbn.
    assert (reachable (after tx v s)) as Hs' by (eapply reachable_step; [exact Hs|]; by eapply step_rollback).
    eapply runs_mono; [destruct v as [c' t']; apply (IH (after tx (TxView c' t') s) c' ks Hs'); [apply set_tx_lookup|]|].
    + cbn in Ev. subst c'. cbn. rewrite El. destruct (im_txs _ _ I _ _ Hx) as [_ [N1 _ _ _ _] _]. cbn in N1. rewrite El, fmap_app, fmap_cons in N1.
      apply NoDup_app in N1 as (_ & N2 & N3). apply NoDup_cons in N3 as [N3 _]. rewrite filter_app, filter_cons_False by tauto.
      rewrite !filter_all; [done|..]; intros m Hm Em.
      * apply N3. rewrite <- Em. by apply list_elem_of_fmap_2.
      * apply (N2 (node_addr m)); [by apply list_elem_of_fmap_2 | rewrite Em; by left].
    + intros ret w (H1 & H2 & H3). split_and!; [done | | done]. unfold after in *. by rewrite set_tx_twice in H2.
  - rewrite decide_True by done. apply runs_ret, runs_ret. cbn. eapply runs_mono; [apply (IH s c (ks ++ [n]) Hs Hx)|].
    + by rewrite El, <- app_assoc.
    + intros ret v (H1 & H2 & H3). by rewrite <- app_assoc in H3.
Qed.

Lemma runs_rollback s c : reachable s -> s.(sys_txs) !! tx = Some (TxState c Running None) ->
  runs (rollback_table_lock to_seq_no from_seq_no) (fun ret v => ret = OB_SUCCESS /\ reachable (after tx v s) /\
    v.(ctx).(lock_list_) = filter (fun x => kept x) c.(lock_list_)) (TxView c s.(sys_table)).
Proof.
  intros Hs Hx. destruct (reachable_implements s Hs) as (A & _ & I). unfold rollback_table_lock. apply runs_bind, runs_reads. unfold id. cbn.
  apply runs_if; intros E.
  { apply bool_decide_eq_true in E. apply runs_ret. split_and!; [done | by apply (after_same s tx c) |]. cbn. by rewrite E. }
  destruct (im_txs _ _ I _ _ Hx) as [_ [_ _ _ _ Hvalid] _]. cbn in Hvalid. rewrite Hvalid. cbn. apply runs_bind, runs_reads. cbn. by apply (runs_rollback_loop _ s c []).
Qed.
End rollback.

(** ** Theorems *)

(** C15: a lock that does not wait is held when the call returns [OB_SUCCESS].  The call
    returns; what it leaves is reached by the steps of the system, so that all that is
    said of its states holds; and success means that the context of the transaction has
    a lock of the object, owner, mode and kind asked for, or that the owner has it from a
    transaction that has committed.  DBMS locks are never granted twice. *)
Theorem try_lock_holds (s : system) (tx : ObTransID) (c : mem_ctx) (op : LockOp.t) (e : lock_env) (param : lock_param) :
  reachable s -> calm s -> s.(sys_txs) !! tx = Some (TxState c Running None) -> request tx op -> is_lock op ->
  codes_ok e -> no_retry e -> param.(is_try_lock_) = true ->
  exists ret wait v, memtable_lock true [e] param op (TxView c s.(sys_table)) = Some ((ret, wait), v) /\
    reachable (after tx v s) /\ (ret = OB_SUCCESS -> has_lock op v.(ctx) \/ (~ is_dbms op /\ has_completed op v.(table))).
Proof.
  intros Hs Hcalm Hx Hr Hl Hc Hn Ht. destruct (reachable_implements s Hs) as (A & _ & I).
  enough (runs (memtable_lock true [e] param op) (fun r v => reachable (after tx v s) /\
    (r.1 = OB_SUCCESS -> has_lock op v.(ctx) \/ (~ is_dbms op /\ has_completed op v.(table)))) (TxView c s.(sys_table))) as H.
  { apply runs_exists in H as ([ret w] & v & E & H). by exists ret, w, v. }
  unfold memtable_lock. apply runs_bind, runs_on_table, runs_reads. rewrite (proj2 (im_inited _ _ I)). cbn.
  destruct Hr as (E1 & E2 & Hv & E3) eqn:Er. rewrite Hv. cbn. apply runs_bind, runs_bind.
  eapply runs_mono; [by apply (runs_lock_turn s tx c op Hs Hcalm Hx Hr)|]. intros r v [(H1 & H2 & H3) H4]. rewrite (H4 Hn Ht), andb_false_r.
  apply runs_ret, runs_ret. cbn. split; [done|]. destruct (Z.eqb_spec (tr_ret r) OB_OBJ_LOCK_EXIST) as [Eq|Hne]; cbn; [|by auto].
  case_match eqn:Ed; [|by rewrite Eq]. apply negb_true_iff, bool_decide_eq_false in Ed. intros _. right. destruct (H3 Eq); done.
Qed.

