(* ===== verification/LockReplay.v ===== *)
(** * Logs that are replayed twice

    Replay starts again from an earlier log after a failure, so an operation comes more
    than once.  [check_lock_need_replay] skips the operations that were flushed with the
    table, that the context has from its checkpoint, and that are in its list. *)

From Stdlib Require Import ZArith Lia Bool.
From stdpp Require Import base countable numbers option gmap list.
From S2P Require Import Prelude Serialization Scn TableLockCommon ObjLock LockTable LockMemCtx LockCheckpoint.
Import AbortMonad.

Local Open Scope Z_scope.

(** The operations of a piece of the log, until one fails. *)
Fixpoint replay_all (e : lock_env) (logs : list (LockOp.t * SCN)) : TX Z :=
  match logs with
  | [] => mret OB_SUCCESS
  | (op, scn) :: logs => ret ← replay_lock e op scn; if ob_fail ret then mret ret else replay_all e logs
  end.

(** ** What replay leaves of the table *)

(** What decides whether the table needs an operation. *)
Definition stable_of (t : lock_table) := (t.(flushed_scn_), t.(memtable_inited_)).

Lemma steady_stable_at_obj {B} a (m : OL B) : steady stable_of (at_obj a m).
Proof.
  intros t y t' H. unfold at_obj in H. destruct (objs_ t !! a) as [o|]; [|done]. cbn in H.
  destruct (m o) as [[z o']|]; [|done]. by inversion H.
Qed.

Lemma steady_stable_map x : steady stable_of (update (set_lock_map x)).
Proof. intros t y t' H. by inversion H. Qed.

Lemma steady_stable_objs x : steady stable_of (update (set_objs x)).
Proof. intros t y t' H. by inversion H. Qed.

#[local] Hint Resolve steady_stable_at_obj steady_stable_map steady_stable_objs : steady.

Lemma steady_fault {B} : steady stable_of (fun _ : lock_table => @None (B * lock_table)).
Proof. by intros t x t'. Qed.

Lemma steady_retry {B} fuel (turn : LT (Z * B)) : steady stable_of turn -> steady stable_of (retry_eagain fuel turn).
Proof. intros H. induction fuel as [|fuel IH]; cbn; [apply steady_fault | steady]. Qed.

Lemma steady_recover fuel mem alloc op : steady stable_of (map_recover_obj_lock fuel mem alloc op).
Proof.
  unfold map_recover_obj_lock. assert (steady stable_of (map_recover_turn mem alloc op)) as H.
  { unfold map_recover_turn, get_or_create_obj_lock_with_ref_. steady. }
  pose proof (steady_retry fuel _ H). steady.
Qed.

(** ** What replay leaves of the context *)

(** [v'] has what [v] has. *)
Record extends (v v' : tx_view) : Prop := {
  ex_table : stable_of v'.(table) = stable_of v.(table);
  ex_ops : forall op, op ∈ ctx_ops v.(ctx) -> op ∈ ctx_ops v'.(ctx);
  ex_durable : rank v.(ctx).(max_durable_scn_) <= rank v'.(ctx).(max_durable_scn_) }.

#[export] Instance extends_preorder : PreOrder extends.
Proof.
  split; [by intros v; constructor|]. intros v1 v2 v3 [E1 O1 D1] [E2 O2 D2]. constructor; [congruence | auto | lia].
Qed.

Lemma replay_add_success e op scn v v' : replay_add_lock_record e op scn v = Some (OB_SUCCESS, v') ->
  v'.(table) = v.(table) /\ ctx_ops v'.(ctx) = ctx_ops v.(ctx) ++ [op] /\
  rank v.(ctx).(max_durable_scn_) <= rank v'.(ctx).(max_durable_scn_).
Proof.
  unfold replay_add_lock_record, ctx_add_lock_record. destruct (LockOp.is_valid op); [|done].
  destruct (e_node_alloc e); [|done]. unfold get_ctx, on_ctx, mbind, R_bind, reads, update. cbn.
  destruct (LockOp.need_register_callback op); cbn.
  2: { intros [= <-]. unfold ctx_ops. cbn. rewrite fmap_app. split_and!; [done | done | lia]. }
  destruct (ob_fail (e_register_cb e)) eqn:E; cbn; [intros [= H _]; by rewrite H in E|].
  intros [= <-]. unfold ctx_ops, sync_log_succ. cbn. rewrite scn_gt_rank.
  destruct (Z.ltb_spec (rank scn) (rank (max_durable_scn_ (ctx v)))); cbn; rewrite fmap_app; split_and!; done || lia.
Qed.

Lemma record_success e op scn v v' : replay_record_or_remove e op scn v = Some (OB_SUCCESS, v') ->
  extends v v' /\ op ∈ ctx_ops v'.(ctx).
Proof.
  unfold replay_record_or_remove, mbind, R_bind. destruct (replay_add_lock_record e op scn v) as [[ret v1]|] eqn:E; [|done]. cbn.
  destruct (ob_fail ret) eqn:Hret.
  { unfold on_table. destruct (map_remove_lock_record op (table v1)) as [[[] t]|]; cbn; [|done]. intros [= H _]. by rewrite H in Hret. }
  cbn. intros [= -> <-]. destruct (replay_add_success _ _ _ _ _ E) as (H1 & H2 & H3). split.
  - constructor; [by rewrite H1 | | done]. intros d Hd. rewrite H2. apply elem_of_app. by left.
  - rewrite H2. apply elem_of_app. right. by left.
Qed.

(** ** Operations that are not needed again *)

Definition settled (op : LockOp.t) (scn : SCN) (v : tx_view) : Prop :=
  v.(table).(memtable_inited_) = true /\ LockOp.is_valid op = true /\
  ((LockOp.is_out_trans_lock_op op = true /\ rank scn <= rank v.(table).(flushed_scn_)) \/
   rank scn < rank v.(ctx).(max_durable_scn_) \/
   exists d, d ∈ ctx_ops v.(ctx) /\ LockOp.need_replay_or_recover d op = false).

Lemma settled_extends op scn v v' : extends v v' -> settled op scn v -> settled op scn v'.
Proof.
  intros [E O D] (H1 & H2 & H3). unfold stable_of in E. injection E as E1 E2. split_and!; [congruence | done |].
  destruct H3 as [[? ?]|[?|(d & Hd & ?)]]; [left; split; [done | by rewrite E1] | right; left; lia | right; right; exists d; auto].
Qed.

Lemma settled_skipped op scn v : settled op scn v -> check_lock_need_replay_ op scn v = Some ((OB_SUCCESS, false), v).
Proof.
  intros (_ & Hv & H). unfold check_lock_need_replay_, mbind, R_bind, reads. cbn. unfold id. rewrite scn_le_rank.
  destruct (LockOp.is_out_trans_lock_op op && (rank scn <=? rank (flushed_scn_ (table v)))) eqn:E; [done|].
  unfold check_lock_need_replay. rewrite scn_lt_rank, Hv. cbn. destruct (Z.ltb_spec (rank scn) (rank (max_durable_scn_ (ctx v)))); [done|].
  destruct H as [[H1 H2]|[H|(d & Hd & Hn)]]; [rewrite H1 in E; cbn in E; lia | lia |].
  destruct (forallb _ (ctx_ops (ctx v))) eqn:Hf; [|done]. rewrite forallb_forall in Hf. apply list_elem_of_In in Hd. by rewrite (Hf d Hd) in Hn.
Qed.

Lemma settled_replay e op scn v : settled op scn v -> replay_lock e op scn v = Some (OB_SUCCESS, v).
Proof.
  intros H. pose proof (settled_skipped _ _ _ H) as E. destruct H as (Hi & Hv & _).
  unfold replay_lock, replay_lock_, on_table, mbind, R_bind, reads. cbn. rewrite Hi, Hv. cbn. destruct v. cbn in *. by rewrite E.
Qed.

Lemma skipped_settled op scn v : v.(table).(memtable_inited_) = true -> LockOp.is_valid op = true ->
  check_lock_need_replay_ op scn v = Some ((OB_SUCCESS, false), v) -> settled op scn v.
Proof.
  intros Hi Hv H. split_and!; [done | done |]. unfold check_lock_need_replay_, mbind, R_bind, reads in H. cbn in H. unfold id in H.
  rewrite scn_le_rank in H. destruct (LockOp.is_out_trans_lock_op op && (rank scn <=? rank (flushed_scn_ (table v)))) eqn:E.
  { apply andb_true_iff in E as [? ?]. left. split; [done | lia]. }
  unfold check_lock_need_replay in H. rewrite scn_lt_rank, Hv in H. cbn in H.
  destruct (Z.ltb_spec (rank scn) (rank (max_durable_scn_ (ctx v)))); [by right; left|]. right. right. injection H as H.
  apply not_true_iff_false in H. rewrite forallb_forall in H.
  destruct (decide (Exists (fun d => LockOp.need_replay_or_recover d op = false) (ctx_ops (ctx v)))) as [Hx|Hx]; [by apply Exists_exists in Hx|].
  destruct H. intros d Hd%list_elem_of_In. apply not_false_iff_true. intros Hn. apply Hx, Exists_exists. by exists d.
Qed.

Lemma need_itself op : LockOp.need_replay_or_recover op op = false.
Proof.
  unfold LockOp.need_replay_or_recover, TxSEQ.eqb. rewrite !Z.eqb_refl, bool_decide_eq_true_2 by done.
  by rewrite (proj2 (LockID.lock_id_eqb_eq _ _) eq_refl).
Qed.

Lemma replay_settles e op scn v v' : replay_lock e op scn v = Some (OB_SUCCESS, v') -> extends v v' /\ settled op scn v'.
Proof.
  unfold replay_lock, on_table, mbind, R_bind, reads. cbn. destruct v as [c t]. cbn.
  destruct (memtable_inited_ t) eqn:Hi; [|done]. destruct (LockOp.is_valid op) eqn:Hv; [|done]. cbn.
  unfold replay_lock_, mbind, R_bind. destruct (check_lock_need_replay_ op scn (TxView c t)) as [[[ret need] w]|] eqn:E; [|done].
  assert (w = TxView c t) as ->.
  { unfold check_lock_need_replay_, mbind, R_bind, reads in E. cbn in E. case_match; by injection E. }
  cbn. destruct (ob_fail ret) eqn:Hret; [intros [= H _]; by rewrite H in Hret|]. apply ob_fail_eq in Hret as ->.
  destruct need; cbn; [|intros [= <-]; split; [done | by apply skipped_settled]]. unfold on_table. cbn.
  destruct (map_recover_obj_lock 1 (e_mem e) (e_obj_alloc e) op t) as [[ret' t1]|] eqn:Er; [|done]. cbn.
  destruct (ob_fail ret') eqn:Hret'; [intros [= H _]; by rewrite H in Hret'|]. intros H.
  apply steady_recover in Er. apply record_success in H as [[H1 H2 H3] Hin]. cbn in *.
  assert (stable_of (table v') = stable_of t) as Est by congruence. split; [by constructor|].
  unfold stable_of in Est. injection Est as _ E2. split_and!; [congruence | done |]. right. right. exists op. split; [done | apply need_itself].
Qed.

Lemma replay_all_settles e logs : forall v v', replay_all e logs v = Some (OB_SUCCESS, v') ->
  extends v v' /\ forall op scn, (op, scn) ∈ logs -> settled op scn v'.
Proof.
  induction logs as [|[op scn] logs IH]; cbn; intros v v' H.
  { injection H as <-. split; [done|]. by intros op scn ?%not_elem_of_nil. }
  unfold mbind, R_bind in H. destruct (replay_lock e op scn v) as [[ret v1]|] eqn:E; [|done].
  cbn in H. destruct (ob_fail ret) eqn:Hret; [injection H as H _; by rewrite H in Hret|]. apply ob_fail_eq in Hret as ->.
  destruct (replay_settles _ _ _ _ _ E) as [X1 S1]. destruct (IH _ _ H) as [X2 S2]. split; [by etrans|].
  intros op' scn' [[= -> ->]|Hin]%elem_of_cons; [by eapply settled_extends | by apply S2].
Qed.

(** ** Theorem *)

(** C23: replay is idempotent.  When a piece of the log has been replayed, replaying any of
    its operations again, in any order and as often as one likes, whatever the rest of
    the system answers, returns [OB_SUCCESS] and changes nothing. *)
Theorem replay_again (e e' : lock_env) (logs logs' : list (LockOp.t * SCN)) (v v' : tx_view) :
  replay_all e logs v = Some (OB_SUCCESS, v') -> (forall l, l ∈ logs' -> l ∈ logs) ->
  replay_all e' logs' v' = Some (OB_SUCCESS, v').
Proof.
  intros H Hsub. destruct (replay_all_settles _ _ _ _ H) as [_ S]. clear H. induction logs' as [|[op scn] logs' IH]; [done|].
  cbn. unfold mbind, R_bind. rewrite settled_replay by (apply S, Hsub; by left). cbn. apply IH. intros l Hl. apply Hsub. by right.
Qed.
