(* ===== verification/LockRestart.v ===== *)
(** * A restart keeps the locks that were flushed

    The dump of a lock table and its recovery, composed: what the scan iterator writes
    are the completed locks up to [freeze_scn_], and a new memtable that recovers the
    rows has these locks, and the invariant of the system. *)

From Stdlib Require Import ZArith Lia Bool.
From stdpp Require Import base countable numbers option gmap list relations.
From S2P Require Import Prelude Serialization UnifySerialize Scn TableLockCommon ObjLock LockTable LockMemCtx ObjLockFacts ObjLockGrant ObjLockEnd LockSystem LockRefinement LockSimulation LockRelease LockCalls LockDump.
Import AbortMonad.

Local Open Scope Z_scope.

(** ** What is written *)

Definition stored (freeze_scn : SCN) (op : LockOp.t) : bool :=
  scn_le (LockOp.commit_scn_ op) freeze_scn && (is_complete_outtrans_lock op || is_complete_outtrans_unlock op).

Lemma store_info_loop_ok push freeze l : forall arr arr', store_info_loop push freeze l arr = (OB_SUCCESS, arr') ->
  arr' = arr ++ filter (fun op => stored freeze op = true) l.
Proof.
  induction l as [|op l IH]; intros arr arr'; [intros [= <-]; by rewrite app_nil_r|].
  rewrite filter_cons. cbn [store_info_loop]. fold (stored freeze op). destruct (stored freeze op) eqn:E; [rewrite decide_True by done | rewrite decide_False by done].
  - cbv zeta. destruct (ob_fail (push (length arr))) eqn:F; [intros [= Hp _]; by rewrite Hp in F|]. intros H%IH. by rewrite H, <- app_assoc.
  - apply IH.
Qed.

Lemma store_info_bucket_ok push freeze os : forall arr arr', store_info_bucket push freeze os arr = (OB_SUCCESS, arr') ->
  arr' = arr ++ filter (fun op => stored freeze op = true) (concat (all_ops <$> os)).
Proof.
  induction os as [|o os IH]; intros arr arr'; cbn; [intros [= <-]; by rewrite app_nil_r|].
  destruct (get_table_lock_store_info push freeze arr o) as [ret arr1] eqn:E. destruct (ob_fail ret) eqn:F; [done|].
  apply ob_fail_eq in F as ->. apply store_info_loop_ok in E as ->. intros ->%IH. by rewrite filter_app, app_assoc.
Qed.

Lemma map_store_info_ok push freeze bs : forall arr arr', map_get_table_lock_store_info push freeze bs arr = (OB_SUCCESS, arr') ->
  arr' = arr ++ filter (fun op => stored freeze op = true) (concat (all_ops <$> concat bs.*2)).
Proof.
  induction bs as [|[ret os] bs IH]; intros arr arr'; cbn; [intros [= <-]; by rewrite app_nil_r|].
  destruct (ob_fail ret) eqn:F; [intros [= -> _]; done|].
  destruct (store_info_bucket push freeze os arr) as [ret1 arr1] eqn:E. destruct (ob_fail ret1) eqn:F1; [intros [= -> _]; done|].
  apply ob_fail_eq in F1 as ->. apply store_info_bucket_ok in E as ->. intros ->%IH.
  by rewrite fmap_app, concat_app, filter_app, app_assoc.
Qed.

(** The buckets hold the objects of the map, in some order. *)
Definition walks (t : lock_table) (buckets : list (Z * list obj_lock)) : Prop :=
  concat buckets.*2 ≡ₚ omap (fun p => t.(objs_) !! p.2) (map_to_list t.(lock_map_)).

Lemma filter_same {B} (P Q : B -> Prop) `{forall x, Decision (P x)} `{forall x, Decision (Q x)} (l : list B) :
  (forall x, x ∈ l -> P x <-> Q x) -> filter P l ≡ₚ filter Q l.
Proof.
  induction l as [|x l IH]; intros Hx; [done|]. rewrite !filter_cons.
  assert (filter P l ≡ₚ filter Q l) as E by (apply IH; intros y Hy; apply Hx; by right).
  specialize (Hx x ltac:(by left)). destruct (decide (P x)), (decide (Q x)); try tauto. by rewrite E.
Qed.

Lemma filter_either {B} (P Q : B -> Prop) `{forall x, Decision (P x)} `{forall x, Decision (Q x)} (l : list B) :
  (forall x, x ∈ l -> P x -> ~ Q x) -> filter P l ++ filter Q l ≡ₚ filter (fun x => P x \/ Q x) l.
Proof.
  induction l as [|x l IH]; intros Hn; [done|]. rewrite !filter_cons.
  assert (filter P l ++ filter Q l ≡ₚ filter (fun x => P x \/ Q x) l) as E by (apply IH; intros y Hy; apply Hn; by right).
  specialize (Hn x ltac:(by left)). destruct (decide (P x)), (decide (Q x)), (decide (P x \/ Q x)); try tauto; rewrite <- E; [done|].
  by rewrite <- Permutation_middle.
Qed.

Lemma records_of_ids (ids : list LockID.t) A : NoDup ids ->
  concat ((fun id => records id A) <$> ids) ≡ₚ filter (fun op => recorded op /\ op_id op ∈ ids) A.
Proof.
  induction 1 as [|id ids Hid _ IH]; cbn [fmap list_fmap concat].
  { induction A as [|op A IH]; [done|]. rewrite filter_cons_False; [done | intros [_ ?%not_elem_of_nil]; done]. }
  rewrite IH. unfold records, on. rewrite list_filter_filter, filter_either.
  - apply filter_same. intros op _. rewrite elem_of_cons. tauto.
  - intros op _ [_ ->] [_ ?]. done.
Qed.

(** The objects of the map record the operations of the bag that are recorded. *)
Lemma all_ops_of_map s A : implements s A ->
  concat (all_ops <$> omap (fun p => s.(sys_table).(objs_) !! p.2) (map_to_list s.(sys_table).(lock_map_))) ≡ₚ filter (fun op => recorded op) A.
Proof.
  intros I. set (l := map_to_list (lock_map_ (sys_table s))). trans (concat ((fun id => records id A) <$> l.*1)).
  - assert (forall p, p ∈ l -> exists o, s.(sys_table).(objs_) !! p.2 = Some o /\ all_ops o ≡ₚ records p.1 A) as Hl.
    { intros [id a] Hp%elem_of_map_to_list. destruct (im_map _ _ I id a Hp) as (o & Ho & <- & Hd). exists o. split; [done|].
      apply (oo_live _ _ _ _ (im_objs _ _ I a o Ho) Hd). }
    clearbody l. induction l as [|p l IH]; [done|]. destruct (Hl p) as (o & Ho & E); [by left|]. cbn. rewrite Ho. cbn. rewrite E.
    f_equiv. apply IH. intros q Hq. apply Hl. by right.
  - rewrite records_of_ids by apply NoDup_fst_map_to_list. apply filter_same. intros op Hop. split; [by intros []|].
    intros Hr. split; [done|]. destruct (ok_object _ _ (im_ops _ _ I op Hop)) as [a Ha]. apply list_elem_of_fmap.
    exists (op_id op, a). split; [done|]. by apply elem_of_map_to_list.
Qed.

(** A completed lock that is in the data of a flush. *)
Definition flushed (freeze_scn : SCN) (c : LockOp.t) : Prop := completed c /\ scn_le (LockOp.commit_scn_ c) freeze_scn = true.

Lemma stored_flushed freeze A c : spec_ok A -> c ∈ A -> stored freeze c = true <-> flushed freeze c.
Proof.
  intros HA Hc. unfold stored, flushed. rewrite andb_true_iff, orb_true_iff, is_complete_lock_spec. split; [|tauto].
  intros [H1 [H2|H2]]; [done|]. exfalso. unfold is_complete_outtrans_unlock in H2. rewrite andb_true_iff, !bool_decide_eq_true in H2.
  destruct (ok_kinds _ HA c Hc) as [?|[? _]]; destruct H2; congruence.
Qed.

Lemma completed_recorded c : completed c -> recorded c.
Proof. intros [Ht _]. unfold LockOp.need_record_lock_op. by rewrite Ht. Qed.

Lemma scan_init_ok s A push buckets row_ret buf_ret it : implements s A -> walks s.(sys_table) buckets ->
  scan_iter_init push buckets row_ret buf_ret s.(sys_table) new_scan_iter = (OB_SUCCESS, it) ->
  exists arr rest, it = ScanIter arr 0 true /\ A ≡ₚ arr ++ rest /\
    forall c, c ∈ arr <-> locked s c /\ flushed s.(sys_table).(freeze_scn_) c.
Proof.
  intros I Hw. unfold scan_iter_init, memtable_get_table_lock_store_info. rewrite (proj2 (im_inited _ _ I)). cbn [negb new_scan_iter table_lock_store_info_].
  destruct (map_get_table_lock_store_info _ _ _ _) as [ret arr] eqn:E. destruct (ob_fail ret) eqn:F; [intros [= -> _]; done|]. apply ob_fail_eq in F as ->.
  destruct (ob_fail row_ret) eqn:F1; [intros [= -> _]; done|]. destruct (ob_fail buf_ret) eqn:F2; [intros [= -> _]; done|]. intros [= <-].
  apply map_store_info_ok in E. cbn in E. unfold walks in Hw. set (P := fun op => stored (freeze_scn_ (sys_table s)) op = true) in *.
  assert (arr ≡ₚ filter P A) as Ea.
  { rewrite E, Hw, (all_ops_of_map s A I), list_filter_filter. apply filter_same. intros c Hc. split; [tauto|]. intros Hp. split; [done|].
    apply completed_recorded. by apply (stored_flushed _ A c (im_spec _ _ I) Hc) in Hp as []. }
  exists arr, (filter (fun x => ~ P x) A). split; [done|]. split; [by rewrite Ea, filter_complement|].
  intros c. rewrite Ea, list_elem_of_filter. split.
  - intros [Hp Hc]. split; [by eapply in_locked|]. by apply (stored_flushed _ A c (im_spec _ _ I) Hc) in Hp.
  - intros [Hl Hf]. pose proof (locked_in _ _ _ I Hl) as Hc. split; [|done]. by apply (stored_flushed _ A c (im_spec _ _ I) Hc).
Qed.

(** ** The rows *)

(** The row is read as the operation. *)
Definition row_of (op : LockOp.t) (row : lock_row) : Prop :=
  exists pos, op_deserialize (Some row.(row_val)) (Z.of_nat (length row.(row_val))) 0 (raw_of LockOp.fresh) = Some (OB_SUCCESS, pos, raw_of op).

Section rows.
Context (reserve : Z -> Z) (bytes : Z -> list Z).
Hypothesis reserve_ok : forall n, reserve n = OB_SUCCESS.
Hypothesis bytes_ok : forall n, 0 <= n -> n <= Z.of_nat (length (bytes n)).

Lemma take_written_all bytes0 bs : take (length bs) (written bytes0 0 bs) = u8 <$> bs.
Proof. unfold written. change (Z.to_nat 0) with O. rewrite take_0, app_nil_l. rewrite <- (length_fmap u8 bs) at 1. apply take_app_length. Qed.

Lemma next_row arr i op : arr !! i = Some op -> fits op ->
  exists row, inner_get_next_row reserve bytes (ScanIter arr i true) = Some (OB_SUCCESS, Some row, ScanIter arr (S i) true) /\ row_of op row.
Proof.
  intros Hi F. pose proof (fits_dom op F) as Hd. pose proof (length_record 1 lock_op_members _ Hd) as Hl. pose proof (record_size_pos 1 lock_op_members _ Hd) as Hp.
  set (size := op_serialize_size (raw_of op)). set (bs := record_bytes 1 lock_op_members (raw_of op)).
  assert (size = Z.of_nat (length bs)) as Es by done.
  exists (LockRow (to_s 32 (Z.of_nat i)) (u8 <$> bs)). unfold inner_get_next_row. cbn [iter_inited_ idx_ table_lock_store_info_ negb]. pose proof (lookup_lt_Some _ _ _ Hi) as Hlt.
  destruct (Nat.eqb_spec i (length arr)); [lia|]. rewrite Hi. cbn [mbind option_bind]. rewrite reserve_ok. change (ob_fail OB_SUCCESS) with false. cbv iota zeta.
  fold size. assert (op_serialize (raw_of op) (Some (bytes size)) size 0 = Some (OB_SUCCESS, Some (written (bytes size) 0 bs), 0 + size)) as ->.
  { apply record_encode_ok; [done | done | lia | apply bytes_ok; lia |]. change (record_serialize_size 1 lock_op_members (raw_of op)) with size. lia. }
  cbn [mbind option_bind]. change (ob_fail OB_SUCCESS) with false. cbv iota. rewrite Es, Nat2Z.id, take_written_all. split; [done|].
  exists (0 + size). cbn [row_val]. rewrite length_fmap, <- Es. apply record_decode_ok; [done | apply lock_op_assign | done | | by rewrite Z.add_0_l |].
  - split; [done|]. intros j b Hb. exact Hb.
  - pose proof (fits_size op F). unfold size, op_serialize_size, record_serialize_size, unis_serialize_size, size_nbytes, OB_SERIALIZE_SIZE_NEED_BYTES, INT64_MAX.
    change (encoded_length_vi64 1) with 1. lia.
Qed.

Lemma read_rows_ok arr n : forall i, Forall fits arr -> (length arr = i + n)%nat ->
  exists rows, read_rows (S n) reserve bytes (ScanIter arr i true) = Some (OB_ITER_END, rows) /\ Forall2 row_of (drop i arr) rows.
Proof.
  induction n as [|n IH]; intros i HF Hn.
  - exists []. cbn. destruct (Nat.eqb_spec i (length arr)); [|lia]. split; [done|]. by rewrite drop_ge by lia.
  - destruct (lookup_lt_is_Some_2 arr i) as [op Hop]; [lia|]. destruct (next_row arr i op Hop) as (row & E & Hr); [by eapply Forall_lookup_1|].
    destruct (IH (S i) HF) as (rows & E2 & Hrs); [lia|]. exists (row :: rows). remember (S n) as m. cbn [read_rows]. rewrite E. cbn [mbind option_bind].
    rewrite E2. split; [done|]. rewrite (drop_S _ op) by done. by constructor.
Qed.
End rows.

(** ** Bags of completed locks *)

Lemma spec_ok_completed (L : op_list) : NoDup ((fun op => (op_id op, op_key op)) <$> L) -> (forall op, op ∈ L -> op_mode op ∈ table_modes) ->
  (forall op, op ∈ L -> completed op) -> exclusion L -> spec_ok L.
Proof.
  intros H1 H2 H3 H4. constructor; try done; [by intros op Hop; right; apply H3|].
  intros op Hop Ht. destruct (H3 op Hop). congruence.
Qed.

Lemma spec_ok_part A L rest : A ≡ₚ L ++ rest -> (forall op, op ∈ L -> completed op) -> spec_ok A -> spec_ok L.
Proof.
  intros E Hc [H1 H2 _ _ H5]. assert (forall op, op ∈ L -> op ∈ A) as Hin by (intros op Hop; rewrite E; apply elem_of_app; by left).
  apply spec_ok_completed; [|by auto | done | intros op c Hop Hd; apply H5; by apply Hin].
  rewrite E, fmap_app in H1. by apply NoDup_app in H1 as [? _].
Qed.

(** The same operation, with the time at which it was created, or an earlier one. *)
Definition restamped (c c' : LockOp.t) : Prop :=
  exists ts, ts <= LockOp.create_timestamp_ c /\ c' = LockOp.set_create_timestamp ts c.

Lemma restamped_spec L L' : Forall2 restamped L L' -> (forall op, op ∈ L -> completed op) -> spec_ok L -> spec_ok L'.
Proof.
  intros HF Hc HL. assert (forall c', c' ∈ L' -> exists c, c ∈ L /\ restamped c c') as Hin.
  { intros c' [i Hi]%list_elem_of_lookup. destruct (Forall2_lookup_r _ _ _ _ _ HF Hi) as (c & H1 & H2). exists c. split; [by eapply list_elem_of_lookup_2 | done]. }
  apply spec_ok_completed.
  - replace ((fun op => (op_id op, op_key op)) <$> L') with ((fun op => (op_id op, op_key op)) <$> L); [apply HL|].
    clear -HF. induction HF as [|c c' L L' (ts & _ & ->) _ IH]; [done|]. cbn. by f_equal.
  - intros c' (c & H & ts & _ & ->)%Hin. by apply (ok_modes _ HL c).
  - intros c' (c & H & ts & _ & ->)%Hin. by apply (Hc c).
  - intros c1' c2' (c1 & H1 & ts1 & _ & ->)%Hin (c2 & H2 & ts2 & _ & ->)%Hin. by apply (ok_exclusion _ HL c1 c2).
Qed.

(** ** Recovery of one operation *)

Definition enough_memory (e : restore_env) : Prop := e.(re_mem) = Memory true true /\ e.(re_alloc) = true.

Lemma runs_both {S B} (m : R S B) (P Q : B -> S -> Prop) s : runs m P s -> runs m Q s -> runs m (fun x t => P x t /\ Q x t) s.
Proof. unfold runs. destruct (m s) as [[x t]|]; done. Qed.

Lemma get_or_create_succeeds m o : shape o -> m ∈ table_modes ->
  runs (get_or_create_op_list (Memory true true) m) (fun ret _ => ret = OB_SUCCESS) o.
Proof.
  intros Ho Hm. unfold get_or_create_op_list. destruct (mode_index m Hm) as (Hv & Hi & _). rewrite Hv. cbn.
  destruct (Z.ltb_spec (get_index_by_lock_mode m) 0); [lia|]. apply runs_bind, runs_slot; [done | done |].
  intros [l|] Hl; [by apply runs_ret|]. by apply runs_bind, runs_set_slot; [..|apply runs_ret].
Qed.

Lemma recover_lock_succeeds op o : shape o -> op_mode op ∈ table_modes -> LockOp.is_valid op = true -> o.(is_deleted_) = false ->
  runs (recover_lock (Memory true true) op) (fun ret _ => ret = OB_SUCCESS) o.
Proof.
  intros Ho Hm Hv Hd. unfold recover_lock. rewrite Hv. cbn. apply runs_bind, runs_reads. rewrite Hd. unfold recover_.
  destruct (LockOp.need_record_lock_op op); cbn; [|by apply runs_bind, runs_lock_row; [done|]; intros; apply runs_ret].
  apply runs_bind. eapply runs_mono; [apply runs_both; [by apply get_or_create_succeeds|]|].
  - apply (runs_get_or_create _ _ _ (fun ret o' => ret = OB_SUCCESS -> shape o' /\ exists l, o'.(map_) !! place (op_mode op) = Some (Some l))); [done | done | done |].
    intros o' B Hl _. split; [apply B | done].
  - intros ret o1 [-> H]. destruct (H eq_refl) as (H1 & l & Hl). cbn. apply runs_bind, runs_slot; [done | done |]. intros l1 Hl1. rewrite Hl in Hl1. injection Hl1 as <-.
    apply runs_bind. eapply runs_lift; [done|]. destruct (negb _); [by apply runs_ret|]. unfold add_node. rewrite Hv. cbn. unfold add_last.
    apply runs_bind, runs_bind, runs_slot; [done | done |]. intros l2 Hl2. rewrite Hl in Hl2. injection Hl2 as <-. apply runs_bind. eapply runs_lift; [done|].
    by apply runs_set_slot; [..|apply runs_ret].
Qed.

Section restore.
Context (s : system) (B : op_list) (op : LockOp.t) (x : tx_state).
Hypothesis I : implements s B.
Hypothesis op_completed : completed op.
Hypothesis op_valid : LockOp.is_valid op = true.
Hypothesis op_tx : s.(sys_txs) !! op_trans op = Some x.
Hypothesis op_committed : committing x.(tx_phase) = true.
Hypothesis op_spec : spec_ok (op :: B).

Lemma effect_recover a o o' : s.(sys_table).(objs_) !! a = Some o -> o.(obj_lock_id_) = op_id op -> o.(is_deleted_) = false ->
  becomes o o' (op :: all_ops o) o.(row_share_) o.(row_exclusive_) -> effect s (op_trans op) x o o' B (op :: B).
Proof.
  intros Ha Hid Hd Hb. destruct (im_txs _ _ I _ x op_tx) as [T1 T2 T4]. pose proof (completed_recorded op op_completed) as Hrec.
  assert (op_status op <> LOCK_OP_DOING) as Hst by (by destruct op_completed as [_ ->]).
  destruct (oo_live _ _ _ _ (im_objs _ _ I a o Ha) Hd) as [L1 L2 L3 L4]. destruct Hb.
  constructor; try done; try congruence; rewrite ?Hid in *.
  - rewrite records_cons by done. by rewrite be_ops, L2.
  - rewrite rows_cons by done. congruence.
  - rewrite rows_cons by done. congruence.
  - intros id Hne. by rewrite on_cons_other by congruence.
  - intros tx' Hne. rewrite doing_cons_other by (right; done). done.
  - constructor; [by rewrite doing_cons_other by (right; done) | done | done].
  - intros c [->|Hc]%elem_of_cons; [right; by split_and! | by left].
Qed.

Lemma runs_recover_op a o mem : s.(sys_table).(objs_) !! a = Some o -> o.(obj_lock_id_) = op_id op -> o.(is_deleted_) = false ->
  runs (at_obj a (recover_lock mem op)) (fun ret t => ret <> OB_EAGAIN /\ ret <> OB_ITER_END /\ (mem = Memory true true -> ret = OB_SUCCESS) /\
    (ret = OB_SUCCESS -> implements (System t s.(sys_txs)) (op :: B))) s.(sys_table).
Proof.
  intros Ha Hid Hd. pose proof (im_objs _ _ I a o Ha) as [Ho S2 _]. assert (op_mode op ∈ table_modes) as Hm by (apply op_spec; by left).
  eapply runs_at_obj; [done|].
  eapply runs_mono; [apply runs_eqn, (runs_recover_lock mem op o (fun ret o' => ret <> OB_EAGAIN /\ ret <> OB_ITER_END /\ (ret = OB_SUCCESS ->
    becomes o o' (op :: all_ops o) o.(row_share_) o.(row_exclusive_)))); try done|].
  - intros c Hc Ek. pose proof (recorded_in _ _ _ _ _ I Ha Hc) as HB. rewrite (lv_ops _ _ _ _ (S2 Hd)) in Hc. apply elem_of_records in Hc as (_ & Ei & _).
    pose proof (ok_keys _ op_spec) as Hk. cbn in Hk. apply NoDup_cons in Hk as [Hk _]. apply Hk. apply list_elem_of_fmap. exists c. split; [|done]. congruence.
  - intros ret o' [->|[_ ?]] _; [done | congruence].
  - intros o' _ Hr _. rewrite completed_recorded in Hr by done. done.
  - intros ret o' (E & Hne & Hni & Hs). split_and!; [done | done | |].
    + intros ->. by apply (runs_Some _ (fun ret _ => ret = OB_SUCCESS) _ _ _ (recover_lock_succeeds op o Ho Hm op_valid Hd) E).
    + intros Hret. set (t := set_objs (<[a := o']> s.(sys_table).(objs_)) s.(sys_table)).
      replace (System t s.(sys_txs)) with (set_tx (op_trans op) x t s) by (unfold set_tx; by rewrite insert_id).
      eapply im_effect; [done | done | done | done | done | apply at_place_set |]. eapply effect_recover; [done | done | done | by apply Hs].
Qed.

End restore.

Lemma obtain_succeeds s A lock_id : implements s A ->
  runs (get_or_create_obj_lock_with_ref_ true lock_id) (fun r _ => r.1 = OB_SUCCESS) s.(sys_table).
Proof.
  intros I. unfold get_or_create_obj_lock_with_ref_. apply runs_bind, runs_reads. unfold id. rewrite (proj1 (im_inited _ _ I)). cbn.
  by destruct (lock_map_ (sys_table s) !! lock_id).
Qed.

Lemma runs_restore_op s B op x mem alloc : implements s B -> completed op -> LockOp.is_valid op = true -> s.(sys_txs) !! op_trans op = Some x ->
  committing x.(tx_phase) = true -> spec_ok (op :: B) ->
  runs (memtable_recover_obj_lock 1 mem alloc op) (fun ret t => ret <> OB_ITER_END /\ (mem = Memory true true -> alloc = true -> ret = OB_SUCCESS) /\
    (ret = OB_SUCCESS -> implements (System t s.(sys_txs)) (op :: B))) s.(sys_table).
Proof.
  intros I Hc Hv Hx Hp Hspec. unfold memtable_recover_obj_lock. apply runs_bind, runs_reads. rewrite (proj2 (im_inited _ _ I)), Hv. cbn.
  unfold map_recover_obj_lock. apply runs_bind, runs_reads. rewrite (proj1 (im_inited _ _ I)), Hv. cbn. apply runs_bind, runs_bind, runs_bind.
  eapply runs_mono; [apply runs_eqn, (runs_obtain s B alloc (op_id op) (fun r t => r = (OB_ALLOCATE_MEMORY_FAILED, None) \/
    exists a o, r = (OB_SUCCESS, Some a) /\ t.(objs_) !! a = Some o /\ o.(obj_lock_id_) = op_id op /\ o.(is_deleted_) = false)); [done | by left |]|].
  { intros t a o _ Ha Hid Hd _. right. by exists a, o. }
  intros r t [E [->|(a & o & -> & Ha & Hid & Hd)]]; cbn in *.
  - apply runs_ret. cbn. apply runs_ret, runs_ret. split_and!; [done | | done]. intros _ ->.
    by apply (runs_Some _ _ _ _ _ (obtain_succeeds s B (op_id op) I) E).
  - apply runs_bind. pose proof (sim_create s B alloc (op_id op) _ _ t I E) as I2.
    eapply runs_mono; [by apply (runs_recover_op (System t s.(sys_txs)) B op x I2 Hc Hv Hx Hp Hspec a o mem)|].
    intros ret' t' (Hne & Hni & Hmem & Him). apply runs_ret. cbn. rewrite (proj2 (Z.eqb_neq _ _) Hne). apply runs_ret, runs_ret. by split_and!; [|intros Hm _; apply Hmem|].
Qed.

(** ** Recovery of all rows *)

Lemma restamped_refl c : restamped c c.
Proof. exists (LockOp.create_timestamp_ c). split; [done | by destruct c]. Qed.

Lemma restamp_head op op' L B : restamped op op' -> (forall c, c ∈ op :: L ++ B -> completed c) -> spec_ok (op :: L ++ B) ->
  spec_ok (op' :: B) /\ spec_ok (L ++ op' :: B).
Proof.
  intros Hr Hc Hs. assert (spec_ok (op' :: L ++ B)) as H.
  { eapply restamped_spec; [|done | done]. constructor; [done|]. apply Forall_Forall2_diag, Forall_forall. intros c _. apply restamped_refl. }
  assert (forall c, c ∈ op' :: L ++ B -> completed c) as Hc'.
  { intros c [->|Hin]%elem_of_cons; [destruct Hr as (ts & _ & ->); apply (Hc op); by left | apply Hc; by right]. }
  split.
  - eapply (spec_ok_part _ _ L); [|  | exact H]; [cbn; f_equiv; apply Permutation_app_comm|].
    intros c [->|Hin]%elem_of_cons; apply Hc'; [by left | right; apply elem_of_app; by right].
  - eapply spec_ok_perm; [|exact H]. apply Permutation_middle.
Qed.

Section rows_restored.
Context (e : restore_env) (txs : gmap ObTransID tx_state).
Hypothesis env_inited : e.(re_inited) = true.
Hypothesis env_memtable : e.(re_memtable) = OB_SUCCESS.

(** A completed lock of a transaction that is known to have committed. *)
Record restorable (op : LockOp.t) : Prop := {
  rs_completed : completed op;
  rs_valid : LockOp.is_valid op = true;
  rs_tx : exists x, txs !! op_trans op = Some x /\ committing x.(tx_phase) = true }.

Lemma runs_table_recover t B op row : implements (System t txs) B -> row_of op row -> restorable op ->
  (forall op', restamped op op' -> spec_ok (op' :: B)) ->
  runs (table_recover_ e row) (fun ret t' => ret <> OB_ITER_END /\ (enough_memory e -> ret = OB_SUCCESS) /\
    (ret = OB_SUCCESS -> exists op', restamped op op' /\ implements (System t' txs) (op' :: B))) t.
Proof.
  intros I [pos Hrow] [Hc Hv (x & Hx & Hp)] Hs. unfold table_recover_. rewrite env_inited. cbn [negb].
  apply runs_bind. eapply runs_lift; [exact Hrow|]. cbn. apply runs_bind. eapply runs_lift; [apply op_of_raw|]. rewrite env_memtable. cbn.
  set (op' := LockOp.set_create_timestamp _ op). assert (restamped op op') as Hr by (eexists; split; [apply Z.le_min_l | done]).
  eapply runs_mono; [apply (runs_restore_op (System t txs) B op' x); [done | done | by rewrite <- Hv | done | done | by apply Hs]|].
  intros ret t' (H1 & H2 & H3). split_and!; [done | by intros []; apply H2|]. intros Hret. exists op'. split; [done | by apply H3].
Qed.

Lemma runs_restore_rows L rows : Forall2 row_of L rows -> forall t B, implements (System t txs) B ->
  (forall op, op ∈ L -> restorable op) -> (forall op, op ∈ B -> completed op) -> spec_ok (L ++ B) ->
  runs (restore_rows e OB_ITER_END rows) (fun ret t' => ret <> OB_SUCCESS /\ (enough_memory e -> ret = OB_ITER_END) /\
    (ret = OB_ITER_END -> exists L' C, Forall2 restamped L L' /\ C ≡ₚ L' ++ B /\ implements (System t' txs) C)) t.
Proof.
  induction 1 as [|op row L rows Hrow _ IH]; intros t B I HL HB Hs; cbn [restore_rows].
  { apply runs_ret. split_and!; [done | done |]. intros _. exists [], B. by split_and!. }
  assert (forall c, c ∈ op :: L ++ B -> completed c) as Hc.
  { intros c [Hc|Hc]%(elem_of_app (op :: L)); [by apply HL | by apply HB]. }
  apply runs_bind. eapply runs_mono; [apply (runs_table_recover t B op row)|]; [done | done | apply HL; by left | |].
  { intros op' Hr. by eapply restamp_head. }
  intros ret t' (Hne & Hmem & Him). destruct (ob_fail ret) eqn:F.
  { apply runs_ret. split_and!; [by intros -> | | done]. intros Hm. by rewrite (Hmem Hm) in F. }
  apply ob_fail_eq in F as ->. destruct (Him eq_refl) as (op' & Hr & I'). destruct (restamp_head op op' L B Hr Hc Hs) as [_ Hs'].
  eapply runs_mono; [apply (IH t' (op' :: B)); [done | intros c ?; apply HL; by right | | done]|].
  - intros c [->|?]%elem_of_cons; [destruct Hr as (ts & _ & ->); apply (Hc op); by left | by apply HB].
  - intros ret t2 (H0 & H1 & H2). split_and!; [done | done |]. intros Hret. destruct (H2 Hret) as (L' & C & HF & E & I2). exists (op' :: L'), C. split_and!; [by constructor | | done].
    rewrite E. cbn. symmetry. apply Permutation_middle.
Qed.
End rows_restored.

(** Transactions that have committed, without locks of their own. *)
Definition all_ended (txs : gmap ObTransID tx_state) : Prop :=
  forall tx x, txs !! tx = Some x -> exists version scn, x = TxState new_mem_ctx (Ending true version scn) None.

Lemma new_table_implements txs end_scn t : memtable_init true OB_SUCCESS OB_SUCCESS new_lock_memtable = Some (OB_SUCCESS, t) ->
  all_ended txs -> implements (System (set_flushed_scn end_scn t) txs) [].
Proof.
  intros [= <-] Hd. constructor; try done; cbn.
  - intros tx x (version & scn & ->)%Hd. constructor; try done. constructor; cbn; try done; [apply NoDup_nil_2 | by intros n ?%not_elem_of_nil ..].
  - by intros op ?%not_elem_of_nil.
  - apply spec_reachable_ok. constructor.
Qed.

Lemma steps_implement s s' A : implements s A -> rtc step s s' -> exists A', implements s' A'.
Proof.
  intros I H. revert A I. induction H as [s|s s1 s' Hs _ IH]; intros A I; [by exists A|].
  destruct (sim_step s s1 A I Hs) as (A' & _ & I'). by eapply IH.
Qed.

(** C24: a restart keeps the locks.  From every state of the system, the scan iterator
    that a merge reads ends with one row for each completed lock up to [freeze_scn_].  A
    new memtable that recovers these rows, with the transactions that committed them,
    returns [OB_SUCCESS] unless memory runs out; it then has exactly these locks, with
    the time of their creation or an earlier one, and in whatever state the system
    reaches from there the locks of different transactions are compatible. *)
Theorem restart_restores_locks (s : system) push buckets row_ret buf_ret (it : scan_iter) reserve bytes (e : restore_env) (end_scn : SCN)
    (txs : gmap ObTransID tx_state) (t0 : lock_table) :
  reachable s -> walks s.(sys_table) buckets ->
  scan_iter_init push buckets row_ret buf_ret s.(sys_table) new_scan_iter = (OB_SUCCESS, it) ->
  (forall op, locked s op -> fits op) ->
  (forall n, reserve n = OB_SUCCESS) -> (forall n, 0 <= n -> n <= Z.of_nat (length (bytes n))) ->
  memtable_init true OB_SUCCESS OB_SUCCESS new_lock_memtable = Some (OB_SUCCESS, t0) ->
  e.(re_inited) = true -> e.(re_memtable) = OB_SUCCESS -> all_ended txs ->
  (forall c, locked s c -> flushed s.(sys_table).(freeze_scn_) c -> is_Some (txs !! op_trans c)) ->
  exists rows, read_rows (S (length it.(table_lock_store_info_))) reserve bytes it = Some (OB_ITER_END, rows) /\
  exists ret t, restore_lock_table_ e OB_SUCCESS end_scn OB_ITER_END (Some rows) t0 = Some (ret, t) /\
    (enough_memory e -> ret = OB_SUCCESS) /\
    (ret = OB_SUCCESS ->
      (forall op, locked (System t txs) op -> exists c, locked s c /\ flushed s.(sys_table).(freeze_scn_) c /\ restamped c op) /\
      (forall c, locked s c -> flushed s.(sys_table).(freeze_scn_) c -> exists op, restamped c op /\ locked (System t txs) op) /\
      (forall s' op c, rtc step (System t txs) s' -> locked s' op -> locked s' c -> is_lock op -> is_lock c ->
         op_id op = op_id c -> op_trans op <> op_trans c -> compatible (op_mode op) (op_mode c) = true)).
Proof.
  intros Hs Hw Hit Hfits Hres Hbytes Ht0 He1 He2 Htxs Hcom. destruct (reachable_implements s Hs) as (A & _ & I).
  destruct (scan_init_ok s A push buckets row_ret buf_ret it I Hw Hit) as (arr & rest & -> & EA & Harr). cbn [table_lock_store_info_].
  destruct (read_rows_ok reserve bytes Hres Hbytes arr (length arr) 0) as (rows & Hrows & HF); [|done|].
  { apply Forall_forall. intros c Hc. by apply Hfits, Harr. }
  exists rows. split; [done|]. rewrite drop_0 in HF.
  assert (runs (restore_lock_table_ e OB_SUCCESS end_scn OB_ITER_END (Some rows)) (fun ret t => (enough_memory e -> ret = OB_SUCCESS) /\
    (ret = OB_SUCCESS -> exists L', Forall2 restamped arr L' /\ exists C, C ≡ₚ L' /\ implements (System t txs) C)) t0) as HR.
  { unfold restore_lock_table_. cbn. rewrite He2. cbn. apply runs_bind, runs_update, runs_bind.
    eapply runs_mono; [apply (runs_restore_rows e txs He1 He2 arr rows HF _ [])|]; [by apply new_table_implements | | by intros c ?%not_elem_of_nil | | ].
    - intros c Hc. apply Harr in Hc as [Hl Hfl]. constructor; [apply Hfl | by apply (im_ops _ _ I), (locked_in _ _ _ I) |].
      destruct (Hcom c Hl Hfl) as [x Hx]. exists x. split; [done|]. by destruct (Htxs _ _ Hx) as (? & ? & ->).
    - rewrite app_nil_r. eapply spec_ok_part; [done | | apply I]. intros c Hc. by apply Harr in Hc as [_ []].
    - intros ret t (H0 & H1 & H2). apply runs_ret. split; [intros Hm; by rewrite (H1 Hm)|]. destruct (Z.eqb_spec ret OB_ITER_END) as [Er|Er]; [|done].
      intros _. destruct (H2 Er) as (L' & C & HL & E & I'). exists L'. split; [done|]. exists C. by rewrite app_nil_r in E. }
  unfold runs in HR. destruct (restore_lock_table_ _ _ _ _ _ t0) as [[ret t]|]; [|done]. exists ret, t. split; [done|]. destruct HR as [H1 H2]. split; [done|].
  intros Hret. destruct (H2 Hret) as (L' & HL & C & E & I'). split_and!.
  - intros op Hop%(locked_in _ _ _ I'). rewrite E in Hop. apply list_elem_of_lookup in Hop as [i Hi].
    destruct (Forall2_lookup_r _ _ _ _ _ HL Hi) as (c & Hc & Hr). exists c. apply list_elem_of_lookup_2, Harr in Hc as []. done.
  - intros c Hl Hfl. assert (c ∈ arr) as [i Hi]%list_elem_of_lookup by (by apply Harr). destruct (Forall2_lookup_l _ _ _ _ _ HL Hi) as (op & Hop & Hr).
    exists op. split; [done|]. apply (in_locked _ _ _ I'). rewrite E. by eapply list_elem_of_lookup_2.
  - intros s' op c Hst Hop Hc. destruct (steps_implement _ _ _ I' Hst) as (A' & I2). by apply (ok_exclusion _ (im_spec _ _ I2)); eapply locked_in.
Qed.
