(* ===== verification/LockExample.v ===== *)
(** * A run of the lock table

    A run with three transactions, step by step: the first takes a lock outside of
    transactions on a table and commits it, the second holds a row lock, the third asks
    for a mode that conflicts.  The theorems of [LockSafety] at its states. *)

From Stdlib Require Import ZArith Lia Bool.
From stdpp Require Import base countable numbers option gmap list.
From S2P Require Import Prelude Serialization Scn TableLockCommon ObjLock LockTable LockMemCtx ObjLockFacts ObjLockGrant ObjLockEnd LockSystem LockRefinement LockCheckpoint LockSimulation LockRelease LockSafety LockCalls LockReplay UnifySerialize LockDump LockRestart.
Import AbortMonad.

Local Open Scope Z_scope.

(** ** Steps as functions *)

#[local] Instance few_dec o : Decision (few o).
Proof. unfold few. apply _. Defined.

Definition begin (tx : ObTransID) (s : system) : option system :=
  match s.(sys_txs) !! tx with
  | None => Some (set_tx tx (TxState new_mem_ctx Running None) s.(sys_table) s)
  | Some _ => None
  end.

Definition create (id : LockID.t) (s : system) : option system :=
  if LockID.is_valid id then
    '(_, t) ← get_or_create_obj_lock_with_ref_ true id s.(sys_table); Some (System t s.(sys_txs))
  else None.

Definition count (tx : ObTransID) (op : LockOp.t) (s : system) : option system :=
  match s.(sys_txs) !! tx with
  | Some (TxState c Running None) =>
    match check_lock_exist (op_id op) (op_owner op) (op_mode op) (op_type op) no_counts (TxView c s.(sys_table)) with
    | Some (ret, false, counts, _) =>
      if ob_succ ret then Some (set_tx tx (TxState c Running (Some (Counted op counts))) s.(sys_table) s) else None
    | _ => None
    end
  | _ => None
  end.

Definition acquire (tx : ObTransID) (a : nat) (s : system) : option system :=
  match s.(sys_txs) !! tx, s.(sys_table).(objs_) !! a with
  | Some (TxState c Running (Some (Counted op counts))), Some o =>
    if decide (o.(obj_lock_id_) = op_id op) then
      if decide (few o) then
        '(ret, set, t) ← at_obj a (lock (Memory true true) (LockParam true false 0) op counts []) s.(sys_table);
        Some (set_tx tx (TxState c Running (after_lock ret op counts)) t s)
      else None
    else None
  | _, _ => None
  end.

Definition env : lock_env :=
  LockEnv OB_SUCCESS OB_SUCCESS OB_SUCCESS (Memory true true) true true OB_SUCCESS OB_SUCCESS OB_SUCCESS false OB_SUCCESS 0 (fun t => t).

Definition record (tx : ObTransID) (s : system) : option system :=
  match s.(sys_txs) !! tx with
  | Some (TxState c Running (Some (Acquired op))) =>
    '(_, v) ← record_or_remove env op (TxView c s.(sys_table)); Some (set_tx tx (TxState v.(ctx) Running None) v.(table) s)
  | _ => None
  end.

Definition unlock_at (tx : ObTransID) (op : LockOp.t) (a : nat) (s : system) : option system :=
  match s.(sys_txs) !! tx, s.(sys_table).(objs_) !! a with
  | Some (TxState c Running None), Some o =>
    match check_lock_exist (op_id op) (op_owner op) (op_mode op) (op_type op) no_counts (TxView c s.(sys_table)) with
    | Some (ret, false, counts, _) =>
      if ob_succ ret then
        if decide (o.(obj_lock_id_) = op_id op) then
          '(ret, t) ← at_obj a (unlock (Memory true true) op true 0 0) s.(sys_table);
          Some (set_tx tx (TxState c Running (if ob_succ ret then Some (Acquired op) else None)) t s)
        else None
      else None
    | _ => None
    end
  | _, _ => None
  end.

Definition finish (tx : ObTransID) (commit : bool) (scn : SCN) (s : system) : option system :=
  match s.(sys_txs) !! tx with
  | Some (TxState c Running None) => Some (set_tx tx (TxState c (Ending commit scn scn) None) s.(sys_table) s)
  | _ => None
  end.

Definition first_turn (tx : ObTransID) (s : system) : option system :=
  match s.(sys_txs) !! tx with
  | Some (TxState c (Ending commit version scn) None) =>
    match c.(lock_list_) with
    | x :: _ =>
      if commit && scn_le scn s.(sys_table).(flushed_scn_) then None
      else '(_, v) ← end_turn false commit version scn x (TxView c s.(sys_table));
           Some (set_tx tx (TxState v.(ctx) (Ending commit version scn) None) v.(table) s)
    | [] => None
    end
  | _ => None
  end.

Ltac step_by H :=
  repeat (case_match; try done); simplify_option_eq; repeat match goal with p : _ * _ |- _ => destruct p end; simplify_eq;
  eapply reachable_step; [exact H|].

Lemma begin_reachable tx s s' : reachable s -> begin tx s = Some s' -> reachable s'.
Proof. intros Hs H. unfold begin in H. step_by Hs. by apply step_begin. Qed.

Lemma create_reachable id s s' : reachable s -> create id s = Some s' -> reachable s'.
Proof. intros Hs H. unfold create in H. step_by Hs. by eapply step_create. Qed.

Lemma count_reachable tx op s s' : reachable s -> request tx op -> is_lock op -> count tx op s = Some s' -> reachable s'.
Proof.
  intros Hs Hr Hl H. unfold count in H. step_by Hs. apply step_count; [done..|]. eexists.
  match goal with E : ob_succ _ = true |- _ => unfold ob_succ in E; apply Z.eqb_eq in E; subst end. done.
Qed.

Lemma acquire_reachable tx a s s' : reachable s -> acquire tx a s = Some s' -> reachable s'.
Proof. intros Hs H. unfold acquire in H. step_by Hs. by eapply step_acquire. Qed.

Lemma unlock_reachable tx op a s s' : reachable s -> request tx op -> op_type op = OUT_TRANS_UNLOCK -> unlock_at tx op a s = Some s' ->
  reachable s'.
Proof.
  intros Hs Hr Ht H. unfold unlock_at in H.
  destruct (sys_txs s !! tx) as [[c [|] [|]]|] eqn:Hx; try done. destruct (objs_ (sys_table s) !! a) as [o|] eqn:Ha; [|done].
  destruct (check_lock_exist _ _ _ _ _ _) as [[[[ret []] counts] v]|] eqn:Hc; try done.
  destruct (ob_succ ret) eqn:E; [|done]. apply Z.eqb_eq in E. subst ret. case_decide; [|done].
  destruct (at_obj _ _ _) as [[ret t]|] eqn:Hu; [|done]. injection H as <-. eapply reachable_step; [done|].
  eapply step_unlock; try done. by eexists.
Qed.

Lemma record_reachable tx s s' : reachable s -> record tx s = Some s' -> reachable s'.
Proof. intros Hs H. unfold record in H. step_by Hs. by eapply step_record. Qed.

Lemma finish_reachable tx commit scn s s' : reachable s -> finish tx commit scn s = Some s' -> reachable s'.
Proof. intros Hs H. unfold finish in H. step_by Hs. by apply step_end. Qed.

Lemma first_turn_reachable tx s s' : reachable s -> first_turn tx s = Some s' -> reachable s'.
Proof.
  intros Hs H. unfold first_turn in H. step_by Hs. eapply (step_end_turn _ _ _ false); [done | | by intros -> | cbn; eassumption].
  match goal with E : lock_list_ _ = _ |- _ => rewrite E; by left end.
Qed.

(** ** The run *)

Definition id : LockID.t := LockID.mk OBJ_TYPE_TABLE 7.
Definition op (mode : ObTableLockMode) (owner : Z) (tx : ObTransID) (type : ObTableLockOpType) : LockOp.t :=
  LockOp.mk id mode owner tx type LOCK_OP_DOING 1 OB_INVALID_SCN_VAL OB_INVALID_SCN_VAL 0 0.

Definition share : LockOp.t := op SHARE 10 1 OUT_TRANS_LOCK.
Definition row : LockOp.t := op ROW_SHARE 0 2 IN_TRANS_DML_LOCK.
Definition other_row : LockOp.t := op ROW_EXCLUSIVE 0 3 IN_TRANS_DML_LOCK.

Definition s0 : system := System (from_option snd new_lock_memtable (memtable_init true OB_SUCCESS OB_SUCCESS new_lock_memtable)) ∅.
Definition run (fs : list (system -> option system)) (s : system) : system := default s (foldl (fun s f => s ≫= f) (Some s) fs).
Definition s1 : system := run [begin 1; begin 2; begin 3; create id] s0.
Definition a0 : nat := default 0%nat (s1.(sys_table).(lock_map_) !! id).

(** The first transaction holds the table; the second a row of it; the first commits. *)
Definition s2 : system := run [count 1 share; acquire 1 a0; record 1] s1.
Definition s3 : system := run [count 2 row; acquire 2 a0; record 2] s2.
Definition s4 : system := run [finish 1 true 50; first_turn 1] s3.

(** The third asks. *)
Definition s5 : system := run [count 3 other_row] s4.

(** The second rolls its row back and ends. *)
Definition s6 : system := run [finish 2 false 0] s4.
Definition s7 : system := run [first_turn 2] s6.

Lemma s0_reachable : reachable s0.
Proof. apply reachable_initial. constructor. by vm_compute. Qed.

(** The states are reachable. *)
Definition sound (f : system -> option system) : Prop := forall s s', reachable s -> f s = Some s' -> reachable s'.

Lemma run_is_reachable fs s : Forall sound fs -> reachable s -> reachable (run fs s).
Proof.
  intros Hfs Hs. unfold run.
  enough (forall x, (forall s', x = Some s' -> reachable s') ->
    forall s', foldl (fun s f => s ≫= f) x fs = Some s' -> reachable s') as H.
  { destruct (foldl _ (Some s) fs) eqn:E; [|done]. eapply H; [|exact E]. by intros s' [= <-]. }
  induction Hfs as [|f fs Hf _ IH]; cbn; intros x Hx s' E; [by apply Hx|]. eapply IH; [|exact E].
  intros s1 (s2 & -> & E2)%bind_Some. eapply Hf; [by apply Hx | done].
Qed.

Ltac known := first
  [ by intros ? ? ? ?; eapply begin_reachable | by intros ? ? ? ?; eapply create_reachable
  | by intros ? ? ? ?; eapply acquire_reachable | by intros ? ? ? ?; eapply record_reachable
  | by intros ? ? ? ?; eapply finish_reachable | by intros ? ? ? ?; eapply first_turn_reachable
  | intros ? ? ? ?; eapply unlock_reachable; [done | | | eassumption];
    [split_and!; [done | done | by vm_compute | cbn; in_modes] | done]
  | intros ? ? ? ?; eapply count_reachable; [done | | | eassumption];
    [split_and!; [done | done | by vm_compute | cbn; in_modes] | vm_compute; auto] ].
Ltac run_of H := apply run_is_reachable; [repeat (apply Forall_cons; split; [known|]); by apply Forall_nil | exact H].

Lemma s1_reachable : reachable s1.
Proof. run_of s0_reachable. Qed.

Lemma s2_reachable : reachable s2.
Proof. run_of s1_reachable. Qed.

Lemma s3_reachable : reachable s3.
Proof. run_of s2_reachable. Qed.

Lemma s4_reachable : reachable s4.
Proof. run_of s3_reachable. Qed.

Lemma s5_reachable : reachable s5.
Proof. run_of s4_reachable. Qed.

Lemma s6_reachable : reachable s6.
Proof. run_of s4_reachable. Qed.

Lemma s7_reachable : reachable s7.
Proof. run_of s6_reachable. Qed.

(** ** The theorems at these states *)

Definition obj (s : system) : obj_lock := default (new_obj_lock id) (s.(sys_table).(objs_) !! a0).
Definition tx_of (tx : ObTransID) (s : system) : tx_state := default (TxState new_mem_ctx Running None) (s.(sys_txs) !! tx).
Definition share_done : LockOp.t := LockOp.set_status LOCK_OP_COMPLETE 50 50 share.

Lemma share_locked : locked s4 share_done.
Proof. apply (locked_recorded _ _ a0 (obj s4)); vm_compute; [reflexivity | by left]. Qed.

Lemma row_locked : locked s4 row.
Proof. apply (locked_held _ _ 2 (tx_of 2 s4)); vm_compute; [reflexivity | by left]. Qed.

Lemma table_lock_exclusion_witness : compatible (op_mode share_done) (op_mode row) = true /\ op_id share_done = op_id row.
Proof.
  split; [|done]. apply (table_lock_exclusion s4 share_done row).
  - exact s4_reachable.
  - exact share_locked.
  - exact row_locked.
  - by right.
  - by left; left.
  - done.
  - done.
Defined.

Lemma s7_empty tx x : s7.(sys_txs) !! tx = Some x -> held x = [].
Proof.
  assert (forallb (fun p => match held p.2 with [] => true | _ => false end) (map_to_list s7.(sys_txs)) = true) as Hh
    by (vm_compute; reflexivity).
  intros Hx. apply elem_of_map_to_list, list_elem_of_In in Hx. eapply forallb_forall in Hh; [|exact Hx]. clear Hx. cbn in Hh.
  by destruct (held x).
Qed.

Lemma no_lock_leaks_witness : row_share_ (obj s7) = 0 /\ all_ops (obj s7) = [share_done] /\ completed share_done.
Proof.
  destruct (no_lock_leaks s7 id a0 (obj s7)) as (H1 & _ & H3).
  - exact s7_reachable.
  - vm_compute. reflexivity.
  - vm_compute. reflexivity.
  - intros tx x o Hx Ho _.
    rewrite (s7_empty tx x Hx) in Ho. exact (not_elem_of_nil o Ho).
  - split; [exact H1|]. split; [vm_compute; reflexivity|]. apply (H3 share_done). clear. vm_compute. left.
Defined.

Lemma trans_end_releases_witness : exists v,
  trans_end false 0 0 (TxView (tx_ctx (tx_of 2 s6)) (sys_table s6)) = Some (OB_SUCCESS, v) /\ lock_list_ (ctx v) = [] /\
  length (lock_list_ (tx_ctx (tx_of 2 s6))) = 1%nat.
Proof.
  destruct (trans_end_releases s6 2 (tx_ctx (tx_of 2 s6)) false 0 0) as (v & H1 & H2 & _).
  - exact s6_reachable.
  - by vm_compute.
  - done.
  - exists v. split; [exact H1|]. split; [exact H2 | by vm_compute].
Defined.

Lemma few_s5 : few (obj s5).
Proof. by split_and!; vm_compute. Qed.

Lemma in_trans_lock_outcome_witness : exists ret set t,
  at_obj a0 (lock (Memory true true) (LockParam true false 0) other_row [0; 0; 0; 0; 0] []) (sys_table s5) = Some ((ret, set), t) /\
  answer s5 3 other_row (obj s5) ret /\ ret = OB_TRY_LOCK_ROW_CONFLICT.
Proof.
  destruct (in_trans_lock_outcome s5 3 (tx_ctx (tx_of 3 s5)) other_row [0; 0; 0; 0; 0] a0 (obj s5) (Memory true true) (LockParam true false 0))
    as (ret & set & t & H1 & H2).
  - exact s5_reachable.
  - by vm_compute.
  - by left.
  - vm_compute. intros d Hd. by apply not_elem_of_nil in Hd.
  - by vm_compute.
  - by vm_compute.
  - exact few_s5.
  - exists ret, set, t. split; [exact H1|]. split; [exact H2|]. vm_compute in H1. injection H1 as <- _ _. reflexivity.
Defined.

Lemma lock_calls_do_not_fault_witness :
  is_Some (at_obj a0 (lock (Memory false false) (LockParam false true 0) other_row [0; 0; 0; 0; 0] []) (sys_table s5)).
Proof.
  destruct (lock_calls_do_not_fault s5) as [H _]; [exact s5_reachable|].
  destruct (H a0 (obj s5)) as (_ & _ & _ & Hl & _); [by vm_compute|]. apply (Hl 3 (tx_ctx (tx_of 3 s5))).
  - exact few_s5.
  - by vm_compute.
  - by vm_compute.
Defined.

Lemma s1_calm : calm s1.
Proof.
  assert (forallb (fun p => bool_decide (few p.2)) (map_to_list s1.(sys_table).(objs_)) = true) as Hf by (vm_compute; reflexivity).
  intros a o Ha. apply elem_of_map_to_list, list_elem_of_In in Ha. eapply forallb_forall in Hf; [|exact Ha]. by apply bool_decide_eq_true in Hf.
Qed.

(** The view of a transaction. *)
Definition view (tx : ObTransID) (s : system) : tx_view := TxView (tx_ctx (tx_of tx s)) s.(sys_table).

Lemma share_request : request 1 share.
Proof. split_and!; [done | done | by vm_compute | cbn; in_modes]. Qed.

Lemma try_lock_holds_witness : exists wait v,
  memtable_lock true [env] (LockParam true false 100) share (view 1 s1) = Some ((OB_SUCCESS, wait), v) /\
  reachable (after 1 v s1) /\ (has_lock share v.(ctx) \/ (~ is_dbms share /\ has_completed share v.(table))).
Proof.
  destruct (try_lock_holds s1 1 (tx_ctx (tx_of 1 s1)) share env (LockParam true false 100)) as (ret & wait & v & E & H1 & H2).
  - exact s1_reachable.
  - exact s1_calm.
  - by vm_compute.
  - exact share_request.
  - by right.
  - unfold codes_ok. repeat (apply Forall_cons; split; [done|]). by apply Forall_nil.
  - by split.
  - done.
  - assert (ret = OB_SUCCESS) as Hret by (clear H1 H2; vm_compute in E; by injection E). subst ret.
    exists wait, v. split; [exact E|]. split; [exact H1 | by apply H2].
Defined.

(** Nothing is locked at the beginning. *)
Lemma s1_nothing d : ~ locked s1 d.
Proof.
  assert (forallb (fun p => match held p.2 with [] => true | _ => false end) (map_to_list s1.(sys_txs)) = true) as Hh by (vm_compute; reflexivity).
  assert (forallb (fun p => match all_ops p.2 with [] => true | _ => false end) (map_to_list s1.(sys_table).(objs_)) = true) as Ho
    by (vm_compute; reflexivity).
  intros [tx x Hx Hd|a o Ha Hd].
  - apply elem_of_map_to_list, list_elem_of_In in Hx. eapply forallb_forall in Hh; [|exact Hx]. clear Hx. cbn in Hh.
    destruct (held x); [by apply not_elem_of_nil in Hd | done].
  - apply elem_of_map_to_list, list_elem_of_In in Ha. eapply forallb_forall in Ho; [|exact Ha]. clear Ha. cbn in Ho.
    destruct (all_ops o); [by apply not_elem_of_nil in Hd | done].
Qed.

Lemma share_follows : follows s1 share.
Proof.
  exists []. split; [intros d; split; [by intros ?%not_elem_of_nil | by intros ?%s1_nothing]|]. left.
  split_and!; [by right | done | cbn; in_modes | by intros c ?%not_elem_of_nil].
Qed.


Definition row1 : LockOp.t := op ROW_SHARE 0 1 IN_TRANS_DML_LOCK.

Definition replayed : tx_view :=
  match replay_all env [(share, 60); (row1, 70)] (view 1 s1) with Some (_, v) => v | None => view 1 s1 end.

Lemma replay_again_witness : replay_all env [(row1, 70); (share, 60); (row1, 70)] replayed = Some (OB_SUCCESS, replayed) /\
  length (ctx_ops replayed.(ctx)) = 2%nat.
Proof.
  split; [|by vm_compute]. apply (replay_again env env [(share, 60); (row1, 70)] _ (view 1 s1)).
  - vm_compute. reflexivity.
  - intros l [->|[->|[->|?%not_elem_of_nil]%elem_of_cons]%elem_of_cons]%elem_of_cons; [right; by left | by left | right; by left | done].
Defined.

(** ** A restart

    The table is frozen and flushed after the first transaction has committed; a new
    table recovers the lock, and not the row of the second transaction. *)

Definition frozen : system :=
  System (from_option snd s4.(sys_table) (flush 100 true (OB_SUCCESS, 100) OB_SUCCESS s4.(sys_table))) s4.(sys_txs).

Lemma frozen_reachable : reachable frozen.
Proof.
  eapply reachable_step; [exact s4_reachable|]. eapply (step_flush _ 100 true (OB_SUCCESS, 100) OB_SUCCESS). vm_compute. reflexivity.
Qed.

(** All that a transaction holds or an object records. *)
Definition everything (s : system) : op_list :=
  mjoin (held <$> (map_to_list s.(sys_txs)).*2) ++ mjoin (all_ops <$> (map_to_list s.(sys_table).(objs_)).*2).

Lemma locked_everything s d : locked s d -> d ∈ everything s.
Proof.
  intros H. unfold everything. apply elem_of_app. destruct H as [tx x Hx Hd|a o Ha Hd]; [left | right]; apply list_elem_of_join.
  - exists (held x). split; [done|]. apply list_elem_of_fmap_2, (list_elem_of_fmap_2 snd _ (tx, x)). by apply elem_of_map_to_list.
  - exists (all_ops o). split; [done|]. apply list_elem_of_fmap_2, (list_elem_of_fmap_2 snd _ (a, o)). by apply elem_of_map_to_list.
Qed.

Lemma frozen_everything : everything frozen = [row; share_done].
Proof. vm_compute. reflexivity. Qed.

Definition past : gmap ObTransID tx_state := {[ 1 := TxState new_mem_ctx (Ending true 50 50) None ]}.
Definition restored_env : restore_env := RestoreEnv true OB_SUCCESS (Memory true true) true (fun _ => -5).

Lemma restart_restores_locks_witness : exists rows t,
  restore_lock_table_ restored_env OB_SUCCESS 50 OB_ITER_END (Some rows) s0.(sys_table) = Some (OB_SUCCESS, t) /\
  exists d, restamped share_done d /\ locked (System t past) d.
Proof.
  destruct (restart_restores_locks frozen (fun _ => OB_SUCCESS) [(OB_SUCCESS, []); (OB_SUCCESS, [obj frozen])] OB_SUCCESS OB_SUCCESS
    (ScanIter [share_done] 0 true) (fun _ => OB_SUCCESS) (fun n => replicate (Z.to_nat n) 0) restored_env 50 past s0.(sys_table))
    as (rows & _ & ret & t & Ht & Hret & Hin).
  - exact frozen_reachable.
  - unfold walks. vm_compute. reflexivity.
  - vm_compute. reflexivity.
  - intros d Hd%locked_everything. rewrite frozen_everything in Hd.
    apply elem_of_cons in Hd as [->|[->|Hd%not_elem_of_nil]%elem_of_cons]; [constructor; vm_compute; done | constructor; vm_compute; done | done].
  - done.
  - intros n Hn. rewrite length_replicate. lia.
  - vm_compute. reflexivity.
  - done.
  - done.
  - intros tx x H. unfold past in H. apply lookup_singleton_Some in H as [_ <-]. by exists 50, 50.
  - intros c Hc%locked_everything [[Hc' _] _]. rewrite frozen_everything in Hc.
    apply elem_of_cons in Hc as [->|[->|Hc%not_elem_of_nil]%elem_of_cons]; [done | by eexists | done].
  - assert (ret = OB_SUCCESS) as E by (by apply Hret). subst ret. exists rows, t. split; [exact Ht|].
    destruct (Hin eq_refl) as (_ & H & _). apply H; [|by vm_compute].
    apply (locked_recorded _ _ a0 (obj frozen)); vm_compute; [reflexivity | by left].
Defined.

(** ** A holder that is not reported *)

(** The first transaction holds the table in mode SHARE ROW EXCLUSIVE, the second asks. *)
Definition srx : LockOp.t := op SHARE_ROW_EXCLUSIVE 0 1 IN_TRANS_COMMON_LOCK.
Definition row2 : LockOp.t := op ROW_EXCLUSIVE 0 2 IN_TRANS_DML_LOCK.
Definition r1 : system := run [count 1 srx; acquire 1 a0; record 1] s1.
Definition r2 : system := run [count 2 row2] r1.

Lemma r2_reachable : reachable r2.
Proof. assert (reachable r1) as H by run_of s1_reachable. run_of H. Qed.

(** The set of the transactions in conflict can miss the one that conflicts.  A
    transaction holds an object in mode SHARE ROW EXCLUSIVE and another asks for ROW
    EXCLUSIVE: the object answers with a conflict and an empty set, because the mode of
    the holder has two bits and only one of them is in [conflict_modes]; [lock_] then has
    no transaction to wait for. *)
Theorem srx_holder_not_reported :
  exists s a c op counts d t, reachable s /\ s.(sys_txs) !! 2 = Some (TxState c Running (Some (Counted op counts))) /\
    locked s d /\ op_id d = op_id op /\ op_trans d = 1 /\ compatible (op_mode op) (op_mode d) = false /\
    at_obj a (lock (Memory true true) (LockParam false false 0) op counts []) s.(sys_table) = Some ((OB_TRY_LOCK_ROW_CONFLICT, []), t).
Proof.
  exists r2, a0, (tx_ctx (tx_of 2 r2)), row2, [0; 0; 0; 0; 0], srx. eexists. split; [exact r2_reachable|].
  split; [vm_compute; reflexivity|]. split; [apply (locked_held _ _ 1 (tx_of 1 r2)); vm_compute; [reflexivity | by left]|].
  split_and!; [done.. |]. vm_compute. reflexivity.
Qed.

(** ** A lock after an unlock *)

Definition excl : LockOp.t := op EXCLUSIVE 10 1 OUT_TRANS_LOCK.
Definition unlock_excl : LockOp.t := op EXCLUSIVE 10 2 OUT_TRANS_UNLOCK.
Definition again : LockOp.t := op ROW_SHARE 0 2 IN_TRANS_DML_LOCK.
Definition u1 : system := run [count 1 excl; acquire 1 a0; record 1; finish 1 true 50; first_turn 1] s1.
Definition u2 : system := run [unlock_at 2 unlock_excl a0; record 2; count 2 again] u1.

Lemma u2_reachable : reachable u2.
Proof. assert (reachable u1) as H by run_of s1_reachable. run_of H. Qed.

(** A transaction that has unlocked a table which is locked in mode EXCLUSIVE and then
    asks for a lock of it gets [OB_ERR_UNEXPECTED]: its unlock is counted as a lock that
    it holds, which contradicts the lock it is about to release.  The hypothesis of the
    theorem on the outcome of requests is needed. *)
Theorem lock_after_unlock_unexpected :
  exists s a c op counts t set, reachable s /\ s.(sys_txs) !! 2 = Some (TxState c Running (Some (Counted op counts))) /\
    is_in_trans op /\ at_obj a (lock (Memory true true) (LockParam false false 0) op counts []) s.(sys_table) = Some ((OB_ERR_UNEXPECTED, set), t).
Proof.
  exists u2, a0, (tx_ctx (tx_of 2 u2)), again, [1; 0; 0; 0; 0]. do 2 eexists. split; [exact u2_reachable|].
  split; [vm_compute; reflexivity|]. split; [by left|]. vm_compute. reflexivity.
Qed.
